(** * Synthetic data with SMOTE: the notebook's generation, repair,
      novelty filter and rebalancing cells

    Shallow embedding of [30_synthetic_data _SMOTE.ipynb].

    Conventions of the model.
    - A float64 value is an exact rational ([Q]); equality of values is
      [Qeq] (written [==]), as [-0.0 == 0.0] holds in numpy.  NaN and the
      infinities are outside the model.
    - Exceptions are values of [exn]; a computation that may raise returns
      a [result].
    - numpy arrays and pandas Series are objects in a [store]; a Series
      names the buffer that holds its values, so that two Series naming
      one buffer alias each other.
    - numpy's global generator is a [RandomState]: the 32-bit words of a
      period of the Mersenne Twister and the place reached in them.  Every
      random step reads words from that place on and moves the place;
      bounded integers are drawn by masked rejection, floats from two
      words.
    - Of scikit-learn and imbalanced-learn the model has the input checks
      that decide whether a call returns (a frame without rows or without
      columns, column names other than the fitted ones, labels that are
      not class labels, features and labels of unequal lengths, a class
      with too few rows for the neighbour search) and the scaler's test
      for constant features.
    - Sorting is stable: records of equal keys keep their order.
    - The square root of the scaler and of the distances is a parameter
      ([Sqrt]); the runs on sample data take a rational stand-in for it.
    - [Qred] in the numeric kernels only keeps fractions in lowest terms;
      it changes no value up to [==].

    Beside the cells named above the model has the division of the data
    into features and labels, [train_test_split], [standardise_data], the
    accuracy of a vector of predictions and the selection of the feature
    columns in the last cell.  Reading the CSV file, fitting the logistic
    regression, the ROC curve and the plots are outside the model. *)

From Stdlib Require Import QArith Qround Qabs Lqa Sorted.
From stdpp Require Import base list strings.

Local Open Scope Q_scope.

(** ** Exceptions and results *)

Inductive exn : Set :=
| ValueError
| KeyError
| IndexError.

Inductive result (A : Type) : Type :=
| Ok (a : A)
| Raise (e : exn).

Arguments Ok {A} a.
Arguments Raise {A} e.

#[global] Instance result_ret : MRet result := fun _ a => Ok a.

#[global] Instance result_bind : MBind result := fun _ _ k r =>
  match r with
  | Ok a => k a
  | Raise e => Raise e
  end.

(** ** The object store *)

Abbreviation loc := nat.

(** One buffer per array object; a fresh object is appended. *)
Abbreviation store := (list (list Q)).

(** Computations that read and write the store and may raise. *)
Definition M (A : Type) : Type := store → result (A * store).

#[global] Instance M_ret : MRet M := fun _ a σ => Ok (a, σ).

#[global] Instance M_bind : MBind M := fun _ _ k m σ =>
  match m σ with
  | Ok (a, σ') => k a σ'
  | Raise e => Raise e
  end.

Definition raise {A} (e : exn) : M A := fun _ => Raise e.

Definition lift {A} (r : result A) : M A :=
  fun σ => match r with Ok a => Ok (a, σ) | Raise e => Raise e end.

Fixpoint for_each {A} (f : A → M unit) (l : list A) : M unit :=
  match l with
  | [] => mret tt
  | a :: l' => f a ;; for_each f l'
  end.

Definition alloc (v : list Q) : M loc :=
  fun σ => Ok (length σ, σ ++ [v]).

Definition load (l : loc) : M (list Q) :=
  fun σ => match σ !! l with
           | Some v => Ok (v, σ)
           | None => Raise KeyError
           end.

Definition store_at (l : loc) (v : list Q) : M unit :=
  fun σ => Ok (tt, <[l := v]> σ).

(** ** numpy *)

Module np.

(** Scan of [np.argmax]: the running maximum is replaced only by a
    strictly greater value, so the first maximal position is kept. *)
Fixpoint argmax_from (best : Q) (besti i : nat) (l : list Q) : nat :=
  match l with
  | [] => besti
  | y :: l' =>
      if Qlt_le_dec best y
      then argmax_from y i (S i) l'
      else argmax_from best besti (S i) l'
  end.

(** [np.argmax] raises ValueError on an empty sequence. *)
Definition argmax (v : list Q) : result nat :=
  match v with
  | [] => Raise ValueError
  | y :: l' => Ok (argmax_from y 0%nat 1%nat l')
  end.

(** [rint]: nearest integer, a tie going to the even neighbour. This is
    what [round(0)] of numpy and pandas computes. *)
Definition rint (x : Q) : Z :=
  let f := Qfloor x in
  match Qcompare (x - inject_Z f) (1 # 2) with
  | Lt => f
  | Gt => (f + 1)%Z
  | Eq => if Z.even f then f else (f + 1)%Z
  end.

Definition round (x : Q) : Q := inject_Z (rint x).

(** [np.clip(x, lo, hi)] *)
Definition clip (x lo hi : Q) : Q :=
  if Qlt_le_dec x lo then lo
  else if Qlt_le_dec hi x then hi else x.

End np.

(** ** pandas Series as views on buffers *)

Record Series : Type := mkSeries {
  s_index : list string;   (* the labels, in order *)
  s_data : loc             (* the buffer holding the values *)
}.

(** Position of a label in an index (the index is unique here). *)
Fixpoint get_loc (idx : list string) (c : string) : result nat :=
  match idx with
  | [] => Raise KeyError
  | c' :: idx' =>
      if String.eqb c' c then Ok 0%nat
      else i ← get_loc idx' c; Ok (S i)
  end.

Fixpoint get_locs (idx : list string) (cs : list string) : result (list nat) :=
  match cs with
  | [] => Ok []
  | c :: cs' =>
      i ← get_loc idx c;
      js ← get_locs idx cs';
      Ok (i :: js)
  end.

(** [s.values] *)
Definition values (s : Series) : M (list Q) := load (s_data s).

(** Values at the given positions. *)
Definition gather (ps : list nat) (v : list Q) : list Q :=
  omap (fun p => v !! p) ps.

(** Write [ws] at positions [ps], pairwise. *)
Fixpoint scatter (ps : list nat) (ws : list Q) (v : list Q) : list Q :=
  match ps, ws with
  | p :: ps', w :: ws' => scatter ps' ws' (<[p := w]> v)
  | _, _ => v
  end.

(** [s[labels]] with a list of labels: a new Series owning a new buffer. *)
Definition getitem_list (s : Series) (labels : list string) : M Series :=
  ps ← lift (get_locs (s_index s) labels);
  v ← values s;
  l ← alloc (gather ps v);
  mret (mkSeries labels l).

(** [s[labels] = ws]: writes into the buffer [s] names. *)
Definition setitem_list (s : Series) (labels : list string) (ws : list Q)
  : M unit :=
  ps ← lift (get_locs (s_index s) labels);
  if negb (length ws =? length ps)%nat then raise ValueError
  else
    v ← values s;
    store_at (s_data s) (scatter ps ws v).

(** [x *= q] on the object [x] names: the buffer is overwritten, no new
    object is made. *)
Definition imul (x : Series) (q : Q) : M unit :=
  v ← values x;
  store_at (s_data x) (map (fun e => e * q) v).

(** [x[i] = q] by position. *)
Definition setitem_pos (x : Series) (i : nat) (q : Q) : M unit :=
  v ← values x;
  if (i <? length v)%nat then store_at (s_data x) (<[i := q]> v)
  else raise IndexError.

(** ** [make_one_hot] *)

Definition make_one_hot (x : Series) : M Series :=
  v ← values x;
  highest ← lift (np.argmax v);
  imul x 0;;
  setitem_pos x highest 1;;
  mret x.

(** What the buffer of [x] holds after [make_one_hot x], when it held [v]
    and [highest] is the position [np.argmax] found. *)
Definition one_hot_at (highest : nat) (v : list Q) : list Q :=
  <[highest := 1]> (map (fun e => e * 0) v).

(** [i] is the first position of [v] holding its maximum. *)
Definition first_max (v : list Q) (i : nat) : Prop :=
  ∃ m, v !! i = Some m
     ∧ (∀ j y, v !! j = Some y → y <= m)
     ∧ (∀ j y, (j < i)%nat → v !! j = Some y → y < m).

(** ** pandas DataFrames *)

(** A row: its index label and one cell per column. *)
Record Row : Type := mkRow {
  r_label : nat;
  r_cells : list Q
}.

(** A frame as a value: the column labels and the rows, in order. *)
Record DataFrame : Type := mkDataFrame {
  columns : list string;
  rows : list Row
}.

(** A frame as an object: the rows of its single float block are buffers of
    the store. *)
Record Block : Type := mkBlock {
  b_columns : list string;
  b_index : list nat;
  b_rows : list loc
}.

(** Building a frame object copies the cells into new buffers. *)
Fixpoint alloc_rows (rs : list Row) : M (list loc) :=
  match rs with
  | [] => mret []
  | r :: rs' =>
      l ← alloc (r_cells r);
      ls ← alloc_rows rs';
      mret (l :: ls)
  end.

Definition new_block (cols : list string) (rs : list Row) : M Block :=
  ls ← alloc_rows rs;
  mret (mkBlock cols (map r_label rs) ls).

(** [df.iterrows()] on a frame with one float block: each row comes as a
    Series over the block's own memory, labelled by the columns.  This is
    the pandas of the notebook's kernel (Python 3.7, so pandas 1.3 at
    most, without copy-on-write): for a frame of a single dtype the rows
    are views, and a write through one reaches the frame. *)
Definition iterrows (df : Block) : list (nat * Series) :=
  zip (b_index df) (map (mkSeries (b_columns df)) (b_rows df)).

Fixpoint load_rows (labels : list nat) (ls : list loc) : M (list Row) :=
  match labels, ls with
  | k :: labels', l :: ls' =>
      v ← load l;
      rs ← load_rows labels' ls';
      mret (mkRow k v :: rs)
  | _, _ => mret []
  end.

(** The frame object read back as a value. *)
Definition read_block (df : Block) : M DataFrame :=
  rs ← load_rows (b_index df) (b_rows df);
  mret (mkDataFrame (b_columns df) rs).

(** [df[c]]: the cells of column [c]. *)
Definition cell_at (p : nat) (r : Row) : result Q :=
  match r_cells r !! p with
  | Some q => Ok q
  | None => Raise IndexError
  end.

Fixpoint collect {A B} (f : A → result B) (l : list A) : result (list B) :=
  match l with
  | [] => Ok []
  | a :: l' =>
      b ← f a;
      bs ← collect f l';
      Ok (b :: bs)
  end.

Definition column (df : DataFrame) (c : string) : result (list Q) :=
  p ← get_loc (columns df) c;
  collect (cell_at p) (rows df).

Definition set_cell (p : nat) (r : Row) (q : Q) : Row :=
  mkRow (r_label r) (<[p := q]> (r_cells r)).

Definition add_cell (r : Row) (q : Q) : Row :=
  mkRow (r_label r) (r_cells r ++ [q]).

(** [df[c] = vs] with a list or array: by position; an existing column is
    overwritten, a new one goes last. *)
Definition set_column (df : DataFrame) (c : string) (vs : list Q)
  : result DataFrame :=
  if negb (length vs =? length (rows df))%nat then Raise ValueError
  else
    match get_loc (columns df) c with
    | Ok p => Ok (mkDataFrame (columns df) (zip_with (set_cell p) (rows df) vs))
    | Raise _ =>
        Ok (mkDataFrame (columns df ++ [c]) (zip_with add_cell (rows df) vs))
    end.

(** [df.take(locs)] *)
Definition df_take (df : DataFrame) (locs : list nat) : DataFrame :=
  mkDataFrame (columns df) (omap (fun i => rows df !! i) locs).

(** [df[mask]] with a boolean mask over the rows. *)
Fixpoint mask_rows (rs : list Row) (mask : list bool) : list Row :=
  match rs, mask with
  | r :: rs', b :: mask' =>
      if b then r :: mask_rows rs' mask' else mask_rows rs' mask'
  | _, _ => []
  end.

Definition getitem_mask (df : DataFrame) (mask : list bool) : DataFrame :=
  mkDataFrame (columns df) (mask_rows (rows df) mask).

(** [df.head(n)] *)
Definition df_head (df : DataFrame) (n : nat) : DataFrame :=
  mkDataFrame (columns df) (firstn n (rows df)).

(** [pd.concat([a, b], axis=0)] of two frames with the same columns. *)
Definition concat_rows (a b : DataFrame) : DataFrame :=
  mkDataFrame (columns a) (rows a ++ rows b).

(** ** The feature lists *)

Definition categorical : list string :=
  ["gender_"; "work_type_"; "smoking_status_"].

(** [x[0:len(col)] == col] *)
Definition has_prefix (col x : string) : bool :=
  String.eqb (String.substring 0 (String.length col) x) col.

Definition one_hot_cols (X_col_names : list string) : list (list string) :=
  map (fun col => filter (fun x => has_prefix col x = true) X_col_names)
      categorical.

Definition integer_cols : list string := ["age"].

Definition binary_cols : list string :=
  ["hypertension"; "heart_disease"; "ever_married"; "residence_type_rural"].

Definition y_label : string := "stroke".

(** ** The one-hot loop of the processing cell *)

(** Body of the inner loop, for the row Series [row] that [iterrows]
    yielded. *)
Definition repair_row (one_hot_list : list string) (row : Series) : M unit :=
  x ← getitem_list row one_hot_list;
  x_one_hot ← make_one_hot x;
  ws ← values x_one_hot;
  setitem_list row (s_index x_one_hot) ws.

Definition one_hot_loop (groups : list (list string)) (synth_df : Block)
  : M unit :=
  for_each
    (fun one_hot_list =>
       for_each (fun ir => repair_row one_hot_list ir.2) (iterrows synth_df))
    groups.

(** [pd.DataFrame(X, columns=cols)], copied by [pd.concat] into the new
    frame, then the one-hot loop run on it; the frame is read back when
    the loop is over. A label of [cols] absent from [X] would be filled
    with NaN, which is outside the model: KeyError here. *)
Definition reindex_row (ps : list nat) (r : Row) : Row :=
  mkRow (r_label r) (gather ps (r_cells r)).

Definition one_hot_stage (X_col_names : list string) (X_synthetic : DataFrame)
  : M DataFrame :=
  ps ← lift (get_locs (columns X_synthetic) X_col_names);
  synth_df ← new_block X_col_names (map (reindex_row ps) (rows X_synthetic));
  one_hot_loop (one_hot_cols X_col_names) synth_df;;
  read_block synth_df.

(** ** numpy's global generator *)

(** Every random step of the notebook reads [np.random], a Mersenne
    Twister that nothing in the notebook seeds.  It gives 32-bit words.
    The words come round with a period, and the word 0 is one of them:
    [rs_words] lists a period up to that 0, [rs_pos] counts the words
    already taken. *)
Record RandomState : Type := mkRandomState {
  rs_words : list Z;
  rs_pos : nat
}.

Definition rs_period (g : RandomState) : nat := S (length (rs_words g)).

(** The word the generator gives at its [n]-th step. *)
Definition rs_stream (g : RandomState) (n : nat) : Z :=
  (nth (n mod rs_period g) (rs_words g) 0 mod 2 ^ 32)%Z.

Definition next_uint32 (g : RandomState) : Z * RandomState :=
  (rs_stream g (rs_pos g), mkRandomState (rs_words g) (S (rs_pos g))).

(** "Smallest bit mask >= max" *)
Definition gen_mask (max : Z) : Z :=
  let mask := max in
  let mask := Z.lor mask (Z.shiftr mask 1) in
  let mask := Z.lor mask (Z.shiftr mask 2) in
  let mask := Z.lor mask (Z.shiftr mask 4) in
  let mask := Z.lor mask (Z.shiftr mask 8) in
  let mask := Z.lor mask (Z.shiftr mask 16) in
  Z.lor mask (Z.shiftr mask 32).

(** [while ((value = (next_uint32(state) & mask)) > max);]: words are
    taken until one, masked, is at most [max].  The word 0 passes whatever
    [max] is, so a period of words is enough: the [fuel] is never used
    up. *)
Fixpoint masked_rejection (fuel : nat) (mask max : Z) (g : RandomState)
  : Z * RandomState :=
  let '(w, g') := next_uint32 g in
  let value := Z.land w mask in
  match fuel with
  | O => (value, g')
  | S fuel' =>
      if (max <? value)%Z then masked_rejection fuel' mask max g'
      else (value, g')
  end.

(** [random_interval]: an integer of [0, max], bounds included; no word is
    taken for [max = 0].  (Above [2^32 - 1] numpy takes 64-bit words; a
    frame of that many rows is outside the model.) *)
Definition random_interval (g : RandomState) (max : nat)
  : nat * RandomState :=
  match max with
  | O => (O, g)
  | _ =>
      let '(value, g') :=
        masked_rejection (rs_period g) (gen_mask (Z.of_nat max))
          (Z.of_nat max) g in
      (Z.to_nat value, g')
  end.

(** [random_sample]: a float of [0, 1) from 53 bits of two words, 27 of
    the first and 26 of the second. *)
Definition random_sample (g : RandomState) : Q * RandomState :=
  let '(a, g1) := next_uint32 g in
  let '(b, g2) := next_uint32 g1 in
  (Qred (Qmake (Z.shiftr a 5 * 67108864 + Z.shiftr b 6) (2 ^ 53)), g2).

Definition swap {A} (x : list A) (i j : nat) : list A :=
  match x !! i, x !! j with
  | Some a, Some b => <[j := a]> (<[i := b]> x)
  | _, _ => x
  end.

(** [RandomState.shuffle]: for [i] from the last position down to 1, the
    element at [i] is exchanged with the one at a random [j <= i]. *)
Fixpoint shuffle_from {A} (i : nat) (x : list A) (g : RandomState)
  : list A * RandomState :=
  match i with
  | O => (x, g)
  | S i' =>
      let '(j, g') := random_interval g i in
      shuffle_from i' (swap x i j) g'
  end.

(** [RandomState.permutation(n)] *)
Definition permutation (n : nat) (g : RandomState)
  : list nat * RandomState :=
  shuffle_from (n - 1) (seq 0 n) g.

(** [RandomState.choice(n, size, replace=False)] *)
Definition choice (n size : nat) (g : RandomState)
  : result (list nat * RandomState) :=
  if (n <? size)%nat then Raise ValueError
  else let '(p, g') := permutation n g in Ok (firstn size p, g').

Fixpoint repeat_draw {A} (draw : RandomState → A * RandomState) (n : nat)
    (g : RandomState) : list A * RandomState :=
  match n with
  | O => ([], g)
  | S n' =>
      let '(a, g1) := draw g in
      let '(l, g2) := repeat_draw draw n' g1 in
      (a :: l, g2)
  end.

(** [RandomState.randint(0, high, size=n)], for [high > 0] *)
Definition randint (high n : nat) (g : RandomState)
  : list nat * RandomState :=
  repeat_draw (fun g => random_interval g (high - 1)) n g.

(** [RandomState.uniform(size=n)] *)
Definition uniform (n : nat) (g : RandomState) : list Q * RandomState :=
  repeat_draw random_sample n g.

(** [df.sample(n)]: [n] rows drawn without replacement. *)
Definition sample (df : DataFrame) (n : nat) (g : RandomState)
  : result (DataFrame * RandomState) :=
  '(locs, g') ← choice (length (rows df)) n g;
  Ok (df_take df locs, g').

(** [df.sample(frac=1.0)]: all the rows, shuffled. *)
Definition sample_frac1 (df : DataFrame) (g : RandomState)
  : result (DataFrame * RandomState) :=
  sample df (length (rows df)) g.

(** ** The processing cell *)

Fixpoint foldM {A B} (f : B → A → result B) (b : B) (l : list A) : result B :=
  match l with
  | [] => Ok b
  | a :: l' => b' ← f b a; foldM f b' l'
  end.

(** [synth_df[col] = synth_df[col].round(0)] *)
Definition round_column (synth_df : DataFrame) (col : string)
  : result DataFrame :=
  vs ← column synth_df col;
  set_column synth_df col (map np.round vs).

(** [synth_df[col] = np.clip(synth_df[col],0,1).round(0)] *)
Definition clip_round_column (synth_df : DataFrame) (col : string)
  : result DataFrame :=
  vs ← column synth_df col;
  set_column synth_df col (map (fun x => np.round (np.clip x 0 1)) vs).

(** The cell "Process raw synthetic data": the one-hot loop, the rounding
    of the integer and binary columns, the label column, the shuffle. *)
Definition process_raw_synthetic_data (X_col_names : list string)
    (X_synthetic : DataFrame) (y_synthetic : list Q) (g : RandomState)
  : result (DataFrame * RandomState) :=
  '(synth_df, _) ← one_hot_stage X_col_names X_synthetic [];
  synth_df ← foldM round_column synth_df integer_cols;
  synth_df ← foldM clip_round_column synth_df binary_cols;
  synth_df ← set_column synth_df y_label y_synthetic;
  sample_frac1 synth_df g.

(** ** Sorting by a key (insertion sort; equal keys keep their order) *)

Section Sort.
Context {A : Type} (key : A → Q) (before : Q → Q → bool).

(** [a] goes in front of the first element it must precede. *)
Fixpoint insert_sorted (a : A) (l : list A) : list A :=
  match l with
  | [] => [a]
  | b :: l' =>
      if before (key b) (key a) then b :: insert_sorted a l'
      else a :: b :: l'
  end.

Definition sort_by (l : list A) : list A :=
  foldr insert_sorted [] l.
End Sort.

Definition Qlt_bool (x y : Q) : bool := negb (Qle_bool y x).

(** [b], which came after [a], goes in front of it only when its key is
    smaller: ascending. *)
Definition ascending (kb ka : Q) : bool := Qlt_bool kb ka.
(** [b] goes in front of [a] only when its key is greater: descending. *)
Definition descending (kb ka : Q) : bool := Qlt_bool ka kb.

(** Sums and the other float kernels keep their results in lowest terms. *)
Definition Qsum (l : list Q) : Q := foldr (fun x acc => Qred (x + acc)) 0 l.

Definition nat_Q (n : nat) : Q := inject_Z (Z.of_nat n).

(** ** scikit-learn *)

(** Floating-point square root, left open. *)
Class Sqrt := np_sqrt : Q → Q.

Module sklearn.

Record StandardScaler : Type := mkStandardScaler {
  feature_names_in_ : list string;
  mean_ : list Q;
  var_ : list Q;
  scale_ : list Q
}.

Definition values_of (X : DataFrame) : list (list Q) :=
  map r_cells (rows X).

Definition feature (X : list (list Q)) (j : nat) : list Q :=
  omap (fun r => r !! j) X.

Definition mean (l : list Q) : Q := Qred (Qsum l / nat_Q (length l)).

Definition variance (l : list Q) : Q :=
  let m := mean l in mean (map (fun x => (x - m) * (x - m)) l).

(** [np.finfo(np.float64).eps] *)
Definition eps : Q := 1 # 4503599627370496.

(** [_is_constant_feature]: a variance within the rounding error of the
    sums that gave it counts as zero. *)
Definition is_constant_feature (var mean : Q) (n_samples : nat) : bool :=
  let upper_bound :=
    nat_Q n_samples * eps * var
    + (nat_Q n_samples * mean * eps) * (nat_Q n_samples * mean * eps) in
  Qle_bool var upper_bound.

(** [_handle_zeros_in_scale(scale, constant_mask)]: the scale of a feature
    taken for constant is replaced by one. *)
Definition handle_zeros_in_scale (scale : Q) (constant : bool) : Q :=
  if constant then 1 else scale.

Section WithSqrt.
Context `{Sqrt}.

(** [StandardScaler().fit(X)]; a frame without rows or without columns
    is refused. *)
Definition fit (X : DataFrame) : result StandardScaler :=
  match rows X, columns X with
  | [], _ | _, [] => Raise ValueError
  | _, _ =>
      let js := seq 0 (length (columns X)) in
      let n := length (rows X) in
      let m := map (fun j => mean (feature (values_of X) j)) js in
      let v := map (fun j => variance (feature (values_of X) j)) js in
      Ok (mkStandardScaler (columns X) m v
            (zip_with
               (fun x mj =>
                  handle_zeros_in_scale (np_sqrt x)
                    (is_constant_feature x mj n))
               v m))
  end.
End WithSqrt.

Definition transform_row (sc : StandardScaler) (r : list Q) : list Q :=
  zip_with (fun x ms => Qred ((x - ms.1) / ms.2)) r
    (zip (mean_ sc) (scale_ sc)).

(** [sc.transform(X)]: refused are a frame whose column names are not
    those [fit] has seen, in their order (scikit-learn from 1.2 on; before,
    a warning), a frame without rows, and a frame of another width. *)
Definition transform (sc : StandardScaler) (X : DataFrame)
  : result (list (list Q)) :=
  if negb (bool_decide (columns X = feature_names_in_ sc))
  then Raise ValueError
  else
    match rows X with
    | [] => Raise ValueError
    | _ =>
        if negb (length (columns X) =? length (mean_ sc))%nat
        then Raise ValueError
        else Ok (map (transform_row sc) (values_of X))
    end.

Definition sqdist (a b : list Q) : Q :=
  Qsum (zip_with (fun x y => (x - y) * (x - y)) a b).

(** Scan for the nearest fitted point: a strictly smaller squared
    distance replaces the current best. *)
Fixpoint nearest_from (q : list Q) (best : Q) (besti i : nat)
    (pts : list (list Q)) : Q * nat :=
  match pts with
  | [] => (best, besti)
  | p :: pts' =>
      if Qlt_le_dec (sqdist q p) best
      then nearest_from q (sqdist q p) i (S i) pts'
      else nearest_from q best besti (S i) pts'
  end.

Section WithSqrt.
Context `{Sqrt}.

(** [NearestNeighbors(n_neighbors=1).fit(fit_X).kneighbors(query)];
    neither array may be empty. *)
Definition kneighbors1 (fit_X query : list (list Q))
  : result (list (Q * nat)) :=
  match fit_X, query with
  | [], _ | _, [] => Raise ValueError
  | p :: pts, _ =>
      Ok (map (fun q =>
                 let '(d2, i) := nearest_from q (sqdist q p) 0 1 pts in
                 (np_sqrt d2, i)) query)
  end.
End WithSqrt.

(** [NearestNeighbors(n_neighbors=k).fit(pts).kneighbors(pts,
    return_distance=False)]: for each point, the positions of its [k]
    nearest fitted points, nearest first. *)
Definition kneighbors_idx (k : nat) (pts : list (list Q))
  : result (list (list nat)) :=
  if (length pts <? k)%nat then Raise ValueError
  else
    Ok (map (fun q =>
               firstn k
                 (map fst
                    (sort_by (fun ip => sqdist q ip.2) ascending
                       (imap (fun i p => (i, p)) pts))))
            pts).

End sklearn.

(** ** [standardise_data] *)

Definition standardise_data `{Sqrt} (X_train X_test : DataFrame)
  : result (list (list Q) * list (list Q)) :=
  sc ← sklearn.fit X_train;
  train_std ← sklearn.transform sc X_train;
  test_std ← sklearn.transform sc X_test;
  Ok (train_std, test_std).

(** ** imbalanced-learn's SMOTE *)

Module imblearn.

Definition k_neighbors : nat := 5.

Definition count_label (y : list Q) (c : Q) : nat :=
  length (filter (fun v => Qeq_bool v c = true) y).

Definition is_in (c : Q) (l : list Q) : bool :=
  existsb (Qeq_bool c) l.

(** The distinct labels of [y]. *)
Fixpoint distinct (y : list Q) : list Q :=
  match y with
  | [] => []
  | c :: y' => if is_in c y' then distinct y' else c :: distinct y'
  end.

(** The checks on a dict [sampling_strategy] of an over-sampler; the
    answer gives, per class in sorted order, how many samples to make. *)
Definition check_sampling_strategy (strategy : list (Q * nat))
    (y : list Q) : result (list (Q * nat)) :=
  if (length (distinct y) <=? 1)%nat then Raise ValueError
  else if negb (forallb (fun cn => is_in cn.1 y) strategy)
  then Raise ValueError
  else if negb (forallb (fun cn => count_label y cn.1 <=? cn.2)%nat strategy)
  then Raise ValueError
  else Ok (map (fun cn => (cn.1, (cn.2 - count_label y cn.1)%nat))
             (sort_by fst ascending strategy)).

Definition class_rows (X : list (list Q)) (y : list Q) (c : Q)
  : list (list Q) :=
  omap (fun xy => if Qeq_bool xy.2 c then Some xy.1 else None) (zip X y).

(** A new point on the segment from [p] to [q]. *)
Definition interpolate (p q : list Q) (step : Q) : list Q :=
  zip_with (fun a b => Qred (a + step * (b - a))) p q.

(** [_make_samples]: the base rows and the neighbour columns are drawn
    first, the steps after them. *)
Definition make_samples (X_class : list (list Q)) (nns : list (list nat))
    (n_samples : nat) (g : RandomState)
  : list (list Q) * RandomState :=
  let '(samples_indices, g1) :=
    randint (length X_class * k_neighbors) n_samples g in
  let '(steps, g2) := uniform n_samples g1 in
  (zip_with
     (fun idx step =>
        let row := (idx / k_neighbors)%nat in
        let col := (idx mod k_neighbors)%nat in
        let p := default [] (X_class !! row) in
        let nb := default 0%nat (default [] (nns !! row) !! col) in
        interpolate p (default [] (X_class !! nb)) step)
     samples_indices steps,
   g2).

Fixpoint over_sample (X : list (list Q)) (y : list Q)
    (todo : list (Q * nat)) (g : RandomState)
  : result (list (list Q) * list Q * RandomState) :=
  match todo with
  | [] => Ok ([], [], g)
  | (class_sample, n_samples) :: todo' =>
      match n_samples with
      | O => over_sample X y todo' g
      | _ =>
          let X_class := class_rows X y class_sample in
          nns ← sklearn.kneighbors_idx (k_neighbors + 1) X_class;
          let '(X_new, g1) :=
            make_samples X_class (map (drop 1) nns) n_samples g in
          '(X_more, y_more, g2) ← over_sample X y todo' g1;
          Ok (X_new ++ X_more,
              replicate n_samples class_sample ++ y_more, g2)
      end
  end.

(** [check_classification_targets]: a label that is no whole number
    makes the target continuous, which is refused. *)
Definition is_whole (v : Q) : bool := Qeq_bool v (inject_Z (Qfloor v)).

Definition check_classification_targets (y : list Q) : result unit :=
  if forallb is_whole y then Ok tt else Raise ValueError.

(** [check_X_y]: at least one row and one column, and a label for every
    row. *)
Definition check_X_y (X : list (list Q)) (y : list Q) : result unit :=
  match X with
  | [] => Raise ValueError
  | r :: _ =>
      if (length r =? 0)%nat then Raise ValueError
      else if negb (length X =? length y)%nat then Raise ValueError
      else Ok tt
  end.

(** [SMOTE(sampling_strategy=strategy).fit_resample(X, y)]: the input
    rows come first, the new ones after them. *)
Definition fit_resample (strategy : list (Q * nat)) (X : list (list Q))
    (y : list Q) (g : RandomState)
  : result (list (list Q) * list Q * RandomState) :=
  check_classification_targets y;;
  check_X_y X y;;
  todo ← check_sampling_strategy strategy y;
  '(X_new, y_new, g') ← over_sample X y todo g;
  Ok (X ++ X_new, y ++ y_new, g').

End imblearn.

(** ** [make_synthetic_data_smote] *)

Definition np_sum_eq (y : list Q) (c : Q) : nat := imblearn.count_label y c.

Definition list_item (l : list nat) (i : nat) : result nat :=
  match l !! i with
  | Some n => Ok n
  | None => Raise IndexError
  end.

Definition make_synthetic_data_smote (X : DataFrame) (y : list Q)
    (number_of_samples : list nat) (g : RandomState)
  : result (DataFrame * list Q * RandomState) :=
  let count_label_0 := np_sum_eq y 0 in
  let count_label_1 := np_sum_eq y 1 in
  s0 ← list_item number_of_samples 0;
  let n_class_0 := (s0 + count_label_0)%nat in
  s1 ← list_item number_of_samples 1;
  let n_class_1 := (s1 + count_label_1)%nat in
  '(X_resampled, y_resampled, g') ←
    imblearn.fit_resample [(0, n_class_0); (1, n_class_1)]
      (sklearn.values_of X) y g;
  (* the resampled frame is labelled 0, 1, ...; [len(X):] keeps the rest *)
  let X_synthetic :=
    mkDataFrame (columns X)
      (drop (length (rows X))
         (imap (fun i r => mkRow i r) X_resampled)) in
  let y_synthetic := drop (length y) y_resampled in
  Ok (X_synthetic, y_synthetic, g').

(** ** The cell "Generate raw synthetic data" *)

(** Counts of [np.unique(y, return_counts=True)]: one per distinct label,
    labels ascending. *)
Definition unique_counts (y : list Q) : list nat :=
  map (np_sum_eq y) (sort_by id ascending (imblearn.distinct y)).

Definition required_smote_count (y_train : list Q) : list nat :=
  map (fun n => (n * 2)%nat) (unique_counts y_train).

(** ** The cell "Find nearest original data point" *)

Definition distance_col : string := "distance_to_closest_real".
Definition closest_col : string := "closest_X_real_row_index".

(** [X_test_std] is the one left by the cell that standardised the real
    data; the distances are those of the rows of [X_synthetic], in the
    order [X_synthetic] has them, written into [synth_df] by position. *)
Definition find_nearest_real `{Sqrt} (X_train X_test X_synthetic : DataFrame)
    (synth_df : DataFrame) : result DataFrame :=
  '(_, X_test_std) ← standardise_data X_train X_test;
  '(X_train_std, X_synth_std) ← standardise_data X_train X_synthetic;
  let X_real_std := X_train_std ++ X_test_std in
  dists_idxs ← sklearn.kneighbors1 X_real_std X_synth_std;
  synth_df ← set_column synth_df distance_col (map fst dists_idxs);
  set_column synth_df closest_col (map (fun di => nat_Q di.2) dists_idxs).

(** ** The cell "Remove identical points" *)

Definition identity_threshold : Q := 1 # 1000.

Definition remove_identical (synth_df : DataFrame) : result DataFrame :=
  d ← column synth_df distance_col;
  let identical :=
    map (fun x => if Qlt_le_dec x identity_threshold then true else false) d in
  let mask := map (fun b => Bool.eqb b false) identical in
  Ok (getitem_mask synth_df mask).

(** ** The cell "Remove points closest to original data" *)

Definition proportion_to_remove : Q := 1 # 10.

Definition distance_key (p : nat) (r : Row) : Q :=
  default 0 (r_cells r !! p).

(** [df.sort_values(col, ascending=False)] *)
Definition sort_values_desc (df : DataFrame) (col : string)
  : result DataFrame :=
  p ← get_loc (columns df) col;
  Ok (mkDataFrame (columns df) (sort_by (distance_key p) descending (rows df))).

Definition number_to_keep (n : nat) : nat :=
  Z.to_nat (Qfloor (nat_Q n * (1 - proportion_to_remove))).

Definition remove_closest (synth_df : DataFrame) (g : RandomState)
  : result (DataFrame * RandomState) :=
  synth_by_distance ← sort_values_desc synth_df distance_col;
  let synth_by_distance :=
    df_head synth_by_distance (number_to_keep (length (rows synth_by_distance))) in
  sample_frac1 synth_by_distance g.

(** ** The cell "Show five examples" *)

(** Of this display cell only the five draws [synth_df.sample(1)] matter
    to what follows: each advances the generator, and fails on an empty
    frame. *)
Fixpoint show_examples (n : nat) (synth_df : DataFrame) (g : RandomState)
  : result RandomState :=
  match n with
  | O => Ok g
  | S n' =>
      '(_, g') ← sample synth_df 1 g;
      show_examples n' synth_df g'
  end.

(** ** The cell "Sample from synthetic data to get same size / balance" *)

Definition label_mask (synth_df : DataFrame) (c : Q) : result (list bool) :=
  ys ← column synth_df y_label;
  Ok (map (fun v => Qeq_bool v c) ys).

Definition rebalance (synth_df : DataFrame)
    (number_positive_stroke number_negative_stroke : nat) (g : RandomState)
  : result (DataFrame * RandomState) :=
  mask ← label_mask synth_df 1;
  '(synth_positive_stroke, g1) ←
    sample (getitem_mask synth_df mask) number_positive_stroke g;
  mask ← label_mask synth_df 0;
  '(synth_negative_stroke, g2) ←
    sample (getitem_mask synth_df mask) number_negative_stroke g1;
  let synth_df := concat_rows synth_positive_stroke synth_negative_stroke in
  sample_frac1 synth_df g2.

(** ** The notebook, from generation to the rebalanced frame *)

(** [data] is the union of the training and the test set, so the class
    counts of [data['stroke']] are those of [y_train ++ y_test]. *)
Definition notebook `{Sqrt} (X_train : DataFrame) (y_train : list Q)
    (X_test : DataFrame) (y_test : list Q) (g : RandomState)
  : result (DataFrame * RandomState) :=
  let number_positive_stroke := np_sum_eq (y_train ++ y_test) 1 in
  let number_negative_stroke := np_sum_eq (y_train ++ y_test) 0 in
  '(X_synthetic, y_synthetic, g) ←
    make_synthetic_data_smote X_train y_train (required_smote_count y_train) g;
  let X_col_names := columns X_train in
  '(synth_df, g) ←
    process_raw_synthetic_data X_col_names X_synthetic y_synthetic g;
  synth_df ← find_nearest_real X_train X_test X_synthetic synth_df;
  synth_df ← remove_identical synth_df;
  '(synth_df, g) ← remove_closest synth_df g;
  g ← show_examples 5 synth_df g;
  rebalance synth_df number_positive_stroke number_negative_stroke g.

(** ** The cells that read and divide the data *)

(** [df.drop(c, axis=1)]: the frame without the column labelled [c];
    KeyError when no column has the label. *)
Definition drop_column (df : DataFrame) (c : string) : result DataFrame :=
  p ← get_loc (columns df) c;
  Ok (mkDataFrame (delete p (columns df))
        (map (fun r => mkRow (r_label r) (delete p (r_cells r))) (rows df))).

(** "Record number in each class": [np.sum(data['stroke'] == c)] *)
Definition number_in_class (data : DataFrame) (c : Q) : result nat :=
  ys ← column data y_label;
  Ok (np_sum_eq ys c).

(** "Divide into X (features) and y (labels)" *)
Definition divide_into_X_y (data : DataFrame)
  : result (DataFrame * list Q) :=
  X ← drop_column data y_label;
  y ← column data y_label;
  Ok (X, y).

(** ** [train_test_split] *)

Definition test_size : Q := 1 # 4.

(** [ceil(test_size * n_samples)] *)
Definition n_test_of (n_samples : nat) : nat :=
  Z.to_nat (Qceiling (test_size * nat_Q n_samples)).

(** [a[ind]] for a Series or array [a] and positions [ind]. *)
Definition take_values (a : list Q) (ind : list nat) : list Q :=
  omap (fun i => a !! i) ind.

(** [train_test_split(X, y, test_size = 0.25)] with no [random_state]: the
    positions are permuted by numpy's global generator; the first [n_test]
    of the permutation make the test set, the next [n_train] the training
    set. An empty training set is refused. *)
Definition train_test_split (X : DataFrame) (y : list Q) (g : RandomState)
  : result (DataFrame * DataFrame * list Q * list Q * RandomState) :=
  if negb (length y =? length (rows X))%nat then Raise ValueError
  else
    let n_samples := length (rows X) in
    let n_test := n_test_of n_samples in
    let n_train := (n_samples - n_test)%nat in
    if (n_train =? 0)%nat then Raise ValueError
    else
      let '(perm, g') := permutation n_samples g in
      let ind_test := firstn n_test perm in
      let ind_train := firstn n_train (skipn n_test perm) in
      Ok (df_take X ind_train, df_take X ind_test,
          take_values y ind_train, take_values y ind_test, g').

(** ** The cell "Calculate accuracy" *)

(** [y_pred == y], element by element; the lengths must match. *)
Definition eq_elementwise (y_pred y : list Q) : result (list bool) :=
  if negb (length y_pred =? length y)%nat then Raise ValueError
  else Ok (zip_with Qeq_bool y_pred y).

(** [np.mean(y_pred == y)], [True] counting as 1 and [False] as 0. *)
Definition accuracy (y_pred y : list Q) : result Q :=
  hits ← eq_elementwise y_pred y;
  Ok (sklearn.mean (map (fun b : bool => if b then 1 else 0) hits)).

(** ** The features of the synthetic frame, for the model trained on it *)

(** [df[cs]] with a list of column labels. *)
Definition getitem_cols (df : DataFrame) (cs : list string)
  : result DataFrame :=
  ps ← get_locs (columns df) cs;
  Ok (mkDataFrame cs (map (reindex_row ps) (rows df))).

(** [X_synth], [y_synth] and the standardisation of the last cell; the
    logistic regression fitted on them is not part of the model. *)
Definition synthetic_training_set `{Sqrt} (X_col_names : list string)
    (synth_df X_test : DataFrame)
  : result (list (list Q) * list Q * list (list Q)) :=
  X_synth ← getitem_cols synth_df X_col_names;
  y_synth ← column synth_df y_label;
  '(X_synth_std, X_test_std) ← standardise_data X_synth X_test;
  Ok (X_synth_std, y_synth, X_test_std).

(** ** A square root to run the model with *)

(** The root of [a/b] taken as the integer root of [a * b] over [b]: exact
    on squares of rationals, rounded down elsewhere. *)
Definition floor_sqrt : Sqrt :=
  fun x => Qred (Qmake (Z.sqrt (Qnum x * Zpos (Qden x))) (Qden x)).

(** ** Reading the frames *)

(** The cell of row [r] under column [c] of frame [df]. *)
Definition cell (df : DataFrame) (r : Row) (c : string) : option Q :=
  match get_loc (columns df) c with
  | Ok p => r_cells r !! p
  | Raise _ => None
  end.

(** Every row has a cell for every column. *)
Definition well_shaped (df : DataFrame) : Prop :=
  Forall (fun r => length (r_cells r) = length (columns df)) (rows df).

(** Row by row, [df'] has the labels of [df] and the same cells under
    every column outside [cs]. *)
Definition keeps (cs : list string) (df df' : DataFrame) : Prop :=
  Forall2 (fun r r' => r_label r' = r_label r
                       ∧ ∀ c, c ∉ cs → cell df' r' c = cell df r c)
    (rows df) (rows df').

(** ** Reading the one-hot loop *)

(** What one pass of the loop body leaves in a row that held [v], for the
    group at positions [ps]. *)
Definition repair_cells (ps : list nat) (v : list Q) : list Q :=
  match np.argmax (gather ps v) with
  | Ok highest => scatter ps (one_hot_at highest (gather ps v)) v
  | Raise _ => v
  end.

(** A row after the passes for the groups at positions [pss], in order. *)
Definition repair_all (pss : list (list nat)) (v : list Q) : list Q :=
  foldl (fun v ps => repair_cells ps v) v pss.

(** ** Reading the other cells *)

(** [v] is a new point of class [c]: it lies on the segment from a row of
    the class to another row of the class, the end point excluded. *)
Definition synthesized (X : list (list Q)) (y : list Q) (c : Q)
    (v : list Q) : Prop :=
  ∃ p q step,
    p ∈ imblearn.class_rows X y c
    ∧ q ∈ imblearn.class_rows X y c
    ∧ 0 <= step ∧ step < 1
    ∧ v = imblearn.interpolate p q step.

(** [q] is one of the [k] points of [pts] nearest to [p]: some [k] points
    of [pts], [q] among them, are at most as far from [p] as every other
    point of [pts]. *)
Definition among_nearest (k : nat) (pts : list (list Q)) (p q : list Q)
  : Prop :=
  ∃ near far,
    near ++ far ≡ₚ pts
    ∧ length near = k
    ∧ q ∈ near
    ∧ ∀ a b, a ∈ near → b ∈ far → sklearn.sqdist p a <= sklearn.sqdist p b.

(** The row is kept by the identity removal: its stored distance is not
    below the threshold. *)
Definition far_enough (df : DataFrame) (r : Row) : bool :=
  match cell df r distance_col with
  | Some q => if Qlt_le_dec q identity_threshold then false else true
  | None => false
  end.


(** The label of the row is [c]. *)
Definition has_label (df : DataFrame) (c : Q) (r : Row) : bool :=
  match cell df r y_label with
  | Some v => Qeq_bool v c
  | None => false
  end.

(** The rows of class [c], in their order: the class's part of the pool. *)
Definition class_pool (df : DataFrame) (c : Q) : list Row :=
  filter (fun r => has_label df c r = true) (rows df).

(** ** The rounding rule the specification names *)


(** ** The seeded run the specification describes *)

(** Modelled after the specification's words, to be compared with
    [notebook]: a seed is one of the settings, and the run begins with
    [np.random.seed(seed)], which puts the generator at the place the seed
    names, whatever state it was in. *)
Definition np_random_seed (place : nat) (g : RandomState) : RandomState :=
  mkRandomState (rs_words g) place.

Definition seeded_notebook `{Sqrt} (place : nat) (X_train : DataFrame)
    (y_train : list Q) (X_test : DataFrame) (y_test : list Q)
    (g : RandomState) : result (DataFrame * RandomState) :=
  notebook X_train y_train X_test y_test (np_random_seed place g).

(** ** Runs of the same draws *)

(** [g'] is the generator [g] further along its words: it has been read,
    and nothing has put it elsewhere. *)
Definition further (g g' : RandomState) : Prop :=
  rs_words g' = rs_words g ∧ (rs_pos g ≤ rs_pos g')%nat.

(** Two generator states from which the same draws will come. *)
Definition same_draws (g1 g2 : RandomState) : Prop :=
  rs_pos g1 = rs_pos g2
  ∧ ∀ n, (rs_pos g1 ≤ n)%nat → rs_stream g1 n = rs_stream g2 n.

Definition same_pair {A} (x1 x2 : A * RandomState) : Prop :=
  x1.1 = x2.1 ∧ same_draws x1.2 x2.2.

(** Two runs with the same outcome: the same value and generators of the
    same draws, or the same exception. *)
Definition same_run {A} (r1 r2 : result (A * RandomState)) : Prop :=
  match r1, r2 with
  | Ok x1, Ok x2 => same_pair x1 x2
  | Raise e1, Raise e2 => e1 = e2
  | _, _ => False
  end.

Definition same_state {A} (f : A → RandomState) (r1 r2 : result A) : Prop :=
  match r1, r2 with
  | Ok x1, Ok x2 => same_draws (f x1) (f x2)
  | Raise e1, Raise e2 => e1 = e2
  | _, _ => False
  end.

(** ** A small stroke data set to run the notebook on *)

Module Demo.

Definition cols : list string :=
  ["age"; "hypertension"; "heart_disease"; "ever_married";
   "residence_type_rural"; "bmi";
   "gender_female"; "gender_male";
   "work_type_private"; "work_type_self";
   "smoking_status_never"; "smoking_status_smokes"].

Definition X_train : DataFrame := mkDataFrame cols
  [ mkRow 0 [40; 0; 0; 1; 0; 22; 1; 0; 1; 0; 1; 0];
    mkRow 1 [42; 0; 0; 1; 1; 24; 0; 1; 1; 0; 1; 0];
    mkRow 2 [44; 1; 0; 0; 0; 26; 1; 0; 0; 1; 0; 1];
    mkRow 3 [46; 0; 0; 1; 0; 23; 0; 1; 1; 0; 1; 0];
    mkRow 4 [48; 0; 1; 1; 1; 25; 1; 0; 0; 1; 1; 0];
    mkRow 5 [50; 0; 0; 0; 0; 27; 0; 1; 1; 0; 0; 1];
    mkRow 6 [70; 1; 1; 1; 0; 30; 1; 0; 1; 0; 0; 1];
    mkRow 7 [72; 1; 0; 1; 1; 32; 0; 1; 0; 1; 0; 1];
    mkRow 8 [74; 0; 1; 1; 0; 34; 1; 0; 1; 0; 1; 0];
    mkRow 9 [76; 1; 1; 0; 0; 31; 0; 1; 0; 1; 0; 1];
    mkRow 10 [78; 1; 0; 1; 1; 33; 1; 0; 1; 0; 0; 1];
    mkRow 11 [80; 1; 1; 1; 0; 35; 0; 1; 0; 1; 1; 0] ].

Definition y_train : list Q := [0; 0; 0; 0; 0; 0; 1; 1; 1; 1; 1; 1].

Definition X_test : DataFrame := mkDataFrame cols
  [ mkRow 12 [45; 0; 0; 1; 0; 24; 1; 0; 1; 0; 1; 0];
    mkRow 13 [75; 1; 1; 1; 0; 33; 0; 1; 0; 1; 0; 1] ].

Definition y_test : list Q := [0; 1].

(** The generator at the start of the period [l] (which the word 0
    ends). *)
Definition gen (l : list Z) : RandomState := mkRandomState l 0.

Definition draws : list Z :=
  [1447728463; 2166676305; 77335155; 4288856905; 3377458583; 139398044;
   1844223625; 3435942983; 3848832650; 2516376344; 3086374389; 269179166;
   2234088860; 951335933; 4227643079; 810552138; 1805194191; 2181547894;
   2374767008; 2818351866; 895075920; 3078244218; 1910331847; 222473462;
   3288186517; 3722356549; 1810884477; 1980454337; 919192746; 2194203638;
   3156801168; 2078374365; 3755301618; 2225162364; 2587177250; 3000485383;
   995882981; 2804456063; 450825375; 1904719031; 3515249916; 3875927333;
   2569119160; 1276574691; 1143313811; 1956579582; 200938633; 1637612626]%Z.

(** The same words, the period written out twice. *)
Definition gen' (l : list Z) : RandomState :=
  mkRandomState (l ++ 0%Z :: l) 0.


(** A training set with a single class. *)
Definition y_one_class : list Q := [0; 0; 0; 0; 0; 0; 0; 0; 0; 0; 0; 0].

(** A reference set whose second feature is constant. *)
Definition X_const : DataFrame :=
  mkDataFrame ["age"; "bmi"] [mkRow 0 [40; 22]; mkRow 1 [50; 22]].

(** A reference set whose second feature, 1e16 and 1e16 + 4, varies by
    less than the scaler's bound for a constant feature. *)
Definition X_near_constant : DataFrame :=
  mkDataFrame ["age"; "bmi"]
    [mkRow 0 [40; 10000000000000000]; mkRow 1 [50; 10000000000000004]].

(** Two raw interpolated rows; the second has a tie in the gender group
    and a half in [age]. *)
Definition X_raw : DataFrame := mkDataFrame cols
  [ mkRow 12 [81 # 2; 3 # 10; 0; 1; 6 # 10; 45 # 2;
              7 # 10; 3 # 10; 2 # 10; 8 # 10; 1; 0];
    mkRow 13 [145 # 2; 1; 4 # 10; 1; 0; 63 # 2;
              1 # 2; 1 # 2; 9 # 10; 1 # 10; 3 # 10; 7 # 10] ].

Definition y_raw : list Q := [0; 1].

(** Two synthetic rows: the first coincides with the first training row
    (interpolation between two equal neighbours, or with a step of 0,
    gives such a row), the second is far from every real row. *)
Definition X_leak : DataFrame := mkDataFrame cols
  [ mkRow 14 [40; 0; 0; 1; 0; 22; 1; 0; 1; 0; 1; 0];
    mkRow 15 [60; 1; 0; 1; 0; 28; 1; 0; 1; 0; 0; 1] ].


(** An annotated pool whose every row is within the identity threshold. *)
Definition all_identical : DataFrame :=
  mkDataFrame ["age"; "stroke"; "distance_to_closest_real";
               "closest_X_real_row_index"]
    [ mkRow 2 [40; 0; 0; 0];
      mkRow 3 [50; 1; 1 # 2000; 1] ].

(** A filtered pool with two rows of class 1 and one of class 0. *)
Definition pool : DataFrame :=
  mkDataFrame ["age"; "stroke"; "distance_to_closest_real";
               "closest_X_real_row_index"]
    [ mkRow 4 [71; 1; 1 # 2; 6];
      mkRow 2 [43; 0; 3 # 4; 1];
      mkRow 5 [77; 1; 1 # 4; 9] ].

(** A raw frame of a data set that records no work type. *)
Definition X_no_work : DataFrame :=
  mkDataFrame ["age"; "hypertension"; "gender_female"; "gender_male";
               "smoking_status_never"; "smoking_status_smokes"]
    [ mkRow 3 [81 # 2; 3 # 10; 7 # 10; 3 # 10; 1; 0] ].

(** Four real records, the label column between two features. *)
Definition data : DataFrame :=
  mkDataFrame ["age"; "stroke"; "bmi"]
    [ mkRow 0 [40; 0; 22];
      mkRow 1 [70; 1; 30];
      mkRow 2 [50; 0; 27];
      mkRow 3 [76; 1; 31] ].

(** A test set of one feature. *)
Definition X_age : DataFrame :=
  mkDataFrame ["age"] [mkRow 12 [45]; mkRow 13 [75]].

End Demo.

(** * Properties *)

(** ** The monad, unfolded *)

Ltac unfold_M :=
  unfold mbind, M_bind, mret, M_ret, lift, raise, values, load, store_at,
    alloc in *.

Arguments next_uint32 : simpl never.
Arguments random_interval : simpl never.
Arguments random_sample : simpl never.

(** ** [np.argmax] returns the first maximal position *)

Lemma argmax_from_first_max (l p : list Q) (best : Q) (besti : nat) :
  p !! besti = Some best →
  first_max p besti →
  first_max (p ++ l) (np.argmax_from best besti (length p) l).
Proof.
  revert p best besti.
  induction l as [|y l IH]; intros p best besti Hb Hfm; simpl.
  - by rewrite app_nil_r.
  - destruct Hfm as (m & Hm & Hall & Hbefore).
    assert (m = best) as -> by congruence.
    replace (p ++ y :: l) with ((p ++ [y]) ++ l) by by rewrite <- app_assoc.
    replace (S (length p)) with (length (p ++ [y]))
      by (rewrite length_app; simpl; lia).
    destruct (Qlt_le_dec best y) as [Hlt|Hle].
    + apply IH.
      * by rewrite lookup_app_r, Nat.sub_diag.
      * exists y. split; [by rewrite lookup_app_r, Nat.sub_diag|]. split.
        -- intros j z Hj. apply lookup_app_Some in Hj as [Hj|[_ Hj]].
           ++ apply Qlt_le_weak, Qle_lt_trans with best; eauto.
           ++ destruct (j - length p)%nat; simpl in Hj; [|done].
              injection Hj as <-. apply Qle_refl.
        -- intros j z Hlen Hj. rewrite lookup_app_l in Hj by done.
           apply Qle_lt_trans with best; eauto.
    + apply IH.
      * rewrite lookup_app_l; [done|]. by eapply lookup_lt_Some.
      * exists best. split.
        { rewrite lookup_app_l; [done|]. by eapply lookup_lt_Some. }
        split.
        -- intros j z Hj. apply lookup_app_Some in Hj as [Hj|[_ Hj]]; eauto.
           destruct (j - length p)%nat; simpl in Hj; [|done].
           by injection Hj as <-.
        -- intros j z Hlen Hj. apply (Hbefore j z Hlen).
           rewrite lookup_app_l in Hj; [done|].
           apply lookup_lt_Some in Hb. lia.
Qed.

Lemma argmax_first_max (v : list Q) :
  v ≠ [] → ∃ highest, np.argmax v = Ok highest ∧ first_max v highest.
Proof.
  destruct v as [|y l]; [done|]. intros _.
  exists (np.argmax_from y 0 1 l). split; [done|].
  apply (argmax_from_first_max l [y] y 0%nat); [done|].
  exists y. split; [done|]. split.
  - intros [|j] z Hj; simpl in Hj; [|done].
    injection Hj as <-. apply Qle_refl.
  - intros j z Hj. lia.
Qed.

Lemma first_max_lt_length (v : list Q) (i : nat) :
  first_max v i → (i < length v)%nat.
Proof. intros (m & Hm & _). by eapply lookup_lt_Some. Qed.

(** ** [make_one_hot] writes through its argument *)

Lemma make_one_hot_run (σ : store) (x : Series) (v : list Q) (highest : nat) :
  σ !! s_data x = Some v →
  np.argmax v = Ok highest →
  (highest < length v)%nat →
  make_one_hot x σ = Ok (x, <[s_data x := one_hot_at highest v]> σ).
Proof.
  intros Hx Harg Hlt. unfold make_one_hot, imul, setitem_pos. unfold_M.
  pose proof (lookup_lt_Some _ _ _ Hx) as Hl.
  apply Nat.ltb_lt in Hlt.
  repeat (rewrite ?Hx, ?Harg, ?list_lookup_insert_eq, ?length_map, ?Hlt
            by done; simpl).
  by rewrite list_insert_insert_eq.
Qed.

Lemma one_hot_at_lookup (highest : nat) (v : list Q) (j : nat) :
  (highest < length v)%nat → (j < length v)%nat →
  ∃ y, one_hot_at highest v !! j = Some y
     ∧ y == (if decide (j = highest) then 1 else 0).
Proof.
  intros Hh Hj. unfold one_hot_at.
  destruct (decide (j = highest)) as [->|Hne].
  - exists 1. split; [|reflexivity].
    apply list_lookup_insert_eq. by rewrite length_map.
  - destruct (lookup_lt_is_Some_2 v j Hj) as [e He].
    exists (e * 0). split; [|ring].
    rewrite list_lookup_insert_ne by done.
    by rewrite list_lookup_fmap, He.
Qed.

(** C10. [make_one_hot] mutates its argument in place: called on a Series
    [x] whose buffer holds the non-empty vector [v], it returns [x]
    itself, allocates no object, leaves every other object alone, and the
    buffer of [x] afterwards holds 1 at the first position where [v] had
    its maximum and 0 at every other position; the values of [v] are
    gone. *)
Theorem make_one_hot_in_place (σ : store) (x : Series) (v : list Q) :
  σ !! s_data x = Some v →
  v ≠ [] →
  ∃ highest σ',
    make_one_hot x σ = Ok (x, σ')
    ∧ first_max v highest
    ∧ length σ' = length σ
    ∧ (∀ l, l ≠ s_data x → σ' !! l = σ !! l)
    ∧ ∃ v', σ' !! s_data x = Some v'
          ∧ length v' = length v
          ∧ ∀ j, (j < length v)%nat →
              ∃ y, v' !! j = Some y
                 ∧ y == (if decide (j = highest) then 1 else 0).
Proof.
  intros Hx Hne.
  destruct (argmax_first_max v Hne) as (highest & Harg & Hfm).
  pose proof (first_max_lt_length _ _ Hfm) as Hlt.
  exists highest, (<[s_data x := one_hot_at highest v]> σ).
  split; [by apply make_one_hot_run|].
  split; [done|].
  split; [by rewrite length_insert|].
  split; [intros l Hl; by rewrite list_lookup_insert_ne|].
  exists (one_hot_at highest v).
  split; [apply list_lookup_insert_eq; by eapply lookup_lt_Some|].
  split; [unfold one_hot_at; by rewrite length_insert, length_map|].
  intros j Hj. by apply one_hot_at_lookup.
Qed.

(** The call on the vector [3; 7; 7; 1] held in the only buffer. *)
Lemma make_one_hot_in_place_witness :
  ∃ highest σ',
    make_one_hot (mkSeries ["a"; "b"; "c"; "d"] 0) [[3; 7; 7; 1]]
      = Ok (mkSeries ["a"; "b"; "c"; "d"] 0, σ')
    ∧ first_max [3; 7; 7; 1] highest
    ∧ length σ' = 1%nat
    ∧ (∀ l, l ≠ 0%nat → σ' !! l = [[3; 7; 7; 1]] !! l)
    ∧ ∃ v', σ' !! 0%nat = Some v'
          ∧ length v' = 4%nat
          ∧ ∀ j, (j < 4)%nat →
              ∃ y, v' !! j = Some y
                 ∧ y == (if decide (j = highest) then 1 else 0).
Proof.
  apply (make_one_hot_in_place [[3; 7; 7; 1]]
           (mkSeries ["a"; "b"; "c"; "d"] 0) [3; 7; 7; 1]).
  - reflexivity.
  - discriminate.
Defined.

(** ** Labels and positions *)

Lemma get_loc_lookup (idx : list string) (c : string) (p : nat) :
  get_loc idx c = Ok p → idx !! p = Some c.
Proof.
  revert p. induction idx as [|c' idx IH]; intros p; simpl; [done|].
  destruct (String.eqb_spec c' c) as [->|Hne].
  - by intros [= <-].
  - destruct (get_loc idx c) as [i|e]; simpl; [|done].
    intros [= <-]. by apply IH.
Qed.

Lemma get_loc_elem (idx : list string) (c : string) :
  c ∈ idx → ∃ p, get_loc idx c = Ok p.
Proof.
  induction idx as [|c' idx IH]; intros Hin; [by apply elem_of_nil in Hin|].
  simpl. destruct (String.eqb_spec c' c) as [->|Hne]; [by eexists|].
  apply elem_of_cons in Hin as [->|Hin]; [done|].
  destruct (IH Hin) as [p ->]. by eexists.
Qed.

Lemma get_loc_lookup_NoDup (idx : list string) (c : string) (p : nat) :
  NoDup idx → idx !! p = Some c → get_loc idx c = Ok p.
Proof.
  intros Hnd Hp.
  destruct (get_loc_elem idx c) as [p' Hp'];
    [by eapply list_elem_of_lookup_2|].
  rewrite Hp'. f_equal.
  apply get_loc_lookup in Hp'. by eapply NoDup_lookup.
Qed.

Lemma get_locs_Forall2 (idx cs : list string) (ps : list nat) :
  get_locs idx cs = Ok ps ↔ Forall2 (fun c p => get_loc idx c = Ok p) cs ps.
Proof.
  revert ps. induction cs as [|c cs IH]; intros ps; simpl.
  - split; [intros [= <-]; constructor | by inversion 1].
  - split.
    + destruct (get_loc idx c) as [p|e] eqn:Hp; simpl; [|done].
      destruct (get_locs idx cs) as [qs|e]; simpl; [|done].
      intros [= <-]. constructor; [done|]. by apply IH.
    + inversion 1 as [|? p ? qs Hp Hqs]; subst.
      rewrite Hp. simpl. apply IH in Hqs. by rewrite Hqs.
Qed.

Lemma get_locs_elem (idx cs : list string) :
  Forall (fun c => c ∈ idx) cs → ∃ ps, get_locs idx cs = Ok ps.
Proof.
  induction 1 as [|c cs Hc _ [ps IH]]; simpl; [by eexists|].
  destruct (get_loc_elem idx c Hc) as [p ->]. simpl. rewrite IH.
  by eexists.
Qed.

Lemma get_locs_length (idx cs : list string) (ps : list nat) :
  get_locs idx cs = Ok ps → length ps = length cs.
Proof.
  intros H. apply get_locs_Forall2 in H. symmetry. by eapply Forall2_length.
Qed.

Lemma get_locs_lt (idx cs : list string) (ps : list nat) :
  get_locs idx cs = Ok ps → Forall (fun p => (p < length idx)%nat) ps.
Proof.
  intros H. apply get_locs_Forall2 in H.
  induction H as [|c p cs ps Hp _ IH]; constructor; [|done].
  apply get_loc_lookup in Hp. by eapply lookup_lt_Some.
Qed.

Lemma get_locs_NoDup (idx cs : list string) (ps : list nat) :
  NoDup cs → get_locs idx cs = Ok ps → NoDup ps.
Proof.
  intros Hnd H. apply get_locs_Forall2 in H.
  induction H as [|c p cs ps Hp Hrest IH]; [constructor|].
  apply NoDup_cons in Hnd as [Hc Hnd]. constructor; [|by apply IH].
  intros Hin. apply Hc.
  apply list_elem_of_lookup in Hin as [k Hk].
  destruct (Forall2_lookup_r _ _ _ _ _ Hrest Hk) as (c' & Hc' & Hp').
  apply get_loc_lookup in Hp, Hp'.
  assert (c' = c) as -> by congruence.
  by eapply list_elem_of_lookup_2.
Qed.

Lemma get_locs_self (idx : list string) :
  NoDup idx → get_locs idx idx = Ok (seq 0 (length idx)).
Proof.
  intros Hnd. apply get_locs_Forall2.
  apply Forall2_same_length_lookup_2; [by rewrite length_seq|].
  intros i c p Hc Hp. apply lookup_seq in Hp as [-> _].
  by apply get_loc_lookup_NoDup.
Qed.

(** ** [gather] and [scatter] *)

Lemma omap_lookup_length {A} (l : list A) (ps : list nat) :
  Forall (fun p => (p < length l)%nat) ps →
  length (omap (fun p => l !! p) ps) = length ps.
Proof.
  induction 1 as [|p ps Hp _ IH]; simpl; [done|].
  destruct (lookup_lt_is_Some_2 l p Hp) as [a ->]. simpl. f_equal. exact IH.
Qed.

Lemma omap_lookup_lookup {A} (l : list A) (ps : list nat) (k p : nat) :
  Forall (fun p => (p < length l)%nat) ps →
  ps !! k = Some p → omap (fun p => l !! p) ps !! k = l !! p.
Proof.
  intros Hall. revert k.
  induction Hall as [|p' ps Hp _ IH]; intros k Hk; [done|].
  simpl. destruct (lookup_lt_is_Some_2 l p' Hp) as [a Ha]. rewrite Ha.
  destruct k as [|k]; simpl in *; [by injection Hk as <-|]. by apply IH.
Qed.

Lemma omap_lookup_seq {A} (l : list A) :
  omap (fun i => l !! i) (seq 0 (length l)) = l.
Proof.
  assert (Forall (fun p => (p < length l)%nat) (seq 0 (length l))) as Hall.
  { apply Forall_forall. intros p Hp. apply elem_of_seq in Hp. lia. }
  apply list_eq. intros k.
  destruct (decide (k < length l)%nat) as [Hk|Hk].
  - apply omap_lookup_lookup; [done|]. by apply lookup_seq_lt.
  - rewrite (lookup_ge_None_2 l) by lia. apply lookup_ge_None_2.
    rewrite omap_lookup_length, length_seq; [lia|done].
Qed.

Lemma gather_length (ps : list nat) (v : list Q) :
  Forall (fun p => (p < length v)%nat) ps → length (gather ps v) = length ps.
Proof. apply omap_lookup_length. Qed.

Lemma gather_lookup (ps : list nat) (v : list Q) (k p : nat) :
  Forall (fun p => (p < length v)%nat) ps →
  ps !! k = Some p → gather ps v !! k = v !! p.
Proof. apply omap_lookup_lookup. Qed.

Lemma gather_seq (v : list Q) : gather (seq 0 (length v)) v = v.
Proof. apply omap_lookup_seq. Qed.

Lemma scatter_length (ps : list nat) (ws v : list Q) :
  length (scatter ps ws v) = length v.
Proof.
  revert ws v. induction ps as [|p ps IH]; intros [|w ws] v; simpl; try done.
  by rewrite IH, length_insert.
Qed.

Lemma scatter_lookup_notin (ps : list nat) (ws v : list Q) (p : nat) :
  p ∉ ps → scatter ps ws v !! p = v !! p.
Proof.
  revert ws v. induction ps as [|p' ps IH]; intros [|w ws] v Hp; simpl;
    try done.
  apply not_elem_of_cons in Hp as [Hne Hp].
  rewrite IH by done. by apply list_lookup_insert_ne.
Qed.

Lemma scatter_lookup_in (ps : list nat) (ws v : list Q) (k p : nat) :
  NoDup ps → length ws = length ps → (p < length v)%nat →
  ps !! k = Some p → scatter ps ws v !! p = ws !! k.
Proof.
  revert ws v k. induction ps as [|p' ps IH]; intros [|w ws] v k Hnd Hlen Hp Hk;
    simpl in *; try done.
  apply NoDup_cons in Hnd as [Hnotin Hnd].
  destruct k as [|k]; simpl in *.
  - injection Hk as ->. rewrite scatter_lookup_notin by done.
    by apply list_lookup_insert_eq.
  - apply IH; [done|lia|by rewrite length_insert|done].
Qed.

Lemma gather_scatter_same (ps : list nat) (ws v : list Q) :
  NoDup ps → Forall (fun p => (p < length v)%nat) ps →
  length ws = length ps → gather ps (scatter ps ws v) = ws.
Proof.
  intros Hnd Hlt Hlen. apply list_eq. intros k.
  destruct (ps !! k) as [p|] eqn:Hk.
  - rewrite (gather_lookup _ _ k p); [| |done].
    + apply scatter_lookup_in; [done..| |done].
      eapply Forall_lookup_1 in Hlt; [|done]. done.
    + by rewrite scatter_length.
  - apply lookup_ge_None in Hk.
    rewrite (lookup_ge_None_2 ws) by lia. apply lookup_ge_None_2.
    rewrite gather_length; [lia|]. by rewrite scatter_length.
Qed.

Lemma gather_scatter_disjoint (ps ps' : list nat) (ws v : list Q) :
  Forall (fun p => (p < length v)%nat) ps →
  (∀ p, p ∈ ps → p ∉ ps') →
  gather ps (scatter ps' ws v) = gather ps v.
Proof.
  intros Hlt Hdisj. apply list_eq. intros k.
  destruct (ps !! k) as [p|] eqn:Hk.
  - rewrite !(gather_lookup _ _ k p); [| done | done | | done].
    + apply scatter_lookup_notin, Hdisj. by eapply list_elem_of_lookup_2.
    + by rewrite scatter_length.
  - apply lookup_ge_None in Hk.
    rewrite !lookup_ge_None_2; [done| |].
    + rewrite gather_length; [lia|done].
    + rewrite gather_length; [lia|]. by rewrite scatter_length.
Qed.

(** ** The loop body on the store *)

Lemma M_bind_run {A B} (m : M A) (k : A → M B) (σ σ' : store) (a : A) :
  m σ = Ok (a, σ') → (m ≫= k) σ = k a σ'.
Proof. intros H. unfold mbind, M_bind. by rewrite H. Qed.

Lemma getitem_list_run (σ : store) (s : Series) (labels : list string)
    (ps : list nat) (v : list Q) :
  get_locs (s_index s) labels = Ok ps →
  σ !! s_data s = Some v →
  getitem_list s labels σ
  = Ok (mkSeries labels (length σ), σ ++ [gather ps v]).
Proof.
  intros Hps Hv. unfold getitem_list. unfold_M. simpl. by rewrite Hps, Hv.
Qed.

Lemma setitem_list_run (σ : store) (s : Series) (labels : list string)
    (ps : list nat) (ws v : list Q) :
  get_locs (s_index s) labels = Ok ps →
  length ws = length ps →
  σ !! s_data s = Some v →
  setitem_list s labels ws σ = Ok (tt, <[s_data s := scatter ps ws v]> σ).
Proof.
  intros Hps Hlen Hv. unfold setitem_list. unfold_M. simpl.
  rewrite Hps, Hlen, Nat.eqb_refl. simpl. by rewrite Hv.
Qed.

Lemma values_run (σ : store) (s : Series) (v : list Q) :
  σ !! s_data s = Some v → values s σ = Ok (v, σ).
Proof. intros Hv. unfold values, load. by rewrite Hv. Qed.

Lemma repair_row_run (σ : store) (cols g : list string) (ps : list nat)
    (l : loc) (v : list Q) :
  σ !! l = Some v →
  get_locs cols g = Ok ps →
  Forall (fun p => (p < length v)%nat) ps →
  ps ≠ [] →
  ∃ σ', repair_row g (mkSeries cols l) σ = Ok (tt, σ')
      ∧ σ' !! l = Some (repair_cells ps v)
      ∧ (∀ l0, l0 ≠ l → (l0 < length σ)%nat → σ' !! l0 = σ !! l0)
      ∧ (length σ ≤ length σ')%nat.
Proof.
  intros Hl Hps Hlt Hne.
  pose proof (lookup_lt_Some _ _ _ Hl) as Hlσ.
  pose proof (gather_length ps v Hlt) as Hglen.
  assert (gather ps v ≠ []) as Hgne.
  { intros Hnil. rewrite Hnil in Hglen. by destruct ps. }
  destruct (argmax_first_max _ Hgne) as (highest & Harg & Hfm).
  pose proof (first_max_lt_length _ _ Hfm) as Hh.
  set (x := mkSeries g (length σ)).
  set (σ1 := σ ++ [gather ps v]).
  assert (make_one_hot x σ1
          = Ok (x, <[length σ := one_hot_at highest (gather ps v)]> σ1))
    as Hrun.
  { apply (make_one_hot_run σ1 x (gather ps v) highest); [|done..].
    subst x σ1. simpl. by rewrite lookup_app_r, Nat.sub_diag. }
  exists (<[l := repair_cells ps v]>
            (<[length σ := one_hot_at highest (gather ps v)]> σ1)).
  assert (length σ1 = S (length σ)) as Hlen1.
  { subst σ1. rewrite length_app. simpl. lia. }
  split; [|split; [|split]].
  - unfold repair_row.
    erewrite M_bind_run; [|by apply (getitem_list_run σ _ g ps v)].
    fold x σ1. erewrite M_bind_run; [|exact Hrun].
    erewrite M_bind_run;
      [|apply values_run; simpl; apply list_lookup_insert_eq; lia].
    erewrite (setitem_list_run _ _ _ ps _ v); [| done | |].
    + unfold repair_cells. by rewrite Harg.
    + unfold one_hot_at. by rewrite length_insert, length_map.
    + simpl. rewrite list_lookup_insert_ne by lia.
      subst σ1. by rewrite lookup_app_l.
  - apply list_lookup_insert_eq. rewrite length_insert. lia.
  - intros l0 Hne0 Hl0.
    rewrite !list_lookup_insert_ne by lia.
    subst σ1. by rewrite lookup_app_l.
  - rewrite !length_insert. lia.
Qed.

Lemma repair_cells_length (ps : list nat) (v : list Q) :
  length (repair_cells ps v) = length v.
Proof.
  unfold repair_cells. destruct (np.argmax _); [|done].
  apply scatter_length.
Qed.

(** The inner loop over the rows that [iterrows] yields. *)
Lemma inner_loop_run (cols g : list string) (ps : list nat) :
  get_locs cols g = Ok ps →
  ps ≠ [] →
  ∀ (ls : list loc) (vs : list (list Q)) (labels : list nat) (σ : store),
    NoDup ls →
    Forall2 (fun l v => σ !! l = Some v) ls vs →
    Forall (fun v => Forall (fun p => (p < length v)%nat) ps) vs →
    length labels = length ls →
    ∃ σ', for_each (fun ir : nat * Series => repair_row g ir.2)
            (zip labels (map (mkSeries cols) ls)) σ = Ok (tt, σ')
        ∧ Forall2 (fun l v => σ' !! l = Some (repair_cells ps v)) ls vs
        ∧ (∀ l0, l0 ∉ ls → (l0 < length σ)%nat → σ' !! l0 = σ !! l0)
        ∧ (length σ ≤ length σ')%nat.
Proof.
  intros Hps Hne ls.
  induction ls as [|l ls IH]; intros vs labels σ Hnd Hhold Hshape Hlen.
  - apply Forall2_nil_inv_l in Hhold as ->.
    exists σ. destruct labels; simpl; repeat split; auto.
  - apply Forall2_cons_inv_l in Hhold as (v & vs' & Hl & Hrest & ->).
    apply NoDup_cons in Hnd as [Hnotin Hnd].
    apply Forall_cons in Hshape as [Hv Hshape].
    destruct labels as [|k labels]; [done|]. simpl in Hlen.
    destruct (repair_row_run σ cols g ps l v Hl Hps Hv Hne)
      as (σ1 & Hrun & Hl1 & Hframe1 & Hlen1).
    destruct (IH vs' labels σ1) as (σ2 & Hrun2 & Hhold2 & Hframe2 & Hlen2);
      [done| |done|lia|].
    { apply Forall2_same_length_lookup in Hrest as [Hsame Hrest].
      apply Forall2_same_length_lookup_2; [done|].
      intros i l0 v0 Hi Hvi. pose proof (Hrest i l0 v0 Hi Hvi) as Hl0.
      rewrite Hframe1; [done| |by eapply lookup_lt_Some].
      intros ->. apply Hnotin. by eapply list_elem_of_lookup_2. }
    exists σ2. split; [|split; [|split]].
    + simpl. unfold mbind, M_bind. simpl in Hrun. rewrite Hrun. exact Hrun2.
    + constructor; [|done].
      rewrite Hframe2; [done..|]. apply lookup_lt_Some in Hl1. done.
    + intros l0 Hl0 Hlt. apply not_elem_of_cons in Hl0 as [Hne0 Hl0].
      rewrite Hframe2 by (done || lia). by apply Hframe1.
    + lia.
Qed.

Lemma repair_all_length (pss : list (list nat)) (v : list Q) :
  length (repair_all pss v) = length v.
Proof.
  unfold repair_all. revert v.
  induction pss as [|ps pss IH]; intros v; simpl; [done|].
  by rewrite IH, repair_cells_length.
Qed.

(** The outer loop over the groups. *)
Lemma one_hot_loop_run (cols : list string) (n : nat) (df : Block)
    (groups : list (list string)) (pss : list (list nat)) :
  b_columns df = cols →
  NoDup (b_rows df) →
  length (b_index df) = length (b_rows df) →
  Forall2 (fun g ps => get_locs cols g = Ok ps ∧ ps ≠ []
                       ∧ Forall (fun p => (p < n)%nat) ps) groups pss →
  ∀ (vs : list (list Q)) (σ : store),
    Forall2 (fun l v => σ !! l = Some v) (b_rows df) vs →
    Forall (fun v => length v = n) vs →
    ∃ σ', one_hot_loop groups df σ = Ok (tt, σ')
        ∧ Forall2 (fun l v => σ' !! l = Some (repair_all pss v))
            (b_rows df) vs.
Proof.
  intros Hcols Hnd Hidx Hgroups.
  induction Hgroups as [|g ps groups pss (Hps & Hne & Hlt) _ IH];
    intros vs σ Hhold Hshape.
  - exists σ. by split.
  - destruct (inner_loop_run cols g ps Hps Hne (b_rows df) vs (b_index df) σ)
      as (σ1 & Hrun1 & Hhold1 & _ & _); [done..| |done|].
    { eapply Forall_impl; [exact Hshape|]. intros v Hv. simpl in Hv.
      by rewrite Hv. }
    destruct (IH (map (repair_cells ps) vs) σ1) as (σ2 & Hrun2 & Hhold2).
    { by apply Forall2_fmap_r. }
    { apply Forall_fmap. eapply Forall_impl; [exact Hshape|].
      intros v Hv. simpl. by rewrite repair_cells_length. }
    exists σ2. split.
    + unfold one_hot_loop in *. simpl.
      erewrite M_bind_run; [exact Hrun2|].
      unfold iterrows. rewrite Hcols. exact Hrun1.
    + by apply Forall2_fmap_r in Hhold2.
Qed.

Lemma alloc_rows_run (rs : list Row) (σ : store) :
  alloc_rows rs σ = Ok (seq (length σ) (length rs), σ ++ map r_cells rs).
Proof.
  revert σ. induction rs as [|r rs IH]; intros σ; simpl.
  - by rewrite app_nil_r.
  - unfold mbind, M_bind, alloc. rewrite IH.
    rewrite length_app. simpl. unfold mret, M_ret.
    rewrite <- app_assoc. simpl.
    by replace (length σ + 1)%nat with (S (length σ)) by lia.
Qed.

Lemma load_rows_run (labels : list nat) (ls : list loc) (vs : list (list Q))
    (σ : store) :
  Forall2 (fun l v => σ !! l = Some v) ls vs →
  length labels = length ls →
  load_rows labels ls σ = Ok (zip_with mkRow labels vs, σ).
Proof.
  intros Hhold. revert labels.
  induction Hhold as [|l v ls vs Hl _ IH]; intros labels Hlen.
  - by destruct labels.
  - destruct labels as [|k labels]; [done|]. simpl in *.
    unfold mbind, M_bind, load. rewrite Hl.
    rewrite IH by lia. done.
Qed.

(** The frame the one-hot stage leaves: every row of the raw frame, with
    its label, after the passes of all the groups. *)
Lemma one_hot_stage_run (X_col_names : list string) (X_synthetic : DataFrame)
    (pss : list (list nat)) :
  NoDup X_col_names →
  columns X_synthetic = X_col_names →
  well_shaped X_synthetic →
  Forall2 (fun g ps => get_locs X_col_names g = Ok ps ∧ ps ≠ []
                       ∧ Forall (fun p => (p < length X_col_names)%nat) ps)
    (one_hot_cols X_col_names) pss →
  ∃ σ', one_hot_stage X_col_names X_synthetic []
        = Ok (mkDataFrame X_col_names
                (map (fun r => mkRow (r_label r) (repair_all pss (r_cells r)))
                   (rows X_synthetic)), σ').
Proof.
  intros Hnd Hcols Hshape Hgroups.
  unfold well_shaped in Hshape. rewrite Hcols in Hshape.
  assert (map (reindex_row (seq 0 (length X_col_names))) (rows X_synthetic)
          = rows X_synthetic) as Hre.
  { apply list_eq. intros i. rewrite list_lookup_fmap.
    destruct (rows X_synthetic !! i) as [r|] eqn:Hr; [|done]. simpl.
    eapply Forall_lookup_1 in Hshape; [|exact Hr].
    unfold reindex_row. rewrite <- Hshape, gather_seq. by destruct r. }
  set (rs := rows X_synthetic) in *.
  set (df := mkBlock X_col_names (map r_label rs) (seq 0 (length rs))).
  destruct (one_hot_loop_run X_col_names (length X_col_names) df
              (one_hot_cols X_col_names) pss eq_refl)
    with (vs := map r_cells rs) (σ := map r_cells rs)
    as (σ' & Hloop & Hhold).
  { apply NoDup_seq. }
  { simpl. by rewrite length_map, length_seq. }
  { done. }
  { simpl. apply Forall2_same_length_lookup_2.
    - by rewrite length_seq, length_map.
    - intros i l v Hl Hv. apply lookup_seq in Hl as [-> _]. done. }
  { by apply Forall_fmap. }
  exists σ'. unfold one_hot_stage.
  erewrite M_bind_run;
    [|unfold lift; rewrite Hcols, (get_locs_self _ Hnd); reflexivity].
  cbv beta. fold rs. rewrite Hre.
  erewrite M_bind_run;
    [|unfold new_block; erewrite M_bind_run; [|apply alloc_rows_run];
      reflexivity].
  simpl. fold df.
  erewrite M_bind_run; [|exact Hloop].
  unfold read_block.
  assert (Forall2 (fun l v => σ' !! l = Some v) (b_rows df)
            (map (repair_all pss) (map r_cells rs))) as Hhold'
    by by apply Forall2_fmap_r.
  erewrite M_bind_run; [|apply load_rows_run; [exact Hhold'|]].
  - unfold mret, M_ret. simpl. do 3 f_equal.
    apply list_eq. intros i.
    rewrite lookup_zip_with, !list_lookup_fmap.
    by destruct (rs !! i).
  - simpl. by rewrite length_map, length_seq.
Qed.

(** ** The passes of disjoint groups do not disturb each other *)

Lemma repair_cells_gather_same (ps : list nat) (v : list Q) :
  NoDup ps → Forall (fun p => (p < length v)%nat) ps → ps ≠ [] →
  ∃ highest, np.argmax (gather ps v) = Ok highest
           ∧ first_max (gather ps v) highest
           ∧ gather ps (repair_cells ps v) = one_hot_at highest (gather ps v).
Proof.
  intros Hnd Hlt Hne.
  pose proof (gather_length ps v Hlt) as Hglen.
  assert (gather ps v ≠ []) as Hgne.
  { intros Hnil. rewrite Hnil in Hglen. by destruct ps. }
  destruct (argmax_first_max _ Hgne) as (highest & Harg & Hfm).
  exists highest. split; [done|]. split; [done|].
  unfold repair_cells. rewrite Harg.
  apply gather_scatter_same; [done..|].
  unfold one_hot_at. by rewrite length_insert, length_map.
Qed.

Lemma repair_cells_gather_disjoint (ps ps' : list nat) (v : list Q) :
  Forall (fun p => (p < length v)%nat) ps →
  (∀ p, p ∈ ps → p ∉ ps') →
  gather ps (repair_cells ps' v) = gather ps v.
Proof.
  intros Hlt Hdisj. unfold repair_cells.
  destruct (np.argmax _); [|done]. by apply gather_scatter_disjoint.
Qed.

Lemma repair_all_gather_disjoint (pss : list (list nat)) (ps : list nat)
    (v : list Q) :
  Forall (fun p => (p < length v)%nat) ps →
  (∀ ps' p, ps' ∈ pss → p ∈ ps → p ∉ ps') →
  gather ps (repair_all pss v) = gather ps v.
Proof.
  unfold repair_all. revert v.
  induction pss as [|ps0 pss IH]; intros v Hlt Hdisj; simpl; [done|].
  rewrite IH.
  - apply repair_cells_gather_disjoint; [done|].
    intros p Hp. apply (Hdisj ps0 p); [apply list_elem_of_here|done].
  - by rewrite repair_cells_length.
  - intros ps' p Hps'. apply Hdisj. by apply list_elem_of_further.
Qed.

(** After all the passes, the cells of a group are the one-hot vector of
    its raw cells. *)
Lemma repair_all_gather (pss : list (list nat)) (t : nat) (ps : list nat)
    (v : list Q) :
  pss !! t = Some ps →
  Forall (fun ps' => NoDup ps' ∧ ps' ≠ []
                     ∧ Forall (fun p => (p < length v)%nat) ps') pss →
  (∀ i j ps1 ps2 p, i ≠ j → pss !! i = Some ps1 → pss !! j = Some ps2 →
     p ∈ ps1 → p ∉ ps2) →
  ∃ highest, first_max (gather ps v) highest
           ∧ gather ps (repair_all pss v) = one_hot_at highest (gather ps v).
Proof.
  revert t v. induction pss as [|ps0 pss IH]; intros t v Ht Hall Hdisj;
    [done|].
  apply Forall_cons in Hall as [(Hnd0 & Hne0 & Hlt0) Hall].
  destruct t as [|t]; simpl in Ht.
  - injection Ht as ->.
    destruct (repair_cells_gather_same ps v Hnd0 Hlt0 Hne0)
      as (highest & _ & Hfm & Hg).
    exists highest. split; [done|].
    change (repair_all (ps :: pss) v) with (repair_all pss (repair_cells ps v)).
    rewrite repair_all_gather_disjoint; [done| |].
    + by rewrite repair_cells_length.
    + intros ps' p Hps' Hp. apply list_elem_of_lookup in Hps' as [j Hj].
      by apply (Hdisj 0%nat (S j) ps ps' p).
  - assert (Forall (fun p => (p < length v)%nat) ps) as Hlt.
    { eapply Forall_lookup_1 in Hall as (_ & _ & H); [exact H|exact Ht]. }
    destruct (IH t (repair_cells ps0 v) Ht) as (highest & Hfm & Hg).
    + eapply Forall_impl; [exact Hall|]. intros ps' (? & ? & ?).
      by rewrite repair_cells_length.
    + intros i j ps1 ps2 p Hij H1 H2.
      by apply (Hdisj (S i) (S j) ps1 ps2 p); [lia|..].
    + assert (gather ps (repair_cells ps0 v) = gather ps v) as Heq.
      { apply repair_cells_gather_disjoint; [done|].
        intros p Hp. by apply (Hdisj (S t) 0%nat ps ps0 p). }
      rewrite Heq in Hfm, Hg. by exists highest.
Qed.

(** ** The three prefixes select disjoint groups *)

Lemma has_prefix_head (col c : string) (a : Ascii.ascii) (rest : string) :
  col = String a rest → has_prefix col c = true → ∃ c', c = String a c'.
Proof.
  intros -> H. unfold has_prefix in H. apply String.eqb_eq in H.
  destruct c as [|b c']; simpl in H; [discriminate|].
  injection H as -> _. by eexists.
Qed.

Lemma categorical_disjoint (i j : nat) (col1 col2 c : string) :
  categorical !! i = Some col1 → categorical !! j = Some col2 →
  has_prefix col1 c = true → has_prefix col2 c = true → i = j.
Proof.
  intros Hi Hj H1 H2. unfold categorical in *.
  destruct i as [|[|[|i]]]; simpl in Hi; try done; injection Hi as <-;
    (destruct j as [|[|[|j]]]; simpl in Hj; try done; injection Hj as <-);
    try done;
    (eapply has_prefix_head in H1 as [c1 Hc1]; [|reflexivity]);
    (eapply has_prefix_head in H2 as [c2 Hc2]; [|reflexivity]);
    congruence.
Qed.

Lemma one_hot_cols_lookup (X_col_names : list string) (t : nat)
    (g : list string) :
  one_hot_cols X_col_names !! t = Some g →
  ∃ col, categorical !! t = Some col
       ∧ g = filter (fun x => has_prefix col x = true) X_col_names.
Proof.
  unfold one_hot_cols. rewrite list_lookup_fmap.
  destruct (categorical !! t) as [col|]; [|done].
  intros [= <-]. by exists col.
Qed.

Lemma one_hot_cols_elem (X_col_names : list string) (t : nat)
    (g : list string) (c : string) :
  one_hot_cols X_col_names !! t = Some g → c ∈ g →
  c ∈ X_col_names ∧ ∃ col, categorical !! t = Some col
                         ∧ has_prefix col c = true.
Proof.
  intros Hg Hc. apply one_hot_cols_lookup in Hg as (col & Hcol & ->).
  apply list_elem_of_filter in Hc as [Hp Hc]. split; [done|]. by exists col.
Qed.

Lemma one_hot_cols_NoDup (X_col_names : list string) (t : nat)
    (g : list string) :
  NoDup X_col_names → one_hot_cols X_col_names !! t = Some g → NoDup g.
Proof.
  intros Hnd Hg. apply one_hot_cols_lookup in Hg as (col & _ & ->).
  by apply NoDup_filter.
Qed.

(** ** Column reads and writes on a frame *)

Lemma collect_Forall2 {A B} (f : A → result B) (l : list A) :
  Forall (fun a => ∃ b, f a = Ok b) l →
  ∃ bs, collect f l = Ok bs ∧ Forall2 (fun a b => f a = Ok b) l bs.
Proof.
  induction 1 as [|a l [b Hb] _ (bs & Hbs & IH)]; simpl.
  - exists []. by split.
  - rewrite Hb. simpl. rewrite Hbs. simpl. exists (b :: bs).
    split; [done|]. by constructor.
Qed.

Lemma column_run (df : DataFrame) (c : string) (p : nat) :
  well_shaped df →
  get_loc (columns df) c = Ok p →
  ∃ vs, column df c = Ok vs
      ∧ Forall2 (fun r q => r_cells r !! p = Some q) (rows df) vs.
Proof.
  intros Hshape Hp. unfold column. rewrite Hp. simpl.
  destruct (collect_Forall2 (cell_at p) (rows df)) as (vs & Hvs & Hall).
  - eapply Forall_impl; [exact Hshape|]. intros r Hr. simpl in Hr.
    apply get_loc_lookup, lookup_lt_Some in Hp. rewrite <- Hr in Hp.
    destruct (lookup_lt_is_Some_2 _ _ Hp) as [q Hq].
    exists q. unfold cell_at. by rewrite Hq.
  - exists vs. split; [done|].
    eapply Forall2_impl; [exact Hall|]. intros r q. unfold cell_at.
    by destruct (r_cells r !! p); intros [= ->].
Qed.

Lemma cell_set_cell_ne (df : DataFrame) (r : Row) (c c' : string) (p : nat)
    (q : Q) :
  get_loc (columns df) c = Ok p → c' ≠ c →
  cell df (set_cell p r q) c' = cell df r c'.
Proof.
  intros Hp Hne. unfold cell, set_cell.
  destruct (get_loc (columns df) c') as [p'|] eqn:Hp'; [|done]. simpl.
  apply list_lookup_insert_ne. intros ->.
  apply get_loc_lookup in Hp, Hp'. congruence.
Qed.

Lemma get_loc_app_l (idx extra : list string) (c : string) (p : nat) :
  get_loc idx c = Ok p → get_loc (idx ++ extra) c = Ok p.
Proof.
  revert p. induction idx as [|c' idx IH]; intros p; simpl; [done|].
  destruct (String.eqb c' c); [done|].
  destruct (get_loc idx c) as [i|]; simpl; [|done].
  intros [= <-]. by rewrite (IH i).
Qed.

Lemma get_loc_app_new (idx : list string) (c : string) :
  (∀ p, get_loc idx c ≠ Ok p) → get_loc (idx ++ [c]) c = Ok (length idx).
Proof.
  induction idx as [|c' idx IH]; intros Hno; simpl.
  - by rewrite String.eqb_refl.
  - simpl in Hno. destruct (String.eqb c' c); [by destruct (Hno 0%nat)|].
    rewrite IH; [done|]. intros p Hp. apply (Hno (S p)). by rewrite Hp.
Qed.

Lemma get_loc_app_other (idx : list string) (c c' : string) :
  c' ≠ c → (∀ p, get_loc idx c' ≠ Ok p) →
  ∀ p, get_loc (idx ++ [c]) c' ≠ Ok p.
Proof.
  intros Hne. induction idx as [|d idx IH]; intros Hno p; simpl.
  - destruct (String.eqb_spec c c'); [congruence|done].
  - simpl in Hno. destruct (String.eqb d c'); [by destruct (Hno 0%nat)|].
    destruct (get_loc (idx ++ [c]) c') as [i|] eqn:Hi; [|done].
    exfalso. apply (IH (fun p Hp => Hno (S p) ltac:(by rewrite Hp)) i).
    done.
Qed.

(** What [df[c] = vs] leaves. *)
Lemma set_column_spec (df : DataFrame) (c : string) (vs : list Q) :
  well_shaped df →
  length vs = length (rows df) →
  ∃ df', set_column df c vs = Ok df'
       ∧ well_shaped df'
       ∧ (columns df' = columns df ∧ c ∈ columns df
          ∨ columns df' = columns df ++ [c] ∧ c ∉ columns df)
       ∧ keeps [c] df df'
       ∧ Forall2 (fun r' q => cell df' r' c = Some q) (rows df') vs.
Proof.
  intros Hshape Hlen. unfold set_column. rewrite Hlen, Nat.eqb_refl. simpl.
  destruct (get_loc (columns df) c) as [p|e] eqn:Hp.
  - eexists. split; [done|].
    pose proof (get_loc_lookup _ _ _ Hp) as Hcp.
    pose proof (lookup_lt_Some _ _ _ Hcp) as Hplt.
    split; [|split; [|split]].
    + unfold well_shaped in *. simpl.
      apply Forall_lookup. intros i r' Hi.
      apply lookup_zip_with_Some in Hi as (r & q & -> & Hr & Hq).
      simpl. rewrite length_insert.
      by eapply Forall_lookup_1 in Hshape.
    + left. split; [done|]. by eapply list_elem_of_lookup_2.
    + unfold keeps. simpl. apply Forall2_same_length_lookup_2.
      { rewrite length_zip_with. lia. }
      intros i r r' Hr Hi.
      apply lookup_zip_with_Some in Hi as (r0 & q & -> & Hr0 & Hq).
      assert (r0 = r) as -> by congruence.
      split; [done|]. intros c' Hc'.
      apply not_elem_of_cons in Hc' as [Hc' _].
      unfold cell at 1. simpl.
      by apply (cell_set_cell_ne df r c c' p q).
    + simpl. apply Forall2_same_length_lookup_2.
      { rewrite length_zip_with. lia. }
      intros i r' q Hi Hq.
      apply lookup_zip_with_Some in Hi as (r & q' & -> & Hr & Hq').
      assert (q' = q) as -> by congruence.
      unfold cell. simpl. rewrite Hp. apply list_lookup_insert_eq.
      eapply Forall_lookup_1 in Hshape; [|exact Hr]. simpl in Hshape. lia.
  - eexists. split; [done|].
    assert (∀ p, get_loc (columns df) c ≠ Ok p) as Hno by (intros p; congruence).
    split; [|split; [|split]].
    + unfold well_shaped in *. simpl.
      apply Forall_lookup. intros i r' Hi.
      apply lookup_zip_with_Some in Hi as (r & q & -> & Hr & Hq).
      simpl. rewrite !length_app. simpl.
      eapply Forall_lookup_1 in Hshape; [|exact Hr]. simpl in Hshape. lia.
    + right. split; [done|]. intros Hin.
      destruct (get_loc_elem _ _ Hin) as [p Hp']. congruence.
    + unfold keeps. simpl. apply Forall2_same_length_lookup_2.
      { rewrite length_zip_with. lia. }
      intros i r r' Hr Hi.
      apply lookup_zip_with_Some in Hi as (r0 & q & -> & Hr0 & Hq).
      assert (r0 = r) as -> by congruence.
      split; [done|]. intros c' Hc'.
      apply not_elem_of_cons in Hc' as [Hc' _].
      unfold cell. simpl.
      destruct (get_loc (columns df) c') as [p'|e'] eqn:Hp'.
      * rewrite (get_loc_app_l _ _ _ _ Hp').
        apply lookup_app_l.
        apply get_loc_lookup, lookup_lt_Some in Hp'.
        eapply Forall_lookup_1 in Hshape; [|exact Hr]. simpl in Hshape. lia.
      * destruct (get_loc (columns df ++ [c]) c') as [p'|] eqn:Hp''; [|done].
        exfalso. eapply (get_loc_app_other (columns df) c c'); [done| |done].
        intros p. congruence.
    + simpl. apply Forall2_same_length_lookup_2.
      { rewrite length_zip_with. lia. }
      intros i r' q Hi Hq.
      apply lookup_zip_with_Some in Hi as (r & q' & -> & Hr & Hq').
      assert (q' = q) as -> by congruence.
      unfold cell. simpl. rewrite (get_loc_app_new _ _ Hno).
      eapply Forall_lookup_1 in Hshape; [|exact Hr]. simpl in Hshape.
      rewrite <- Hshape. by rewrite lookup_app_r, Nat.sub_diag.
Qed.

Lemma keeps_refl (cs : list string) (df : DataFrame) : keeps cs df df.
Proof. unfold keeps. apply Forall2_same_length_lookup_2; [done|].
  intros i r r' Hr Hr'. assert (r' = r) as -> by congruence. done.
Qed.

Lemma keeps_trans (cs1 cs2 : list string) (a b c : DataFrame) :
  keeps cs1 a b → keeps cs2 b c → keeps (cs1 ++ cs2) a c.
Proof.
  unfold keeps. intros Hab Hbc.
  apply Forall2_same_length_lookup in Hab as [Hlab Hab].
  apply Forall2_same_length_lookup in Hbc as [Hlbc Hbc].
  apply Forall2_same_length_lookup_2; [congruence|].
  intros i r r'' Hr Hr''.
  destruct (lookup_lt_is_Some_2 (rows b) i) as [r' Hr'].
  { rewrite <- Hlab. by eapply lookup_lt_Some. }
  destruct (Hab i r r' Hr Hr') as [Hl1 Hc1].
  destruct (Hbc i r' r'' Hr' Hr'') as [Hl2 Hc2].
  split; [congruence|]. intros c0 Hc0.
  apply not_elem_of_app in Hc0 as [H1 H2].
  rewrite Hc2 by done. by apply Hc1.
Qed.

(** A column read, mapped through [f], and written back. *)
Lemma map_column_spec (f : Q → Q) (df : DataFrame) (c : string) :
  well_shaped df →
  c ∈ columns df →
  ∃ df', (column df c ≫= fun vs => set_column df c (map f vs)) = Ok df'
       ∧ well_shaped df'
       ∧ columns df' = columns df
       ∧ keeps [c] df df'
       ∧ Forall2 (fun r r' => ∃ q, cell df r c = Some q
                                 ∧ cell df' r' c = Some (f q))
           (rows df) (rows df').
Proof.
  intros Hshape Hin.
  destruct (get_loc_elem _ _ Hin) as [p Hp].
  destruct (column_run df c p Hshape Hp) as (vs & Hvs & Hcells).
  destruct (set_column_spec df c (map f vs) Hshape)
    as (df' & Hset & Hshape' & Hcols & Hkeeps & Hnew).
  { rewrite length_map. symmetry. by eapply Forall2_length. }
  exists df'. rewrite Hvs. simpl. split; [done|]. split; [done|].
  destruct Hcols as [[Hcols _]|[_ Hno]]; [|done].
  split; [done|]. split; [done|].
  pose proof (Forall2_length _ _ _ Hkeeps) as Hlen.
  apply Forall2_same_length_lookup_2; [done|].
  intros i r r' Hr Hr'.
  destruct (Forall2_lookup_l _ _ _ _ _ Hcells Hr) as (q & Hq & Hrq).
  exists q. split; [unfold cell; by rewrite Hp|].
  eapply Forall2_lookup_lr in Hnew; [exact Hnew|exact Hr'|].
  by rewrite list_lookup_fmap, Hq.
Qed.

Lemma foldM_map_column (f : Q → Q) (cs : list string) (df : DataFrame) :
  well_shaped df →
  Forall (fun c => c ∈ columns df) cs →
  ∃ df', foldM (fun df c =>
                  column df c ≫= fun vs => set_column df c (map f vs)) df cs
         = Ok df'
       ∧ well_shaped df'
       ∧ columns df' = columns df
       ∧ keeps cs df df'.
Proof.
  revert df. induction cs as [|c cs IH]; intros df Hshape Hin; simpl.
  - exists df. split; [done|]. split; [done|]. split; [done|].
    apply keeps_refl.
  - apply Forall_cons in Hin as [Hc Hin].
    destruct (map_column_spec f df c Hshape Hc)
      as (df1 & Hrun1 & Hshape1 & Hcols1 & Hkeeps1 & _).
    rewrite Hrun1. simpl.
    destruct (IH df1 Hshape1) as (df2 & Hrun2 & Hshape2 & Hcols2 & Hkeeps2).
    { by rewrite Hcols1. }
    exists df2. split; [done|]. split; [done|]. split; [congruence|].
    by apply (keeps_trans [c] cs df df1 df2).
Qed.

(** ** Sampling rows *)

Lemma take_rows_elem (df : DataFrame) (locs : list nat) (r : Row) :
  r ∈ rows (df_take df locs) → r ∈ rows df.
Proof.
  unfold df_take. simpl. intros Hr.
  apply list_elem_of_omap in Hr as (i & _ & Hi).
  by eapply list_elem_of_lookup_2.
Qed.

Lemma sample_rows_elem (df df' : DataFrame) (n : nat) (g g' : RandomState) :
  sample df n g = Ok (df', g') →
  columns df' = columns df ∧ ∀ r, r ∈ rows df' → r ∈ rows df.
Proof.
  unfold sample. destruct (choice _ _ _) as [[locs g1]|e]; simpl; [|done].
  intros [= <- <-]. split; [done|]. apply take_rows_elem.
Qed.

Lemma sample_frac1_total (df : DataFrame) (g : RandomState) :
  ∃ df' g', sample_frac1 df g = Ok (df', g').
Proof.
  unfold sample_frac1, sample, choice.
  rewrite Nat.ltb_irrefl.
  destruct (permutation _ _) as [p g']. simpl. by eexists _, _.
Qed.

(** ** Sums *)

Lemma Qsum_cons (x : Q) (l : list Q) : Qsum (x :: l) == x + Qsum l.
Proof. unfold Qsum. simpl. apply Qred_correct. Qed.

Lemma Qsum_zeros (l : list Q) :
  (∀ j y, l !! j = Some y → y == 0) → Qsum l == 0.
Proof.
  induction l as [|x l IH]; intros Hall; [reflexivity|].
  rewrite Qsum_cons, (Hall 0%nat x eq_refl), IH; [ring|].
  intros j y Hj. by apply (Hall (S j)).
Qed.

Lemma Qsum_indicator (l : list Q) (h : nat) :
  (h < length l)%nat →
  (∀ j y, l !! j = Some y → y == if decide (j = h) then 1 else 0) →
  Qsum l == 1.
Proof.
  revert h. induction l as [|x l IH]; intros h Hh Hall; simpl in Hh; [lia|].
  rewrite Qsum_cons. destruct h as [|h].
  - rewrite (Hall 0%nat x eq_refl). simpl.
    rewrite Qsum_zeros; [ring|].
    intros j y Hj. by rewrite (Hall (S j) y Hj).
  - rewrite (Hall 0%nat x eq_refl). simpl.
    rewrite (IH h); [ring|lia|].
    intros j y Hj. rewrite (Hall (S j) y Hj).
    destruct (decide (S j = S h)), (decide (j = h)); (reflexivity || lia).
Qed.

Lemma Qsum_one_hot_at (highest : nat) (v : list Q) :
  (highest < length v)%nat → Qsum (one_hot_at highest v) == 1.
Proof.
  intros Hh. apply (Qsum_indicator _ highest).
  - unfold one_hot_at. by rewrite length_insert, length_map.
  - intros j y Hj.
    assert (j < length v)%nat as Hjlt.
    { apply lookup_lt_Some in Hj. unfold one_hot_at in Hj.
      by rewrite length_insert, length_map in Hj. }
    destruct (one_hot_at_lookup highest v j Hh Hjlt) as (y' & Hy' & Heq).
    by assert (y = y') as -> by congruence.
Qed.

Lemma Qsum_nonneg (l : list Q) : Forall (fun x => 0 <= x) l → 0 <= Qsum l.
Proof.
  induction 1 as [|x l Hx _ IH]; [apply Qle_refl|].
  rewrite Qsum_cons. lra.
Qed.

Lemma Qsquare_nonneg (t : Q) : 0 <= t * t.
Proof.
  destruct (Qlt_le_dec t 0) as [Hneg|Hpos].
  - assert (t * t == (- t) * (- t)) as -> by ring.
    apply Qmult_le_0_compat; lra.
  - by apply Qmult_le_0_compat.
Qed.

(** ** The columns of a group are none of the rounded or label columns *)

Lemma has_prefix_head2 (col c : string) (a b : Ascii.ascii) (rest : string) :
  col = String a (String b rest) → has_prefix col c = true →
  ∃ c', c = String a (String b c').
Proof.
  intros -> H. unfold has_prefix in H. apply String.eqb_eq in H.
  destruct c as [|a' [|b' c']]; simpl in H; try discriminate.
  injection H as -> -> _. by eexists.
Qed.

Lemma group_column_not_rounded (col c : string) :
  col ∈ categorical → has_prefix col c = true →
  c ∉ integer_cols ++ binary_cols ++ [y_label].
Proof.
  intros Hcol Hpre Hc.
  unfold categorical in Hcol.
  repeat (apply elem_of_cons in Hcol as [->|Hcol]);
    [| | |by apply elem_of_nil in Hcol];
    (eapply has_prefix_head2 in Hpre as [c' Hc']; [|reflexivity]); subst c;
    unfold integer_cols, binary_cols, y_label in Hc; simpl in Hc;
    repeat (apply elem_of_cons in Hc as [Hc|Hc]; [discriminate Hc|]);
    by apply elem_of_nil in Hc.
Qed.

Lemma Forall_exists_Forall2 {A B} (R : A → B → Prop) (l : list A) :
  Forall (fun a => ∃ b, R a b) l → ∃ k, Forall2 R l k.
Proof.
  induction 1 as [|a l [b Hb] _ [k IH]].
  - by exists [].
  - exists (b :: k). by constructor.
Qed.

Lemma omap_length_le {A B} (f : A → option B) (l : list A) :
  (length (omap f l) ≤ length l)%nat.
Proof.
  induction l as [|a l IH]; simpl; [done|].
  destruct (f a); simpl; fold (omap f l); lia.
Qed.

Lemma omap_cell_gather (df : DataFrame) (r : Row) (g : list string)
    (ps : list nat) :
  get_locs (columns df) g = Ok ps →
  omap (cell df r) g = gather ps (r_cells r).
Proof.
  intros Hps. apply get_locs_Forall2 in Hps. unfold gather.
  induction Hps as [|c p g ps Hp _ IH]; [done|].
  simpl. unfold cell at 1. rewrite Hp.
  destruct (r_cells r !! p); simpl; [f_equal|]; exact IH.
Qed.

(** ** Draws without replacement *)

Lemma swap_Permutation {A} (x : list A) (i j : nat) : swap x i j ≡ₚ x.
Proof.
  unfold swap. destruct (x !! i) as [a|] eqn:Hi; [|done].
  destruct (x !! j) as [b|] eqn:Hj; [|done].
  by apply Permutation_insert_swap.
Qed.

Lemma shuffle_from_Permutation {A} (i : nat) (x : list A) (g : RandomState) :
  (shuffle_from i x g).1 ≡ₚ x.
Proof.
  revert x g. induction i as [|i IH]; intros x g; simpl; [done|].
  destruct (random_interval g (S i)) as [j g'].
  rewrite IH. apply swap_Permutation.
Qed.

Lemma permutation_Permutation (n : nat) (g : RandomState) :
  (permutation n g).1 ≡ₚ seq 0 n.
Proof. apply shuffle_from_Permutation. Qed.

Lemma choice_raises (n size : nat) (g : RandomState) :
  (n < size)%nat → choice n size g = Raise ValueError.
Proof. intros Hlt. unfold choice. apply Nat.ltb_lt in Hlt. by rewrite Hlt. Qed.

Lemma choice_returns (n size : nat) (g : RandomState) :
  (size ≤ n)%nat →
  ∃ locs rest g', choice n size g = Ok (locs, g')
                ∧ locs ++ rest ≡ₚ seq 0 n
                ∧ length locs = size.
Proof.
  intros Hle. unfold choice.
  destruct (n <? size)%nat eqn:Hlt; [apply Nat.ltb_lt in Hlt; lia|].
  pose proof (permutation_Permutation n g) as Hperm.
  destruct (permutation n g) as [p g']. simpl in Hperm.
  exists (firstn size p), (skipn size p), g'. split; [done|]. split.
  - by rewrite take_drop.
  - rewrite length_take. apply Permutation_length in Hperm.
    rewrite length_seq in Hperm. lia.
Qed.


Lemma sample_raises (df : DataFrame) (n : nat) (g : RandomState) :
  (length (rows df) < n)%nat → sample df n g = Raise ValueError.
Proof. intros Hlt. unfold sample. by rewrite choice_raises. Qed.

(** A sample of [n] rows is a sub-multiset of the rows: no row is drawn
    twice. *)
Lemma sample_returns (df : DataFrame) (n : nat) (g : RandomState) :
  (n ≤ length (rows df))%nat →
  ∃ out g', sample df n g = Ok (out, g')
          ∧ columns out = columns df
          ∧ rows out ⊆+ rows df
          ∧ length (rows out) = n.
Proof.
  intros Hle. unfold sample.
  destruct (choice_returns _ _ g Hle) as (locs & rest & g' & Hrun & Hperm & Hlen).
  rewrite Hrun. simpl. eexists _, _. split; [done|]. split; [done|].
  unfold df_take. simpl.
  assert (Forall (fun p => (p < length (rows df))%nat) (locs ++ rest)) as Hall.
  { rewrite Hperm. apply Forall_forall. intros p Hp.
    apply elem_of_seq in Hp. lia. }
  split.
  - assert (omap (fun i => rows df !! i) (locs ++ rest) ≡ₚ rows df) as Hp.
    { rewrite Hperm. by rewrite omap_lookup_seq. }
    rewrite omap_app in Hp. rewrite <- Hp. by apply submseteq_inserts_r.
  - apply Forall_app in Hall as [Hall _].
    by rewrite omap_lookup_length.
Qed.

Lemma sample_frac1_Permutation (df out : DataFrame) (g g' : RandomState) :
  sample_frac1 df g = Ok (out, g') →
  columns out = columns df ∧ rows out ≡ₚ rows df.
Proof.
  unfold sample_frac1. intros Hrun.
  destruct (sample_returns df (length (rows df)) g)
    as (out' & g'' & Hrun' & Hcols & Hsub & Hlen); [done|].
  rewrite Hrun in Hrun'. injection Hrun' as <- <-.
  split; [done|]. apply submseteq_length_Permutation; [done|lia].
Qed.

(** ** The processing cell, step by step *)

Lemma one_hot_cols_positions (X_col_names : list string) :
  Forall (fun group => group ≠ []) (one_hot_cols X_col_names) →
  ∃ pss, Forall2 (fun g ps => get_locs X_col_names g = Ok ps ∧ ps ≠ []
                     ∧ Forall (fun p => (p < length X_col_names)%nat) ps)
           (one_hot_cols X_col_names) pss.
Proof.
  intros Hne. apply Forall_exists_Forall2.
  apply Forall_lookup. intros t g Hg.
  eapply Forall_lookup_1 in Hne; [|exact Hg].
  destruct (get_locs_elem X_col_names g) as [ps Hps].
  { apply Forall_forall. intros c Hc.
    by destruct (one_hot_cols_elem _ _ _ _ Hg Hc). }
  exists ps. split; [done|]. split.
  - intros ->. apply get_locs_length in Hps. by destruct g.
  - by eapply get_locs_lt.
Qed.

Lemma process_steps (X_col_names : list string) (X_synthetic : DataFrame)
    (y_synthetic : list Q) :
  NoDup X_col_names →
  columns X_synthetic = X_col_names →
  well_shaped X_synthetic →
  Forall (fun group => group ≠ []) (one_hot_cols X_col_names) →
  Forall (fun c => c ∈ X_col_names) (integer_cols ++ binary_cols) →
  length y_synthetic = length (rows X_synthetic) →
  ∃ pss σ' df0 df1 df2 df3,
    Forall2 (fun g ps => get_locs X_col_names g = Ok ps ∧ ps ≠ []
                ∧ Forall (fun p => (p < length X_col_names)%nat) ps)
      (one_hot_cols X_col_names) pss
    ∧ df0 = mkDataFrame X_col_names
              (map (fun r => mkRow (r_label r) (repair_all pss (r_cells r)))
                 (rows X_synthetic))
    ∧ one_hot_stage X_col_names X_synthetic [] = Ok (df0, σ')
    ∧ foldM round_column df0 integer_cols = Ok df1
    ∧ foldM clip_round_column df1 binary_cols = Ok df2
    ∧ set_column df2 y_label y_synthetic = Ok df3
    ∧ well_shaped df0 ∧ well_shaped df1 ∧ well_shaped df2 ∧ well_shaped df3
    ∧ columns df1 = X_col_names ∧ columns df2 = X_col_names
    ∧ (columns df3 = X_col_names ∧ y_label ∈ X_col_names
       ∨ columns df3 = X_col_names ++ [y_label] ∧ y_label ∉ X_col_names)
    ∧ keeps integer_cols df0 df1
    ∧ keeps binary_cols df1 df2
    ∧ keeps [y_label] df2 df3
    ∧ Forall2 (fun r' q => cell df3 r' y_label = Some q)
        (rows df3) y_synthetic.
Proof.
  intros Hnd Hcols Hshape Hne Hin Hlen.
  destruct (one_hot_cols_positions X_col_names Hne) as [pss Hpss].
  destruct (one_hot_stage_run X_col_names X_synthetic pss Hnd Hcols Hshape Hpss)
    as [σ' Hstage].
  set (df0 := mkDataFrame X_col_names
                (map (fun r => mkRow (r_label r) (repair_all pss (r_cells r)))
                   (rows X_synthetic))) in *.
  assert (well_shaped df0) as Hshape0.
  { unfold well_shaped, df0. simpl. apply Forall_fmap.
    eapply Forall_impl; [exact Hshape|]. intros r Hr. simpl.
    rewrite repair_all_length. by rewrite <- Hcols. }
  apply Forall_app in Hin as [Hint Hbin].
  destruct (foldM_map_column np.round integer_cols df0 Hshape0 Hint)
    as (df1 & Hrun1 & Hshape1 & Hcols1 & Hkeeps1).
  destruct (foldM_map_column (fun x => np.round (np.clip x 0 1)) binary_cols
              df1 Hshape1)
    as (df2 & Hrun2 & Hshape2 & Hcols2 & Hkeeps2).
  { by rewrite Hcols1. }
  destruct (set_column_spec df2 y_label y_synthetic Hshape2)
    as (df3 & Hrun3 & Hshape3 & Hcols3 & Hkeeps3 & Hlabel).
  { rewrite Hlen. apply Forall2_length in Hkeeps1, Hkeeps2.
    rewrite <- Hkeeps2, <- Hkeeps1. unfold df0. simpl.
    by rewrite length_map. }
  exists pss, σ', df0, df1, df2, df3.
  assert (columns df0 = X_col_names) as Hcols0 by done.
  rewrite Hcols0 in Hcols1. rewrite Hcols1 in Hcols2.
  rewrite Hcols2 in Hcols3.
  split_and!; done.
Qed.

Lemma process_unfold (X_col_names : list string) (X_synthetic : DataFrame)
    (y_synthetic : list Q) (g : RandomState) (σ' : store)
    (df0 df1 df2 df3 : DataFrame) :
  one_hot_stage X_col_names X_synthetic [] = Ok (df0, σ') →
  foldM round_column df0 integer_cols = Ok df1 →
  foldM clip_round_column df1 binary_cols = Ok df2 →
  set_column df2 y_label y_synthetic = Ok df3 →
  process_raw_synthetic_data X_col_names X_synthetic y_synthetic g
  = sample_frac1 df3 g.
Proof.
  intros H0 H1 H2 H3. unfold process_raw_synthetic_data, mbind, result_bind.
  rewrite H0. cbv beta iota. rewrite H1, H2. by rewrite H3.
Qed.

(** C1. For a raw frame whose columns are the (distinct) feature names,
    with every prefix of [categorical] matching some column, the processing
    cell succeeds, and the frame it stores holds, in some order, one
    repaired row for every raw row and no other: the repaired row has the
    label of its raw row and, in every one-hot group, the column holding
    the first maximal raw value of the group (in the order the group lists
    its columns) is 1 and every other column of the group is 0; the cells
    of the group sum to 1. *)
Theorem one_hot_groups_repaired (X_col_names : list string)
    (X_synthetic : DataFrame) (y_synthetic : list Q) (g : RandomState) :
  NoDup X_col_names →
  columns X_synthetic = X_col_names →
  well_shaped X_synthetic →
  Forall (fun group => group ≠ []) (one_hot_cols X_col_names) →
  Forall (fun c => c ∈ X_col_names) (integer_cols ++ binary_cols) →
  length y_synthetic = length (rows X_synthetic) →
  ∃ synth_df g' repaired,
    process_raw_synthetic_data X_col_names X_synthetic y_synthetic g
    = Ok (synth_df, g')
    ∧ rows synth_df ≡ₚ repaired
    ∧ Forall2
        (fun raw r =>
           r_label r = r_label raw
           ∧ ∀ group, group ∈ one_hot_cols X_col_names →
               ∃ k chosen,
                 group !! k = Some chosen
                 ∧ first_max (omap (cell X_synthetic raw) group) k
                 ∧ (∀ c, c ∈ group →
                      ∃ q, cell synth_df r c = Some q
                         ∧ q == if decide (c = chosen) then 1 else 0)
                 ∧ Qsum (omap (cell synth_df r) group) == 1)
        (rows X_synthetic) repaired.
Proof.
  intros Hnd Hcols Hshape Hne Hin Hlen.
  destruct (process_steps X_col_names X_synthetic y_synthetic
              Hnd Hcols Hshape Hne Hin Hlen)
    as (pss & σ' & df0 & df1 & df2 & df3 & Hpss & Hdf0 & H0 & H1 & H2 & H3
        & _ & _ & _ & Hshape3 & _ & _ & Hcols3 & Hk1 & Hk2 & Hk3 & _).
  rewrite (process_unfold _ _ _ g _ _ _ _ _ H0 H1 H2 H3).
  destruct (sample_frac1_total df3 g) as (synth_df & g' & Hsample).
  exists synth_df, g', (rows df3). split; [done|].
  apply sample_frac1_Permutation in Hsample as [Hcolsf Hrowsf].
  split; [done|].
  pose proof (keeps_trans _ _ _ _ _ Hk1 (keeps_trans _ _ _ _ _ Hk2 Hk3))
    as Hkeeps.
  apply Forall2_same_length_lookup_2.
  { apply Forall2_length in Hkeeps. rewrite <- Hkeeps, Hdf0. cbn [rows].
    by rewrite length_map. }
  intros i raw r Hraw Hi.
  destruct (Forall2_lookup_r _ _ _ _ _ Hkeeps Hi) as (r0 & Hr0 & Hlab & Hcells).
  rewrite Hdf0 in Hr0. simpl in Hr0. rewrite list_lookup_fmap, Hraw in Hr0.
  simpl in Hr0. injection Hr0 as <-.
  split; [done|].
  assert (length (r_cells raw) = length X_col_names) as Hrawlen.
  { eapply Forall_lookup_1 in Hshape; [|exact Hraw].
    simpl in Hshape. by rewrite Hshape, Hcols. }
  intros group Hgroup. apply list_elem_of_lookup in Hgroup as [t Ht].
  destruct (Forall2_lookup_l _ _ _ _ _ Hpss Ht) as (ps & Hps & Hlocs & Hpne & Hplt).
  pose proof (one_hot_cols_NoDup _ _ _ Hnd Ht) as Hgnd.
  destruct (repair_all_gather pss t ps (r_cells raw) Hps)
    as (highest & Hfm & Hgather).
  { apply Forall_lookup. intros j ps' Hj.
    destruct (Forall2_lookup_r _ _ _ _ _ Hpss Hj) as (g0 & Hg0 & Hl' & Hn' & Hlt').
    split; [|split; [done|by rewrite Hrawlen]].
    eapply get_locs_NoDup; [|exact Hl'].
    exact (one_hot_cols_NoDup _ _ _ Hnd Hg0). }
  { intros j1 j2 ps1 ps2 p Hj Hj1 Hj2 Hp1 Hp2.
    destruct (Forall2_lookup_r _ _ _ _ _ Hpss Hj1) as (g1 & Hg1 & Hl1 & _).
    destruct (Forall2_lookup_r _ _ _ _ _ Hpss Hj2) as (g2 & Hg2 & Hl2 & _).
    apply get_locs_Forall2 in Hl1, Hl2.
    apply list_elem_of_lookup in Hp1 as [k1 Hk1'].
    apply list_elem_of_lookup in Hp2 as [k2 Hk2'].
    destruct (Forall2_lookup_r _ _ _ _ _ Hl1 Hk1') as (c1 & Hc1 & Hloc1).
    destruct (Forall2_lookup_r _ _ _ _ _ Hl2 Hk2') as (c2 & Hc2 & Hloc2).
    apply get_loc_lookup in Hloc1, Hloc2.
    assert (c2 = c1) as -> by congruence.
    destruct (one_hot_cols_elem _ _ _ c1 Hg1) as (_ & col1 & Hcol1 & Hpre1);
      [by eapply list_elem_of_lookup_2|].
    destruct (one_hot_cols_elem _ _ _ c1 Hg2) as (_ & col2 & Hcol2 & Hpre2);
      [by eapply list_elem_of_lookup_2|].
    apply Hj. by eapply categorical_disjoint. }
  assert (Forall (fun p => (p < length (r_cells raw))%nat) ps) as Hplt'
    by by rewrite Hrawlen.
  pose proof (gather_length ps (r_cells raw) Hplt') as Hglen.
  pose proof (get_locs_length _ _ _ Hlocs) as Hpslen.
  pose proof (first_max_lt_length _ _ Hfm) as Hh.
  destruct (lookup_lt_is_Some_2 group highest) as [chosen Hchosen]; [lia|].
  (* the cells of the stored row under the columns of the group *)
  assert (∀ k c, group !! k = Some c →
            cell synth_df r c
            = one_hot_at highest (gather ps (r_cells raw)) !! k) as Hcell.
  { intros k c Hk. unfold cell at 1. rewrite Hcolsf. fold (cell df3 r c).
    rewrite Hcells.
    - rewrite Hdf0. unfold cell. simpl.
      apply get_locs_Forall2 in Hlocs.
      destruct (Forall2_lookup_l _ _ _ _ _ Hlocs Hk) as (p & Hp & Hloc).
      rewrite Hloc, <- Hgather. symmetry. apply gather_lookup; [|done].
      by rewrite repair_all_length.
    - destruct (one_hot_cols_elem _ _ _ c Ht) as (_ & col & Hcol & Hpre);
        [by eapply list_elem_of_lookup_2|].
      eapply group_column_not_rounded; [|exact Hpre].
      by eapply list_elem_of_lookup_2. }
  exists highest, chosen. split; [done|]. split.
  { rewrite (omap_cell_gather X_synthetic raw group ps); [done|].
    by rewrite Hcols. }
  split.
  - intros c Hc. apply list_elem_of_lookup in Hc as [k Hk].
    rewrite (Hcell k c Hk).
    destruct (one_hot_at_lookup highest (gather ps (r_cells raw)) k)
      as (y & Hy & Heq); [done| |].
    { apply lookup_lt_Some in Hk. lia. }
    exists y. split; [done|]. rewrite Heq.
    destruct (decide (k = highest)) as [->|Hkh].
    + assert (c = chosen) as -> by congruence. by destruct (decide _).
    + destruct (decide (c = chosen)) as [->|]; [|reflexivity].
      exfalso. apply Hkh. by eapply NoDup_lookup.
  - assert (omap (cell synth_df r) group
            = one_hot_at highest (gather ps (r_cells raw))) as ->.
    { apply list_eq. intros k.
      destruct (group !! k) as [c|] eqn:Hk.
      - rewrite <- (Hcell k c Hk).
        assert (Forall (fun c => is_Some (cell synth_df r c)) group) as Hall.
        { apply Forall_lookup. intros k' c' Hk'. rewrite (Hcell k' c' Hk').
          apply lookup_lt_is_Some_2. unfold one_hot_at.
          rewrite length_insert, length_map.
          apply lookup_lt_Some in Hk'. lia. }
        clear -Hall Hk. revert k Hk.
        induction Hall as [|c0 group [q Hq] _ IH]; intros k Hk; [done|].
        simpl. rewrite Hq. simpl. destruct k as [|k]; simpl in *.
        + by injection Hk as ->.
        + by apply IH.
      - apply lookup_ge_None in Hk.
        rewrite !lookup_ge_None_2; [done| |].
        + unfold one_hot_at. rewrite length_insert, length_map. lia.
        + etransitivity; [apply omap_length_le|]. done. }
    by apply Qsum_one_hot_at.
Qed.

(** The cell run on the two raw rows of [Demo.X_raw]. *)
Lemma one_hot_groups_repaired_witness :
  ∃ synth_df g' repaired,
    process_raw_synthetic_data Demo.cols Demo.X_raw Demo.y_raw
      (Demo.gen Demo.draws)
    = Ok (synth_df, g')
    ∧ rows synth_df ≡ₚ repaired
    ∧ Forall2
        (fun raw r =>
           r_label r = r_label raw
           ∧ ∀ group, group ∈ one_hot_cols Demo.cols →
               ∃ k chosen,
                 group !! k = Some chosen
                 ∧ first_max (omap (cell Demo.X_raw raw) group) k
                 ∧ (∀ c, c ∈ group →
                      ∃ q, cell synth_df r c = Some q
                         ∧ q == if decide (c = chosen) then 1 else 0)
                 ∧ Qsum (omap (cell synth_df r) group) == 1)
        (rows Demo.X_raw) repaired.
Proof.
  apply (one_hot_groups_repaired Demo.cols Demo.X_raw Demo.y_raw
           (Demo.gen Demo.draws)).
  - apply (bool_decide_unpack _). vm_compute. exact I.
  - reflexivity.
  - repeat constructor.
  - repeat constructor; discriminate.
  - apply (bool_decide_unpack _). vm_compute. exact I.
  - reflexivity.
Defined.

(** ** Rounding *)





(** ** Standardising *)

Lemma fit_inv `{Sqrt} (X : DataFrame) (sc : sklearn.StandardScaler) :
  sklearn.fit X = Ok sc →
  rows X ≠ [] ∧ columns X ≠ []
  ∧ sklearn.feature_names_in_ sc = columns X
  ∧ length (sklearn.mean_ sc) = length (columns X)
  ∧ length (sklearn.scale_ sc) = length (columns X)
  ∧ ∀ j, (j < length (columns X))%nat →
      sklearn.mean_ sc !! j
      = Some (sklearn.mean (sklearn.feature (sklearn.values_of X) j))
      ∧ sklearn.scale_ sc !! j
        = Some (sklearn.handle_zeros_in_scale
                  (np_sqrt (sklearn.variance
                              (sklearn.feature (sklearn.values_of X) j)))
                  (sklearn.is_constant_feature
                     (sklearn.variance
                        (sklearn.feature (sklearn.values_of X) j))
                     (sklearn.mean (sklearn.feature (sklearn.values_of X) j))
                     (length (rows X)))).
Proof.
  unfold sklearn.fit.
  match goal with |- context [Ok ?b] => set (sc0 := b) end.
  destruct (rows X) as [|r rs] eqn:Hr; [done|].
  destruct (columns X) as [|c cs] eqn:Hc; [done|].
  intros [= <-]. subst sc0. rewrite <- Hr, <- Hc.
  cbn [sklearn.feature_names_in_ sklearn.mean_ sklearn.scale_].
  split; [by rewrite Hr|]. split; [by rewrite Hc|]. split; [done|].
  rewrite length_zip_with, !length_map, length_seq.
  split; [done|]. split; [lia|].
  intros j Hj. rewrite lookup_zip_with, !list_lookup_fmap.
  by rewrite lookup_seq_lt.
Qed.

Lemma fit_run `{Sqrt} (X : DataFrame) :
  rows X ≠ [] → columns X ≠ [] → ∃ sc, sklearn.fit X = Ok sc.
Proof.
  intros Hr Hc. unfold sklearn.fit.
  destruct (rows X); [done|]. destruct (columns X); [done|]. by eexists.
Qed.

Lemma transform_inv (sc : sklearn.StandardScaler) (X : DataFrame)
    (t : list (list Q)) :
  sklearn.transform sc X = Ok t →
  columns X = sklearn.feature_names_in_ sc
  ∧ rows X ≠ []
  ∧ length (columns X) = length (sklearn.mean_ sc)
  ∧ t = map (sklearn.transform_row sc) (sklearn.values_of X).
Proof.
  unfold sklearn.transform.
  destruct (bool_decide_reflect (columns X = sklearn.feature_names_in_ sc))
    as [Hn|]; [|done]. cbn [negb].
  destruct (rows X) as [|r rs]; [done|].
  destruct (length (columns X) =? length (sklearn.mean_ sc))%nat eqn:Hw;
    [|done].
  intros [= <-]. apply Nat.eqb_eq in Hw. done.
Qed.

Lemma transform_run (sc : sklearn.StandardScaler) (X : DataFrame) :
  columns X = sklearn.feature_names_in_ sc →
  rows X ≠ [] →
  length (columns X) = length (sklearn.mean_ sc) →
  sklearn.transform sc X
  = Ok (map (sklearn.transform_row sc) (sklearn.values_of X)).
Proof.
  intros Hn Hr Hw. unfold sklearn.transform.
  rewrite (bool_decide_eq_true_2 _ Hn). cbn [negb].
  destruct (rows X); [done|]. by rewrite Hw, Nat.eqb_refl.
Qed.

(** [standardise_data] returns exactly when the reference frame has rows and
    columns and the second frame has rows and the columns of the first. *)
Lemma standardise_data_run `{Sqrt} (X_train X_test : DataFrame)
    (sc : sklearn.StandardScaler) :
  sklearn.fit X_train = Ok sc →
  rows X_test ≠ [] →
  columns X_test = columns X_train →
  standardise_data X_train X_test
  = Ok (map (sklearn.transform_row sc) (sklearn.values_of X_train),
        map (sklearn.transform_row sc) (sklearn.values_of X_test)).
Proof.
  intros Hfit Hr Hc.
  destruct (fit_inv _ _ Hfit) as (Hr' & _ & Hn & Hm & _).
  unfold standardise_data, mbind, result_bind. rewrite Hfit.
  rewrite (transform_run sc X_train); [|done..].
  rewrite (transform_run sc X_test); [done|congruence|done|congruence].
Qed.

Lemma standardise_data_inv `{Sqrt} (X_train X_test : DataFrame)
    (train_std test_std : list (list Q)) :
  standardise_data X_train X_test = Ok (train_std, test_std) →
  ∃ sc, sklearn.fit X_train = Ok sc
      ∧ rows X_test ≠ []
      ∧ columns X_test = columns X_train
      ∧ train_std
        = map (sklearn.transform_row sc) (sklearn.values_of X_train)
      ∧ test_std
        = map (sklearn.transform_row sc) (sklearn.values_of X_test).
Proof.
  unfold standardise_data, mbind, result_bind.
  destruct (sklearn.fit X_train) as [sc|] eqn:Hfit; [|done].
  destruct (sklearn.transform sc X_train) as [a|] eqn:Ha; [|done].
  destruct (sklearn.transform sc X_test) as [b|] eqn:Hb; [|done].
  intros [= <- <-]. exists sc.
  destruct (fit_inv _ _ Hfit) as (_ & _ & Hn & _).
  apply transform_inv in Ha as (_ & _ & _ & ->).
  apply transform_inv in Hb as (Hn' & Hr & _ & ->).
  split; [done|]. split; [done|]. split; [congruence|]. done.
Qed.

Lemma is_constant_zero_variance (var mean : Q) (n : nat) :
  var == 0 → sklearn.is_constant_feature var mean n = true.
Proof.
  intros Hv. unfold sklearn.is_constant_feature. apply Qle_bool_iff.
  rewrite Hv.
  set (t := nat_Q n * mean * sklearn.eps).
  pose proof (Qsquare_nonneg t). lra.
Qed.

(** C8, as the code has it. Standardising does not fail for a feature of
    zero variance: with a reference set that has rows and columns and a
    second frame that has rows and the same columns, [standardise_data]
    returns. The scaler takes a feature for constant when its variance is
    at most [n * eps * var + (n * mean * eps)^2]; a feature of zero
    variance is such a feature, gets the scale 1 and is only centred. A
    feature the scaler does not take for constant is centred and divided
    by the root of its variance. *)
Theorem zero_variance_feature_gets_unit_scale `{Sqrt}
    (X_train X_test : DataFrame) (j : nat) :
  rows X_train ≠ [] →
  columns X_train ≠ [] →
  rows X_test ≠ [] →
  columns X_test = columns X_train →
  (j < length (columns X_train))%nat →
  sklearn.variance (sklearn.feature (sklearn.values_of X_train) j) == 0 →
  ∃ sc train_std test_std,
    sklearn.fit X_train = Ok sc
    ∧ standardise_data X_train X_test = Ok (train_std, test_std)
    ∧ sklearn.scale_ sc !! j = Some 1
    ∧ (∀ i r x, rows X_test !! i = Some r → r_cells r !! j = Some x →
         ∃ row m t, test_std !! i = Some row
                  ∧ sklearn.mean_ sc !! j = Some m
                  ∧ row !! j = Some t
                  ∧ t == x - m)
    ∧ ∀ j', (j' < length (columns X_train))%nat →
        let f := sklearn.feature (sklearn.values_of X_train) j' in
        (sklearn.is_constant_feature (sklearn.variance f) (sklearn.mean f)
           (length (rows X_train)) = true →
         sklearn.scale_ sc !! j' = Some 1)
        ∧ (sklearn.is_constant_feature (sklearn.variance f) (sklearn.mean f)
             (length (rows X_train)) = false →
           sklearn.scale_ sc !! j' = Some (np_sqrt (sklearn.variance f))
           ∧ ∀ i r x, rows X_test !! i = Some r → r_cells r !! j' = Some x →
               ∃ row t, test_std !! i = Some row
                      ∧ row !! j' = Some t
                      ∧ t == (x - sklearn.mean f)
                             / np_sqrt (sklearn.variance f)).
Proof.
  intros Hne Hcne Htest Hcols Hj Hvar.
  destruct (fit_run X_train Hne Hcne) as [sc Hfit].
  destruct (fit_inv _ _ Hfit) as (_ & _ & Hn & Hmlen & Hslen & Hat).
  destruct (Hat j Hj) as [Hm Hs].
  rewrite (is_constant_zero_variance _ _ _ Hvar) in Hs.
  cbn [sklearn.handle_zeros_in_scale] in Hs.
  exists sc, (map (sklearn.transform_row sc) (sklearn.values_of X_train)),
    (map (sklearn.transform_row sc) (sklearn.values_of X_test)).
  split; [done|]. split; [by apply standardise_data_run|].
  split; [done|]. split.
  { intros i r x Hr Hx.
    eexists _, _, _. split.
    { unfold sklearn.values_of. by rewrite !list_lookup_fmap, Hr. }
    split; [exact Hm|]. split.
    { unfold sklearn.transform_row. rewrite lookup_zip_with, Hx.
      cbn [option_bind mbind]. rewrite lookup_zip_with, Hm.
      cbn [option_bind mbind]. by rewrite Hs. }
    cbn [fst snd]. rewrite Qred_correct. field. }
  intros j' Hj' f. destruct (Hat j' Hj') as [Hm' Hs']. fold f in Hm', Hs'.
  split.
  - intros Hconst. by rewrite Hconst in Hs'.
  - intros Hconst. rewrite Hconst in Hs'.
    cbn [sklearn.handle_zeros_in_scale] in Hs'. split; [done|].
    intros i r x Hr Hx. eexists _, _. split.
    { unfold sklearn.values_of. by rewrite !list_lookup_fmap, Hr. }
    split.
    { unfold sklearn.transform_row. rewrite lookup_zip_with, Hx.
      cbn [option_bind mbind]. rewrite lookup_zip_with, Hm'.
      cbn [option_bind mbind]. by rewrite Hs'. }
    cbn [fst snd]. by rewrite Qred_correct.
Qed.

(** The frame [Demo.X_const], standardised on itself. *)
Lemma zero_variance_feature_gets_unit_scale_witness :
  ∃ sc train_std test_std,
    sklearn.fit (H := floor_sqrt) Demo.X_const = Ok sc
    ∧ standardise_data (H := floor_sqrt) Demo.X_const Demo.X_const
      = Ok (train_std, test_std)
    ∧ sklearn.scale_ sc !! 1%nat = Some 1
    ∧ (∀ i r x, rows Demo.X_const !! i = Some r →
         r_cells r !! 1%nat = Some x →
         ∃ row m t, test_std !! i = Some row
                  ∧ sklearn.mean_ sc !! 1%nat = Some m
                  ∧ row !! 1%nat = Some t
                  ∧ t == x - m)
    ∧ ∀ j', (j' < length (columns Demo.X_const))%nat →
        let f := sklearn.feature (sklearn.values_of Demo.X_const) j' in
        (sklearn.is_constant_feature (sklearn.variance f) (sklearn.mean f)
           (length (rows Demo.X_const)) = true →
         sklearn.scale_ sc !! j' = Some 1)
        ∧ (sklearn.is_constant_feature (sklearn.variance f) (sklearn.mean f)
             (length (rows Demo.X_const)) = false →
           sklearn.scale_ sc !! j'
           = Some (np_sqrt (Sqrt := floor_sqrt) (sklearn.variance f))
           ∧ ∀ i r x, rows Demo.X_const !! i = Some r →
               r_cells r !! j' = Some x →
               ∃ row t, test_std !! i = Some row
                      ∧ row !! j' = Some t
                      ∧ t == (x - sklearn.mean f)
                             / np_sqrt (Sqrt := floor_sqrt)
                                 (sklearn.variance f)).
Proof.
  apply (zero_variance_feature_gets_unit_scale (H := floor_sqrt)
           Demo.X_const Demo.X_const 1).
  - discriminate.
  - discriminate.
  - discriminate.
  - reflexivity.
  - simpl. lia.
  - reflexivity.
Defined.

(** C8, as the claim has it, fails: the second feature of [Demo.X_const]
    has zero variance and the standardiser returns, the feature being
    centred and left unscaled. *)
Lemma zero_variance_does_not_fail :
  sklearn.variance
    (sklearn.feature (sklearn.values_of Demo.X_const) 1) == 0
  ∧ standardise_data (H := floor_sqrt) Demo.X_const Demo.X_const
    = Ok ([[-1; 0]; [1; 0]], [[-1; 0]; [1; 0]]).
Proof. split; reflexivity. Qed.

(** ** The identity removal *)

Lemma mask_rows_filter (f : Row → bool) (rs : list Row) :
  mask_rows rs (map f rs) = filter (fun r => f r = true) rs.
Proof.
  induction rs as [|r rs IH]; [done|]. simpl.
  rewrite filter_cons, IH.
  destruct (f r); by destruct (decide _).
Qed.

(** The cell keeps exactly the rows whose stored distance is not below the
    threshold, in their order. *)
Lemma remove_identical_spec (synth_df : DataFrame) :
  well_shaped synth_df →
  distance_col ∈ columns synth_df →
  remove_identical synth_df
  = Ok (mkDataFrame (columns synth_df)
          (filter (fun r => far_enough synth_df r = true) (rows synth_df))).
Proof.
  intros Hshape Hin.
  destruct (get_loc_elem _ _ Hin) as [p Hp].
  destruct (column_run synth_df distance_col p Hshape Hp) as (d & Hd & Hcells).
  unfold remove_identical. rewrite Hd. simpl. unfold getitem_mask.
  do 2 f_equal. rewrite <- mask_rows_filter. f_equal.
  rewrite <- list_fmap_compose.
  apply list_eq. intros i. rewrite !list_lookup_fmap.
  destruct (rows synth_df !! i) as [r|] eqn:Hr.
  - destruct (Forall2_lookup_l _ _ _ _ _ Hcells Hr) as (q & Hq & Hrq).
    rewrite Hq. simpl. unfold far_enough, cell. rewrite Hp, Hrq.
    by destruct (Qlt_le_dec q identity_threshold).
  - apply Forall2_length in Hcells.
    rewrite (lookup_ge_None_2 d); [done|].
    apply lookup_ge_None in Hr. lia.
Qed.

Lemma remove_identical_survivors (synth_df filtered : DataFrame) (r : Row) :
  well_shaped synth_df →
  distance_col ∈ columns synth_df →
  remove_identical synth_df = Ok filtered →
  r ∈ rows filtered ↔
  r ∈ rows synth_df
  ∧ ∃ q, cell synth_df r distance_col = Some q ∧ identity_threshold <= q.
Proof.
  intros Hshape Hin Hrun.
  rewrite (remove_identical_spec _ Hshape Hin) in Hrun.
  injection Hrun as <-. simpl. rewrite list_elem_of_filter.
  unfold far_enough. split.
  - intros [Hfar Hr]. split; [done|].
    destruct (cell synth_df r distance_col) as [q|]; [|done].
    exists q. split; [done|].
    by destruct (Qlt_le_dec q identity_threshold).
  - intros (Hr & q & Hq & Hle). split; [|done]. rewrite Hq.
    destruct (Qlt_le_dec q identity_threshold) as [Hlt|]; [|done].
    exfalso. by apply (Qlt_not_le _ _ Hlt).
Qed.

(** C6, as the code has it. When the stored distance of every record is
    below the threshold, the identity removal returns the frame with no
    row left, and raises nothing. *)
Theorem identity_removal_may_return_empty (synth_df : DataFrame) :
  well_shaped synth_df →
  distance_col ∈ columns synth_df →
  (∀ r, r ∈ rows synth_df →
     ∃ q, cell synth_df r distance_col = Some q ∧ q < identity_threshold) →
  remove_identical synth_df = Ok (mkDataFrame (columns synth_df) []).
Proof.
  intros Hshape Hin Hall.
  rewrite (remove_identical_spec _ Hshape Hin). do 2 f_equal.
  destruct (filter _ _) as [|r rs] eqn:Hf; [done|].
  assert (r ∈ filter (fun r => far_enough synth_df r = true) (rows synth_df))
    as Hr by (rewrite Hf; apply list_elem_of_here).
  apply list_elem_of_filter in Hr as [Hfar Hr].
  destruct (Hall r Hr) as (q & Hq & Hlt).
  unfold far_enough in Hfar. rewrite Hq in Hfar.
  destruct (Qlt_le_dec q identity_threshold) as [|Hle]; [done|].
  exfalso. by apply (Qlt_not_le _ _ Hlt).
Qed.

(** The removal run on [Demo.all_identical]. *)
Lemma identity_removal_may_return_empty_witness :
  remove_identical Demo.all_identical
  = Ok (mkDataFrame (columns Demo.all_identical) []).
Proof.
  apply (identity_removal_may_return_empty Demo.all_identical).
  - repeat constructor.
  - apply (bool_decide_unpack _). vm_compute. exact I.
  - intros r Hr. unfold Demo.all_identical in Hr. simpl in Hr.
    repeat (apply elem_of_cons in Hr as [->|Hr]);
      [eexists; split; [reflexivity|reflexivity]..|].
    by apply elem_of_nil in Hr.
Defined.

(** C6, as the claim has it, fails: every row of [Demo.all_identical] is
    within the threshold of a real point, and the removal returns an empty
    frame where the claim has it raise. *)
Lemma identity_removal_does_not_raise :
  Forall (fun r => far_enough Demo.all_identical r = false)
    (rows Demo.all_identical)
  ∧ (∃ filtered, remove_identical Demo.all_identical = Ok filtered
               ∧ rows filtered = [])
  ∧ ∀ e, remove_identical Demo.all_identical ≠ Raise e.
Proof.
  split; [by repeat constructor|].
  split; [by eexists|]. intros e. discriminate.
Qed.

(** With no row left the notebook goes on, until the display cell draws a
    row and fails. *)
Lemma show_examples_empty (n : nat) (synth_df : DataFrame) (g : RandomState) :
  rows synth_df = [] → show_examples (S n) synth_df g = Raise ValueError.
Proof. intros Hrows. simpl. unfold sample, choice. by rewrite Hrows. Qed.

(** ** The rebalancing cell *)

Lemma label_mask_spec (df : DataFrame) (c : Q) :
  well_shaped df →
  y_label ∈ columns df →
  ∃ mask, label_mask df c = Ok mask
        ∧ rows (getitem_mask df mask) = class_pool df c.
Proof.
  intros Hshape Hin.
  destruct (get_loc_elem _ _ Hin) as [p Hp].
  destruct (column_run df y_label p Hshape Hp) as (ys & Hys & Hcells).
  unfold label_mask. rewrite Hys. simpl. eexists. split; [done|].
  unfold class_pool. simpl. rewrite <- mask_rows_filter. f_equal.
  apply list_eq. intros i. rewrite !list_lookup_fmap.
  destruct (rows df !! i) as [r|] eqn:Hr.
  - destruct (Forall2_lookup_l _ _ _ _ _ Hcells Hr) as (v & Hv & Hrv).
    rewrite Hv. simpl. unfold has_label, cell. by rewrite Hp, Hrv.
  - apply Forall2_length in Hcells.
    rewrite (lookup_ge_None_2 ys); [done|].
    apply lookup_ge_None in Hr. lia.
Qed.

Lemma has_label_exclusive (df : DataFrame) (r : Row) :
  has_label df 0 r = true → has_label df 1 r = false.
Proof.
  unfold has_label. destruct (cell df r y_label) as [v|]; [|done].
  intros H0. apply Qeq_bool_iff in H0.
  destruct (Qeq_bool v 1) eqn:H1; [|done].
  apply Qeq_bool_iff in H1. rewrite H0 in H1. discriminate.
Qed.

Lemma has_label_same_columns (df df' : DataFrame) (c : Q) (r : Row) :
  columns df' = columns df → has_label df' c r = has_label df c r.
Proof. intros Hcols. unfold has_label, cell. by rewrite Hcols. Qed.

Lemma filter_all {A} (P : A → Prop) `{∀ x, Decision (P x)} (l : list A) :
  Forall P l → filter P l = l.
Proof.
  induction 1 as [|a l Ha _ IH]; [done|].
  rewrite filter_cons. destruct (decide (P a)); [by rewrite IH|done].
Qed.

Lemma filter_none {A} (P : A → Prop) `{∀ x, Decision (P x)} (l : list A) :
  Forall (fun a => ¬ P a) l → filter P l = [].
Proof.
  induction 1 as [|a l Ha _ IH]; [done|].
  rewrite filter_cons. by destruct (decide (P a)).
Qed.

Lemma submseteq_Forall {A} (P : A → Prop) (l k : list A) :
  l ⊆+ k → Forall P k → Forall P l.
Proof.
  intros Hsub Hk. apply Forall_forall. intros a Ha.
  eapply Forall_forall in Hk; [exact Hk|].
  by eapply elem_of_submseteq.
Qed.

(** C3. The rebalancing cell raises (pandas' ValueError, standing for the
    specification's InsufficientSyntheticDataError) exactly when the pool
    of some class has fewer rows than the class's target. Otherwise it
    returns a frame whose rows are, in some order, [number_positive_stroke]
    rows drawn without replacement from the pool's rows of class 1 and
    [number_negative_stroke] rows drawn without replacement from its rows
    of class 0: the class counts of the output are the targets. *)
Theorem rebalance_exact_or_raises (synth_df : DataFrame)
    (number_positive_stroke number_negative_stroke : nat) (g : RandomState) :
  well_shaped synth_df →
  y_label ∈ columns synth_df →
  ((length (class_pool synth_df 1) < number_positive_stroke)%nat
   ∨ (length (class_pool synth_df 0) < number_negative_stroke)%nat
   ↔ rebalance synth_df number_positive_stroke number_negative_stroke g
     = Raise ValueError)
  ∧ ((number_positive_stroke ≤ length (class_pool synth_df 1))%nat
     ∧ (number_negative_stroke ≤ length (class_pool synth_df 0))%nat
     ↔ ∃ out g',
         rebalance synth_df number_positive_stroke number_negative_stroke g
         = Ok (out, g'))
  ∧ ∀ out g',
      rebalance synth_df number_positive_stroke number_negative_stroke g
      = Ok (out, g') →
      columns out = columns synth_df
      ∧ length (class_pool out 1) = number_positive_stroke
      ∧ length (class_pool out 0) = number_negative_stroke
      ∧ ∃ pos neg,
          rows out ≡ₚ pos ++ neg
          ∧ pos ⊆+ class_pool synth_df 1
          ∧ length pos = number_positive_stroke
          ∧ neg ⊆+ class_pool synth_df 0
          ∧ length neg = number_negative_stroke.
Proof.
  intros Hshape Hin.
  destruct (label_mask_spec synth_df 1 Hshape Hin) as (mask1 & Hm1 & Hp1).
  destruct (label_mask_spec synth_df 0 Hshape Hin) as (mask0 & Hm0 & Hp0).
  unfold rebalance. rewrite Hm1, Hm0. simpl.
  set (df1 := getitem_mask synth_df mask1) in *.
  set (df0 := getitem_mask synth_df mask0) in *.
  destruct (decide (number_positive_stroke ≤ length (rows df1))%nat)
    as [Hle1|Hgt1].
  2: { rewrite sample_raises by lia. simpl. rewrite <- Hp1.
       split; [split; [done|intros _; left; lia]|].
       split; [|done]. split; [lia|]. by intros (? & ? & ?). }
  destruct (sample_returns df1 _ g Hle1)
    as (pos & g1 & Hrun1 & Hcols1 & Hsub1 & Hlen1).
  rewrite Hrun1. simpl.
  destruct (decide (number_negative_stroke ≤ length (rows df0))%nat)
    as [Hle0|Hgt0].
  2: { rewrite sample_raises by lia. simpl. rewrite <- Hp0, <- Hp1.
       split; [split; [done|intros _; right; lia]|].
       split; [|done]. split; [lia|]. by intros (? & ? & ?). }
  destruct (sample_returns df0 _ g1 Hle0)
    as (neg & g2 & Hrun0 & Hcols0 & Hsub0 & Hlen0).
  rewrite Hrun0. simpl.
  destruct (sample_frac1_total (concat_rows pos neg) g2) as (out & g' & Hrun).
  rewrite Hrun. rewrite <- Hp1, <- Hp0.
  split; [split; [lia|done]|].
  split; [split; [by eexists _, _|done]|].
  intros out' g'' [= <- <-].
  apply sample_frac1_Permutation in Hrun as [Hcols Hperm]. simpl in *.
  assert (columns out = columns synth_df) as Hcols' by by rewrite Hcols, Hcols1.
  assert (Forall (fun r => has_label out 1 r = true) (rows pos)) as Hpos1.
  { eapply submseteq_Forall; [exact Hsub1|]. rewrite Hp1.
    apply Forall_forall. intros r Hr.
    apply list_elem_of_filter in Hr as [Hr _].
    by rewrite (has_label_same_columns synth_df out). }
  assert (Forall (fun r => has_label out 0 r = true) (rows neg)) as Hneg0.
  { eapply submseteq_Forall; [exact Hsub0|]. rewrite Hp0.
    apply Forall_forall. intros r Hr.
    apply list_elem_of_filter in Hr as [Hr _].
    by rewrite (has_label_same_columns synth_df out). }
  split; [done|]. split; [|split].
  - unfold class_pool. rewrite Hperm, filter_app, length_app.
    rewrite (filter_all _ _ Hpos1), filter_none; [simpl; lia|].
    eapply Forall_impl; [exact Hneg0|]. intros r Hr.
    by rewrite (has_label_exclusive _ _ Hr).
  - unfold class_pool. rewrite Hperm, filter_app, length_app.
    rewrite (filter_all _ _ Hneg0), filter_none; [simpl; lia|].
    eapply Forall_impl; [exact Hpos1|]. intros r Hr H0.
    apply has_label_exclusive in H0. congruence.
  - exists (rows pos), (rows neg).
    split_and!; [done|exact Hsub1|done|exact Hsub0|done].
Qed.

(** The cell run on [Demo.pool] for one row of each class. *)
Lemma rebalance_exact_or_raises_witness :
  ((length (class_pool Demo.pool 1) < 1)%nat
   ∨ (length (class_pool Demo.pool 0) < 1)%nat
   ↔ rebalance Demo.pool 1 1 (Demo.gen Demo.draws) = Raise ValueError)
  ∧ ((1 ≤ length (class_pool Demo.pool 1))%nat
     ∧ (1 ≤ length (class_pool Demo.pool 0))%nat
     ↔ ∃ out g', rebalance Demo.pool 1 1 (Demo.gen Demo.draws)
                 = Ok (out, g'))
  ∧ ∀ out g',
      rebalance Demo.pool 1 1 (Demo.gen Demo.draws) = Ok (out, g') →
      columns out = columns Demo.pool
      ∧ length (class_pool out 1) = 1%nat
      ∧ length (class_pool out 0) = 1%nat
      ∧ ∃ pos neg,
          rows out ≡ₚ pos ++ neg
          ∧ pos ⊆+ class_pool Demo.pool 1
          ∧ length pos = 1%nat
          ∧ neg ⊆+ class_pool Demo.pool 0
          ∧ length neg = 1%nat.
Proof.
  apply (rebalance_exact_or_raises Demo.pool 1 1 (Demo.gen Demo.draws)).
  - repeat constructor.
  - apply (bool_decide_unpack _). vm_compute. exact I.
Defined.

(** ** SMOTE *)

Lemma repeat_draw_length {A} (draw : RandomState → A * RandomState) (n : nat)
    (g : RandomState) :
  length (repeat_draw draw n g).1 = n.
Proof.
  revert g. induction n as [|n IH]; intros g; simpl; [done|].
  destruct (draw g) as [a g1]. specialize (IH g1).
  destruct (repeat_draw draw n g1) as [l g2]. simpl in *. by rewrite IH.
Qed.

Lemma repeat_draw_Forall {A} (P : A → Prop)
    (draw : RandomState → A * RandomState) (n : nat) (g : RandomState) :
  (∀ g, P (draw g).1) → Forall P (repeat_draw draw n g).1.
Proof.
  intros Hdraw. revert g. induction n as [|n IH]; intros g; simpl;
    [constructor|].
  pose proof (Hdraw g) as Ha. destruct (draw g) as [a g1].
  specialize (IH g1). destruct (repeat_draw draw n g1) as [l g2].
  simpl in *. by constructor.
Qed.

(** *** The words of the generator *)

Lemma rs_stream_range (g : RandomState) (n : nat) :
  (0 ≤ rs_stream g n < 2 ^ 32)%Z.
Proof. unfold rs_stream. apply Z.mod_pos_bound. lia. Qed.

Lemma rs_stream_mk (g : RandomState) (p n : nat) :
  rs_stream (mkRandomState (rs_words g) p) n = rs_stream g n.
Proof. done. Qed.

(** The word 0 comes within every period. *)
Lemma rs_zero_word (g : RandomState) (p : nat) :
  ∃ k, (k < rs_period g)%nat ∧ rs_stream g (p + k) = 0%Z.
Proof.
  unfold rs_stream, rs_period. set (L := length (rs_words g)).
  exists (L - p mod S L)%nat.
  pose proof (Nat.mod_upper_bound p (S L) ltac:(lia)) as Hr.
  split; [lia|].
  assert ((p + (L - p mod S L)) mod S L = L)%nat as ->.
  { rewrite (Nat.div_mod_eq p (S L)) at 1.
    replace (S L * (p / S L) + p mod S L + (L - p mod S L))%nat
      with (L + (p / S L) * S L)%nat by lia.
    rewrite Nat.Div0.mod_add. apply Nat.mod_small. lia. }
  by rewrite nth_overflow.
Qed.

Lemma least_position (P : nat → Prop) (n : nat) :
  (∀ k, Decision (P k)) → P n →
  ∃ k, (k ≤ n)%nat ∧ P k ∧ ∀ j, (j < k)%nat → ¬ P j.
Proof.
  intros Hdec Hn.
  assert (∀ m, (∀ j, (j < m)%nat → ¬ P j)
               ∨ ∃ k, (k < m)%nat ∧ P k ∧ ∀ j, (j < k)%nat → ¬ P j) as Hm.
  { induction m as [|m [IH|(k & Hk & HPk & Hleast)]].
    - left. intros j Hj. lia.
    - destruct (decide (P m)) as [HPm|HPm].
      + right. exists m. split; [lia|]. by split.
      + left. intros j Hj. destruct (decide (j = m)) as [->|]; [done|].
        apply IH. lia.
    - right. exists k. split; [lia|]. by split. }
  destruct (Hm n) as [Hno|(k & Hk & HPk & Hleast)].
  - exists n. by split.
  - exists k. split; [lia|]. by split.
Qed.

(** The rejection loop stops at the first word that passes. *)
Lemma masked_rejection_spec (fuel : nat) (mask max : Z) (g : RandomState)
    (k : nat) :
  (k ≤ fuel)%nat →
  (Z.land (rs_stream g (rs_pos g + k)) mask ≤ max)%Z →
  (∀ j, (j < k)%nat → (max < Z.land (rs_stream g (rs_pos g + j)) mask)%Z) →
  masked_rejection fuel mask max g
  = (Z.land (rs_stream g (rs_pos g + k)) mask,
     mkRandomState (rs_words g) (S (rs_pos g + k))).
Proof.
  revert g k. induction fuel as [|fuel IH]; intros g k Hk Hacc Hrej.
  - assert (k = 0)%nat as -> by lia. simpl. by rewrite Nat.add_0_r.
  - destruct k as [|k].
    + simpl. rewrite Nat.add_0_r in *.
      by rewrite (proj2 (Z.ltb_ge _ _) Hacc).
    + simpl. pose proof (Hrej 0%nat ltac:(lia)) as H0.
      rewrite Nat.add_0_r in H0. rewrite (proj2 (Z.ltb_lt _ _) H0).
      set (g' := mkRandomState (rs_words g) (S (rs_pos g))).
      assert (∀ n, rs_stream g' n = rs_stream g n) as Hsame by done.
      rewrite (IH g' k); [|lia|..]; rewrite ?Hsame; cbn [g' rs_pos rs_words].
      * by rewrite Nat.add_succ_r.
      * by rewrite Nat.add_succ_r in Hacc.
      * intros j Hj. rewrite Hsame. cbn [plus].
        rewrite <- Nat.add_succ_r. apply Hrej. lia.
Qed.

(** What [random_interval] answers: nothing is taken for [max = 0];
    otherwise the words from the position of the generator on are taken
    up to the first that, masked, is at most [max]. *)
Lemma random_interval_spec (g : RandomState) (max : nat) :
  max ≠ 0%nat →
  ∃ k,
    random_interval g max
    = (Z.to_nat (Z.land (rs_stream g (rs_pos g + k))
                   (gen_mask (Z.of_nat max))),
       mkRandomState (rs_words g) (S (rs_pos g + k)))
    ∧ (Z.land (rs_stream g (rs_pos g + k)) (gen_mask (Z.of_nat max))
       ≤ Z.of_nat max)%Z
    ∧ ∀ j, (j < k)%nat →
        (Z.of_nat max
         < Z.land (rs_stream g (rs_pos g + j)) (gen_mask (Z.of_nat max)))%Z.
Proof.
  intros Hmax.
  destruct (rs_zero_word g (rs_pos g)) as (k0 & Hk0 & Hzero).
  destruct (least_position
              (fun k => (Z.land (rs_stream g (rs_pos g + k))
                           (gen_mask (Z.of_nat max)) ≤ Z.of_nat max)%Z) k0)
    as (k & Hk & Hacc & Hleast).
  { intros j. apply _. }
  { rewrite Hzero, Z.land_0_l. lia. }
  exists k. split; [|split; [done|]].
  - unfold random_interval. destruct max as [|max]; [done|].
    rewrite (masked_rejection_spec _ _ _ g k); [done|lia|done|].
    intros j Hj. apply Z.nle_gt. by apply Hleast.
  - intros j Hj. apply Z.nle_gt. by apply Hleast.
Qed.

Lemma random_interval_le (g : RandomState) (max : nat) :
  ((random_interval g max).1 ≤ max)%nat.
Proof.
  destruct (decide (max = 0%nat)) as [->|Hmax]; [done|].
  destruct (random_interval_spec g max Hmax) as (k & -> & Hacc & _).
  simpl. lia.
Qed.

(** A draw keeps the words of the generator and moves it forwards, by at
    least one word unless [max = 0]. *)
Lemma random_interval_pos (g : RandomState) (max : nat) :
  rs_words (random_interval g max).2 = rs_words g
  ∧ (rs_pos g + (if decide (max = 0%nat) then 0 else 1)
     ≤ rs_pos (random_interval g max).2)%nat.
Proof.
  destruct (decide (max = 0%nat)) as [->|Hmax]; [simpl; split; [done|lia]|].
  destruct (random_interval_spec g max Hmax) as (k & -> & _).
  simpl. split; [done|lia].
Qed.

Lemma random_sample_range (g : RandomState) :
  0 <= (random_sample g).1 ∧ (random_sample g).1 < 1.
Proof.
  unfold random_sample, next_uint32. cbv beta iota zeta. cbn [fst].
  set (a := rs_stream g (rs_pos g)).
  set (b := rs_stream _ _).
  rewrite Qred_correct.
  pose proof (rs_stream_range g (rs_pos g)) as Ha. fold a in Ha.
  assert (0 ≤ b < 2 ^ 32)%Z as Hb by apply rs_stream_range.
  pose proof (Z.shiftr_nonneg a 5) as Ha1.
  pose proof (Z.shiftr_nonneg b 6) as Hb1.
  assert (Z.shiftr a 5 < 2 ^ 27)%Z as Ha2.
  { rewrite Z.shiftr_div_pow2 by lia.
    apply Z.div_lt_upper_bound; [lia|]. change (2 ^ 5 * 2 ^ 27)%Z
      with (2 ^ 32)%Z. lia. }
  assert (Z.shiftr b 6 < 2 ^ 26)%Z as Hb2.
  { rewrite Z.shiftr_div_pow2 by lia.
    apply Z.div_lt_upper_bound; [lia|]. change (2 ^ 6 * 2 ^ 26)%Z
      with (2 ^ 32)%Z. lia. }
  unfold Qle, Qlt. cbn [Qnum Qden]. split; [lia|].
  change (Z.pos (2 ^ 53)) with (2 ^ 53)%Z.
  change (2 ^ 27)%Z with 134217728%Z in Ha2.
  change (2 ^ 26)%Z with 67108864%Z in Hb2.
  change (2 ^ 53)%Z with (134217728 * 67108864)%Z. nia.
Qed.

Lemma insert_sorted_elem {A} (key : A → Q) (before : Q → Q → bool)
    (a x : A) (l : list A) :
  x ∈ insert_sorted key before a l → x = a ∨ x ∈ l.
Proof.
  induction l as [|b l IH]; simpl.
  - intros Hx. apply list_elem_of_singleton in Hx. by left.
  - destruct (before (key b) (key a)).
    + intros Hx. apply elem_of_cons in Hx as [->|Hx].
      * right. apply list_elem_of_here.
      * destruct (IH Hx) as [->|Hin]; [by left|].
        right. by apply list_elem_of_further.
    + intros Hx. apply elem_of_cons in Hx as [->|Hx]; [by left|by right].
Qed.

Lemma sort_by_elem {A} (key : A → Q) (before : Q → Q → bool) (x : A)
    (l : list A) :
  x ∈ sort_by key before l → x ∈ l.
Proof.
  unfold sort_by. induction l as [|a l IH]; simpl; [done|].
  intros Hx. apply insert_sorted_elem in Hx as [->|Hx].
  - apply list_elem_of_here.
  - apply list_elem_of_further. by apply IH.
Qed.

(** The neighbours found are positions of fitted points. *)
Lemma kneighbors_idx_bound (k : nat) (pts : list (list Q))
    (nns : list (list nat)) :
  sklearn.kneighbors_idx k pts = Ok nns →
  Forall (Forall (fun i => (i < length pts)%nat)) nns.
Proof.
  unfold sklearn.kneighbors_idx. destruct (length pts <? k)%nat; [done|].
  intros [= <-]. apply Forall_fmap, Forall_true. intros q. simpl.
  apply Forall_forall. intros i Hi.
  apply (subseteq_take k), list_elem_of_fmap in Hi as ([i' p] & -> & Hip).
  apply sort_by_elem, elem_of_lookup_imap in Hip as (j & p' & [= -> ->] & Hj).
  simpl. by eapply lookup_lt_Some.
Qed.

Lemma make_samples_length (X_class : list (list Q)) (nns : list (list nat))
    (n_samples : nat) (g : RandomState) :
  length (imblearn.make_samples X_class nns n_samples g).1 = n_samples.
Proof.
  unfold imblearn.make_samples, randint, uniform.
  pose proof (repeat_draw_length
                (fun g => random_interval g
                            (length X_class * imblearn.k_neighbors - 1))
                n_samples g) as H1.
  destruct (repeat_draw _ n_samples g) as [idxs g1]. simpl in H1.
  pose proof (repeat_draw_length random_sample n_samples g1) as H2.
  destruct (repeat_draw random_sample n_samples g1) as [steps g2].
  simpl in *. rewrite length_zip_with. lia.
Qed.

(** Every row that [_make_samples] makes lies between a row of the class
    and one of its neighbours in the class. *)
Lemma make_samples_interpolated (X_class : list (list Q))
    (nns : list (list nat)) (n_samples : nat) (g : RandomState) :
  X_class ≠ [] →
  Forall (Forall (fun i => (i < length X_class)%nat)) nns →
  Forall (fun v => ∃ p q step,
            p ∈ X_class ∧ q ∈ X_class ∧ 0 <= step ∧ step < 1
            ∧ v = imblearn.interpolate p q step)
    (imblearn.make_samples X_class nns n_samples g).1.
Proof.
  intros Hne Hnns.
  assert (0 < length X_class)%nat as Hpos by (destruct X_class; simpl; [done|lia]).
  unfold imblearn.make_samples, randint, uniform.
  pose proof (repeat_draw_Forall
                (fun i => (i ≤ length X_class * imblearn.k_neighbors - 1)%nat)
                (fun g => random_interval g
                            (length X_class * imblearn.k_neighbors - 1))
                n_samples g (fun g => random_interval_le g _)) as Hidx.
  destruct (repeat_draw _ n_samples g) as [idxs g1]. cbn [fst] in Hidx.
  pose proof (repeat_draw_Forall (fun t => 0 <= t ∧ t < 1) random_sample
                n_samples g1 random_sample_range) as Hsteps.
  destruct (repeat_draw random_sample n_samples g1) as [steps g2].
  cbn [fst] in *. clear g g1 g2.
  revert steps Hsteps.
  induction Hidx as [|idx idxs Hi _ IH]; intros steps Hsteps; [constructor|].
  destruct Hsteps as [|step steps [Hlo Hhi] Hsteps]; [constructor|].
  cbn [zip_with]. constructor; [|by apply IH].
  cbv zeta. unfold imblearn.k_neighbors in *.
  assert (idx / 5 < length X_class)%nat as Hrow.
  { apply Nat.Div0.div_lt_upper_bound. lia. }
  destruct (lookup_lt_is_Some_2 _ _ Hrow) as [p Hp]. rewrite Hp.
  cbn [from_option id].
  set (nb := default 0%nat (default [] (nns !! (idx / 5)%nat)
                              !! (idx mod 5)%nat)).
  assert (nb < length X_class)%nat as Hnb.
  { subst nb. destruct (nns !! (idx / 5)%nat) as [row|] eqn:Hr;
      cbn [from_option id].
    - destruct (row !! (idx mod 5)%nat) as [i|] eqn:Hc;
        cbn [from_option id]; [|exact Hpos].
      eapply Forall_lookup_1 in Hnns; [|exact Hr].
      by eapply Forall_lookup_1 in Hnns.
    - rewrite lookup_nil. exact Hpos. }
  destruct (lookup_lt_is_Some_2 _ _ Hnb) as [q Hq]. rewrite Hq.
  cbn [from_option id].
  exists p, q, step. split; [by eapply list_elem_of_lookup_2|].
  split; [by eapply list_elem_of_lookup_2|]. done.
Qed.

Lemma kneighbors_idx_returns (k : nat) (pts : list (list Q)) :
  (k ≤ length pts)%nat → ∃ nns, sklearn.kneighbors_idx k pts = Ok nns.
Proof.
  intros Hle. unfold sklearn.kneighbors_idx.
  destruct (length pts <? k)%nat eqn:Hlt; [apply Nat.ltb_lt in Hlt; lia|].
  by eexists.
Qed.

Lemma class_rows_length (X : list (list Q)) (y : list Q) (c : Q) :
  length X = length y →
  length (imblearn.class_rows X y c) = imblearn.count_label y c.
Proof.
  unfold imblearn.class_rows, imblearn.count_label.
  revert y. induction X as [|x X IH]; intros [|v y] Hlen; simpl in *;
    try done.
  rewrite filter_cons. specialize (IH y ltac:(lia)).
  destruct (decide (Qeq_bool v c = true)) as [E|E].
  - rewrite E. simpl. f_equal. exact IH.
  - destruct (Qeq_bool v c); [done|]. exact IH.
Qed.

(** The loop of SMOTE over the classes: nothing for a request of zero,
    [n_samples] new rows of the class when the class has more rows than
    [k_neighbors]. *)
Lemma over_sample_returns (X : list (list Q)) (y : list Q)
    (todo : list (Q * nat)) (g : RandomState) :
  length X = length y →
  Forall (fun cn => cn.2 = 0%nat
                    ∨ (imblearn.k_neighbors + 1
                       ≤ imblearn.count_label y cn.1)%nat) todo →
  ∃ X_new y_new g',
    imblearn.over_sample X y todo g = Ok (X_new, y_new, g')
    ∧ y_new = concat (map (fun cn => replicate cn.2 cn.1) todo)
    ∧ Forall2 (fun v c => synthesized X y c v) X_new y_new.
Proof.
  intros Hlen Hall. revert g.
  induction Hall as [|[c n] todo Hc _ IH]; intros g; simpl.
  - eexists _, _, _. split; [done|]. split; [done|]. constructor.
  - destruct n as [|n].
    + destruct (IH g) as (X_new & y_new & g' & Hrun & Hy & Hl).
      by exists X_new, y_new, g'.
    + simpl in Hc. destruct Hc as [Hc|Hc]; [done|].
      rewrite <- (class_rows_length X y c Hlen) in Hc.
      destruct (kneighbors_idx_returns (imblearn.k_neighbors + 1)
                  (imblearn.class_rows X y c) Hc) as [nns Hnns].
      pose proof (kneighbors_idx_bound _ _ _ Hnns) as Hbound.
      change (imblearn.k_neighbors + 1)%nat with 6%nat in Hnns.
      rewrite Hnns. simpl.
      pose proof (make_samples_length (imblearn.class_rows X y c)
                    (map (drop 1) nns) (S n) g) as Hms.
      pose proof (make_samples_interpolated (imblearn.class_rows X y c)
                    (map (drop 1) nns) (S n) g) as Hint.
      destruct (imblearn.make_samples _ _ (S n) g) as [X_c g1].
      destruct (IH g1) as (X_new & y_new & g' & Hrun & Hy & Hl).
      rewrite Hrun. simpl. eexists _, _, _. split; [done|].
      split; [by rewrite Hy|].
      simpl in Hms, Hint.
      change (Forall2 (fun v c => synthesized X y c v) (X_c ++ X_new)
                (replicate (S n) c ++ y_new)).
      apply Forall2_app; [|done].
      apply Forall2_same_length_lookup_2.
      { by rewrite length_replicate. }
      intros i v c' Hv Hc'. apply lookup_replicate in Hc' as [-> _].
      assert (imblearn.class_rows X y c ≠ []) as Hne.
      { intros Hnil. rewrite Hnil in Hc. simpl in Hc. lia. }
      assert (Forall (Forall (fun i => (i < length (imblearn.class_rows X y c))%nat))
                (map (drop 1) nns)) as Hbound'.
      { apply Forall_fmap. eapply Forall_impl; [exact Hbound|].
        intros row Hrow. simpl.
        apply Forall_forall. intros i' Hi'.
        eapply Forall_forall in Hrow; [exact Hrow|].
        by eapply (subseteq_drop 1). }
      specialize (Hint Hne Hbound').
      by eapply Forall_lookup_1 in Hint.
Qed.

Lemma is_in_distinct (c : Q) (y : list Q) :
  imblearn.is_in c (imblearn.distinct y) = imblearn.is_in c y.
Proof.
  induction y as [|v y IH]; [done|]. simpl.
  destruct (imblearn.is_in v y) eqn:Hv; simpl.
  - rewrite IH. destruct (Qeq_bool c v) eqn:Hcv; [|done]. simpl.
    unfold imblearn.is_in in *.
    apply existsb_exists in Hv as (w & Hw & Hvw).
    apply existsb_exists. exists w. split; [done|].
    apply Qeq_bool_iff in Hcv, Hvw. apply Qeq_bool_iff.
    by rewrite Hcv.
  - by rewrite IH.
Qed.

Lemma two_classes (y : list Q) :
  imblearn.is_in 0 y = true → imblearn.is_in 1 y = true →
  (length (imblearn.distinct y) <=? 1)%nat = false.
Proof.
  intros H0 H1. rewrite <- is_in_distinct in H0, H1.
  destruct (imblearn.distinct y) as [|a [|b l]]; [done| |done].
  simpl in H0, H1. rewrite orb_false_r in H0, H1.
  apply Qeq_bool_iff in H0, H1. rewrite <- H0 in H1. discriminate.
Qed.

Lemma check_sampling_strategy_two (y : list Q) (n0 n1 : nat) :
  imblearn.is_in 0 y = true → imblearn.is_in 1 y = true →
  imblearn.check_sampling_strategy
    [(0, (n0 + imblearn.count_label y 0)%nat);
     (1, (n1 + imblearn.count_label y 1)%nat)] y
  = Ok [(0, n0); (1, n1)].
Proof.
  intros H0 H1. unfold imblearn.check_sampling_strategy.
  rewrite (two_classes y H0 H1). simpl. rewrite H0, H1. simpl.
  rewrite !(proj2 (Nat.leb_le _ _)) by lia. simpl.
  by rewrite !Nat.add_sub.
Qed.

Lemma imap_label_cells (k : nat) (X_new : list (list Q)) :
  map r_cells (imap (fun i r => mkRow (k + i) r) X_new) = X_new
  ∧ map r_label (imap (fun i r => mkRow (k + i) r) X_new)
    = seq k (length X_new).
Proof.
  revert k. induction X_new as [|x X_new IH]; intros k; [done|].
  simpl. rewrite Nat.add_0_r.
  assert (imap ((fun i r => mkRow (k + i) r) ∘ S) X_new
          = imap (fun i r => mkRow (S k + i) r) X_new) as ->.
  { apply imap_ext. intros i r _. simpl. f_equal. lia. }
  destruct (IH (S k)) as [-> ->]. done.
Qed.

Lemma is_in_proper (a c : Q) (l : list Q) :
  a == c → imblearn.is_in a l = imblearn.is_in c l.
Proof.
  intros Hac. unfold imblearn.is_in.
  induction l as [|v l IH]; [done|]. simpl. rewrite IH. f_equal.
  destruct (Qeq_bool a v) eqn:Ha, (Qeq_bool c v) eqn:Hc; try done.
  - apply Qeq_bool_iff in Ha. apply Qeq_bool_neq in Hc.
    exfalso. apply Hc. by rewrite <- Hac.
  - apply Qeq_bool_iff in Hc. apply Qeq_bool_neq in Ha.
    exfalso. apply Ha. by rewrite Hac.
Qed.

Lemma count_label_proper (a c : Q) (y : list Q) :
  a == c → imblearn.count_label y a = imblearn.count_label y c.
Proof.
  intros Hac. unfold imblearn.count_label.
  induction y as [|v y IH]; [done|]. rewrite !filter_cons.
  assert (Qeq_bool v a = Qeq_bool v c) as Heq.
  { destruct (Qeq_bool v a) eqn:Ha, (Qeq_bool v c) eqn:Hc; try done.
    - apply Qeq_bool_iff in Ha. apply Qeq_bool_neq in Hc.
      exfalso. apply Hc. by rewrite Ha.
    - apply Qeq_bool_iff in Hc. apply Qeq_bool_neq in Ha.
      exfalso. apply Ha. by rewrite Hc, Hac. }
  rewrite Heq.
  destruct (decide (Qeq_bool v c = true)); simpl; by rewrite IH.
Qed.

Lemma count_label_pos_is_in (y : list Q) (c : Q) :
  (0 < imblearn.count_label y c)%nat → imblearn.is_in c y = true.
Proof.
  unfold imblearn.count_label, imblearn.is_in.
  induction y as [|v y IH]; simpl; [lia|].
  rewrite filter_cons. intros Hpos.
  destruct (decide (Qeq_bool v c = true)) as [E|E].
  - apply Qeq_bool_iff in E.
    rewrite (proj2 (Qeq_bool_iff c v)); [done|]. by symmetry.
  - rewrite IH by done. apply orb_true_r.
Qed.

(** The labels of a training set with a single class make one entry. *)
Lemma distinct_one_class (c : Q) (y : list Q) :
  Forall (fun v => v == c) y → y ≠ [] →
  ∃ b, imblearn.distinct y = [b] ∧ b == c.
Proof.
  induction 1 as [|v y Hv Hall IH]; intros Hne; [done|]. simpl.
  destruct (imblearn.is_in v y) eqn:Hin.
  - apply IH. intros ->. done.
  - destruct y as [|w y'].
    + exists v. by split.
    + exfalso. apply Forall_cons in Hall as [Hw _].
      unfold imblearn.is_in in Hin. simpl in Hin.
      rewrite (proj2 (Qeq_bool_iff v w)) in Hin; [done|].
      by rewrite Hv, Hw.
Qed.

Lemma is_in_false_other (v c : Q) (y : list Q) :
  imblearn.is_in c (v :: y) = true → ¬ v == c → imblearn.is_in c y = true.
Proof.
  unfold imblearn.is_in. simpl. intros Hin Hne.
  destruct (Qeq_bool c v) eqn:Hcv; [|done].
  apply Qeq_bool_iff in Hcv. exfalso. apply Hne. by symmetry.
Qed.

Lemma all_of_other_class (a c : Q) (y : list Q) :
  Forall (fun v => v == a ∨ v == c) y →
  imblearn.is_in a y = false →
  Forall (fun v => v == c) y.
Proof.
  induction 1 as [|v y Hv _ IH]; intros Hin; [constructor|].
  unfold imblearn.is_in in Hin. simpl in Hin.
  apply orb_false_elim in Hin as [Hav Hin].
  constructor; [|by apply IH].
  destruct Hv as [Hv|Hv]; [|done].
  apply Qeq_bool_neq in Hav. exfalso. apply Hav. by symmetry.
Qed.

Lemma distinct_two_classes (y : list Q) :
  Forall (fun v => v == 0 ∨ v == 1) y →
  imblearn.is_in 0 y = true → imblearn.is_in 1 y = true →
  ∃ a b, a == 0 ∧ b == 1
       ∧ (imblearn.distinct y = [a; b] ∨ imblearn.distinct y = [b; a]).
Proof.
  induction 1 as [|v y Hv Hall IH]; intros H0 H1; [done|]. simpl.
  destruct (imblearn.is_in v y) eqn:Hin.
  - apply IH.
    + destruct Hv as [Hv|Hv].
      * by rewrite <- (is_in_proper v 0 y Hv).
      * apply (is_in_false_other v 0 y H0). rewrite Hv. discriminate.
    + destruct Hv as [Hv|Hv].
      * apply (is_in_false_other v 1 y H1). rewrite Hv. discriminate.
      * by rewrite <- (is_in_proper v 1 y Hv).
  - destruct Hv as [Hv|Hv].
    + rewrite (is_in_proper v 0 y Hv) in Hin.
      pose proof (all_of_other_class 0 1 y Hall Hin) as Hones.
      destruct (distinct_one_class 1 y Hones) as (b & -> & Hb).
      { intros ->.
        assert (imblearn.is_in 1 [] = true) as Hf; [|discriminate Hf].
        apply (is_in_false_other v 1 [] H1). rewrite Hv. discriminate. }
      exists v, b. split; [done|]. split; [done|]. by left.
    + rewrite (is_in_proper v 1 y Hv) in Hin.
      assert (Forall (fun w => w == 1 ∨ w == 0) y) as Hall'.
      { eapply Forall_impl; [exact Hall|]. intros w [Hw|Hw]; [by right|by left]. }
      pose proof (all_of_other_class 1 0 y Hall' Hin) as Hzeros.
      destruct (distinct_one_class 0 y Hzeros) as (a & -> & Ha).
      { intros ->.
        assert (imblearn.is_in 0 [] = true) as Hf; [|discriminate Hf].
        apply (is_in_false_other v 0 [] H0). rewrite Hv. discriminate. }
      exists a, v. split; [done|]. split; [done|]. by right.
Qed.

(** On labels 0 and 1, both present, [np.unique] counts class 0 first. *)
Lemma unique_counts_two (y : list Q) :
  Forall (fun v => v == 0 ∨ v == 1) y →
  imblearn.is_in 0 y = true → imblearn.is_in 1 y = true →
  unique_counts y = [np_sum_eq y 0; np_sum_eq y 1].
Proof.
  intros Hall H0 H1.
  destruct (distinct_two_classes y Hall H0 H1) as (a & b & Ha & Hb & Hd).
  unfold unique_counts, np_sum_eq.
  assert (sort_by id ascending (imblearn.distinct y) = [a; b]) as ->.
  { unfold sort_by, ascending, Qlt_bool, id.
    destruct Hd as [-> | ->]; simpl.
    - rewrite (proj2 (Qle_bool_iff a b)); [done|]. lra.
    - rewrite (proj1 (not_true_iff_false (Qle_bool b a))); [done|].
      intros Hle. apply Qle_bool_iff in Hle. lra. }
  simpl. by rewrite (count_label_proper a 0 y Ha), (count_label_proper b 1 y Hb).
Qed.

Lemma count_labels_total (y : list Q) :
  Forall (fun v => v == 0 ∨ v == 1) y →
  (imblearn.count_label y 0 + imblearn.count_label y 1)%nat = length y.
Proof.
  unfold imblearn.count_label.
  induction 1 as [|v y Hv _ IH]; [done|]. rewrite !filter_cons. simpl.
  destruct Hv as [Hv|Hv].
  - rewrite (proj2 (Qeq_bool_iff v 0) Hv).
    rewrite (proj1 (not_true_iff_false (Qeq_bool v 1))).
    + simpl. lia.
    + intros Heq. apply Qeq_bool_iff in Heq. lra.
  - rewrite (proj2 (Qeq_bool_iff v 1) Hv).
    rewrite (proj1 (not_true_iff_false (Qeq_bool v 0))).
    + simpl. lia.
    + intros Heq. apply Qeq_bool_iff in Heq. lra.
Qed.

Lemma check_targets_binary (y : list Q) :
  Forall (fun v => v == 0 ∨ v == 1) y →
  imblearn.check_classification_targets y = Ok tt.
Proof.
  intros Hall. unfold imblearn.check_classification_targets.
  rewrite (proj2 (forallb_forall _ _)); [done|].
  intros v Hv. apply list_elem_of_In in Hv.
  eapply Forall_forall in Hall; [|exact Hv].
  unfold imblearn.is_whole. apply Qeq_bool_iff.
  destruct Hall as [-> | ->]; reflexivity.
Qed.

Lemma check_X_y_run (X : DataFrame) (y : list Q) :
  well_shaped X → rows X ≠ [] → columns X ≠ [] →
  length (rows X) = length y →
  imblearn.check_X_y (sklearn.values_of X) y = Ok tt.
Proof.
  intros Hshape Hr Hc Hlen. unfold imblearn.check_X_y, sklearn.values_of.
  unfold well_shaped in Hshape.
  destruct (rows X) as [|r rs] eqn:Hrows; [done|]. cbn [map].
  apply Forall_cons in Hshape as [Hw _].
  destruct (length (r_cells r) =? 0)%nat eqn:H0.
  { apply Nat.eqb_eq in H0. rewrite Hw in H0. by destruct (columns X). }
  change (r_cells r :: map r_cells rs) with (map r_cells (r :: rs)).
  by rewrite length_map, Hlen, Nat.eqb_refl.
Qed.

(** The checks of [fit_resample], passed. *)
Lemma fit_resample_inv (strategy : list (Q * nat)) (X : list (list Q))
    (y : list Q) (g g' : RandomState) (Xr : list (list Q)) (yr : list Q) :
  imblearn.fit_resample strategy X y g = Ok (Xr, yr, g') →
  X ≠ [] ∧ length X = length y
  ∧ ∃ todo X_new y_new,
      imblearn.check_sampling_strategy strategy y = Ok todo
      ∧ imblearn.over_sample X y todo g = Ok (X_new, y_new, g')
      ∧ Xr = X ++ X_new ∧ yr = y ++ y_new.
Proof.
  unfold imblearn.fit_resample, mbind, result_bind.
  destruct (imblearn.check_classification_targets y) as [[]|]; [|done].
  destruct (imblearn.check_X_y X y) as [[]|] eqn:Hxy; [|done].
  destruct (imblearn.check_sampling_strategy strategy y) as [todo|]; [|done].
  destruct (imblearn.over_sample X y todo g) as [[[X_new y_new] g1]|] eqn:Ho;
    [|done].
  intros [= <- <- <-].
  unfold imblearn.check_X_y in Hxy. destruct X as [|r X']; [done|].
  destruct (length r =? 0)%nat; [done|].
  destruct (length (r :: X') =? length y)%nat eqn:Hlen; [|done].
  apply Nat.eqb_eq in Hlen. split; [done|]. split; [done|].
  by exists todo, X_new, y_new.
Qed.

(** With one of the labels 0 and 1 missing, the labels are of one class at
    most. *)
Lemma one_class_at_most (a c : Q) (y : list Q) :
  Forall (fun v => v == a ∨ v == c) y →
  imblearn.is_in a y = false →
  (length (imblearn.distinct y) <=? 1)%nat = true.
Proof.
  intros Hall Hin. apply Nat.leb_le.
  pose proof (all_of_other_class a c y Hall Hin) as Hc.
  destruct y as [|v y]; [simpl; lia|].
  destruct (distinct_one_class c (v :: y) Hc) as (b & -> & _); [done|].
  simpl. lia.
Qed.

(** SMOTE fails on a class for which points are asked and that has no
    more rows than its five neighbours. *)
Lemma over_sample_raises (X : list (list Q)) (y : list Q)
    (todo : list (Q * nat)) (g : RandomState) :
  length X = length y →
  Exists (fun cn => cn.2 ≠ 0%nat
                    ∧ (imblearn.count_label y cn.1
                       < imblearn.k_neighbors + 1)%nat) todo →
  imblearn.over_sample X y todo g = Raise ValueError.
Proof.
  intros Hlen. revert g.
  induction todo as [|[c n] todo IH]; intros g Hex;
    [by apply Exists_nil in Hex|].
  cbn [imblearn.over_sample].
  destruct n as [|n].
  - apply IH. apply Exists_cons in Hex as [[Hn _]|Hex]; done.
  - unfold sklearn.kneighbors_idx.
    rewrite (class_rows_length X y c Hlen).
    destruct (imblearn.count_label y c <? imblearn.k_neighbors + 1)%nat
      eqn:Hlt; [done|].
    apply Nat.ltb_ge in Hlt. unfold mbind, result_bind. cbv beta iota.
    destruct (imblearn.make_samples _ _ (S n) g) as [X_c g1].
    rewrite IH; [done|].
    apply Exists_cons in Hex as [[_ Hc]|Hex]; [|done].
    exfalso. cbn [fst] in Hc. lia.
Qed.

(** The run of [make_synthetic_data_smote] on labels 0 and 1, when the
    data pass the checks of SMOTE. *)
Lemma make_synthetic_data_smote_returns (X : DataFrame) (y : list Q)
    (n0 n1 : nat) (g : RandomState) :
  well_shaped X →
  Forall (fun v => v == 0 ∨ v == 1) y →
  rows X ≠ [] →
  columns X ≠ [] →
  length (rows X) = length y →
  imblearn.is_in 0 y = true →
  imblearn.is_in 1 y = true →
  n0 = 0%nat ∨ (6 ≤ np_sum_eq y 0)%nat →
  n1 = 0%nat ∨ (6 ≤ np_sum_eq y 1)%nat →
  ∃ X_synthetic y_synthetic g' X_new,
    make_synthetic_data_smote X y [n0; n1] g
    = Ok (X_synthetic, y_synthetic, g')
    ∧ imblearn.fit_resample
        [(0, (n0 + np_sum_eq y 0)%nat); (1, (n1 + np_sum_eq y 1)%nat)]
        (sklearn.values_of X) y g
      = Ok (sklearn.values_of X ++ X_new, y ++ y_synthetic, g')
    ∧ columns X_synthetic = columns X
    ∧ map r_cells (rows X_synthetic) = X_new
    ∧ map r_label (rows X_synthetic) = seq (length (rows X)) (n0 + n1)
    ∧ length (rows X_synthetic) = (n0 + n1)%nat
    ∧ y_synthetic = replicate n0 0 ++ replicate n1 1
    ∧ Forall2 (fun v c => synthesized (sklearn.values_of X) y c v)
        X_new y_synthetic.
Proof.
  intros Hshape Hbin Hr Hc Hlen H0 H1 Hc0 Hc1.
  assert (length (sklearn.values_of X) = length y) as Hlen'
    by (unfold sklearn.values_of; by rewrite length_map).
  destruct (over_sample_returns (sklearn.values_of X) y [(0, n0); (1, n1)] g
              Hlen')
    as (X_new & y_new & g' & Hover & Hy & Hl).
  { constructor; [exact Hc0|]. constructor; [exact Hc1|]. constructor. }
  simpl in Hy. rewrite app_nil_r in Hy.
  assert (length X_new = (n0 + n1)%nat) as HlenX.
  { rewrite (Forall2_length _ _ _ Hl), Hy, length_app, !length_replicate.
    done. }
  assert (imblearn.fit_resample
            [(0, (n0 + np_sum_eq y 0)%nat); (1, (n1 + np_sum_eq y 1)%nat)]
            (sklearn.values_of X) y g
          = Ok (sklearn.values_of X ++ X_new, y ++ y_new, g')) as Hfit.
  { unfold imblearn.fit_resample, np_sum_eq.
    rewrite (check_targets_binary y Hbin).
    rewrite (check_X_y_run X y Hshape Hr Hc Hlen).
    rewrite (check_sampling_strategy_two y n0 n1 H0 H1).
    unfold mbind, result_bind. by rewrite Hover. }
  destruct (imap_label_cells (length (rows X)) X_new) as [Hcells Hlabels].
  eexists _, y_new, g', X_new. split.
  { unfold make_synthetic_data_smote, list_item. simpl.
    unfold mbind at 1, result_bind at 1. rewrite Hfit. simpl.
    rewrite drop_app_length. reflexivity. }
  split; [done|]. split; [done|]. simpl.
  assert (length (sklearn.values_of X) = length (rows X)) as HlenV by lia.
  rewrite imap_app, drop_app_length' by by rewrite length_imap.
  rewrite HlenV. cbv beta.
  rewrite Hcells, Hlabels, length_imap, HlenX. done.
Qed.

(** On labels 0 and 1, data that do not pass the checks of SMOTE make it
    raise ValueError. *)
Lemma make_synthetic_data_smote_raises (X : DataFrame) (y : list Q)
    (n0 n1 : nat) (g : RandomState) :
  well_shaped X →
  Forall (fun v => v == 0 ∨ v == 1) y →
  ¬ (rows X ≠ [] ∧ columns X ≠ [] ∧ length (rows X) = length y
     ∧ imblearn.is_in 0 y = true ∧ imblearn.is_in 1 y = true
     ∧ (n0 = 0%nat ∨ (6 ≤ np_sum_eq y 0)%nat)
     ∧ (n1 = 0%nat ∨ (6 ≤ np_sum_eq y 1)%nat)) →
  make_synthetic_data_smote X y [n0; n1] g = Raise ValueError.
Proof.
  intros Hshape Hbin Hnot.
  unfold make_synthetic_data_smote, list_item. cbn [lookup list_lookup].
  unfold mbind at 1 2, result_bind at 1 2. cbv beta iota.
  assert (imblearn.fit_resample
            [(0, (n0 + np_sum_eq y 0)%nat); (1, (n1 + np_sum_eq y 1)%nat)]
            (sklearn.values_of X) y g = Raise ValueError) as ->; [|done].
  unfold imblearn.fit_resample. rewrite (check_targets_binary y Hbin).
  unfold mbind at 1, result_bind at 1. cbv beta iota.
  destruct (imblearn.check_X_y (sklearn.values_of X) y) as [[]|e] eqn:Hxy.
  2: { unfold imblearn.check_X_y in Hxy.
       destruct (sklearn.values_of X) as [|r X']; [by injection Hxy as <-|].
       destruct (length r =? 0)%nat; [by injection Hxy as <-|].
       destruct (negb _); [by injection Hxy as <-|done]. }
  unfold mbind at 1, result_bind at 1. cbv beta iota.
  assert (rows X ≠ [] ∧ columns X ≠ [] ∧ length (rows X) = length y)
    as (Hr & Hc & Hlen).
  { unfold imblearn.check_X_y, sklearn.values_of in Hxy.
    unfold well_shaped in Hshape.
    destruct (rows X) as [|r rs] eqn:Hrows; [done|]. cbn [map] in Hxy.
    apply Forall_cons in Hshape as [Hw _].
    destruct (length (r_cells r) =? 0)%nat eqn:H0; [done|].
    apply Nat.eqb_neq in H0.
    change (r_cells r :: map r_cells rs) with (map r_cells (r :: rs)) in Hxy.
    rewrite length_map in Hxy.
    destruct (length (r :: rs) =? length y)%nat eqn:Hl; [|done].
    apply Nat.eqb_eq in Hl. split; [done|]. split; [|done].
    intros Hc. rewrite Hc in Hw. simpl in Hw. lia. }
  assert (length (sklearn.values_of X) = length y) as Hlen'
    by (unfold sklearn.values_of; by rewrite length_map).
  destruct (imblearn.is_in 0 y) eqn:H0.
  2: { unfold imblearn.check_sampling_strategy.
       by rewrite (one_class_at_most 0 1 y Hbin H0). }
  destruct (imblearn.is_in 1 y) eqn:H1.
  2: { unfold imblearn.check_sampling_strategy.
       rewrite (one_class_at_most 1 0 y); [done| |done].
       eapply Forall_impl; [exact Hbin|]. intros v [Hv|Hv]; [by right|by left]. }
  unfold np_sum_eq. rewrite (check_sampling_strategy_two y n0 n1 H0 H1).
  unfold mbind at 1, result_bind at 1. cbv beta iota.
  rewrite over_sample_raises; [done|done|].
  unfold imblearn.k_neighbors. cbn [fst snd].
  destruct (decide (n0 = 0%nat ∨ (6 ≤ imblearn.count_label y 0)%nat))
    as [Hc0|Hc0].
  - apply Exists_cons_tl, Exists_cons_hd. cbn [fst snd].
    destruct (decide (n1 = 0%nat ∨ (6 ≤ imblearn.count_label y 1)%nat))
      as [Hc1|Hc1]; [|lia].
    exfalso. apply Hnot. unfold np_sum_eq. done.
  - apply Exists_cons_hd. cbn [fst snd]. lia.
Qed.

(** C2, as the code has it. On labels 0 and 1 the call returns exactly
    when the frame has rows and columns, a label for every row, both
    labels occur, and every class for which new points are requested has
    more rows than SMOTE's five neighbours. It then returns the rows SMOTE
    appended after the input rows: [n0 + n1] of them, the first [n0]
    labelled 0 and the other [n1] labelled 1, none of the input rows among
    them; each is a point between two input rows of its class. On all
    other data of labels 0 and 1 it raises ValueError. *)
Theorem smote_returns_requested_counts (X : DataFrame) (y : list Q)
    (n0 n1 : nat) (g : RandomState) :
  well_shaped X →
  Forall (fun v => v == 0 ∨ v == 1) y →
  let accepted :=
    rows X ≠ [] ∧ columns X ≠ [] ∧ length (rows X) = length y
    ∧ imblearn.is_in 0 y = true ∧ imblearn.is_in 1 y = true
    ∧ (n0 = 0%nat ∨ (6 ≤ np_sum_eq y 0)%nat)
    ∧ (n1 = 0%nat ∨ (6 ≤ np_sum_eq y 1)%nat) in
  (accepted →
   ∃ X_synthetic y_synthetic g' X_new,
     make_synthetic_data_smote X y [n0; n1] g
     = Ok (X_synthetic, y_synthetic, g')
     ∧ imblearn.fit_resample
         [(0, (n0 + np_sum_eq y 0)%nat); (1, (n1 + np_sum_eq y 1)%nat)]
         (sklearn.values_of X) y g
       = Ok (sklearn.values_of X ++ X_new, y ++ y_synthetic, g')
     ∧ columns X_synthetic = columns X
     ∧ map r_cells (rows X_synthetic) = X_new
     ∧ map r_label (rows X_synthetic) = seq (length (rows X)) (n0 + n1)
     ∧ length (rows X_synthetic) = (n0 + n1)%nat
     ∧ y_synthetic = replicate n0 0 ++ replicate n1 1
     ∧ Forall2 (fun v c => synthesized (sklearn.values_of X) y c v)
         X_new y_synthetic)
  ∧ (¬ accepted →
     make_synthetic_data_smote X y [n0; n1] g = Raise ValueError).
Proof.
  intros Hshape Hbin accepted. split.
  - intros (Hr & Hc & Hlen & H0 & H1 & Hc0 & Hc1).
    by apply make_synthetic_data_smote_returns.
  - by apply make_synthetic_data_smote_raises.
Qed.

(** SMOTE on the training set of [Demo], twelve rows asked per class. *)
Lemma smote_returns_requested_counts_witness :
  ∃ X_synthetic y_synthetic g' X_new,
    make_synthetic_data_smote Demo.X_train Demo.y_train [12; 12]%nat
      (Demo.gen Demo.draws)
    = Ok (X_synthetic, y_synthetic, g')
    ∧ imblearn.fit_resample
        [(0, (12 + np_sum_eq Demo.y_train 0)%nat);
         (1, (12 + np_sum_eq Demo.y_train 1)%nat)]
        (sklearn.values_of Demo.X_train) Demo.y_train (Demo.gen Demo.draws)
      = Ok (sklearn.values_of Demo.X_train ++ X_new,
            Demo.y_train ++ y_synthetic, g')
    ∧ columns X_synthetic = columns Demo.X_train
    ∧ map r_cells (rows X_synthetic) = X_new
    ∧ map r_label (rows X_synthetic)
      = seq (length (rows Demo.X_train)) (12 + 12)
    ∧ length (rows X_synthetic) = (12 + 12)%nat
    ∧ y_synthetic = replicate 12 0 ++ replicate 12 1
    ∧ Forall2 (fun v c => synthesized (sklearn.values_of Demo.X_train)
                            Demo.y_train c v)
        X_new y_synthetic.
Proof.
  apply (smote_returns_requested_counts Demo.X_train Demo.y_train 12 12
           (Demo.gen Demo.draws)).
  - repeat constructor.
  - repeat constructor; (by left) || (by right).
  - split; [discriminate|]. split; [discriminate|].
    split; [reflexivity|]. split; [reflexivity|]. split; [reflexivity|].
    split; right; vm_compute; lia.
Defined.

(** C2, as the claim has it, fails: on a training set whose labels are all
    0, SMOTE raises and no pair is returned. *)
Lemma smote_raises_on_one_class :
  Forall (fun v => v == 0 ∨ v == 1) Demo.y_one_class
  ∧ length (rows Demo.X_train) = length Demo.y_one_class
  ∧ make_synthetic_data_smote Demo.X_train Demo.y_one_class [12; 12]%nat
      (Demo.gen Demo.draws)
    = Raise ValueError.
Proof.
  split; [repeat constructor; by left|]. split; reflexivity.
Qed.

(** ** The columns of the frames, cell after cell *)

Lemma set_column_columns (df df' : DataFrame) (c : string) (vs : list Q) :
  set_column df c vs = Ok df' →
  columns df' = columns df ∧ c ∈ columns df
  ∨ columns df' = columns df ++ [c] ∧ c ∉ columns df.
Proof.
  unfold set_column. destruct (negb _); [done|].
  destruct (get_loc (columns df) c) as [p|e] eqn:Hp; intros [= <-]; simpl.
  - left. split; [done|].
    apply get_loc_lookup in Hp. by eapply list_elem_of_lookup_2.
  - right. split; [done|]. intros Hin.
    destruct (get_loc_elem _ _ Hin) as [p Hp']. congruence.
Qed.

Lemma map_column_columns (f : Q → Q) (df df' : DataFrame) (c : string) :
  (column df c ≫= fun vs => set_column df c (map f vs)) = Ok df' →
  columns df' = columns df.
Proof.
  unfold column.
  destruct (get_loc (columns df) c) as [p|e] eqn:Hp; simpl; [|done].
  destruct (collect _ _) as [vs|e]; simpl; [|done]. intros Hset.
  apply set_column_columns in Hset as [[Hcols _]|[_ Hno]]; [done|].
  exfalso. apply Hno. apply get_loc_lookup in Hp.
  by eapply list_elem_of_lookup_2.
Qed.

Lemma foldM_map_column_columns (f : Q → Q) (cs : list string)
    (df df' : DataFrame) :
  foldM (fun df c => column df c ≫= fun vs => set_column df c (map f vs))
    df cs = Ok df' →
  columns df' = columns df.
Proof.
  revert df. induction cs as [|c cs IH]; intros df; simpl.
  - by intros [= <-].
  - destruct (column df c ≫= _) as [df1|e] eqn:H1; simpl; [|done].
    intros H2. apply IH in H2. apply map_column_columns in H1. congruence.
Qed.

Lemma one_hot_stage_columns (X_col_names : list string)
    (X_synthetic df0 : DataFrame) (σ σ' : store) :
  one_hot_stage X_col_names X_synthetic σ = Ok (df0, σ') →
  columns df0 = X_col_names.
Proof.
  unfold one_hot_stage, new_block, read_block. unfold_M.
  destruct (get_locs _ _) as [ps|e]; [|done].
  destruct (alloc_rows _ σ) as [[ls σ1]|e]; [|done].
  destruct (one_hot_loop _ _ σ1) as [[[] σ2]|e]; [|done].
  destruct (load_rows _ _ σ2) as [[rs σ3]|e]; [|done].
  by intros [= <- _].
Qed.

(** One step of a chain of cells: case on the first result in the goal. *)
Tactic Notation "res_step" simple_intropattern(p) ident(H) :=
  match goal with
  | |- context [match ?m with Ok _ => _ | Raise _ => _ end] =>
      destruct m as [p|?] eqn:H; [cbv beta iota|done]
  end.

Lemma process_columns (X_col_names : list string) (X_synthetic : DataFrame)
    (y_synthetic : list Q) (g g' : RandomState) (synth_df : DataFrame) :
  y_label ∉ X_col_names →
  process_raw_synthetic_data X_col_names X_synthetic y_synthetic g
  = Ok (synth_df, g') →
  columns synth_df = X_col_names ++ [y_label].
Proof.
  intros Hno. unfold process_raw_synthetic_data, mbind, result_bind.
  res_step [df0 σ'] H0. res_step df1 H1. res_step df2 H2. res_step df3 H3.
  intros Hs. apply sample_rows_elem in Hs as [Hcols _].
  apply one_hot_stage_columns in H0.
  apply foldM_map_column_columns in H1, H2.
  apply set_column_columns in H3 as [[_ Hin]|[H3 _]]; [|congruence].
  exfalso. apply Hno. congruence.
Qed.

Lemma find_nearest_real_columns `{Sqrt} (X_train X_test X_synthetic : DataFrame)
    (synth_df annotated : DataFrame) :
  distance_col ∉ columns synth_df →
  closest_col ∉ columns synth_df →
  find_nearest_real X_train X_test X_synthetic synth_df = Ok annotated →
  columns annotated = columns synth_df ++ [distance_col; closest_col].
Proof.
  intros Hd Hc. unfold find_nearest_real, mbind, result_bind.
  res_step [a X_test_std] Ha. res_step [b X_synth_std] Hb.
  res_step di Hdi. res_step df1 H1.
  intros H2.
  apply set_column_columns in H1 as [[_ Hin]|[H1 _]]; [done|].
  apply set_column_columns in H2 as [[_ Hin]|[H2 _]].
  - exfalso. rewrite H1 in Hin. apply elem_of_app in Hin as [Hin|Hin];
      [done|]. by apply list_elem_of_singleton in Hin.
  - by rewrite H2, H1, <- app_assoc.
Qed.

(** ** The distances are attached to other rows than their own *)

Lemma set_column_length (df df' : DataFrame) (c : string) (vs : list Q) :
  set_column df c vs = Ok df' → length vs = length (rows df).
Proof.
  unfold set_column.
  destruct (length vs =? length (rows df))%nat eqn:Hlen; [|done].
  intros _. by apply Nat.eqb_eq.
Qed.

Lemma kneighbors1_inv `{Sqrt} (fit_X query : list (list Q))
    (dists_idxs : list (Q * nat)) :
  sklearn.kneighbors1 fit_X query = Ok dists_idxs →
  ∃ p pts,
    fit_X = p :: pts ∧ query ≠ []
    ∧ dists_idxs
      = map (fun q =>
               let '(d2, i) :=
                 sklearn.nearest_from q (sklearn.sqdist q p) 0 1 pts in
               (np_sqrt d2, i)) query.
Proof.
  unfold sklearn.kneighbors1. destruct fit_X as [|p pts]; [done|].
  destruct query as [|q qs]; [done|]. intros [= <-]. by exists p, pts.
Qed.

Lemma kneighbors1_run `{Sqrt} (fit_X query : list (list Q)) :
  fit_X ≠ [] → query ≠ [] →
  ∃ dists_idxs, sklearn.kneighbors1 fit_X query = Ok dists_idxs
              ∧ length dists_idxs = length query.
Proof.
  intros Hf Hq. unfold sklearn.kneighbors1.
  destruct fit_X as [|p pts]; [done|]. destruct query as [|q qs]; [done|].
  eexists. split; [done|]. by rewrite length_map.
Qed.

(** The cell writes the distances by position: the row at position [i] of
    [synth_df], whatever row that is, gets the distance found for the row
    at position [i] of [X_synthetic]. *)
Lemma find_nearest_real_positional `{Sqrt}
    (X_train X_test X_synthetic synth_df annotated : DataFrame) :
  well_shaped synth_df →
  find_nearest_real X_train X_test X_synthetic synth_df = Ok annotated →
  ∃ train_std test_std train_std' synth_std dists_idxs,
    standardise_data X_train X_test = Ok (train_std, test_std)
    ∧ standardise_data X_train X_synthetic = Ok (train_std', synth_std)
    ∧ sklearn.kneighbors1 (train_std' ++ test_std) synth_std = Ok dists_idxs
    ∧ length dists_idxs = length (rows X_synthetic)
    ∧ keeps [distance_col; closest_col] synth_df annotated
    ∧ Forall2 (fun r' di => cell annotated r' distance_col = Some di.1)
        (rows annotated) dists_idxs.
Proof.
  intros Hshape. unfold find_nearest_real, mbind, result_bind.
  res_step [train_std test_std] Ha. res_step [train_std' synth_std] Hb.
  res_step dists_idxs Hdi. res_step df1 H1. intros H2.
  pose proof (set_column_length _ _ _ _ H1) as Hlen1.
  pose proof (set_column_length _ _ _ _ H2) as Hlen2.
  destruct (set_column_spec synth_df distance_col (map fst dists_idxs)
              Hshape Hlen1) as (df1' & H1' & Hshape1 & _ & Hkeeps1 & Hcol1).
  rewrite H1 in H1'. injection H1' as <-.
  destruct (set_column_spec df1 closest_col
              (map (fun di => nat_Q di.2) dists_idxs) Hshape1 Hlen2)
    as (df2' & H2' & _ & _ & Hkeeps2 & _).
  rewrite H2 in H2'. injection H2' as <-.
  exists train_std, test_std, train_std', synth_std, dists_idxs.
  split; [done|]. split; [done|]. split; [done|]. split.
  { apply kneighbors1_inv in Hdi as (p & pts & _ & _ & ->).
    apply standardise_data_inv in Hb as (sc & _ & _ & _ & _ & ->).
    unfold sklearn.values_of. by rewrite !length_map. }
  split; [exact (keeps_trans _ _ _ _ _ Hkeeps1 Hkeeps2)|].
  apply Forall2_fmap_r in Hcol1.
  apply Forall2_same_length_lookup_2.
  { apply Forall2_length in Hkeeps2, Hcol1. congruence. }
  intros i r2 di Hr2 Hdi'.
  destruct (Forall2_lookup_r _ _ _ _ _ Hkeeps2 Hr2) as (r1 & Hr1 & _ & Hsame).
  rewrite Hsame.
  - by eapply Forall2_lookup_lr in Hcol1.
  - intros Hin. by apply list_elem_of_singleton in Hin.
Qed.


Lemma remove_identical_columns (synth_df filtered : DataFrame) :
  remove_identical synth_df = Ok filtered →
  columns filtered = columns synth_df.
Proof.
  unfold remove_identical, mbind, result_bind. res_step d Hd.
  by intros [= <-].
Qed.

Lemma remove_closest_columns (synth_df out : DataFrame) (g g' : RandomState) :
  remove_closest synth_df g = Ok (out, g') →
  columns out = columns synth_df.
Proof.
  unfold remove_closest, sort_values_desc, mbind, result_bind.
  destruct (get_loc _ _) as [p|e]; [|done].
  intros Hs. by apply sample_rows_elem in Hs as [Hcols _].
Qed.

Lemma rebalance_columns (synth_df out : DataFrame) (n1 n0 : nat)
    (g g' : RandomState) :
  rebalance synth_df n1 n0 g = Ok (out, g') →
  columns out = columns synth_df.
Proof.
  unfold rebalance, mbind, result_bind.
  res_step m1 Hm1. res_step [pos g1] H1. res_step m0 Hm0.
  res_step [neg g2] H0.
  intros Hs. apply sample_rows_elem in Hs as [Hcols _].
  apply sample_rows_elem in H1 as [Hcols1 _]. simpl in *. congruence.
Qed.

Lemma smote_columns (X : DataFrame) (y : list Q) (ns : list nat)
    (g g' : RandomState) (X_synthetic : DataFrame) (y_synthetic : list Q) :
  make_synthetic_data_smote X y ns g = Ok (X_synthetic, y_synthetic, g') →
  columns X_synthetic = columns X.
Proof.
  unfold make_synthetic_data_smote, mbind, result_bind.
  res_step s0 Hs0. res_step s1 Hs1. res_step [[Xr yr] g1] Hfit.
  by intros [= <- _ _].
Qed.

(** C9, as the code has it. The frame the notebook ends with has the
    feature columns of the input in their order, then the label column,
    then the two columns of the nearest-neighbour annotation, which no
    cell removes. *)
Theorem final_columns_keep_annotations `{Sqrt} (X_train : DataFrame)
    (y_train : list Q) (X_test : DataFrame) (y_test : list Q)
    (g g' : RandomState) (synth_df : DataFrame) :
  y_label ∉ columns X_train →
  distance_col ∉ columns X_train →
  closest_col ∉ columns X_train →
  notebook X_train y_train X_test y_test g = Ok (synth_df, g') →
  columns synth_df
  = columns X_train ++ [y_label; distance_col; closest_col].
Proof.
  intros Hy Hd Hc. unfold notebook, mbind, result_bind.
  res_step [[Xs ys] g1] H1. res_step [df1 g2] H2. res_step df2 H3.
  res_step df3 H4. res_step [df4 g3] H5. res_step g4 Hshow.
  intros H6.
  apply rebalance_columns in H6. apply remove_closest_columns in H5.
  apply remove_identical_columns in H4.
  apply process_columns in H2; [|done].
  apply find_nearest_real_columns in H3.
  - rewrite H6, H5, H4, H3, H2, <- app_assoc. done.
  - rewrite H2. intros Hin. apply elem_of_app in Hin as [Hin|Hin]; [done|].
    by apply list_elem_of_singleton in Hin.
  - rewrite H2. intros Hin. apply elem_of_app in Hin as [Hin|Hin]; [done|].
    by apply list_elem_of_singleton in Hin.
Qed.

(** The notebook run on the data of [Demo]. *)
Lemma final_columns_keep_annotations_witness :
  ∃ synth_df g',
    notebook (H := floor_sqrt) Demo.X_train Demo.y_train Demo.X_test
      Demo.y_test (Demo.gen Demo.draws) = Ok (synth_df, g')
    ∧ columns synth_df
      = columns Demo.X_train ++ [y_label; distance_col; closest_col].
Proof.
  eexists _, _. split; [vm_compute; reflexivity|].
  apply (final_columns_keep_annotations (H := floor_sqrt)
           Demo.X_train Demo.y_train Demo.X_test Demo.y_test
           (Demo.gen Demo.draws)
           (mkRandomState Demo.draws 325)).
  - apply (bool_decide_unpack _). vm_compute. exact I.
  - apply (bool_decide_unpack _). vm_compute. exact I.
  - apply (bool_decide_unpack _). vm_compute. exact I.
  - vm_compute. reflexivity.
Defined.

(** C9, as the claim has it, fails: on the data of [Demo] the label column
    is not the last column of the final frame. *)
Lemma final_frame_has_more_columns :
  ∃ synth_df g',
    notebook (H := floor_sqrt) Demo.X_train Demo.y_train Demo.X_test
      Demo.y_test (Demo.gen Demo.draws) = Ok (synth_df, g')
    ∧ columns synth_df ≠ columns Demo.X_train ++ [y_label]
    ∧ last (columns synth_df) = Some closest_col.
Proof.
  eexists _, _. split; [vm_compute; reflexivity|].
  split; [discriminate|reflexivity].
Qed.

(** ** The random steps depend on the generator through its draws only *)


Lemma same_draws_refl (g : RandomState) : same_draws g g.
Proof. by split. Qed.

Lemma next_uint32_same (g1 g2 : RandomState) :
  same_draws g1 g2 → same_pair (next_uint32 g1) (next_uint32 g2).
Proof.
  intros [Hpos Hdraws]. unfold next_uint32, same_pair, same_draws.
  cbn [fst snd rs_pos]. rewrite <- Hpos.
  split; [by apply Hdraws|]. split; [done|].
  intros n Hn. rewrite !rs_stream_mk. apply (Hdraws n). lia.
Qed.

Lemma random_interval_same (max : nat) (g1 g2 : RandomState) :
  same_draws g1 g2 →
  same_pair (random_interval g1 max) (random_interval g2 max).
Proof.
  intros [Hpos Hdraws].
  destruct (decide (max = 0%nat)) as [->|Hmax]; [by split|].
  destruct (random_interval_spec g1 max Hmax) as (k & -> & Hacc & Hrej).
  unfold random_interval. destruct max as [|max]; [done|].
  rewrite (masked_rejection_spec _ _ _ g2 k).
  - rewrite <- Hpos, <- Hdraws by lia. split; [done|].
    split; [done|]. cbn [fst snd rs_pos]. intros n Hn.
    rewrite !rs_stream_mk. apply (Hdraws n). lia.
  - destruct (rs_zero_word g2 (rs_pos g2)) as (k0 & Hk0 & Hzero).
    destruct (decide (k ≤ k0)%nat) as [|Hgt]; [lia|]. exfalso.
    pose proof (Hrej k0 ltac:(lia)) as Hbad.
    rewrite Hpos, (Hdraws (rs_pos g2 + k0)%nat), Hzero, Z.land_0_l in Hbad
      by lia. lia.
  - by rewrite <- Hpos, <- Hdraws by lia.
  - intros j Hj. rewrite <- Hpos, <- Hdraws by lia. by apply Hrej.
Qed.

Lemma random_sample_same (g1 g2 : RandomState) :
  same_draws g1 g2 → same_pair (random_sample g1) (random_sample g2).
Proof.
  intros Hg. unfold random_sample.
  destruct (next_uint32_same g1 g2 Hg) as [Ha Hg'].
  destruct (next_uint32 g1) as [a1 g1'], (next_uint32 g2) as [a2 g2'].
  cbn [fst snd] in *. subst a2.
  destruct (next_uint32_same g1' g2' Hg') as [Hb Hg''].
  destruct (next_uint32 g1') as [b1 g1''], (next_uint32 g2') as [b2 g2''].
  cbn [fst snd] in *. subst b2. by split.
Qed.

Lemma shuffle_from_same {A} (i : nat) (x : list A) (g1 g2 : RandomState) :
  same_draws g1 g2 → same_pair (shuffle_from i x g1) (shuffle_from i x g2).
Proof.
  revert x g1 g2. induction i as [|i IH]; intros x g1 g2 Hg;
    cbn [shuffle_from].
  - by split.
  - destruct (random_interval_same (S i) g1 g2 Hg) as [Hj Hg'].
    destruct (random_interval g1 (S i)) as [j1 g1'],
      (random_interval g2 (S i)) as [j2 g2'].
    simpl in *. subst j2. by apply IH.
Qed.

Lemma choice_same (n size : nat) (g1 g2 : RandomState) :
  same_draws g1 g2 → same_run (choice n size g1) (choice n size g2).
Proof.
  intros Hg. unfold choice. destruct (n <? size)%nat; [done|].
  unfold permutation.
  destruct (shuffle_from_same (n - 1) (seq 0 n) g1 g2 Hg) as [Hp Hg'].
  destruct (shuffle_from _ _ g1) as [p1 g1'],
    (shuffle_from _ _ g2) as [p2 g2'].
  simpl in *. subst p2. by split.
Qed.

Lemma repeat_draw_same {A} (draw : RandomState → A * RandomState) (n : nat) :
  (∀ g1 g2, same_draws g1 g2 → same_pair (draw g1) (draw g2)) →
  ∀ g1 g2, same_draws g1 g2 →
    same_pair (repeat_draw draw n g1) (repeat_draw draw n g2).
Proof.
  intros Hdraw. induction n as [|n IH]; intros g1 g2 Hg;
    cbn [repeat_draw].
  - by split.
  - destruct (Hdraw g1 g2 Hg) as [Ha Hg'].
    destruct (draw g1) as [a1 g1'], (draw g2) as [a2 g2'].
    simpl in *. subst a2.
    destruct (IH g1' g2' Hg') as [Hl Hg''].
    destruct (repeat_draw draw n g1') as [l1 g1''],
      (repeat_draw draw n g2') as [l2 g2''].
    simpl in *. subst l2. by split.
Qed.

(** Chaining: a step on the generator, then a continuation that treats
    generators of the same draws alike. *)
Lemma same_run_bind {A B} (m1 m2 : result (A * RandomState))
    (k : A * RandomState → result (B * RandomState)) :
  same_run m1 m2 →
  (∀ a g1 g2, same_draws g1 g2 → same_run (k (a, g1)) (k (a, g2))) →
  same_run (m1 ≫= k) (m2 ≫= k).
Proof.
  intros Hm Hk. destruct m1 as [[a1 g1]|e1], m2 as [[a2 g2]|e2]; simpl in *;
    try done.
  destruct Hm as [Ha Hg]. simpl in *. subst a2. by apply Hk.
Qed.

Lemma same_run_bind_pure {A B} (m : result A)
    (k1 k2 : A → result (B * RandomState)) :
  (∀ a, same_run (k1 a) (k2 a)) → same_run (m ≫= k1) (m ≫= k2).
Proof. intros Hk. destruct m as [a|e]; simpl; [apply Hk|done]. Qed.

Lemma sample_same (df : DataFrame) (n : nat) (g1 g2 : RandomState) :
  same_draws g1 g2 → same_run (sample df n g1) (sample df n g2).
Proof.
  intros Hg. unfold sample.
  apply same_run_bind; [by apply choice_same|].
  intros locs g1' g2' Hg'. simpl. by split.
Qed.

Lemma sample_frac1_same (df : DataFrame) (g1 g2 : RandomState) :
  same_draws g1 g2 → same_run (sample_frac1 df g1) (sample_frac1 df g2).
Proof. apply sample_same. Qed.

Lemma make_samples_same (X_class : list (list Q)) (nns : list (list nat))
    (n : nat) (g1 g2 : RandomState) :
  same_draws g1 g2 →
  same_pair (imblearn.make_samples X_class nns n g1)
    (imblearn.make_samples X_class nns n g2).
Proof.
  intros Hg. unfold imblearn.make_samples, randint, uniform.
  destruct (repeat_draw_same
              (fun g => random_interval g
                          (length X_class * imblearn.k_neighbors - 1)) n
              (random_interval_same _) g1 g2 Hg) as [Hi Hg'].
  destruct (repeat_draw _ n g1) as [i1 g1'], (repeat_draw _ n g2) as [i2 g2'].
  simpl in *. subst i2.
  destruct (repeat_draw_same random_sample n random_sample_same g1' g2' Hg')
    as [Hs Hg''].
  destruct (repeat_draw random_sample n g1') as [s1 g1''],
    (repeat_draw random_sample n g2') as [s2 g2''].
  simpl in *. subst s2. by split.
Qed.

Lemma over_sample_same (X : list (list Q)) (y : list Q)
    (todo : list (Q * nat)) (g1 g2 : RandomState) :
  same_draws g1 g2 →
  same_run (imblearn.over_sample X y todo g1)
    (imblearn.over_sample X y todo g2).
Proof.
  revert g1 g2. induction todo as [|[c n] todo IH]; intros g1 g2 Hg.
  - simpl. by split.
  - simpl. destruct n as [|n]; [by apply IH|].
    apply same_run_bind_pure. intros nns.
    destruct (make_samples_same (imblearn.class_rows X y c)
                (map (drop 1) nns) (S n) g1 g2 Hg) as [HX Hg'].
    destruct (imblearn.make_samples _ _ (S n) g1) as [X1 g1'],
      (imblearn.make_samples _ _ (S n) g2) as [X2 g2'].
    simpl in *. subst X2.
    apply same_run_bind; [by apply IH|].
    intros [X_more y_more] g1'' g2'' Hg''. simpl. by split.
Qed.

Lemma make_synthetic_data_smote_same (X : DataFrame) (y : list Q)
    (ns : list nat) (g1 g2 : RandomState) :
  same_draws g1 g2 →
  same_run (make_synthetic_data_smote X y ns g1)
    (make_synthetic_data_smote X y ns g2).
Proof.
  intros Hg. unfold make_synthetic_data_smote.
  apply same_run_bind_pure. intros s0.
  apply same_run_bind_pure. intros s1.
  apply same_run_bind.
  - unfold imblearn.fit_resample. apply same_run_bind_pure. intros _.
    apply same_run_bind_pure. intros _.
    apply same_run_bind_pure. intros todo.
    apply same_run_bind; [by apply over_sample_same|].
    intros [X_new y_new] g1' g2' Hg'. simpl. by split.
  - intros [Xr yr] g1' g2' Hg'. simpl. by split.
Qed.

Lemma process_same (X_col_names : list string) (X_synthetic : DataFrame)
    (y_synthetic : list Q) (g1 g2 : RandomState) :
  same_draws g1 g2 →
  same_run (process_raw_synthetic_data X_col_names X_synthetic y_synthetic g1)
    (process_raw_synthetic_data X_col_names X_synthetic y_synthetic g2).
Proof.
  intros Hg. unfold process_raw_synthetic_data.
  apply same_run_bind_pure. intros [df0 σ'].
  apply same_run_bind_pure. intros df1.
  apply same_run_bind_pure. intros df2.
  apply same_run_bind_pure. intros df3.
  by apply sample_frac1_same.
Qed.

Lemma remove_closest_same (synth_df : DataFrame) (g1 g2 : RandomState) :
  same_draws g1 g2 →
  same_run (remove_closest synth_df g1) (remove_closest synth_df g2).
Proof.
  intros Hg. unfold remove_closest.
  apply same_run_bind_pure. intros sorted.
  by apply sample_frac1_same.
Qed.

Lemma show_examples_same (n : nat) (synth_df : DataFrame)
    (g1 g2 : RandomState) :
  same_draws g1 g2 →
  same_state id (show_examples n synth_df g1) (show_examples n synth_df g2).
Proof.
  revert g1 g2. induction n as [|n IH]; intros g1 g2 Hg; simpl; [done|].
  pose proof (sample_same synth_df 1 g1 g2 Hg) as Hs.
  destruct (sample synth_df 1 g1) as [[d1 g1']|e1],
    (sample synth_df 1 g2) as [[d2 g2']|e2]; simpl in *; try done.
  destruct Hs as [_ Hg']. by apply IH.
Qed.

Lemma rebalance_same (synth_df : DataFrame) (n1 n0 : nat)
    (g1 g2 : RandomState) :
  same_draws g1 g2 →
  same_run (rebalance synth_df n1 n0 g1) (rebalance synth_df n1 n0 g2).
Proof.
  intros Hg. unfold rebalance.
  apply same_run_bind_pure. intros mask1.
  apply same_run_bind; [by apply sample_same|].
  intros pos g1' g2' Hg'. simpl.
  apply same_run_bind_pure. intros mask0.
  apply same_run_bind; [by apply sample_same|].
  intros neg g1'' g2'' Hg''. simpl.
  by apply sample_frac1_same.
Qed.

Lemma notebook_same `{Sqrt} (X_train : DataFrame) (y_train : list Q)
    (X_test : DataFrame) (y_test : list Q) (g1 g2 : RandomState) :
  same_draws g1 g2 →
  same_run (notebook X_train y_train X_test y_test g1)
    (notebook X_train y_train X_test y_test g2).
Proof.
  intros Hg. unfold notebook.
  apply same_run_bind; [by apply make_synthetic_data_smote_same|].
  intros [X_synthetic y_synthetic] ga gb Hgab. cbv beta iota.
  apply same_run_bind; [by apply process_same|].
  intros synth_df gc gd Hgcd. cbv beta iota.
  apply same_run_bind_pure. intros annotated.
  apply same_run_bind_pure. intros filtered.
  apply same_run_bind; [by apply remove_closest_same|].
  intros kept ge gf Hgef. cbv beta iota.
  pose proof (show_examples_same 5 kept ge gf Hgef) as Hshow.
  destruct (show_examples 5 kept ge) as [gg|ea],
    (show_examples 5 kept gf) as [gh|eb];
    unfold same_state, mbind, result_bind in *; try done.
  by apply rebalance_same.
Qed.

(** ** The generator is only ever read *)

Lemma further_refl (g : RandomState) : further g g.
Proof. by split. Qed.

Lemma further_trans (g1 g2 g3 : RandomState) :
  further g1 g2 → further g2 g3 → further g1 g3.
Proof. intros [H1 H2] [H3 H4]. split; [congruence|lia]. Qed.

Lemma random_sample_pos (g : RandomState) :
  rs_words (random_sample g).2 = rs_words g
  ∧ rs_pos (random_sample g).2 = S (S (rs_pos g)).
Proof. done. Qed.

(** A shuffle of [i + 1] elements takes a word or more for each of its
    [i] exchanges. *)
Lemma shuffle_from_further {A} (i : nat) (x : list A) (g : RandomState) :
  rs_words (shuffle_from i x g).2 = rs_words g
  ∧ (rs_pos g + i ≤ rs_pos (shuffle_from i x g).2)%nat.
Proof.
  revert x g. induction i as [|i IH]; intros x g; cbn [shuffle_from];
    [split; [done|cbn [snd]; lia]|].
  destruct (random_interval_pos g (S i)) as [Hw Hp].
  destruct (random_interval g (S i)) as [j g1]. cbn [snd] in Hw, Hp.
  destruct (IH (swap x (S i) j) g1) as [Hw' Hp'].
  split; [congruence|]. destruct (decide (S i = 0%nat)); lia.
Qed.

Lemma sample_further (df out : DataFrame) (n : nat) (g g' : RandomState) :
  sample df n g = Ok (out, g') →
  rs_words g' = rs_words g
  ∧ (rs_pos g + (length (rows df) - 1) ≤ rs_pos g')%nat.
Proof.
  unfold sample, choice, permutation, mbind, result_bind.
  destruct (length (rows df) <? n)%nat; [done|].
  pose proof (shuffle_from_further (length (rows df) - 1)
                (seq 0 (length (rows df))) g) as Hs.
  destruct (shuffle_from _ _ g) as [p g1]. by intros [= <- <-].
Qed.

Lemma repeat_draw_further {A} (draw : RandomState → A * RandomState)
    (k n : nat) (g : RandomState) :
  (∀ g, rs_words (draw g).2 = rs_words g
        ∧ (rs_pos g + k ≤ rs_pos (draw g).2)%nat) →
  rs_words (repeat_draw draw n g).2 = rs_words g
  ∧ (rs_pos g + k * n ≤ rs_pos (repeat_draw draw n g).2)%nat.
Proof.
  intros Hdraw. revert g. induction n as [|n IH]; intros g;
    cbn [repeat_draw]; [split; [done|cbn [snd]; lia]|].
  destruct (Hdraw g) as [Hw Hp]. destruct (draw g) as [a g1].
  destruct (IH g1) as [Hw' Hp']. destruct (repeat_draw draw n g1) as [l g2].
  cbn [snd] in *. split; [congruence|lia].
Qed.

(** SMOTE takes two words or more for every point it makes. *)
Lemma make_samples_further (X_class : list (list Q)) (nns : list (list nat))
    (n : nat) (g : RandomState) :
  rs_words (imblearn.make_samples X_class nns n g).2 = rs_words g
  ∧ (rs_pos g + 2 * n
     ≤ rs_pos (imblearn.make_samples X_class nns n g).2)%nat.
Proof.
  unfold imblearn.make_samples, randint, uniform.
  destruct (repeat_draw_further
              (fun g => random_interval g
                          (length X_class * imblearn.k_neighbors - 1))
              0 n g) as [Hw1 Hp1].
  { intros g0. destruct (random_interval_pos g0
                           (length X_class * imblearn.k_neighbors - 1)).
    split; [done|]. destruct (decide _); lia. }
  destruct (repeat_draw _ n g) as [idxs g1].
  destruct (repeat_draw_further random_sample 2 n g1) as [Hw2 Hp2].
  { intros g0. destruct (random_sample_pos g0) as [? ->]. split; [done|lia]. }
  destruct (repeat_draw random_sample n g1) as [steps g2].
  cbn [snd] in *. split; [congruence|lia].
Qed.

Lemma over_sample_further (X : list (list Q)) (y : list Q)
    (todo : list (Q * nat)) (g g' : RandomState) (X_new : list (list Q))
    (y_new : list Q) :
  imblearn.over_sample X y todo g = Ok (X_new, y_new, g') →
  y_new = concat (map (fun cn => replicate cn.2 cn.1) todo)
  ∧ rs_words g' = rs_words g
  ∧ (rs_pos g + 2 * length y_new ≤ rs_pos g')%nat.
Proof.
  revert g X_new y_new.
  induction todo as [|[c n] todo IH]; intros g X_new y_new;
    cbn [imblearn.over_sample].
  - intros [= <- <- <-]. split; [done|]. split; [done|]. simpl. lia.
  - destruct n as [|n]; [apply IH|].
    unfold mbind, result_bind.
    destruct (sklearn.kneighbors_idx _ _) as [nns|]; [|done].
    destruct (make_samples_further (imblearn.class_rows X y c)
                (map (drop 1) nns) (S n) g) as [Hw Hp].
    destruct (imblearn.make_samples _ _ (S n) g) as [X_c g1].
    destruct (imblearn.over_sample X y todo g1) as [[[X_more y_more] g2]|]
      eqn:Hrest; [|done].
    intros [= <- <- <-].
    destruct (IH _ _ _ Hrest) as (-> & Hw' & Hp'). cbn [snd fst] in *.
    split; [done|]. split; [congruence|].
    cbn [length]. rewrite length_app, length_replicate. lia.
Qed.

Lemma check_sampling_strategy_inv (a b : nat) (y : list Q)
    (todo : list (Q * nat)) :
  imblearn.check_sampling_strategy [(0, a); (1, b)] y = Ok todo →
  imblearn.is_in 0 y = true ∧ imblearn.is_in 1 y = true
  ∧ (imblearn.count_label y 0 ≤ a)%nat ∧ (imblearn.count_label y 1 ≤ b)%nat
  ∧ todo = [(0, (a - imblearn.count_label y 0)%nat);
            (1, (b - imblearn.count_label y 1)%nat)].
Proof.
  unfold imblearn.check_sampling_strategy.
  destruct (length (imblearn.distinct y) <=? 1)%nat; [done|].
  cbn [forallb fst snd]. rewrite andb_true_r.
  destruct (imblearn.is_in 0 y); [|done].
  destruct (imblearn.is_in 1 y); [|done]. cbn [andb negb].
  destruct (imblearn.count_label y 0 <=? a)%nat eqn:Ha; [|done].
  destruct (imblearn.count_label y 1 <=? b)%nat eqn:Hb; [|done].
  cbn [andb negb]. intros [= <-].
  apply Nat.leb_le in Ha, Hb. done.
Qed.

(** What a call of [make_synthetic_data_smote] that returns has done. *)
Lemma make_synthetic_data_smote_inv (X : DataFrame) (y : list Q)
    (ns : list nat) (g g' : RandomState) (X_synthetic : DataFrame)
    (y_synthetic : list Q) :
  make_synthetic_data_smote X y ns g = Ok (X_synthetic, y_synthetic, g') →
  ∃ s0 s1 X_new,
    ns !! 0%nat = Some s0 ∧ ns !! 1%nat = Some s1
    ∧ rows X ≠ [] ∧ length (rows X) = length y
    ∧ imblearn.is_in 0 y = true ∧ imblearn.is_in 1 y = true
    ∧ imblearn.over_sample (sklearn.values_of X) y [(0, s0); (1, s1)] g
      = Ok (X_new, y_synthetic, g')
    ∧ X_synthetic
      = mkDataFrame (columns X)
          (imap (fun i r => mkRow (length (rows X) + i) r) X_new).
Proof.
  unfold make_synthetic_data_smote, list_item, mbind, result_bind.
  destruct (ns !! 0%nat) as [s0|]; [|done].
  destruct (ns !! 1%nat) as [s1|]; [|done].
  destruct (imblearn.fit_resample _ _ _ _) as [[[Xr yr] g1]|] eqn:Hfit;
    [|done].
  intros [= <- <- <-].
  apply fit_resample_inv
    in Hfit as (Hne & Hlen & todo & X_new & y_new & Hcheck & Hover & -> & ->).
  apply check_sampling_strategy_inv in Hcheck as (H0 & H1 & _ & _ & ->).
  unfold np_sum_eq in Hover. rewrite !Nat.add_sub in Hover.
  unfold sklearn.values_of in Hne, Hlen. rewrite length_map in Hlen.
  rewrite drop_app_length.
  exists s0, s1, X_new. split; [done|]. split; [done|].
  split; [by destruct (rows X)|]. split; [done|]. split; [done|].
  split; [done|]. split; [done|]. f_equal.
  rewrite imap_app, drop_app_length'
    by (rewrite length_imap; unfold sklearn.values_of; by rewrite length_map).
  apply imap_ext. intros i r _. cbv beta. f_equal.
  unfold sklearn.values_of. by rewrite length_map.
Qed.

Lemma distinct_elem (v : Q) (y : list Q) :
  v ∈ imblearn.distinct y → v ∈ y.
Proof.
  induction y as [|w y IH]; [done|]. cbn [imblearn.distinct].
  destruct (imblearn.is_in w y).
  - intros Hv. right. by apply IH.
  - intros [->|Hv]%elem_of_cons; [left|right; by apply IH].
Qed.

Lemma count_label_elem (v : Q) (y : list Q) :
  v ∈ y → (0 < imblearn.count_label y v)%nat.
Proof.
  unfold imblearn.count_label.
  induction y as [|w y IH]; intros Hv; [by apply elem_of_nil in Hv|].
  rewrite filter_cons.
  apply elem_of_cons in Hv as [->|Hv].
  - rewrite decide_True; [simpl; lia|]. apply Qeq_bool_iff. reflexivity.
  - specialize (IH Hv). destruct (decide _); simpl; lia.
Qed.

(** [np.unique] counts no label that does not occur. *)
Lemma unique_counts_pos (y : list Q) :
  Forall (fun c => (0 < c)%nat) (unique_counts y).
Proof.
  unfold unique_counts, np_sum_eq. apply Forall_fmap, Forall_forall.
  intros v Hv. cbn. by apply sort_by_elem, distinct_elem, count_label_elem in Hv.
Qed.

Lemma make_synthetic_data_smote_further (X : DataFrame) (y : list Q)
    (ns : list nat) (g g' : RandomState) (X_synthetic : DataFrame)
    (y_synthetic : list Q) :
  make_synthetic_data_smote X y ns g = Ok (X_synthetic, y_synthetic, g') →
  rs_words g' = rs_words g
  ∧ (rs_pos g + 2 * length y_synthetic ≤ rs_pos g')%nat
  ∧ ∃ s0 s1, ns !! 0%nat = Some s0 ∧ ns !! 1%nat = Some s1
           ∧ length y_synthetic = (s0 + s1)%nat.
Proof.
  intros Hrun.
  apply make_synthetic_data_smote_inv
    in Hrun as (s0 & s1 & X_new & Hs0 & Hs1 & _ & _ & _ & _ & Hover & _).
  apply over_sample_further in Hover as (Hy & Hw & Hp).
  split; [done|]. split; [done|]. exists s0, s1.
  split; [done|]. split; [done|]. rewrite Hy. cbn [map concat fst snd].
  rewrite app_nil_r, length_app, !length_replicate. done.
Qed.

Lemma show_examples_further (n : nat) (synth_df : DataFrame)
    (g g' : RandomState) :
  show_examples n synth_df g = Ok g' → further g g'.
Proof.
  revert g. induction n as [|n IH]; intros g; cbn [show_examples].
  - intros [= <-]. apply further_refl.
  - unfold mbind, result_bind.
    destruct (sample synth_df 1 g) as [[d g1]|] eqn:Hs; [|done].
    intros Hrest. apply sample_further in Hs as [Hw Hp].
    eapply further_trans; [|by apply IH]. split; [done|lia].
Qed.

(** A run of the notebook that returns leaves the generator further along
    the words it found it at: by two words or more for every record of
    the raw pool, which has at least two. *)
Lemma notebook_further `{Sqrt} (X_train : DataFrame) (y_train : list Q)
    (X_test : DataFrame) (y_test : list Q) (g g' : RandomState)
    (synth_df : DataFrame) :
  notebook X_train y_train X_test y_test g = Ok (synth_df, g') →
  rs_words g' = rs_words g ∧ (rs_pos g + 4 ≤ rs_pos g')%nat.
Proof.
  unfold notebook, mbind, result_bind.
  res_step [[Xs ys] g1] H1. res_step [df1 g2] H2. res_step df2 H3.
  res_step df3 H4. res_step [df4 g3] H5. res_step g4 Hshow.
  intros H6.
  apply make_synthetic_data_smote_further
    in H1 as (Hw1 & Hp1 & s0 & s1 & Hs0 & Hs1 & Hlen).
  assert (2 ≤ s0)%nat as Hs0'.
  { unfold required_smote_count in Hs0. rewrite list_lookup_fmap in Hs0.
    destruct (unique_counts y_train !! 0%nat) as [c|] eqn:Hc; [|done].
    injection Hs0 as <-.
    pose proof (Forall_lookup_1 _ _ _ _ (unique_counts_pos y_train) Hc)
      as Hpos. cbv beta in Hpos. lia. }
  assert (further g1 g2) as [Hw2 Hp2].
  { unfold process_raw_synthetic_data, mbind, result_bind in H2.
    destruct (one_hot_stage _ _ _) as [[d0 σ']|]; [|done].
    destruct (foldM round_column _ _) as [d1|]; [|done].
    destruct (foldM clip_round_column _ _) as [d2|]; [|done].
    destruct (set_column _ _ _) as [d3|]; [|done].
    apply sample_further in H2 as [Hw Hp]. split; [done|lia]. }
  assert (further g2 g3) as [Hw3 Hp3].
  { unfold remove_closest, mbind, result_bind in H5.
    destruct (sort_values_desc _ _) as [sorted|]; [|done].
    apply sample_further in H5 as [Hw Hp]. split; [done|lia]. }
  apply show_examples_further in Hshow as [Hw4 Hp4].
  assert (further g4 g') as [Hw5 Hp5].
  { unfold rebalance, mbind, result_bind in H6.
    destruct (label_mask df4 1) as [m1|]; [|done].
    destruct (sample _ _ g4) as [[pos ga]|] eqn:Ha; [|done].
    destruct (label_mask df4 0) as [m0|]; [|done].
    destruct (sample _ _ ga) as [[neg gb]|] eqn:Hb; [|done].
    apply sample_further in Ha as [Hwa Hpa], Hb as [Hwb Hpb],
      H6 as [Hwc Hpc].
    split; [congruence|lia]. }
  split; [congruence|lia].
Qed.

(** The two generators of [Demo] give the same words. *)
Lemma gen_twice_same (l : list Z) :
  same_draws (Demo.gen l) (Demo.gen' l).
Proof.
  split; [done|]. intros n _. unfold rs_stream, rs_period, Demo.gen, Demo.gen'.
  cbn [rs_words]. f_equal. rewrite length_app. cbn [length].
  set (L := length l).
  replace (S (L + S L)) with (S L * 2)%nat by lia.
  rewrite Nat.Div0.mod_mul_r.
  pose proof (Nat.mod_upper_bound n (S L) ltac:(lia)) as Hr.
  pose proof (Nat.mod_upper_bound (n / S L) 2 ltac:(lia)) as Hq.
  destruct ((n / S L) mod 2)%nat as [|[|q]] eqn:Eq; [| |lia].
  - rewrite Nat.mul_0_r, Nat.add_0_r.
    destruct (decide (n mod S L < L)%nat) as [Hlt|Hge].
    + by rewrite app_nth1.
    + assert (n mod S L = L) as -> by lia.
      rewrite app_nth2 by lia. fold L. rewrite Nat.sub_diag.
      by rewrite nth_overflow.
  - rewrite Nat.mul_1_r.
    rewrite app_nth2 by (fold L; lia). fold L.
    replace (n mod S L + S L - L)%nat with (S (n mod S L)) by lia.
    done.
Qed.

(** C5, as the code has it. The notebook sets no seed: all its random
    choices, from SMOTE's sampling to the last shuffle, take their words
    from numpy's global generator where the run finds it. Two runs on the
    same inputs whose generators give the same words end alike, with the
    same frame or the same exception; and a run that returns has read the
    generator and left it further along the same words, which a run that
    began by seeding would not do. *)
Theorem runs_of_same_draws_agree `{Sqrt} (X_train : DataFrame)
    (y_train : list Q) (X_test : DataFrame) (y_test : list Q)
    (g1 g2 : RandomState) :
  same_draws g1 g2 →
  match notebook X_train y_train X_test y_test g1,
        notebook X_train y_train X_test y_test g2 with
  | Ok (synth_df1, g1'), Ok (synth_df2, g2') =>
      synth_df1 = synth_df2
      ∧ same_draws g1' g2'
      ∧ rs_words g1' = rs_words g1
      ∧ (rs_pos g1 < rs_pos g1')%nat
  | Raise e1, Raise e2 => e1 = e2
  | _, _ => False
  end.
Proof.
  intros Hg.
  pose proof (notebook_same X_train y_train X_test y_test g1 g2 Hg) as Hrun.
  pose proof (notebook_further X_train y_train X_test y_test g1) as Hfur.
  destruct (notebook X_train y_train X_test y_test g1) as [[d1 g1']|e1],
    (notebook X_train y_train X_test y_test g2) as [[d2 g2']|e2];
    simpl in *; try done.
  destruct Hrun as [Hd Hg']. cbn [fst snd] in Hd, Hg'. subst d2.
  destruct (Hfur g1' d1 eq_refl) as [Hw Hp].
  split; [done|]. split; [done|]. split; [done|]. lia.
Qed.

(** Two runs on the data of [Demo] from generators of the same words. *)
Lemma runs_of_same_draws_agree_witness :
  match notebook (H := floor_sqrt) Demo.X_train Demo.y_train Demo.X_test
          Demo.y_test (Demo.gen Demo.draws),
        notebook (H := floor_sqrt) Demo.X_train Demo.y_train Demo.X_test
          Demo.y_test (Demo.gen' Demo.draws) with
  | Ok (synth_df1, g1'), Ok (synth_df2, g2') =>
      synth_df1 = synth_df2
      ∧ same_draws g1' g2'
      ∧ rs_words g1' = rs_words (Demo.gen Demo.draws)
      ∧ (rs_pos (Demo.gen Demo.draws) < rs_pos g1')%nat
  | Raise e1, Raise e2 => e1 = e2
  | _, _ => False
  end.
Proof.
  apply (runs_of_same_draws_agree (H := floor_sqrt) Demo.X_train Demo.y_train
           Demo.X_test Demo.y_test (Demo.gen Demo.draws)
           (Demo.gen' Demo.draws)).
  apply gen_twice_same.
Defined.

(** C5, as the claim has it, fails. A run that began by seeding the
    generator ([seeded_notebook]) would end alike whatever state it found
    the generator in. The notebook has no seed among its settings: with
    the inputs fixed, a run that finds the Mersenne Twister at one place
    of its words and a run that finds it at the next end with different
    frames. *)
Lemma same_inputs_different_outputs :
  (∀ place g1 g2,
     rs_words g1 = rs_words g2 →
     seeded_notebook (H := floor_sqrt) place Demo.X_train Demo.y_train
       Demo.X_test Demo.y_test g1
     = seeded_notebook (H := floor_sqrt) place Demo.X_train Demo.y_train
         Demo.X_test Demo.y_test g2)
  ∧ ∃ synth_df1 g1' synth_df2 g2',
      notebook (H := floor_sqrt) Demo.X_train Demo.y_train Demo.X_test
        Demo.y_test (mkRandomState Demo.draws 0) = Ok (synth_df1, g1')
      ∧ notebook (H := floor_sqrt) Demo.X_train Demo.y_train Demo.X_test
          Demo.y_test (mkRandomState Demo.draws 1) = Ok (synth_df2, g2')
      ∧ synth_df1 ≠ synth_df2.
Proof.
  split.
  - intros place g1 g2 Hw. unfold seeded_notebook, np_random_seed.
    by rewrite Hw.
  - eexists _, _, _, _.
    split; [vm_compute; reflexivity|].
    split; [vm_compute; reflexivity|]. discriminate.
Qed.

(** * Further properties of the notebook's cells *)

(** ** The feature lists *)

(** [x[0:len(col)] == col] holds of the names that begin with [col]. *)
Lemma has_prefix_spec (col x : string) :
  has_prefix col x = true ↔ ∃ rest, x = String.append col rest.
Proof.
  unfold has_prefix. rewrite String.eqb_eq.
  revert x. induction col as [|a col IH]; intros x.
  - split; [intros _; by exists x|intros _; by destruct x].
  - destruct x as [|b x]; simpl.
    + split; [done|by intros [rest ?]].
    + split.
      * intros [= -> Hsub]. apply IH in Hsub as [rest ->]. by exists rest.
      * intros [rest [= -> ->]]. f_equal. apply IH. by exists rest.
Qed.

(** X1. The cell that prepares the feature lists makes three groups, one
    per prefix [gender_], [work_type_] and [smoking_status_], in this
    order. The group of a prefix lists the columns of the frame whose name
    begins with the prefix, all of them and no other, in the order of the
    frame's columns. No column is in two groups, and none of the integer,
    binary or label columns is in a group. *)
Theorem one_hot_groups_are_disjoint (X_col_names : list string) :
  length (one_hot_cols X_col_names) = 3%nat
  ∧ Forall2 (fun prefix group =>
               group `sublist_of` X_col_names
               ∧ ∀ c, c ∈ group ↔
                   c ∈ X_col_names ∧ ∃ rest, c = String.append prefix rest)
      ["gender_"; "work_type_"; "smoking_status_"]
      (one_hot_cols X_col_names)
  ∧ (∀ group, group ∈ one_hot_cols X_col_names →
       group `sublist_of` X_col_names)
  ∧ (∀ i j g1 g2 c,
       one_hot_cols X_col_names !! i = Some g1 →
       one_hot_cols X_col_names !! j = Some g2 →
       c ∈ g1 → c ∈ g2 → i = j)
  ∧ (∀ group c, group ∈ one_hot_cols X_col_names → c ∈ group →
       c ∉ integer_cols ++ binary_cols ++ [y_label]).
Proof.
  split; [done|]. split; [|split; [|split]].
  - unfold one_hot_cols. apply Forall2_fmap_r, Forall_Forall2_diag.
    apply Forall_forall. intros prefix _. split; [apply sublist_filter|].
    intros c. rewrite list_elem_of_filter, has_prefix_spec. tauto.
  - intros group Hg. apply list_elem_of_lookup in Hg as [t Ht].
    apply one_hot_cols_lookup in Ht as (col & _ & ->).
    apply sublist_filter.
  - intros i j g1 g2 c Hi Hj H1 H2.
    destruct (one_hot_cols_elem _ _ _ c Hi H1) as (_ & col1 & Hc1 & Hp1).
    destruct (one_hot_cols_elem _ _ _ c Hj H2) as (_ & col2 & Hc2 & Hp2).
    by eapply categorical_disjoint.
  - intros group c Hg Hc. apply list_elem_of_lookup in Hg as [t Ht].
    destruct (one_hot_cols_elem _ _ _ c Ht Hc) as (_ & col & Hcol & Hpre).
    eapply group_column_not_rounded; [|exact Hpre].
    by eapply list_elem_of_lookup_2.
Qed.

(** ** The processing cell, row by row *)

Lemma repair_cells_lookup_notin (ps : list nat) (v : list Q) (p : nat) :
  p ∉ ps → repair_cells ps v !! p = v !! p.
Proof.
  intros Hp. unfold repair_cells. destruct (np.argmax _); [|done].
  by apply scatter_lookup_notin.
Qed.

Lemma repair_all_lookup_notin (pss : list (list nat)) (v : list Q) (p : nat) :
  (∀ ps, ps ∈ pss → p ∉ ps) → repair_all pss v !! p = v !! p.
Proof.
  unfold repair_all. revert v.
  induction pss as [|ps pss IH]; intros v Hp; simpl; [done|].
  rewrite IH.
  - apply repair_cells_lookup_notin, Hp, list_elem_of_here.
  - intros ps' Hps'. by apply Hp, list_elem_of_further.
Qed.

(** A column outside every group sits at a position outside every group's
    positions. *)
Lemma position_outside_groups (cols : list string) (groups : list (list string))
    (pss : list (list nat)) (c : string) (p : nat) :
  Forall2 (fun g ps => get_locs cols g = Ok ps ∧ ps ≠ []
                       ∧ Forall (fun p => (p < length cols)%nat) ps)
    groups pss →
  get_loc cols c = Ok p →
  (∀ g, g ∈ groups → c ∉ g) →
  ∀ ps, ps ∈ pss → p ∉ ps.
Proof.
  intros Hpss Hp Hout ps Hps Hin.
  apply list_elem_of_lookup in Hps as [t Ht].
  destruct (Forall2_lookup_r _ _ _ _ _ Hpss Ht) as (g & Hg & Hlocs & _).
  apply get_locs_Forall2 in Hlocs.
  apply list_elem_of_lookup in Hin as [k Hk].
  destruct (Forall2_lookup_r _ _ _ _ _ Hlocs Hk) as (c' & Hc' & Hloc').
  apply get_loc_lookup in Hp, Hloc'.
  assert (c' = c) as -> by congruence.
  apply (Hout g); by eapply list_elem_of_lookup_2.
Qed.

(** The columns of [cs], each read, mapped through [f] and written back:
    every cell under a column of [cs] is the image of the old one. *)
Lemma foldM_map_column_values (f : Q → Q) (cs : list string) (df : DataFrame) :
  well_shaped df →
  NoDup cs →
  Forall (fun c => c ∈ columns df) cs →
  ∃ df', foldM (fun df c =>
                  column df c ≫= fun vs => set_column df c (map f vs)) df cs
         = Ok df'
       ∧ ∀ c, c ∈ cs →
           Forall2 (fun r r' => ∃ q, cell df r c = Some q
                                   ∧ cell df' r' c = Some (f q))
             (rows df) (rows df').
Proof.
  revert df. induction cs as [|c cs IH]; intros df Hshape Hnd Hin; simpl.
  - exists df. split; [done|]. intros c Hc. by apply elem_of_nil in Hc.
  - apply Forall_cons in Hin as [Hc Hin].
    apply NoDup_cons in Hnd as [Hnotin Hnd].
    destruct (map_column_spec f df c Hshape Hc)
      as (df1 & Hrun1 & Hshape1 & Hcols1 & Hkeeps1 & Hvals1).
    rewrite Hrun1. simpl.
    destruct (IH df1 Hshape1 Hnd) as (df2 & Hrun2 & Hvals2).
    { by rewrite Hcols1. }
    destruct (foldM_map_column f cs df1 Hshape1) as (df2' & Hrun2' & _ & _ & Hkeeps2).
    { by rewrite Hcols1. }
    rewrite Hrun2 in Hrun2'. injection Hrun2' as <-.
    exists df2. split; [done|].
    intros c' Hc'. apply elem_of_cons in Hc' as [->|Hc'].
    + apply Forall2_same_length_lookup_2.
      { apply Forall2_length in Hkeeps1, Hkeeps2. congruence. }
      intros i r r2 Hr Hr2.
      destruct (Forall2_lookup_l _ _ _ _ _ Hvals1 Hr) as (r1 & Hr1 & q & Hq & Hq1).
      exists q. split; [done|].
      destruct (Forall2_lookup_l _ _ _ _ _ Hkeeps2 Hr1) as (r2' & Hr2' & _ & Hsame).
      assert (r2' = r2) as -> by congruence.
      by rewrite Hsame.
    + specialize (Hvals2 c' Hc').
      apply Forall2_same_length_lookup_2.
      { apply Forall2_length in Hkeeps1, Hkeeps2. congruence. }
      intros i r r2 Hr Hr2.
      destruct (Forall2_lookup_l _ _ _ _ _ Hkeeps1 Hr) as (r1 & Hr1 & _ & Hsame).
      destruct (Forall2_lookup_l _ _ _ _ _ Hvals2 Hr1) as (r2' & Hr2' & q & Hq & Hq2).
      assert (r2' = r2) as -> by congruence.
      exists q. split; [|done]. rewrite <- Hsame; [done|].
      intros Heq. apply list_elem_of_singleton in Heq as ->. done.
Qed.

(** What the processing cell leaves of each raw row, before the shuffle
    ([df3]) and after it. *)
Lemma process_rowwise (X_col_names : list string) (X_synthetic : DataFrame)
    (y_synthetic : list Q) (g : RandomState) :
  NoDup X_col_names →
  columns X_synthetic = X_col_names →
  well_shaped X_synthetic →
  Forall (fun group => group ≠ []) (one_hot_cols X_col_names) →
  Forall (fun c => c ∈ X_col_names) (integer_cols ++ binary_cols) →
  length y_synthetic = length (rows X_synthetic) →
  ∃ synth_df g' df3,
    process_raw_synthetic_data X_col_names X_synthetic y_synthetic g
    = Ok (synth_df, g')
    ∧ columns synth_df = columns df3
    ∧ rows synth_df ≡ₚ rows df3
    ∧ length (rows df3) = length (rows X_synthetic)
    ∧ ∀ i raw r, rows X_synthetic !! i = Some raw → rows df3 !! i = Some r →
        r_label r = r_label raw
        ∧ cell df3 r y_label = y_synthetic !! i
        ∧ (∀ c, c ∈ binary_cols →
             ∃ x, cell X_synthetic raw c = Some x
                ∧ cell df3 r c = Some (np.round (np.clip x 0 1)))
        ∧ (∀ c, c ∈ X_col_names →
             (∀ group, group ∈ one_hot_cols X_col_names → c ∉ group) →
             c ∉ integer_cols ++ binary_cols ++ [y_label] →
             cell df3 r c = cell X_synthetic raw c).
Proof.
  intros Hnd Hcols Hshape Hne Hin Hlen.
  destruct (process_steps X_col_names X_synthetic y_synthetic
              Hnd Hcols Hshape Hne Hin Hlen)
    as (pss & σ' & df0 & df1 & df2 & df3 & Hpss & Hdf0 & H0 & H1 & H2 & H3
        & Hshape0 & Hshape1 & Hshape2 & Hshape3 & Hcols1 & Hcols2 & Hcols3
        & Hk1 & Hk2 & Hk3 & Hlabel).
  rewrite (process_unfold _ _ _ g _ _ _ _ _ H0 H1 H2 H3).
  destruct (sample_frac1_total df3 g) as (synth_df & g' & Hsample).
  exists synth_df, g', df3. split; [done|].
  apply sample_frac1_Permutation in Hsample as [Hcolsf Hperm].
  split; [done|]. split; [done|].
  pose proof (Forall2_length _ _ _ Hk1) as Hl1.
  pose proof (Forall2_length _ _ _ Hk2) as Hl2.
  pose proof (Forall2_length _ _ _ Hk3) as Hl3.
  assert (length (rows df0) = length (rows X_synthetic)) as Hl0
    by (rewrite Hdf0; simpl; by rewrite length_map).
  split; [congruence|].
  (* the values of the binary columns *)
  apply Forall_app in Hin as [Hint Hbin].
  destruct (foldM_map_column_values (fun x => np.round (np.clip x 0 1))
              binary_cols df1 Hshape1) as (df2' & H2' & Hvals).
  { apply (bool_decide_unpack _). vm_compute. exact I. }
  { by rewrite Hcols1. }
  unfold clip_round_column in H2. rewrite H2 in H2'. injection H2' as <-.
  intros i raw r Hraw Hr.
  destruct (Forall2_lookup_r _ _ _ _ _ Hk3 Hr) as (r2 & Hr2 & Hlab3 & Hsame3).
  destruct (Forall2_lookup_r _ _ _ _ _ Hk2 Hr2) as (r1 & Hr1 & Hlab2 & Hsame2).
  destruct (Forall2_lookup_r _ _ _ _ _ Hk1 Hr1) as (r0 & Hr0 & Hlab1 & Hsame1).
  assert (r0 = mkRow (r_label raw) (repair_all pss (r_cells raw))) as Hr0'.
  { rewrite Hdf0 in Hr0. simpl in Hr0. rewrite list_lookup_fmap, Hraw in Hr0.
    simpl in Hr0. congruence. }
  (* a column outside the groups keeps its raw cell through the loop *)
  assert (∀ c, c ∈ X_col_names →
            (∀ group, group ∈ one_hot_cols X_col_names → c ∉ group) →
            cell df0 r0 c = cell X_synthetic raw c) as Hloop.
  { intros c Hc Hout. unfold cell. rewrite Hdf0, Hcols. simpl.
    destruct (get_loc X_col_names c) as [p|] eqn:Hp; [|done].
    rewrite Hr0'. simpl. apply repair_all_lookup_notin.
    by eapply position_outside_groups. }
  split; [rewrite Hlab3, Hlab2, Hlab1, Hr0'; done|].
  split.
  { destruct (Forall2_lookup_l _ _ _ _ _ Hlabel Hr) as (q & Hq & Hcell).
    by rewrite Hcell, Hq. }
  split.
  - intros c Hc.
    destruct (Forall2_lookup_l _ _ _ _ _ (Hvals c Hc) Hr1)
      as (r2' & Hr2' & x & Hx & Hx').
    assert (r2' = r2) as -> by congruence.
    exists x. split.
    + rewrite <- Hloop.
      * rewrite <- Hsame1; [done|].
        revert Hc. clear. unfold binary_cols, integer_cols. intros Hc Hi.
        apply list_elem_of_singleton in Hi as ->.
        repeat (apply elem_of_cons in Hc as [Hc|Hc]; [discriminate Hc|]).
        by apply elem_of_nil in Hc.
      * eapply Forall_forall in Hbin; [exact Hbin|done].
      * intros group Hg Hcg. apply list_elem_of_lookup in Hg as [t Ht].
        destruct (one_hot_cols_elem _ _ _ c Ht Hcg) as (_ & col & Hcol & Hpre).
        eapply (group_column_not_rounded col c);
          [by eapply list_elem_of_lookup_2|exact Hpre|].
        apply elem_of_app. right. apply elem_of_app. by left.
    + rewrite Hsame3; [done|].
      revert Hc. clear. unfold binary_cols, y_label. intros Hc Hi.
      apply list_elem_of_singleton in Hi as ->.
      repeat (apply elem_of_cons in Hc as [Hc|Hc]; [discriminate Hc|]).
      by apply elem_of_nil in Hc.
  - intros c Hc Hout Hnot.
    apply not_elem_of_app in Hnot as [Hni Hnot].
    apply not_elem_of_app in Hnot as [Hnb Hny].
    rewrite Hsame3, Hsame2, Hsame1 by done. by apply Hloop.
Qed.

Lemma clip_round_zero_or_one (x : Q) :
  (np.round (np.clip x 0 1) = 0 ∨ np.round (np.clip x 0 1) = 1)
  ∧ (x <= 1 # 2 → np.round (np.clip x 0 1) = 0)
  ∧ (1 # 2 < x → np.round (np.clip x 0 1) = 1).
Proof.
  unfold np.round, np.clip.
  destruct (Qlt_le_dec x 0) as [Hneg|Hnn].
  { split; [by left|]. split; [done|]. intros Hx. lra. }
  destruct (Qlt_le_dec 1 x) as [Hbig|Hle1].
  { split; [by right|]. split; [|done]. intros Hx. lra. }
  unfold np.rint.
  pose proof (Qfloor_le x) as Hlo. pose proof (Qlt_floor x) as Hhi.
  assert (Qfloor x = 0 ∨ Qfloor x = 1)%Z as [Hf|Hf].
  { assert (inject_Z (Qfloor x) <= inject_Z 1) as H1
      by (change (inject_Z 1) with 1; lra).
    assert (inject_Z 0 < inject_Z (Qfloor x + 1)) as H0
      by (change (inject_Z 0) with 0; lra).
    rewrite <- Zle_Qle in H1. rewrite <- Zlt_Qlt in H0. lia. }
  - rewrite Hf in *. change (inject_Z 0) with 0 in *.
    change (inject_Z (0 + 1)) with 1 in *.
    destruct (Qcompare_spec (x - 0) (1 # 2)) as [Heq|Hlt|Hgt]; simpl.
    + split; [by left|]. split; [done|]. intros Hx. lra.
    + split; [by left|]. split; [done|]. intros Hx. lra.
    + split; [by right|]. split; [|done]. intros Hx. lra.
  - rewrite Hf in *. change (inject_Z 1) with 1 in *.
    destruct (Qcompare_spec (x - 1) (1 # 2)) as [Heq|Hlt|Hgt]; simpl.
    + lra.
    + split; [by right|]. split; [|done]. intros Hx. lra.
    + lra.
Qed.

(** X2. The binary columns after the processing cell. Every cell of a
    binary column is exactly 0 or 1: the raw value of the same record
    (found by its index label) clipped to [0, 1] and rounded, so that a raw
    value up to one half gives 0 (a half goes to the even neighbour) and a
    greater one gives 1. *)
Theorem binary_columns_are_zero_or_one (X_col_names : list string)
    (X_synthetic : DataFrame) (y_synthetic : list Q) (g : RandomState) :
  NoDup X_col_names →
  columns X_synthetic = X_col_names →
  well_shaped X_synthetic →
  Forall (fun group => group ≠ []) (one_hot_cols X_col_names) →
  Forall (fun c => c ∈ X_col_names) (integer_cols ++ binary_cols) →
  length y_synthetic = length (rows X_synthetic) →
  ∃ synth_df g',
    process_raw_synthetic_data X_col_names X_synthetic y_synthetic g
    = Ok (synth_df, g')
    ∧ ∀ r c, r ∈ rows synth_df → c ∈ binary_cols →
        ∃ raw x q,
          raw ∈ rows X_synthetic
          ∧ r_label raw = r_label r
          ∧ cell X_synthetic raw c = Some x
          ∧ cell synth_df r c = Some q
          ∧ (q = 0 ∨ q = 1)
          ∧ (x <= 1 # 2 → q = 0)
          ∧ (1 # 2 < x → q = 1).
Proof.
  intros Hnd Hcols Hshape Hne Hin Hlen.
  destruct (process_rowwise X_col_names X_synthetic y_synthetic g
              Hnd Hcols Hshape Hne Hin Hlen)
    as (synth_df & g' & df3 & Hrun & Hcolsf & Hperm & Hlen3 & Hrows).
  exists synth_df, g'. split; [done|].
  intros r c Hr Hc. rewrite Hperm in Hr.
  apply list_elem_of_lookup in Hr as [i Hi].
  destruct (lookup_lt_is_Some_2 (rows X_synthetic) i) as [raw Hraw].
  { rewrite <- Hlen3. by eapply lookup_lt_Some. }
  destruct (Hrows i raw r Hraw Hi) as (Hlab & _ & Hbin & _).
  destruct (Hbin c Hc) as (x & Hx & Hq).
  exists raw, x, (np.round (np.clip x 0 1)).
  split; [by eapply list_elem_of_lookup_2|]. split; [done|].
  split; [done|]. split.
  { unfold cell. rewrite Hcolsf. exact Hq. }
  apply clip_round_zero_or_one.
Qed.

(** The cell run on the two raw rows of [Demo.X_raw]. *)
Lemma binary_columns_are_zero_or_one_witness :
  ∃ synth_df g',
    process_raw_synthetic_data Demo.cols Demo.X_raw Demo.y_raw
      (Demo.gen Demo.draws)
    = Ok (synth_df, g')
    ∧ ∀ r c, r ∈ rows synth_df → c ∈ binary_cols →
        ∃ raw x q,
          raw ∈ rows Demo.X_raw
          ∧ r_label raw = r_label r
          ∧ cell Demo.X_raw raw c = Some x
          ∧ cell synth_df r c = Some q
          ∧ (q = 0 ∨ q = 1)
          ∧ (x <= 1 # 2 → q = 0)
          ∧ (1 # 2 < x → q = 1).
Proof.
  apply (binary_columns_are_zero_or_one Demo.cols Demo.X_raw Demo.y_raw
           (Demo.gen Demo.draws)).
  - apply (bool_decide_unpack _). vm_compute. exact I.
  - reflexivity.
  - repeat constructor.
  - repeat constructor; discriminate.
  - apply (bool_decide_unpack _). vm_compute. exact I.
  - reflexivity.
Defined.

(** X3. What the processing cell never touches. A feature column that is
    in no one-hot group and is neither an integer nor a binary column (a
    continuous feature such as a body-mass index) holds, in every record of
    the processed frame, the raw value SMOTE gave that record. *)
Theorem other_columns_pass_unchanged (X_col_names : list string)
    (X_synthetic : DataFrame) (y_synthetic : list Q) (g : RandomState) :
  NoDup X_col_names →
  columns X_synthetic = X_col_names →
  well_shaped X_synthetic →
  Forall (fun group => group ≠ []) (one_hot_cols X_col_names) →
  Forall (fun c => c ∈ X_col_names) (integer_cols ++ binary_cols) →
  length y_synthetic = length (rows X_synthetic) →
  ∃ synth_df g',
    process_raw_synthetic_data X_col_names X_synthetic y_synthetic g
    = Ok (synth_df, g')
    ∧ ∀ r, r ∈ rows synth_df →
        ∃ raw, raw ∈ rows X_synthetic
             ∧ r_label raw = r_label r
             ∧ ∀ c, c ∈ X_col_names →
                 (∀ group, group ∈ one_hot_cols X_col_names → c ∉ group) →
                 c ∉ integer_cols ++ binary_cols ++ [y_label] →
                 cell synth_df r c = cell X_synthetic raw c.
Proof.
  intros Hnd Hcols Hshape Hne Hin Hlen.
  destruct (process_rowwise X_col_names X_synthetic y_synthetic g
              Hnd Hcols Hshape Hne Hin Hlen)
    as (synth_df & g' & df3 & Hrun & Hcolsf & Hperm & Hlen3 & Hrows).
  exists synth_df, g'. split; [done|].
  intros r Hr. rewrite Hperm in Hr.
  apply list_elem_of_lookup in Hr as [i Hi].
  destruct (lookup_lt_is_Some_2 (rows X_synthetic) i) as [raw Hraw].
  { rewrite <- Hlen3. by eapply lookup_lt_Some. }
  destruct (Hrows i raw r Hraw Hi) as (Hlab & _ & _ & Hother).
  exists raw. split; [by eapply list_elem_of_lookup_2|]. split; [done|].
  intros c Hc Hout Hnot. unfold cell at 1. rewrite Hcolsf.
  by apply Hother.
Qed.

(** The cell run on the two raw rows of [Demo.X_raw], whose [bmi] is such
    a column. *)
Lemma other_columns_pass_unchanged_witness :
  ∃ synth_df g',
    process_raw_synthetic_data Demo.cols Demo.X_raw Demo.y_raw
      (Demo.gen Demo.draws)
    = Ok (synth_df, g')
    ∧ ∀ r, r ∈ rows synth_df →
        ∃ raw, raw ∈ rows Demo.X_raw
             ∧ r_label raw = r_label r
             ∧ ∀ c, c ∈ Demo.cols →
                 (∀ group, group ∈ one_hot_cols Demo.cols → c ∉ group) →
                 c ∉ integer_cols ++ binary_cols ++ [y_label] →
                 cell synth_df r c = cell Demo.X_raw raw c.
Proof.
  apply (other_columns_pass_unchanged Demo.cols Demo.X_raw Demo.y_raw
           (Demo.gen Demo.draws)).
  - apply (bool_decide_unpack _). vm_compute. exact I.
  - reflexivity.
  - repeat constructor.
  - repeat constructor; discriminate.
  - apply (bool_decide_unpack _). vm_compute. exact I.
  - reflexivity.
Defined.

(** X4. The label column and the shuffle. The processing cell loses and
    adds no record: the processed frame has the index labels of the raw
    frame, in another order; and each record carries, under [stroke], the
    label that [y_synthetic] holds at the record's position in the raw
    frame: the shuffle moves whole rows. *)
Theorem shuffle_keeps_labels_with_rows (X_col_names : list string)
    (X_synthetic : DataFrame) (y_synthetic : list Q) (g : RandomState) :
  NoDup X_col_names →
  columns X_synthetic = X_col_names →
  well_shaped X_synthetic →
  Forall (fun group => group ≠ []) (one_hot_cols X_col_names) →
  Forall (fun c => c ∈ X_col_names) (integer_cols ++ binary_cols) →
  length y_synthetic = length (rows X_synthetic) →
  ∃ synth_df g',
    process_raw_synthetic_data X_col_names X_synthetic y_synthetic g
    = Ok (synth_df, g')
    ∧ length (rows synth_df) = length (rows X_synthetic)
    ∧ map r_label (rows synth_df) ≡ₚ map r_label (rows X_synthetic)
    ∧ ∀ r, r ∈ rows synth_df →
        ∃ i raw q, rows X_synthetic !! i = Some raw
                 ∧ r_label r = r_label raw
                 ∧ y_synthetic !! i = Some q
                 ∧ cell synth_df r y_label = Some q.
Proof.
  intros Hnd Hcols Hshape Hne Hin Hlen.
  destruct (process_rowwise X_col_names X_synthetic y_synthetic g
              Hnd Hcols Hshape Hne Hin Hlen)
    as (synth_df & g' & df3 & Hrun & Hcolsf & Hperm & Hlen3 & Hrows).
  exists synth_df, g'. split; [done|].
  split; [by rewrite Hperm|]. split.
  - rewrite Hperm.
    assert (map r_label (rows df3) = map r_label (rows X_synthetic)) as ->;
      [|done].
    apply list_eq. intros i. rewrite !list_lookup_fmap.
    destruct (rows df3 !! i) as [r|] eqn:Hr.
    + destruct (lookup_lt_is_Some_2 (rows X_synthetic) i) as [raw Hraw].
      { rewrite <- Hlen3. by eapply lookup_lt_Some. }
      rewrite Hraw. simpl. f_equal.
      by destruct (Hrows i raw r Hraw Hr) as (Hlab & _).
    + apply lookup_ge_None in Hr. rewrite Hlen3 in Hr.
      apply lookup_ge_None in Hr. by rewrite Hr.
  - intros r Hr. rewrite Hperm in Hr.
    apply list_elem_of_lookup in Hr as [i Hi].
    destruct (lookup_lt_is_Some_2 (rows X_synthetic) i) as [raw Hraw].
    { rewrite <- Hlen3. by eapply lookup_lt_Some. }
    destruct (Hrows i raw r Hraw Hi) as (Hlab & Hy & _).
    destruct (lookup_lt_is_Some_2 y_synthetic i) as [q Hq].
    { rewrite Hlen. by eapply lookup_lt_Some. }
    exists i, raw, q. split; [done|]. split; [done|]. split; [done|].
    unfold cell. rewrite Hcolsf. fold (cell df3 r y_label).
    by rewrite Hy.
Qed.

(** The cell run on the two raw rows of [Demo.X_raw]. *)
Lemma shuffle_keeps_labels_with_rows_witness :
  ∃ synth_df g',
    process_raw_synthetic_data Demo.cols Demo.X_raw Demo.y_raw
      (Demo.gen Demo.draws)
    = Ok (synth_df, g')
    ∧ length (rows synth_df) = length (rows Demo.X_raw)
    ∧ map r_label (rows synth_df) ≡ₚ map r_label (rows Demo.X_raw)
    ∧ ∀ r, r ∈ rows synth_df →
        ∃ i raw q, rows Demo.X_raw !! i = Some raw
                 ∧ r_label r = r_label raw
                 ∧ Demo.y_raw !! i = Some q
                 ∧ cell synth_df r y_label = Some q.
Proof.
  apply (shuffle_keeps_labels_with_rows Demo.cols Demo.X_raw Demo.y_raw
           (Demo.gen Demo.draws)).
  - apply (bool_decide_unpack _). vm_compute. exact I.
  - reflexivity.
  - repeat constructor.
  - repeat constructor; discriminate.
  - apply (bool_decide_unpack _). vm_compute. exact I.
  - reflexivity.
Defined.

(** ** Repairing a repaired column *)

Lemma rint_inject_Z (z : Z) : np.rint (inject_Z z) = z.
Proof.
  unfold np.rint. rewrite Qfloor_Z.
  assert (Qcompare (inject_Z z - inject_Z z) (1 # 2) = Lt) as ->; [|done].
  apply (proj1 (Qlt_alt _ _)).
  assert (inject_Z z - inject_Z z == 0) as -> by ring. reflexivity.
Qed.

Lemma round_twice (x : Q) : np.round (np.round x) = np.round x.
Proof. unfold np.round. by rewrite rint_inject_Z. Qed.

Lemma clip_round_twice (x : Q) :
  np.round (np.clip (np.round (np.clip x 0 1)) 0 1)
  = np.round (np.clip x 0 1).
Proof.
  destruct (clip_round_zero_or_one x) as [[-> | ->] _]; reflexivity.
Qed.

Lemma zip_with_set_cell_same (p : nat) (rs : list Row) (vs : list Q) :
  Forall2 (fun r q => r_cells r !! p = Some q) rs vs →
  zip_with (set_cell p) rs vs = rs.
Proof.
  induction 1 as [|r q rs vs Hq _ IH]; [done|]. simpl. rewrite IH. f_equal.
  unfold set_cell. rewrite list_insert_id by done. by destruct r.
Qed.

(** A column mapped through an idempotent [f] is a fixed point of the
    mapping. *)
Lemma map_column_twice (f : Q → Q) (df : DataFrame) (c : string) :
  (∀ x, f (f x) = f x) →
  well_shaped df →
  c ∈ columns df →
  ∃ df1, (column df c ≫= fun vs => set_column df c (map f vs)) = Ok df1
       ∧ (column df1 c ≫= fun vs => set_column df1 c (map f vs)) = Ok df1.
Proof.
  intros Hf Hshape Hin.
  destruct (map_column_spec f df c Hshape Hin)
    as (df1 & Hrun & Hshape1 & Hcols1 & _ & Hcells).
  exists df1. split; [done|].
  destruct (get_loc_elem _ _ Hin) as [p Hp].
  assert (get_loc (columns df1) c = Ok p) as Hp1 by by rewrite Hcols1.
  destruct (column_run df1 c p Hshape1 Hp1) as (vs1 & Hvs1 & Hcells1).
  rewrite Hvs1. cbn [mbind result_bind].
  assert (map f vs1 = vs1) as ->.
  { apply list_eq. intros i. rewrite list_lookup_fmap.
    destruct (vs1 !! i) as [v|] eqn:Hv; [|done]. simpl. f_equal.
    destruct (Forall2_lookup_r _ _ _ _ _ Hcells1 Hv) as (r1 & Hr1 & Hr1v).
    destruct (Forall2_lookup_r _ _ _ _ _ Hcells Hr1) as (r & Hr & q & _ & Hq1).
    unfold cell in Hq1. rewrite Hp1 in Hq1.
    assert (v = f q) as -> by congruence. apply Hf. }
  unfold set_column.
  rewrite <- (Forall2_length _ _ _ Hcells1), Nat.eqb_refl. cbn [negb].
  rewrite Hp1, (zip_with_set_cell_same _ _ _ Hcells1). by destruct df1.
Qed.

(** X28. The repair of the integer and binary columns is idempotent: a
    column that has been rounded is left exactly as it is by a second
    rounding, and a column that has been clipped and rounded by a second
    clipping and rounding. A frame that is already repaired passes these
    steps unchanged. *)
Theorem repaired_columns_are_fixed_points (df : DataFrame) (c : string) :
  well_shaped df →
  c ∈ columns df →
  (∃ df1, round_column df c = Ok df1 ∧ round_column df1 c = Ok df1)
  ∧ (∃ df2, clip_round_column df c = Ok df2
          ∧ clip_round_column df2 c = Ok df2).
Proof.
  intros Hshape Hin. split.
  - apply (map_column_twice np.round df c round_twice Hshape Hin).
  - apply (map_column_twice (fun x => np.round (np.clip x 0 1)) df c
             clip_round_twice Hshape Hin).
Qed.

(** The column [hypertension] of the raw rows of [Demo.X_raw]. *)
Lemma repaired_columns_are_fixed_points_witness :
  (∃ df1, round_column Demo.X_raw "hypertension" = Ok df1
        ∧ round_column df1 "hypertension" = Ok df1)
  ∧ (∃ df2, clip_round_column Demo.X_raw "hypertension" = Ok df2
          ∧ clip_round_column df2 "hypertension" = Ok df2).
Proof.
  apply (repaired_columns_are_fixed_points Demo.X_raw "hypertension").
  - repeat constructor.
  - apply (bool_decide_unpack _). vm_compute. exact I.
Defined.

(** ** A prefix that matches no column *)

Lemma for_each_app {A} (f : A → M unit) (l1 l2 : list A) (σ : store) :
  for_each f (l1 ++ l2) σ
  = match for_each f l1 σ with
    | Ok (_, σ') => for_each f l2 σ'
    | Raise e => Raise e
    end.
Proof.
  revert σ. induction l1 as [|a l1 IH]; intros σ; simpl; [done|].
  unfold mbind, M_bind. destruct (f a σ) as [[[] σ1]|e]; [|done].
  apply IH.
Qed.

(** With an empty list of labels, [row[one_hot_list]] is an empty Series
    and [np.argmax] has nothing to choose from. *)
Lemma repair_row_empty_group (cols : list string) (l : loc) (v : list Q)
    (σ : store) :
  σ !! l = Some v → repair_row [] (mkSeries cols l) σ = Raise ValueError.
Proof.
  intros Hl. unfold repair_row, getitem_list, make_one_hot. unfold_M.
  simpl. rewrite Hl. simpl.
  by rewrite lookup_app_r, Nat.sub_diag.
Qed.

Lemma first_empty_group (groups : list (list string)) :
  [] ∈ groups →
  ∃ pre post, groups = pre ++ [] :: post ∧ Forall (fun g => g ≠ []) pre.
Proof.
  induction groups as [|g groups IH]; intros Hin;
    [by apply elem_of_nil in Hin|].
  destruct g as [|c g].
  - exists [], groups. by split.
  - apply elem_of_cons in Hin as [Hin|Hin]; [done|].
    destruct (IH Hin) as (pre & post & -> & Hpre).
    exists ((c :: g) :: pre), post. split; [done|]. by constructor.
Qed.

Lemma groups_positions (cols : list string) (groups : list (list string)) :
  Forall (fun g => g ≠ [] ∧ Forall (fun c => c ∈ cols) g) groups →
  ∃ pss, Forall2 (fun g ps => get_locs cols g = Ok ps ∧ ps ≠ []
                     ∧ Forall (fun p => (p < length cols)%nat) ps)
           groups pss.
Proof.
  intros Hall. apply Forall_exists_Forall2.
  eapply Forall_impl; [exact Hall|]. intros g [Hne Hin].
  destruct (get_locs_elem cols g Hin) as [ps Hps].
  exists ps. split; [done|]. split.
  - intros ->. apply get_locs_length in Hps. by destruct g.
  - by eapply get_locs_lt.
Qed.

(** X5. When one of the three prefixes matches no column of the data, the
    processing cell fails on the first record with ValueError, the
    exception [np.argmax] raises for an empty sequence, whatever the
    record holds. *)
Theorem processing_fails_on_a_missing_group (X_col_names : list string)
    (X_synthetic : DataFrame) (y_synthetic : list Q) (g : RandomState) :
  NoDup X_col_names →
  columns X_synthetic = X_col_names →
  well_shaped X_synthetic →
  rows X_synthetic ≠ [] →
  [] ∈ one_hot_cols X_col_names →
  process_raw_synthetic_data X_col_names X_synthetic y_synthetic g
  = Raise ValueError.
Proof.
  intros Hnd Hcols Hshape Hrows Hempty.
  destruct (first_empty_group _ Hempty) as (pre & post & Hsplit & Hpre).
  destruct (groups_positions X_col_names pre) as [pss Hpss].
  { apply Forall_forall. intros grp Hg. split.
    - by eapply Forall_forall in Hpre.
    - apply Forall_forall. intros c Hc.
      assert (grp ∈ one_hot_cols X_col_names) as Hg'.
      { rewrite Hsplit. apply elem_of_app. by left. }
      apply list_elem_of_lookup in Hg' as [t Ht].
      by destruct (one_hot_cols_elem _ _ _ c Ht Hc). }
  unfold well_shaped in Hshape. rewrite Hcols in Hshape.
  assert (map (reindex_row (seq 0 (length X_col_names))) (rows X_synthetic)
          = rows X_synthetic) as Hre.
  { apply list_eq. intros i. rewrite list_lookup_fmap.
    destruct (rows X_synthetic !! i) as [r|] eqn:Hr; [|done]. simpl.
    eapply Forall_lookup_1 in Hshape; [|exact Hr].
    unfold reindex_row. rewrite <- Hshape, gather_seq. by destruct r. }
  set (rs := rows X_synthetic) in *.
  set (df := mkBlock X_col_names (map r_label rs) (seq 0 (length rs))).
  destruct (one_hot_loop_run X_col_names (length X_col_names) df pre pss
              eq_refl)
    with (vs := map r_cells rs) (σ := map r_cells rs)
    as (σ1 & Hloop & Hhold).
  { apply NoDup_seq. }
  { simpl. by rewrite length_map, length_seq. }
  { done. }
  { simpl. apply Forall2_same_length_lookup_2.
    - by rewrite length_seq, length_map.
    - intros i l v Hl Hv. apply lookup_seq in Hl as [-> _]. done. }
  { by apply Forall_fmap. }
  assert (one_hot_stage X_col_names X_synthetic [] = Raise ValueError)
    as Hstage.
  { unfold one_hot_stage.
    erewrite M_bind_run;
      [|unfold lift; rewrite Hcols, (get_locs_self _ Hnd); reflexivity].
    cbv beta. fold rs. rewrite Hre.
    erewrite M_bind_run;
      [|unfold new_block; erewrite M_bind_run; [|apply alloc_rows_run];
        reflexivity].
    simpl. fold df.
    unfold mbind at 1, M_bind at 1.
    unfold one_hot_loop in *. rewrite Hsplit, for_each_app, Hloop.
    simpl. unfold mbind at 1, M_bind at 1.
    destruct rs as [|r0 rs'] eqn:Hrs; [done|].
    simpl. unfold mbind at 1, M_bind at 1.
    erewrite repair_row_empty_group; [done|].
    simpl in Hhold. by inversion Hhold. }
  unfold process_raw_synthetic_data, mbind, result_bind.
  by rewrite Hstage.
Qed.

(** The cell run on [Demo.X_no_work], which has no [work_type_] column. *)
Lemma processing_fails_on_a_missing_group_witness :
  process_raw_synthetic_data (columns Demo.X_no_work) Demo.X_no_work [0]
    (Demo.gen Demo.draws)
  = Raise ValueError.
Proof.
  apply (processing_fails_on_a_missing_group (columns Demo.X_no_work)
           Demo.X_no_work [0] (Demo.gen Demo.draws)).
  - apply (bool_decide_unpack _). vm_compute. exact I.
  - reflexivity.
  - repeat constructor.
  - discriminate.
  - apply (bool_decide_unpack _). vm_compute. exact I.
Defined.

(** ** [make_one_hot] on its own result *)

Lemma first_max_unique (v : list Q) (i j : nat) :
  first_max v i → first_max v j → i = j.
Proof.
  intros (m & Hm & Hall & Hbefore) (m' & Hm' & Hall' & Hbefore').
  destruct (Nat.lt_trichotomy i j) as [Hlt|[Heq|Hgt]]; [|done|].
  - pose proof (Hbefore' i m Hlt Hm) as H1.
    pose proof (Hall j m' Hm') as H2. lra.
  - pose proof (Hbefore j m' Hgt Hm') as H1.
    pose proof (Hall' i m Hm) as H2. lra.
Qed.

Lemma argmax_one_hot_at (highest : nat) (v : list Q) :
  (highest < length v)%nat →
  np.argmax (one_hot_at highest v) = Ok highest.
Proof.
  intros Hh.
  assert (length (one_hot_at highest v) = length v) as Hlen
    by (unfold one_hot_at; by rewrite length_insert, length_map).
  destruct (argmax_first_max (one_hot_at highest v)) as (h' & Harg & Hfm).
  { intros Hnil. rewrite Hnil in Hlen. simpl in Hlen. lia. }
  rewrite Harg. f_equal. apply (first_max_unique _ _ _ Hfm).
  exists 1. split; [|split].
  - unfold one_hot_at. apply list_lookup_insert_eq. by rewrite length_map.
  - intros j y Hj.
    destruct (one_hot_at_lookup highest v j Hh) as (y' & Hy' & Heq).
    { apply lookup_lt_Some in Hj. lia. }
    assert (y' = y) as -> by congruence.
    rewrite Heq. destruct (decide _); lra.
  - intros j y Hlt Hj.
    destruct (one_hot_at_lookup highest v j Hh) as (y' & Hy' & Heq); [lia|].
    assert (y' = y) as -> by congruence.
    rewrite Heq. destruct (decide _); [lia|lra].
Qed.

Lemma Qmult_zero_twice (e : Q) : e * 0 * 0 = e * 0.
Proof.
  destruct e as [a b]. unfold Qmult. simpl.
  by rewrite !Z.mul_0_r, !Pos.mul_1_r.
Qed.

Lemma one_hot_at_twice (highest : nat) (v : list Q) :
  one_hot_at highest (one_hot_at highest v) = one_hot_at highest v.
Proof.
  unfold one_hot_at.
  rewrite list_fmap_insert, list_insert_insert_eq, <- list_fmap_compose.
  f_equal. apply list_fmap_ext. intros i e _. simpl.
  apply Qmult_zero_twice.
Qed.

(** X6. [make_one_hot] is idempotent: called again on the Series it has
    just rewritten, it returns the same Series and leaves every object as
    the first call left it. A row that is already one-hot is therefore
    never changed by the repair. *)
Theorem make_one_hot_twice (σ : store) (x : Series) (v : list Q) :
  σ !! s_data x = Some v →
  v ≠ [] →
  ∃ σ', make_one_hot x σ = Ok (x, σ')
      ∧ make_one_hot x σ' = Ok (x, σ').
Proof.
  intros Hx Hne.
  destruct (argmax_first_max v Hne) as (highest & Harg & Hfm).
  pose proof (first_max_lt_length _ _ Hfm) as Hlt.
  pose proof (lookup_lt_Some _ _ _ Hx) as Hl.
  exists (<[s_data x := one_hot_at highest v]> σ).
  split; [by apply make_one_hot_run|].
  rewrite (make_one_hot_run _ x (one_hot_at highest v) highest).
  - by rewrite list_insert_insert_eq, one_hot_at_twice.
  - by apply list_lookup_insert_eq.
  - by apply argmax_one_hot_at.
  - unfold one_hot_at. by rewrite length_insert, length_map.
Qed.

(** Two calls on the vector [3; 7; 7; 1] held in the only buffer. *)
Lemma make_one_hot_twice_witness :
  ∃ σ', make_one_hot (mkSeries ["a"; "b"; "c"; "d"] 0) [[3; 7; 7; 1]]
        = Ok (mkSeries ["a"; "b"; "c"; "d"] 0, σ')
      ∧ make_one_hot (mkSeries ["a"; "b"; "c"; "d"] 0) σ'
        = Ok (mkSeries ["a"; "b"; "c"; "d"] 0, σ').
Proof.
  apply (make_one_hot_twice [[3; 7; 7; 1]]
           (mkSeries ["a"; "b"; "c"; "d"] 0) [3; 7; 7; 1]).
  - reflexivity.
  - discriminate.
Defined.

(** ** The request sent to SMOTE *)

(** X7. The cell that generates the raw pool asks SMOTE for twice the
    training set: on a training frame that has columns, with training
    labels 0 and 1, each class with more rows than SMOTE's five
    neighbours, the request is twice the count of class 0 and twice the
    count of class 1, and the generation returns a pool of exactly twice
    as many records as the training set has, those of class 0 first. *)
Theorem raw_pool_doubles_each_class (X_train : DataFrame) (y_train : list Q)
    (g : RandomState) :
  well_shaped X_train →
  columns X_train ≠ [] →
  length (rows X_train) = length y_train →
  Forall (fun v => v == 0 ∨ v == 1) y_train →
  (6 ≤ np_sum_eq y_train 0)%nat →
  (6 ≤ np_sum_eq y_train 1)%nat →
  required_smote_count y_train
  = [(np_sum_eq y_train 0 * 2)%nat; (np_sum_eq y_train 1 * 2)%nat]
  ∧ ∃ X_synthetic y_synthetic g',
      make_synthetic_data_smote X_train y_train
        (required_smote_count y_train) g
      = Ok (X_synthetic, y_synthetic, g')
      ∧ columns X_synthetic = columns X_train
      ∧ length (rows X_synthetic) = (2 * length (rows X_train))%nat
      ∧ y_synthetic = replicate (np_sum_eq y_train 0 * 2) 0
                      ++ replicate (np_sum_eq y_train 1 * 2) 1.
Proof.
  intros Hshape Hcne Hlen Hall Hc0 Hc1.
  assert (imblearn.is_in 0 y_train = true) as H0
    by (apply count_label_pos_is_in; unfold np_sum_eq in Hc0; lia).
  assert (imblearn.is_in 1 y_train = true) as H1
    by (apply count_label_pos_is_in; unfold np_sum_eq in Hc1; lia).
  assert (required_smote_count y_train
          = [(np_sum_eq y_train 0 * 2)%nat; (np_sum_eq y_train 1 * 2)%nat])
    as Hreq.
  { unfold required_smote_count. by rewrite (unique_counts_two _ Hall H0 H1). }
  split; [done|]. rewrite Hreq.
  pose proof (count_labels_total y_train Hall) as Htot.
  destruct (make_synthetic_data_smote_returns X_train y_train
              (np_sum_eq y_train 0 * 2) (np_sum_eq y_train 1 * 2) g
              Hshape Hall)
    as (X_synthetic & y_synthetic & g' & X_new & Hrun & _ & Hcols & _ & _
        & Hrows & Hy & _); [|done..|by right|by right|].
  { intros E. rewrite E in Hlen. unfold np_sum_eq in Hc0. simpl in Hlen.
    lia. }
  exists X_synthetic, y_synthetic, g'.
  split; [done|]. split; [done|]. split; [|done].
  unfold np_sum_eq in *. lia.
Qed.

(** The generation cell on the training set of [Demo]. *)
Lemma raw_pool_doubles_each_class_witness :
  required_smote_count Demo.y_train
  = [(np_sum_eq Demo.y_train 0 * 2)%nat; (np_sum_eq Demo.y_train 1 * 2)%nat]
  ∧ ∃ X_synthetic y_synthetic g',
      make_synthetic_data_smote Demo.X_train Demo.y_train
        (required_smote_count Demo.y_train) (Demo.gen Demo.draws)
      = Ok (X_synthetic, y_synthetic, g')
      ∧ columns X_synthetic = columns Demo.X_train
      ∧ length (rows X_synthetic) = (2 * length (rows Demo.X_train))%nat
      ∧ y_synthetic = replicate (np_sum_eq Demo.y_train 0 * 2) 0
                      ++ replicate (np_sum_eq Demo.y_train 1 * 2) 1.
Proof.
  apply (raw_pool_doubles_each_class Demo.X_train Demo.y_train
           (Demo.gen Demo.draws)).
  - repeat constructor.
  - discriminate.
  - reflexivity.
  - repeat constructor; (by left) || (by right).
  - vm_compute. lia.
  - vm_compute. lia.
Defined.

Lemma sort_by_length {A} (key : A → Q) (before : Q → Q → bool) (l : list A) :
  length (sort_by key before l) = length l.
Proof.
  unfold sort_by. induction l as [|a l IH]; [done|]. simpl. rewrite <- IH.
  generalize (foldr (insert_sorted key before) [] l). clear. intros k.
  induction k as [|b k IH]; simpl; [done|].
  destruct (before (key b) (key a)); simpl; [by rewrite IH|done].
Qed.

(** X8. A training set with a single class stops the generation before
    SMOTE is called: [np.unique] then gives one count, the request has one
    entry, and [number_of_samples[1]] raises IndexError. *)
Theorem one_class_request_raises_index_error (X_train : DataFrame)
    (y_train : list Q) (c : Q) (g : RandomState) :
  Forall (fun v => v == c) y_train →
  (length (required_smote_count y_train) ≤ 1)%nat
  ∧ make_synthetic_data_smote X_train y_train
      (required_smote_count y_train) g
    = Raise IndexError.
Proof.
  intros Hall.
  assert (length (required_smote_count y_train) ≤ 1)%nat as Hlen.
  { unfold required_smote_count, unique_counts.
    rewrite !length_map, sort_by_length.
    destruct y_train as [|v y]; [simpl; lia|].
    by destruct (distinct_one_class c (v :: y) Hall) as (b & -> & _). }
  split; [done|].
  unfold make_synthetic_data_smote, list_item.
  destruct (required_smote_count y_train) as [|n0 [|n1 ns]]; simpl in *;
    [done|done|lia].
Qed.

(** The generation cell on [Demo.y_one_class], whose labels are all 0. *)
Lemma one_class_request_raises_index_error_witness :
  (length (required_smote_count Demo.y_one_class) ≤ 1)%nat
  ∧ make_synthetic_data_smote Demo.X_train Demo.y_one_class
      (required_smote_count Demo.y_one_class) (Demo.gen Demo.draws)
    = Raise IndexError.
Proof.
  apply (one_class_request_raises_index_error Demo.X_train Demo.y_one_class
           0 (Demo.gen Demo.draws)).
  repeat constructor.
Defined.

(** ** SMOTE stays within the data *)

(** Whatever the request, the rows SMOTE's loop returns are points between
    two input rows of their class. *)
Lemma over_sample_synthesized (X : list (list Q)) (y : list Q)
    (todo : list (Q * nat)) :
  length X = length y →
  ∀ (g g' : RandomState) (X_new : list (list Q)) (y_new : list Q),
    imblearn.over_sample X y todo g = Ok (X_new, y_new, g') →
    Forall2 (fun v c => synthesized X y c v) X_new y_new.
Proof.
  intros Hlen. induction todo as [|[c n] todo IH]; intros g g' X_new y_new.
  - cbn [imblearn.over_sample]. intros [= <- <- _]. constructor.
  - cbn [imblearn.over_sample]. destruct n as [|n]; [by apply IH|].
    unfold mbind, result_bind.
    destruct (sklearn.kneighbors_idx (imblearn.k_neighbors + 1)
                (imblearn.class_rows X y c)) as [nns|e] eqn:Hnns; [|done].
    pose proof (kneighbors_idx_bound _ _ _ Hnns) as Hbound.
    assert (imblearn.class_rows X y c ≠ []) as Hne.
    { intros Hnil. rewrite Hnil in Hnns. done. }
    pose proof (make_samples_length (imblearn.class_rows X y c)
                  (map (drop 1) nns) (S n) g) as Hms.
    pose proof (make_samples_interpolated (imblearn.class_rows X y c)
                  (map (drop 1) nns) (S n) g) as Hint.
    destruct (imblearn.make_samples _ _ (S n) g) as [X_c g1].
    destruct (imblearn.over_sample X y todo g1) as [[[X_more y_more] g2]|e]
      eqn:Hrest; [|done].
    intros [= <- <- _].
    cbn [fst] in Hms, Hint.
    change (Forall2 (fun v c => synthesized X y c v) (X_c ++ X_more)
              (replicate (S n) c ++ y_more)).
    apply Forall2_app; [|by eapply IH].
    apply Forall2_same_length_lookup_2.
    { by rewrite length_replicate. }
    intros i v c' Hv Hc'. apply lookup_replicate in Hc' as [-> _].
    assert (Forall (Forall (fun i => (i < length (imblearn.class_rows X y c))%nat))
              (map (drop 1) nns)) as Hbound'.
    { apply Forall_fmap. eapply Forall_impl; [exact Hbound|].
      intros row Hrow. simpl.
      apply Forall_forall. intros i' Hi'.
      eapply Forall_forall in Hrow; [exact Hrow|].
      by eapply (subseteq_drop 1). }
    specialize (Hint Hne Hbound').
    by eapply Forall_lookup_1 in Hint.
Qed.

Lemma class_rows_elem (X : list (list Q)) (y : list Q) (c : Q) (p : list Q) :
  p ∈ imblearn.class_rows X y c →
  ∃ k v, X !! k = Some p ∧ y !! k = Some v ∧ v == c.
Proof.
  unfold imblearn.class_rows. intros Hp.
  apply list_elem_of_omap in Hp as ([p' v] & Hin & Hsome).
  simpl in Hsome. destruct (Qeq_bool v c) eqn:Hvc; [|done].
  injection Hsome as ->.
  apply list_elem_of_lookup in Hin as [k Hk].
  apply lookup_zip_with_Some in Hk as (p'' & v' & [= <- <-] & Hp' & Hv').
  exists k, v. split; [done|]. split; [done|]. by apply Qeq_bool_iff.
Qed.

Lemma interpolate_between (p q : list Q) (step : Q) (j : nat) (x lo hi : Q) :
  0 <= step → step < 1 →
  (∀ a, p !! j = Some a → lo <= a ∧ a <= hi) →
  (∀ b, q !! j = Some b → lo <= b ∧ b <= hi) →
  imblearn.interpolate p q step !! j = Some x →
  lo <= x ∧ x <= hi.
Proof.
  intros H0 H1 Hp Hq Hx. unfold imblearn.interpolate in Hx.
  apply lookup_zip_with_Some in Hx as (a & b & -> & Ha & Hb).
  destruct (Hp a Ha) as [Hpa1 Hpa2]. destruct (Hq b Hb) as [Hqb1 Hqb2].
  rewrite Qred_correct. split; nra.
Qed.

(** X9. SMOTE never leaves the range of the data. If, in the rows of some
    class, a feature lies between [lo] and [hi], then it lies between [lo]
    and [hi] in every synthetic row of that class: a binary feature stays
    within [0, 1], as the comment of the processing cell says, and so does
    a one-hot column. *)
Theorem smote_stays_within_the_class_range (X : DataFrame) (y : list Q)
    (number_of_samples : list nat) (g g' : RandomState)
    (X_synthetic : DataFrame) (y_synthetic : list Q)
    (c : Q) (j : nat) (lo hi : Q) :
  length (rows X) = length y →
  make_synthetic_data_smote X y number_of_samples g
  = Ok (X_synthetic, y_synthetic, g') →
  Forall2 (fun r v => v == c →
             ∀ x, r_cells r !! j = Some x → lo <= x ∧ x <= hi)
    (rows X) y →
  Forall2 (fun r v => v == c →
             ∀ x, r_cells r !! j = Some x → lo <= x ∧ x <= hi)
    (rows X_synthetic) y_synthetic.
Proof.
  intros Hlen Hrun Hrange.
  apply make_synthetic_data_smote_inv
    in Hrun as (s0 & s1 & X_new & _ & _ & _ & _ & _ & _ & Hover & ->).
  assert (length (sklearn.values_of X) = length y) as Hlen'
    by (unfold sklearn.values_of; by rewrite length_map).
  pose proof (over_sample_synthesized _ _ _ Hlen' _ _ _ _ Hover) as Hsyn.
  cbn [rows].
  apply Forall2_same_length_lookup_2.
  { rewrite length_imap. by eapply Forall2_length. }
  intros i r v Hr Hv Hvc x Hx.
  apply list_lookup_imap_Some in Hr as (w & Hw & ->). simpl in Hx.
  eapply Forall2_lookup_lr in Hsyn; [|exact Hw|exact Hv].
  destruct Hsyn as (p & q & step & Hp & Hq & H0 & H1 & ->).
  assert (∀ p0, p0 ∈ imblearn.class_rows (sklearn.values_of X) y v →
            ∀ a, p0 !! j = Some a → lo <= a ∧ a <= hi) as Hclass.
  { intros p0 Hp0 a Ha.
    apply class_rows_elem in Hp0 as (k & v0 & Hk & Hv0 & Heq).
    unfold sklearn.values_of in Hk. rewrite list_lookup_fmap in Hk.
    destruct (rows X !! k) as [r0|] eqn:Hr0; [|done].
    simpl in Hk. injection Hk as <-.
    eapply Forall2_lookup_lr in Hrange; [|exact Hr0|exact Hv0].
    apply Hrange; [|done]. by rewrite Heq. }
  eapply interpolate_between; [exact H0|exact H1| | |exact Hx].
  - by apply Hclass.
  - by apply Hclass.
Qed.

(** SMOTE on the training set of [Demo]: [hypertension] (position 1) is 0
    or 1 in every row, and stays within [0, 1] in the synthetic rows. *)
Lemma smote_stays_within_the_class_range_witness :
  ∃ X_synthetic y_synthetic g',
    make_synthetic_data_smote Demo.X_train Demo.y_train [12; 12]%nat
      (Demo.gen Demo.draws)
    = Ok (X_synthetic, y_synthetic, g')
    ∧ Forall2 (fun r v => v == 0 →
                 ∀ x, r_cells r !! 1%nat = Some x → 0 <= x ∧ x <= 1)
        (rows X_synthetic) y_synthetic.
Proof.
  eexists _, _, _. split; [vm_compute; reflexivity|].
  eapply (smote_stays_within_the_class_range Demo.X_train Demo.y_train
            [12; 12]%nat (Demo.gen Demo.draws)).
  - reflexivity.
  - vm_compute. reflexivity.
  - unfold Demo.X_train, Demo.y_train. cbn [rows].
    repeat (constructor;
              [intros _ x Hx; simpl in Hx; injection Hx as <-;
               split; unfold Qle; simpl; lia|]).
    constructor.
Defined.

(** ** The standardised training set *)

Lemma nat_Q_S (n : nat) : nat_Q (S n) == nat_Q n + 1.
Proof.
  unfold nat_Q. rewrite Nat2Z.inj_succ, <- Z.add_1_r, inject_Z_plus.
  reflexivity.
Qed.

Lemma nat_Q_pos (n : nat) : (0 < n)%nat → 0 < nat_Q n.
Proof.
  intros Hn. unfold nat_Q. change 0 with (inject_Z 0).
  rewrite <- Zlt_Qlt. lia.
Qed.

Lemma Qsum_map_proper (f f' : Q → Q) (l : list Q) :
  (∀ x, f x == f' x) → Qsum (map f l) == Qsum (map f' l).
Proof.
  intros Hf. induction l as [|x l IH]; [reflexivity|].
  simpl map. by rewrite !Qsum_cons, IH, Hf.
Qed.

Lemma Qsum_map_scale (f : Q → Q) (k : Q) (l : list Q) :
  Qsum (map (fun x => f x * k) l) == Qsum (map f l) * k.
Proof.
  induction l as [|x l IH]; [reflexivity|].
  simpl map. rewrite !Qsum_cons, IH. ring.
Qed.

Lemma Qsum_map_shift (m : Q) (l : list Q) :
  Qsum (map (fun x => x - m) l) == Qsum l - nat_Q (length l) * m.
Proof.
  induction l as [|x l IH].
  - unfold nat_Q; simpl. reflexivity.
  - simpl map. simpl length. rewrite !Qsum_cons, IH, nat_Q_S. ring.
Qed.

Lemma mean_spec (l : list Q) :
  l ≠ [] → sklearn.mean l * nat_Q (length l) == Qsum l.
Proof.
  intros Hne. unfold sklearn.mean. rewrite Qred_correct.
  assert (0 < nat_Q (length l)) as Hpos.
  { apply nat_Q_pos. destruct l; simpl; [done|lia]. }
  field. lra.
Qed.

(** The column [j] of the transformed rows, from the column [j] of the
    rows. *)
Lemma feature_transform (sc : sklearn.StandardScaler) (X : list (list Q))
    (j : nat) (m s : Q) :
  sklearn.mean_ sc !! j = Some m →
  sklearn.scale_ sc !! j = Some s →
  Forall (fun r => (j < length r)%nat) X →
  sklearn.feature (map (sklearn.transform_row sc) X) j
  = map (fun x => Qred ((x - m) / s)) (sklearn.feature X j)
  ∧ length (sklearn.feature X j) = length X.
Proof.
  intros Hm Hs. unfold sklearn.feature.
  induction 1 as [|r X Hr _ [IH1 IH2]]; [done|].
  destruct (lookup_lt_is_Some_2 r j Hr) as [x Hx].
  cbn [map omap list_omap]. rewrite Hx.
  assert (sklearn.transform_row sc r !! j = Some (Qred ((x - m) / s))) as ->.
  { unfold sklearn.transform_row. rewrite lookup_zip_with, Hx. simpl.
    by rewrite lookup_zip_with, Hm, Hs. }
  cbn [map]. fold (omap (fun r => r !! j) (map (sklearn.transform_row sc) X)).
  fold (omap (fun r : list Q => r !! j) X).
  rewrite IH1. simpl. by rewrite IH2.
Qed.

Lemma well_shaped_values (X : DataFrame) (j : nat) :
  well_shaped X → (j < length (columns X))%nat →
  Forall (fun r => (j < length r)%nat) (sklearn.values_of X).
Proof.
  intros Hshape Hj. unfold sklearn.values_of. apply Forall_fmap.
  eapply Forall_impl; [exact Hshape|]. intros r Hr. simpl in *. lia.
Qed.

(** The column [j] of the standardised training rows. *)
Lemma standardised_feature `{Sqrt} (X_train X_test : DataFrame)
    (train_std test_std : list (list Q)) (j : nat) :
  well_shaped X_train →
  standardise_data X_train X_test = Ok (train_std, test_std) →
  (j < length (columns X_train))%nat →
  let l := sklearn.feature (sklearn.values_of X_train) j in
  l ≠ []
  ∧ length l = length (rows X_train)
  ∧ sklearn.feature train_std j
    = map (fun x =>
             Qred ((x - sklearn.mean l)
                   / sklearn.handle_zeros_in_scale
                       (np_sqrt (sklearn.variance l))
                       (sklearn.is_constant_feature (sklearn.variance l)
                          (sklearn.mean l) (length (rows X_train))))) l
  ∧ length train_std = length (rows X_train)
  ∧ length test_std = length (rows X_test).
Proof.
  intros Hshape Hrun Hj l.
  destruct (standardise_data_inv _ _ _ _ Hrun)
    as (sc & Hfit & _ & _ & -> & ->).
  destruct (fit_inv _ _ Hfit) as (Hne & _ & _ & _ & _ & Hat).
  destruct (Hat j Hj) as [Hm Hs].
  destruct (feature_transform sc (sklearn.values_of X_train) j _ _ Hm Hs)
    as [Hfeat Hflen].
  { by apply well_shaped_values. }
  fold l in Hfeat, Hflen.
  unfold sklearn.values_of in Hflen. rewrite length_map in Hflen.
  split; [|split; [done|split; [done|]]].
  - intros Hnil. rewrite Hnil in Hflen. simpl in Hflen.
    by destruct (rows X_train).
  - unfold sklearn.values_of. by rewrite !length_map.
Qed.

Lemma mean_standardised (l : list Q) (s : Q) :
  l ≠ [] →
  sklearn.mean (map (fun x => Qred ((x - sklearn.mean l) / s)) l) == 0.
Proof.
  intros Hlne. pose proof (mean_spec l Hlne) as Hmean.
  unfold sklearn.mean at 1. rewrite Qred_correct, length_map.
  rewrite (Qsum_map_proper _ (fun x => (x - sklearn.mean l) * / s));
    [|intros x; by rewrite Qred_correct].
  rewrite (Qsum_map_scale (fun x => x - sklearn.mean l)), Qsum_map_shift.
  rewrite <- Hmean. unfold Qdiv. ring.
Qed.

(** X10. Standardising centres the training set: whenever
    [standardise_data] returns, each feature of the standardised training
    rows has mean zero, whatever the square root gave as its scale; and
    the two results have the rows of the two inputs. *)
Theorem standardised_training_set_is_centred `{Sqrt}
    (X_train X_test : DataFrame) (train_std test_std : list (list Q))
    (j : nat) :
  well_shaped X_train →
  standardise_data X_train X_test = Ok (train_std, test_std) →
  (j < length (columns X_train))%nat →
  length train_std = length (rows X_train)
  ∧ length test_std = length (rows X_test)
  ∧ sklearn.mean (sklearn.feature train_std j) == 0.
Proof.
  intros Hshape Hrun Hj.
  destruct (standardised_feature X_train X_test train_std test_std j
              Hshape Hrun Hj) as (Hne & _ & -> & Hl1 & Hl2).
  split; [done|]. split; [done|]. by apply mean_standardised.
Qed.

(** The training and test sets of [Demo], first feature. *)
Lemma standardised_training_set_is_centred_witness :
  ∃ train_std test_std,
    standardise_data (H := floor_sqrt) Demo.X_train Demo.X_test
    = Ok (train_std, test_std)
    ∧ length train_std = length (rows Demo.X_train)
    ∧ length test_std = length (rows Demo.X_test)
    ∧ sklearn.mean (sklearn.feature train_std 0) == 0.
Proof.
  eexists _, _. split; [vm_compute; reflexivity|].
  eapply (standardised_training_set_is_centred (H := floor_sqrt)
            Demo.X_train Demo.X_test).
  - repeat constructor.
  - vm_compute. reflexivity.
  - simpl. lia.
Defined.

Lemma variance_spec (l : list Q) :
  l ≠ [] →
  sklearn.variance l * nat_Q (length l)
  == Qsum (map (fun x => (x - sklearn.mean l) * (x - sklearn.mean l)) l).
Proof.
  intros Hne. unfold sklearn.variance.
  rewrite <- (mean_spec (map _ l)), length_map; [reflexivity|].
  by destruct l.
Qed.

Lemma variance_scaled (l : list Q) (s : Q) :
  l ≠ [] → ¬ s == 0 →
  sklearn.variance (map (fun x => Qred ((x - sklearn.mean l) / s)) l)
  * (s * s)
  == sklearn.variance l.
Proof.
  intros Hne Hs0.
  set (zs := map (fun x => Qred ((x - sklearn.mean l) / s)) l).
  assert (zs ≠ []) as Hzne by (subst zs; by destruct l).
  assert (0 < nat_Q (length l)) as Hpos.
  { apply nat_Q_pos. destruct l; simpl; [done|lia]. }
  pose proof (mean_standardised l s Hne) as Hmz. fold zs in Hmz.
  pose proof (variance_spec zs Hzne) as Hvz.
  pose proof (variance_spec l Hne) as Hvl.
  assert (length zs = length l) as Hlen by (subst zs; by rewrite length_map).
  rewrite Hlen in Hvz.
  assert (Qsum (map (fun z => (z - sklearn.mean zs) * (z - sklearn.mean zs)) zs)
          == Qsum (map (fun x => (x - sklearn.mean l) * (x - sklearn.mean l)) l)
             * (/ s * / s)) as Hsum.
  { rewrite <- Qsum_map_scale. subst zs. rewrite map_map.
    apply Qsum_map_proper. intros x. rewrite Hmz, Qred_correct.
    unfold Qdiv. ring. }
  rewrite Hsum, <- Hvl in Hvz.
  assert (sklearn.variance zs * (s * s) * nat_Q (length l)
          == sklearn.variance l * nat_Q (length l)) as Heq.
  { assert (sklearn.variance zs * (s * s) * nat_Q (length l)
            == sklearn.variance zs * nat_Q (length l) * (s * s)) as -> by ring.
    rewrite Hvz. field. exact Hs0. }
  apply Qmult_inj_r in Heq; [done|]. lra.
Qed.

(** X11. Standardising scales the training set, but for the features the
    scaler takes for constant. A feature whose variance is above the
    scaler's bound [n * eps * var + (n * mean * eps)^2], and of whose
    variance the square root is exact, has variance one in the
    standardised training rows. A feature whose variance is within the
    bound is centred only: it keeps its variance. *)
Theorem standardised_training_set_has_unit_variance `{Sqrt}
    (X_train X_test : DataFrame) (train_std test_std : list (list Q))
    (j : nat) :
  well_shaped X_train →
  standardise_data X_train X_test = Ok (train_std, test_std) →
  (j < length (columns X_train))%nat →
  let l := sklearn.feature (sklearn.values_of X_train) j in
  let constant :=
    sklearn.is_constant_feature (sklearn.variance l) (sklearn.mean l)
      (length (rows X_train)) in
  (constant = false →
   np_sqrt (sklearn.variance l) * np_sqrt (sklearn.variance l)
   == sklearn.variance l →
   sklearn.variance (sklearn.feature train_std j) == 1)
  ∧ (constant = true →
     sklearn.variance (sklearn.feature train_std j) == sklearn.variance l).
Proof.
  intros Hshape Hrun Hj l constant.
  destruct (standardised_feature X_train X_test train_std test_std j
              Hshape Hrun Hj) as (Hne & Hlen & -> & _ & _).
  fold l. fold constant. split.
  - intros Hc Hsqrt. rewrite Hc. cbn [sklearn.handle_zeros_in_scale].
    set (v := sklearn.variance l) in *. set (s := np_sqrt v) in *.
    assert (0 < v) as Hv.
    { subst constant. unfold sklearn.is_constant_feature in Hc.
      fold v in Hc.
      set (n := nat_Q (length (rows X_train))) in Hc.
      set (t := n * sklearn.mean l * sklearn.eps) in Hc.
      assert (¬ v <= n * sklearn.eps * v + t * t) as Hnle.
      { intros Hle. apply Qle_bool_iff in Hle. congruence. }
      pose proof (Qsquare_nonneg t) as Ht.
      assert (0 <= n) as Hn.
      { subst n. unfold nat_Q. change 0 with (inject_Z 0).
        rewrite <- Zle_Qle. lia. }
      assert (0 < sklearn.eps) as He by reflexivity.
      destruct (Qlt_le_dec 0 v) as [|Hv0]; [done|]. exfalso. apply Hnle.
      assert (0 <= n * sklearn.eps) as Hne'
        by (apply Qmult_le_0_compat; lra).
      assert (v <= 0) as Hv1 by lra.
      pose proof (Qsquare_nonneg s) as Hvar0. rewrite Hsqrt in Hvar0.
      assert (v == 0) as -> by lra. lra. }
    assert (¬ s == 0) as Hs0.
    { intros Hz. rewrite Hz in Hsqrt. lra. }
    pose proof (variance_scaled l s Hne Hs0) as Hvs.
    rewrite Hsqrt in Hvs.
    apply (Qmult_inj_r _ _ v); [lra|]. by rewrite Hvs, Qmult_1_l.
  - intros Hc. rewrite Hc. cbn [sklearn.handle_zeros_in_scale].
    assert (¬ 1 == 0) as H1 by discriminate.
    pose proof (variance_scaled l 1 Hne H1) as Hv. rewrite <- Hv. ring.
Qed.

(** The frame [Demo.X_near_constant]. Its first feature, the values 40
    and 50 of variance 25, has variance one when standardised. Its second
    feature, the values 1e16 and 1e16 + 4 of variance 4, is within the
    scaler's bound for a constant feature: it is centred to -2 and 2 and
    keeps the variance 4. *)
Lemma standardised_training_set_has_unit_variance_witness :
  ∃ train_std test_std,
    standardise_data (H := floor_sqrt) Demo.X_near_constant
      Demo.X_near_constant
    = Ok (train_std, test_std)
    ∧ sklearn.variance (sklearn.feature train_std 0) == 1
    ∧ sklearn.feature train_std 1 = [-2; 2]
    ∧ sklearn.variance (sklearn.feature train_std 1) == 4.
Proof.
  eexists _, _. split; [vm_compute; reflexivity|].
  assert (well_shaped Demo.X_near_constant) as Hshape
    by repeat constructor.
  split; [|split; [reflexivity|]].
  - eapply (standardised_training_set_has_unit_variance (H := floor_sqrt)
              Demo.X_near_constant Demo.X_near_constant _ _ 0 Hshape).
    + vm_compute. reflexivity.
    + simpl. lia.
    + vm_compute. reflexivity.
    + vm_compute. reflexivity.
  - eapply Qeq_trans.
    + eapply (standardised_training_set_has_unit_variance
                (H := floor_sqrt) Demo.X_near_constant
                Demo.X_near_constant _ _ 1 Hshape).
      * vm_compute. reflexivity.
      * simpl. lia.
      * vm_compute. reflexivity.
    + vm_compute. reflexivity.
Defined.

(** X12. [standardise_data] fails with ValueError when the training frame
    has no row or no column, when the second frame has no row, and when
    the second frame has another number of columns than the training
    frame. *)
Theorem standardising_needs_rows_and_matching_columns `{Sqrt}
    (X_train X_test : DataFrame) :
  rows X_train = [] ∨ columns X_train = [] ∨ rows X_test = []
  ∨ length (columns X_test) ≠ length (columns X_train) →
  standardise_data X_train X_test = Raise ValueError.
Proof.
  intros Hbad. unfold standardise_data, mbind, result_bind.
  destruct (sklearn.fit X_train) as [sc|e] eqn:Hfit.
  2: { unfold sklearn.fit in Hfit.
       destruct (rows X_train); [by injection Hfit as <-|].
       destruct (columns X_train); [by injection Hfit as <-|done]. }
  destruct (fit_inv _ _ Hfit) as (Hr & Hc & Hn & Hm & _).
  rewrite (transform_run sc X_train); [|done..].
  destruct Hbad as [?|[?|[Hrt|Hw]]]; [done|done| |].
  - unfold sklearn.transform. destruct (negb _); [done|]. by rewrite Hrt.
  - unfold sklearn.transform.
    destruct (bool_decide_reflect
                (columns X_test = sklearn.feature_names_in_ sc)) as [E|];
      [|done].
    exfalso. apply Hw. congruence.
Qed.

(** A test frame of two columns against the twelve of [Demo.X_train]. *)
Lemma standardising_needs_rows_and_matching_columns_witness :
  standardise_data (H := floor_sqrt) Demo.X_train Demo.X_const
  = Raise ValueError.
Proof.
  apply (standardising_needs_rows_and_matching_columns (H := floor_sqrt)
           Demo.X_train Demo.X_const).
  right. right. right. simpl. lia.
Defined.

(** ** The nearest real point *)

(** The scan keeps the least squared distance met so far and where it was
    first met. *)
Lemma nearest_from_spec (q : list Q) (pts pre : list (list Q)) (best : Q)
    (besti : nat) :
  (∃ pb, pre !! besti = Some pb ∧ best = sklearn.sqdist q pb) →
  (∀ k p, pre !! k = Some p → best <= sklearn.sqdist q p) →
  ∃ p, (pre ++ pts)
         !! (sklearn.nearest_from q best besti (length pre) pts).2 = Some p
     ∧ (sklearn.nearest_from q best besti (length pre) pts).1
       = sklearn.sqdist q p
     ∧ ∀ k p', (pre ++ pts) !! k = Some p' →
         sklearn.sqdist q p <= sklearn.sqdist q p'.
Proof.
  revert pre best besti.
  induction pts as [|y pts IH]; intros pre best besti (pb & Hb & Hbest) Hmin;
    simpl.
  - rewrite app_nil_r. exists pb. split; [done|]. split; [done|].
    intros k p' Hk. rewrite <- Hbest. by eapply Hmin.
  - replace (pre ++ y :: pts) with ((pre ++ [y]) ++ pts)
      by by rewrite <- app_assoc.
    replace (S (length pre)) with (length (pre ++ [y]))
      by (rewrite length_app; simpl; lia).
    destruct (Qlt_le_dec (sklearn.sqdist q y) best) as [Hlt|Hle].
    + apply IH.
      * exists y. split; [|done]. by rewrite lookup_app_r, Nat.sub_diag.
      * intros k p Hk. apply lookup_app_Some in Hk as [Hk|[_ Hk]].
        -- apply Qlt_le_weak, Qlt_le_trans with best; eauto.
        -- destruct (k - length pre)%nat; simpl in Hk; [|done].
           injection Hk as <-. apply Qle_refl.
    + apply IH.
      * exists pb. split; [|done]. rewrite lookup_app_l; [done|].
        by eapply lookup_lt_Some.
      * intros k p Hk. apply lookup_app_Some in Hk as [Hk|[_ Hk]]; eauto.
        destruct (k - length pre)%nat; simpl in Hk; [|done].
        by injection Hk as <-.
Qed.

Lemma kneighbors1_spec `{Sqrt} (fit_X query : list (list Q))
    (dists_idxs : list (Q * nat)) :
  sklearn.kneighbors1 fit_X query = Ok dists_idxs →
  Forall2 (fun q di =>
             ∃ p, fit_X !! di.2 = Some p
                ∧ di.1 = np_sqrt (sklearn.sqdist q p)
                ∧ ∀ k p', fit_X !! k = Some p' →
                    sklearn.sqdist q p <= sklearn.sqdist q p')
    query dists_idxs.
Proof.
  intros Hrun. apply kneighbors1_inv in Hrun as (p0 & pts & -> & _ & ->).
  apply Forall2_fmap_r, Forall_Forall2_diag, Forall_true.
  intros q. unfold compose.
  destruct (nearest_from_spec q pts [p0] (sklearn.sqdist q p0) 0)
    as (p & Hp & Hd & Hmin).
  { by exists p0. }
  { intros [|k] p' Hk; simpl in Hk; [|done].
    injection Hk as <-. apply Qle_refl. }
  change (length [p0]) with 1%nat in Hp, Hd.
  change ([p0] ++ pts) with (p0 :: pts) in Hp, Hmin.
  destruct (sklearn.nearest_from q (sklearn.sqdist q p0) 0 1 pts) as [d2 i].
  cbn [fst snd] in *. exists p. by rewrite Hd.
Qed.

(** What the nearest-neighbour cell has computed and stored when it
    returns. *)
Lemma find_nearest_real_inv `{Sqrt}
    (X_train X_test X_synthetic synth_df annotated : DataFrame) :
  well_shaped synth_df →
  find_nearest_real X_train X_test X_synthetic synth_df = Ok annotated →
  ∃ sc dists_idxs,
    sklearn.fit X_train = Ok sc
    ∧ standardise_data X_train X_test
      = Ok (map (sklearn.transform_row sc) (sklearn.values_of X_train),
            map (sklearn.transform_row sc) (sklearn.values_of X_test))
    ∧ standardise_data X_train X_synthetic
      = Ok (map (sklearn.transform_row sc) (sklearn.values_of X_train),
            map (sklearn.transform_row sc) (sklearn.values_of X_synthetic))
    ∧ sklearn.kneighbors1
        (map (sklearn.transform_row sc) (sklearn.values_of X_train)
         ++ map (sklearn.transform_row sc) (sklearn.values_of X_test))
        (map (sklearn.transform_row sc) (sklearn.values_of X_synthetic))
      = Ok dists_idxs
    ∧ length (rows annotated) = length (rows X_synthetic)
    ∧ Forall2 (fun r di =>
                 cell annotated r distance_col = Some di.1
                 ∧ cell annotated r closest_col = Some (nat_Q di.2))
        (rows annotated) dists_idxs.
Proof.
  intros Hshape. unfold find_nearest_real, mbind, result_bind.
  res_step [train_std test_std] Ha. res_step [train_std' synth_std] Hb.
  res_step dists_idxs Hdi. res_step df1 H1. intros H2.
  destruct (standardise_data_inv _ _ _ _ Ha) as (sc & Hfit & _ & _ & -> & ->).
  destruct (standardise_data_inv _ _ _ _ Hb) as (sc' & Hfit' & _ & _ & -> & ->).
  assert (sc' = sc) as -> by congruence.
  pose proof (set_column_length _ _ _ _ H1) as Hlen1.
  pose proof (set_column_length _ _ _ _ H2) as Hlen2.
  destruct (set_column_spec synth_df distance_col (map fst dists_idxs)
              Hshape Hlen1) as (df1' & H1' & Hshape1 & _ & Hkeeps1 & Hcol1).
  rewrite H1 in H1'. injection H1' as <-.
  destruct (set_column_spec df1 closest_col
              (map (fun di => nat_Q di.2) dists_idxs) Hshape1 Hlen2)
    as (df2' & H2' & _ & _ & Hkeeps2 & Hcol2).
  rewrite H2 in H2'. injection H2' as <-.
  pose proof (Forall2_length _ _ _ Hkeeps2) as Hlk2.
  rewrite !length_map in Hlen1, Hlen2.
  assert (length dists_idxs = length (rows X_synthetic)) as Hldi.
  { apply kneighbors1_inv in Hdi as (p0 & pts & _ & _ & ->).
    unfold sklearn.values_of. by rewrite !length_map. }
  exists sc, dists_idxs.
  split; [done|]. split; [done|]. split; [done|]. split; [done|].
  split; [lia|].
  apply Forall2_fmap_r in Hcol1, Hcol2.
  apply Forall2_same_length_lookup_2; [lia|].
  intros i r di Hr Hdi'. split.
  - destruct (Forall2_lookup_r _ _ _ _ _ Hkeeps2 Hr) as (r1 & Hr1 & _ & Hsame).
    rewrite Hsame.
    + eapply Forall2_lookup_lr in Hcol1; [|exact Hr1|exact Hdi']. done.
    + intros Hin. by apply list_elem_of_singleton in Hin.
  - eapply Forall2_lookup_lr in Hcol2; [|exact Hr|exact Hdi']. done.
Qed.

(** X13. The nearest-neighbour cell. Row [i] of the annotated frame gets
    the values found for row [i] of the standardised [X_synthetic]: under
    [closest_X_real_row_index] the position of a real point (training rows
    first, then test rows, both standardised on the training set) than
    which no real point is nearer to it, and under
    [distance_to_closest_real] the square root of its squared distance to
    that point. *)
Theorem stored_distance_is_to_a_nearest_real_point `{Sqrt}
    (X_train X_test X_synthetic synth_df annotated : DataFrame) :
  well_shaped synth_df →
  find_nearest_real X_train X_test X_synthetic synth_df = Ok annotated →
  ∃ train_std test_std synth_std,
    standardise_data X_train X_test = Ok (train_std, test_std)
    ∧ standardise_data X_train X_synthetic = Ok (train_std, synth_std)
    ∧ length (rows annotated) = length (rows X_synthetic)
    ∧ length synth_std = length (rows X_synthetic)
    ∧ ∀ i r q, rows annotated !! i = Some r → synth_std !! i = Some q →
        ∃ k p, (train_std ++ test_std) !! k = Some p
             ∧ cell annotated r distance_col
               = Some (np_sqrt (sklearn.sqdist q p))
             ∧ cell annotated r closest_col = Some (nat_Q k)
             ∧ ∀ p', p' ∈ train_std ++ test_std →
                 sklearn.sqdist q p <= sklearn.sqdist q p'.
Proof.
  intros Hshape Hrun.
  destruct (find_nearest_real_inv _ _ _ _ _ Hshape Hrun)
    as (sc & dists_idxs & _ & Ha & Hb & Hdi & Hlen & Hcells).
  eexists _, _, _. split; [exact Ha|]. split; [exact Hb|].
  split; [done|]. split.
  { unfold sklearn.values_of. by rewrite !length_map. }
  pose proof (kneighbors1_spec _ _ _ Hdi) as Hnn.
  intros i r q Hr Hq.
  destruct (Forall2_lookup_l _ _ _ _ _ Hnn Hq)
    as (di & Hdi' & p & Hp & Hd & Hmin).
  eapply Forall2_lookup_lr in Hcells as [Hcd Hcc]; [|exact Hr|exact Hdi'].
  exists di.2, p. split; [done|]. split; [by rewrite Hcd, Hd|].
  split; [done|].
  intros p' Hp'. apply list_elem_of_lookup in Hp' as [k Hk].
  by eapply Hmin.
Qed.

(** The two rows of [Demo.X_leak], looked up among the real rows of
    [Demo]. *)
Lemma stored_distance_is_to_a_nearest_real_point_witness :
  ∃ annotated,
    find_nearest_real (H := floor_sqrt) Demo.X_train Demo.X_test
      Demo.X_leak Demo.X_leak = Ok annotated
    ∧ ∃ train_std test_std synth_std,
        standardise_data (H := floor_sqrt) Demo.X_train Demo.X_test
        = Ok (train_std, test_std)
        ∧ standardise_data (H := floor_sqrt) Demo.X_train Demo.X_leak
          = Ok (train_std, synth_std)
        ∧ length (rows annotated) = length (rows Demo.X_leak)
        ∧ length synth_std = length (rows Demo.X_leak)
        ∧ ∀ i r q, rows annotated !! i = Some r → synth_std !! i = Some q →
            ∃ k p, (train_std ++ test_std) !! k = Some p
                 ∧ cell annotated r distance_col
                   = Some (np_sqrt (Sqrt := floor_sqrt) (sklearn.sqdist q p))
                 ∧ cell annotated r closest_col = Some (nat_Q k)
                 ∧ ∀ p', p' ∈ train_std ++ test_std →
                     sklearn.sqdist q p <= sklearn.sqdist q p'.
Proof.
  eexists. split; [vm_compute; reflexivity|].
  eapply (stored_distance_is_to_a_nearest_real_point (H := floor_sqrt)
            Demo.X_train Demo.X_test Demo.X_leak Demo.X_leak).
  - repeat constructor.
  - vm_compute. reflexivity.
Defined.

Lemma sqdist_nonneg (a b : list Q) : 0 <= sklearn.sqdist a b.
Proof.
  unfold sklearn.sqdist. apply Qsum_nonneg, Forall_lookup.
  intros i d Hd. apply lookup_zip_with_Some in Hd as (x & y & -> & _ & _).
  apply Qsquare_nonneg.
Qed.

Lemma sqdist_self (a : list Q) : sklearn.sqdist a a == 0.
Proof.
  unfold sklearn.sqdist. apply Qsum_zeros.
  intros i d Hd. apply lookup_zip_with_Some in Hd as (x & y & -> & Hx & Hy).
  assert (y = x) as -> by congruence. ring.
Qed.

(** X27. A synthetic point equal to a real one is found. If row [i] of
    [X_synthetic] has the cells of a training or test record, the
    nearest-neighbour cell stores the distance zero at row [i] of the
    annotated frame, which is below the threshold of the identity
    removal. (The square root of zero is taken to be zero.) *)
Theorem identical_raw_row_is_at_distance_zero `{Sqrt}
    (X_train X_test X_synthetic synth_df annotated : DataFrame)
    (i : nat) (raw real r : Row) :
  (∀ x, x == 0 → np_sqrt x == 0) →
  well_shaped synth_df →
  find_nearest_real X_train X_test X_synthetic synth_df = Ok annotated →
  rows X_synthetic !! i = Some raw →
  real ∈ rows X_train ++ rows X_test →
  r_cells raw = r_cells real →
  rows annotated !! i = Some r →
  ∃ d, cell annotated r distance_col = Some d
     ∧ d == 0
     ∧ d < identity_threshold.
Proof.
  intros Hsqrt Hshape Hrun Hraw Hreal Heq Hr.
  destruct (find_nearest_real_inv _ _ _ _ _ Hshape Hrun)
    as (sc & dists_idxs & _ & _ & _ & Hdi & Hlen & Hcells).
  pose proof (kneighbors1_spec _ _ _ Hdi) as Hnn.
  set (q := sklearn.transform_row sc (r_cells raw)).
  assert (map (sklearn.transform_row sc) (sklearn.values_of X_synthetic) !! i
          = Some q) as Hq.
  { unfold sklearn.values_of. by rewrite !list_lookup_fmap, Hraw. }
  destruct (Forall2_lookup_l _ _ _ _ _ Hnn Hq)
    as (di & Hdi' & p & Hp & Hd & Hmin).
  eapply Forall2_lookup_lr in Hcells as [Hcd _]; [|exact Hr|exact Hdi'].
  assert (q ∈ map (sklearn.transform_row sc) (sklearn.values_of X_train)
              ++ map (sklearn.transform_row sc) (sklearn.values_of X_test))
    as Hin.
  { unfold sklearn.values_of. rewrite <- !fmap_app.
    apply list_elem_of_fmap. exists (r_cells real). split.
    - subst q. by rewrite Heq.
    - apply list_elem_of_fmap. by exists real. }
  apply list_elem_of_lookup in Hin as [k Hk].
  pose proof (Hmin k q Hk) as Hle. rewrite sqdist_self in Hle.
  pose proof (sqdist_nonneg q p) as Hge.
  assert (sklearn.sqdist q p == 0) as Hzero by lra.
  exists di.1. split; [done|].
  assert (di.1 == 0) as Hd0 by (rewrite Hd; by apply Hsqrt).
  split; [done|]. rewrite Hd0. reflexivity.
Qed.

(** The first row of [Demo.X_leak] has the cells of the first training
    row of [Demo]. *)
Lemma identical_raw_row_is_at_distance_zero_witness :
  ∃ annotated r d,
    find_nearest_real (H := floor_sqrt) Demo.X_train Demo.X_test
      Demo.X_leak Demo.X_leak = Ok annotated
    ∧ rows annotated !! 0%nat = Some r
    ∧ cell annotated r distance_col = Some d
    ∧ d == 0
    ∧ d < identity_threshold.
Proof.
  eexists _, _. 
  assert (∀ (P : Q → Prop) (A B : Prop),
            A → B → (∃ d, P d) → ∃ d, A ∧ B ∧ P d) as Hsplit.
  { intros P A B HA HB [d Hd]. by exists d. }
  apply (Hsplit (fun d => cell _ _ distance_col = Some d ∧ d == 0
                          ∧ d < identity_threshold));
    [vm_compute; reflexivity|reflexivity|].
  eapply (identical_raw_row_is_at_distance_zero (H := floor_sqrt)
            Demo.X_train Demo.X_test Demo.X_leak Demo.X_leak _ 0
            (mkRow 14 [40; 0; 0; 1; 0; 22; 1; 0; 1; 0; 1; 0])
            (mkRow 0 [40; 0; 0; 1; 0; 22; 1; 0; 1; 0; 1; 0])).
  - intros [n d] Hx. unfold np_sqrt, floor_sqrt.
    rewrite Qred_correct. unfold Qeq in *. simpl in *.
    assert (n = 0%Z) as -> by lia. reflexivity.
  - repeat constructor.
  - vm_compute. reflexivity.
  - reflexivity.
  - apply list_elem_of_here.
  - reflexivity.
  - reflexivity.
Defined.

(** ** The removal of the closest tenth *)

Lemma insert_sorted_Permutation {A} (key : A → Q) (before : Q → Q → bool)
    (a : A) (l : list A) :
  insert_sorted key before a l ≡ₚ a :: l.
Proof.
  induction l as [|b l IH]; simpl; [done|].
  destruct (before (key b) (key a)); [|done].
  rewrite IH. apply Permutation_swap.
Qed.

Lemma sort_by_Permutation {A} (key : A → Q) (before : Q → Q → bool)
    (l : list A) :
  sort_by key before l ≡ₚ l.
Proof.
  unfold sort_by. induction l as [|a l IH]; simpl; [done|].
  by rewrite insert_sorted_Permutation, IH.
Qed.

(** [sort_values(ascending=False)] leaves no row in front of one with a
    greater key. *)
Lemma sort_by_descending {A} (key : A → Q) (l : list A) :
  StronglySorted (fun x y => key y <= key x) (sort_by key descending l).
Proof.
  unfold sort_by. induction l as [|a l IH]; simpl; [constructor|].
  revert IH. generalize (foldr (insert_sorted key descending) [] l).
  clear l. intros l Hl.
  induction l as [|b l IH]; simpl.
  - constructor; [constructor|constructor].
  - apply StronglySorted_inv in Hl as [Hl Hb].
    unfold descending at 1, Qlt_bool.
    destruct (Qle_bool (key b) (key a)) eqn:Hab; cbn [negb].
    + apply Qle_bool_iff in Hab.
      constructor; [by constructor|].
      constructor; [exact Hab|].
      eapply Forall_impl; [exact Hb|]. intros x Hx. simpl in Hx. lra.
    + assert (key a < key b) as Hlt.
      { apply Qnot_le_lt. intros Hle. apply Qle_bool_iff in Hle. congruence. }
      constructor; [by apply IH|].
      rewrite insert_sorted_Permutation. constructor; [lra|done].
Qed.

Lemma StronglySorted_app_between {A} (R : A → A → Prop) (l1 l2 : list A) :
  StronglySorted R (l1 ++ l2) → ∀ x y, x ∈ l1 → y ∈ l2 → R x y.
Proof.
  induction l1 as [|a l1 IH]; simpl; intros Hs x y Hx Hy;
    [by apply elem_of_nil in Hx|].
  apply StronglySorted_inv in Hs as [Hs Ha].
  apply elem_of_cons in Hx as [->|Hx]; [|by apply IH].
  eapply Forall_forall in Ha; [exact Ha|].
  apply elem_of_app. by right.
Qed.

Lemma number_to_keep_spec (n : nat) : number_to_keep n = (9 * n / 10)%nat.
Proof.
  unfold number_to_keep, nat_Q, proportion_to_remove.
  change (1 - (1 # 10)) with (9 # 10).
  unfold Qfloor, Qmult, inject_Z. cbn [Qnum Qden].
  change (Z.pos (1 * 10)) with 10%Z.
  apply Nat2Z.inj. rewrite Z2Nat.id by (apply Z.div_pos; lia).
  rewrite Nat2Z.inj_div, Nat2Z.inj_mul. f_equal. lia.
Qed.

(** X14. The cell that removes the points closest to the real data keeps
    nine tenths of the pool, rounded down, and drops the rest: no dropped
    record has a greater stored distance than a kept one. A pool of one
    record is left empty. The kept records are shuffled. *)
Theorem closest_tenth_is_removed (synth_df : DataFrame) (g : RandomState) :
  well_shaped synth_df →
  distance_col ∈ columns synth_df →
  ∃ out g' dropped,
    remove_closest synth_df g = Ok (out, g')
    ∧ columns out = columns synth_df
    ∧ rows out ++ dropped ≡ₚ rows synth_df
    ∧ length (rows out) = (9 * length (rows synth_df) / 10)%nat
    ∧ ∀ r r', r ∈ rows out → r' ∈ dropped →
        ∃ q q', cell synth_df r distance_col = Some q
              ∧ cell synth_df r' distance_col = Some q'
              ∧ q' <= q.
Proof.
  intros Hshape Hin.
  destruct (get_loc_elem _ _ Hin) as [p Hp].
  unfold remove_closest, sort_values_desc, mbind, result_bind.
  rewrite Hp. cbv beta iota.
  set (sorted := sort_by (distance_key p) descending (rows synth_df)).
  pose proof (sort_by_Permutation (distance_key p) descending
                (rows synth_df)) as Hperm. fold sorted in Hperm.
  pose proof (sort_by_descending (distance_key p) (rows synth_df)) as Hsorted.
  fold sorted in Hsorted.
  set (n := number_to_keep (length sorted)).
  destruct (sample_frac1_total
              (df_head (mkDataFrame (columns synth_df) sorted) n) g)
    as (out & g' & Hrun).
  exists out, g', (skipn n sorted). split; [done|].
  apply sample_frac1_Permutation in Hrun as [Hcols Hrows].
  unfold df_head in Hcols, Hrows. cbn [rows columns] in Hcols, Hrows.
  split; [done|]. split; [by rewrite Hrows, take_drop|]. split.
  - rewrite Hrows, length_take. subst n.
    rewrite number_to_keep_spec, (Permutation_length Hperm).
    assert (9 * length (rows synth_df) / 10 ≤ length (rows synth_df))%nat
      as Hle; [|lia].
    apply Nat.Div0.div_le_upper_bound. lia.
  - intros r r' Hr Hr'. rewrite Hrows in Hr.
    assert (∀ x, x ∈ sorted →
              ∃ q, cell synth_df x distance_col = Some q
                 ∧ distance_key p x = q) as Hcell.
    { intros x Hx. rewrite Hperm in Hx.
      eapply Forall_forall in Hshape; [|exact Hx]. simpl in Hshape.
      pose proof (lookup_lt_Some _ _ _ (get_loc_lookup _ _ _ Hp)) as Hlt.
      rewrite <- Hshape in Hlt.
      destruct (lookup_lt_is_Some_2 _ _ Hlt) as [q Hq].
      exists q. unfold cell, distance_key. by rewrite Hp, Hq. }
    destruct (Hcell r) as (q & Hq & Hkq).
    { by eapply (subseteq_take n). }
    destruct (Hcell r') as (q' & Hq' & Hkq').
    { by eapply (subseteq_drop n). }
    exists q, q'. split; [done|]. split; [done|].
    rewrite <- Hkq, <- Hkq'.
    rewrite <- (take_drop n sorted) in Hsorted.
    by apply (StronglySorted_app_between _ _ _ Hsorted).
Qed.

(** The cell run on the three rows of [Demo.pool]: two are kept. *)
Lemma closest_tenth_is_removed_witness :
  ∃ out g' dropped,
    remove_closest Demo.pool (Demo.gen Demo.draws) = Ok (out, g')
    ∧ columns out = columns Demo.pool
    ∧ rows out ++ dropped ≡ₚ rows Demo.pool
    ∧ length (rows out) = (9 * length (rows Demo.pool) / 10)%nat
    ∧ ∀ r r', r ∈ rows out → r' ∈ dropped →
        ∃ q q', cell Demo.pool r distance_col = Some q
              ∧ cell Demo.pool r' distance_col = Some q'
              ∧ q' <= q.
Proof.
  apply (closest_tenth_is_removed Demo.pool (Demo.gen Demo.draws)).
  - repeat constructor.
  - apply (bool_decide_unpack _). vm_compute. exact I.
Defined.

(** ** The display cell *)

Lemma show_examples_returns (n : nat) (synth_df : DataFrame)
    (g : RandomState) :
  rows synth_df ≠ [] → ∃ g', show_examples n synth_df g = Ok g'.
Proof.
  intros Hne. revert g. induction n as [|n IH]; intros g; simpl;
    [by eexists|].
  destruct (sample_returns synth_df 1 g) as (out & g1 & -> & _).
  { destruct (rows synth_df); simpl; [done|lia]. }
  simpl. apply IH.
Qed.

(** X15. The cell that shows five examples draws one record at a time
    from the filtered pool. It fails, with the ValueError of
    [sample(1)], exactly when the pool is empty; on any other pool it
    goes through. *)
Theorem display_fails_exactly_on_an_empty_pool (n : nat)
    (synth_df : DataFrame) (g : RandomState) :
  (show_examples (S n) synth_df g = Raise ValueError ↔ rows synth_df = [])
  ∧ ((∃ g', show_examples (S n) synth_df g = Ok g') ↔ rows synth_df ≠ []).
Proof.
  destruct (rows synth_df) as [|r rs] eqn:Hrows.
  - rewrite (show_examples_empty n synth_df g Hrows). split; [done|].
    split; [by intros [g' Hg']|done].
  - destruct (show_examples_returns (S n) synth_df g) as [g' Hg'].
    { by rewrite Hrows. }
    rewrite Hg'. split; [done|]. split; [done|]. intros _. by eexists.
Qed.

(** ** The division into training and test sets *)

Lemma n_test_of_spec (n : nat) : n_test_of n = ((n + 3) / 4)%nat.
Proof.
  unfold n_test_of, test_size, nat_Q, Qceiling, Qfloor, Qopp, Qmult, inject_Z.
  cbn [Qnum Qden]. change (Z.pos (4 * 1)) with 4%Z.
  rewrite Z.mul_1_l. apply Nat2Z.inj.
  rewrite Nat2Z.inj_div, Nat2Z.inj_add.
  change (Z.of_nat 3) with 3%Z. change (Z.of_nat 4) with 4%Z.
  rewrite Z2Nat.id.
  - generalize (Z.of_nat n). intros z.
    pose proof (Z.div_mod (- z) 4 ltac:(lia)).
    pose proof (Z.mod_pos_bound (- z) 4 ltac:(lia)).
    pose proof (Z.div_mod (z + 3) 4 ltac:(lia)).
    pose proof (Z.mod_pos_bound (z + 3) 4 ltac:(lia)).
    lia.
  - pose proof (Z.div_mod (- Z.of_nat n) 4 ltac:(lia)).
    pose proof (Z.mod_pos_bound (- Z.of_nat n) 4 ltac:(lia)).
    lia.
Qed.

Lemma zip_omap_lookup {A B} (l : list A) (k : list B) (ind : list nat) :
  length l = length k →
  Forall (fun i => (i < length l)%nat) ind →
  zip (omap (fun i => l !! i) ind) (omap (fun i => k !! i) ind)
  = omap (fun i => zip l k !! i) ind.
Proof.
  intros Hlen. induction 1 as [|i ind Hi _ IH]; [done|].
  destruct (lookup_lt_is_Some_2 l i Hi) as [a Ha].
  destruct (lookup_lt_is_Some_2 k i) as [b Hb]; [lia|].
  cbn [omap list_omap]. rewrite Ha, Hb.
  assert (zip l k !! i = Some (a, b)) as Hab.
  { apply lookup_zip_with_Some. by exists a, b. }
  rewrite Hab. simpl. f_equal. exact IH.
Qed.

(** The two sets that [train_test_split] makes of a permutation of the
    positions. *)
Lemma train_test_split_run (X : DataFrame) (y : list Q) (g : RandomState) :
  length y = length (rows X) →
  (2 ≤ length (rows X))%nat →
  ∃ ind_train ind_test g',
    train_test_split X y g
    = Ok (df_take X ind_train, df_take X ind_test,
          take_values y ind_train, take_values y ind_test, g')
    ∧ ind_test ++ ind_train ≡ₚ seq 0 (length (rows X))
    ∧ length ind_test = ((length (rows X) + 3) / 4)%nat.
Proof.
  intros Hlen Hn. unfold train_test_split.
  rewrite Hlen, Nat.eqb_refl. cbn [negb]. cbv zeta.
  rewrite n_test_of_spec.
  set (n := length (rows X)) in *.
  assert ((n + 3) / 4 < n)%nat as Hlt.
  { apply Nat.Div0.div_lt_upper_bound. lia. }
  destruct (n - (n + 3) / 4 =? 0)%nat eqn:Hz;
    [apply Nat.eqb_eq in Hz; lia|].
  pose proof (permutation_Permutation n g) as Hperm.
  destruct (permutation n g) as [perm g']. cbn [fst] in Hperm.
  assert (length perm = n) as Hpl.
  { rewrite (Permutation_length Hperm). apply length_seq. }
  exists (firstn (n - (n + 3) / 4) (skipn ((n + 3) / 4) perm)),
    (firstn ((n + 3) / 4) perm), g'.
  split; [done|].
  rewrite (take_ge (drop ((n + 3) / 4) perm)) by (rewrite length_drop; lia).
  rewrite take_drop. split; [done|].
  rewrite length_take. lia.
Qed.

(** X16. [train_test_split] divides the records: from two records on, it
    returns a test set of a quarter of the records, rounded up, and a
    training set of the others; every record, with its label, is in
    exactly one of the two sets. *)
Theorem train_test_split_partitions (X : DataFrame) (y : list Q)
    (g : RandomState) :
  length y = length (rows X) →
  (2 ≤ length (rows X))%nat →
  ∃ X_train X_test y_train y_test g',
    train_test_split X y g = Ok (X_train, X_test, y_train, y_test, g')
    ∧ columns X_train = columns X
    ∧ columns X_test = columns X
    ∧ length (rows X_test) = ((length (rows X) + 3) / 4)%nat
    ∧ (length (rows X_train) + length (rows X_test))%nat = length (rows X)
    ∧ length y_train = length (rows X_train)
    ∧ length y_test = length (rows X_test)
    ∧ zip (rows X_train) y_train ++ zip (rows X_test) y_test
      ≡ₚ zip (rows X) y.
Proof.
  intros Hlen Hn.
  destruct (train_test_split_run X y g Hlen Hn)
    as (ind_train & ind_test & g' & Hrun & Hperm & Hlt).
  eexists _, _, _, _, _. split; [exact Hrun|].
  split; [done|]. split; [done|].
  assert (Forall (fun i => (i < length (rows X))%nat) (ind_test ++ ind_train))
    as Hall.
  { rewrite Hperm. apply Forall_forall. intros i Hi.
    apply elem_of_seq in Hi. lia. }
  apply Forall_app in Hall as [Hte Htr].
  assert (Forall (fun i => (i < length y)%nat) ind_test) as Hte'
    by by rewrite Hlen.
  assert (Forall (fun i => (i < length y)%nat) ind_train) as Htr'
    by by rewrite Hlen.
  unfold df_take, take_values. cbn [rows].
  rewrite !omap_lookup_length by done.
  split; [done|]. split.
  { apply Permutation_length in Hperm.
    rewrite length_app, length_seq in Hperm. lia. }
  split; [done|]. split; [done|].
  rewrite !zip_omap_lookup by done.
  rewrite <- omap_app, (Permutation_app_comm ind_train), Hperm.
  assert (length (zip (rows X) y) = length (rows X)) as Hz
    by (rewrite length_zip; lia).
  rewrite <- Hz. by rewrite omap_lookup_seq.
Qed.

(** The fourteen real records of [Demo], divided. *)
Lemma train_test_split_partitions_witness :
  ∃ X_train X_test y_train y_test g',
    train_test_split
      (concat_rows Demo.X_train Demo.X_test) (Demo.y_train ++ Demo.y_test)
      (Demo.gen Demo.draws)
    = Ok (X_train, X_test, y_train, y_test, g')
    ∧ columns X_train = columns (concat_rows Demo.X_train Demo.X_test)
    ∧ columns X_test = columns (concat_rows Demo.X_train Demo.X_test)
    ∧ length (rows X_test)
      = ((length (rows (concat_rows Demo.X_train Demo.X_test)) + 3) / 4)%nat
    ∧ (length (rows X_train) + length (rows X_test))%nat
      = length (rows (concat_rows Demo.X_train Demo.X_test))
    ∧ length y_train = length (rows X_train)
    ∧ length y_test = length (rows X_test)
    ∧ zip (rows X_train) y_train ++ zip (rows X_test) y_test
      ≡ₚ zip (rows (concat_rows Demo.X_train Demo.X_test))
           (Demo.y_train ++ Demo.y_test).
Proof.
  apply (train_test_split_partitions
           (concat_rows Demo.X_train Demo.X_test)
           (Demo.y_train ++ Demo.y_test) (Demo.gen Demo.draws)).
  - reflexivity.
  - simpl. lia.
Defined.

(** X17. [train_test_split] refuses data it cannot divide: with fewer than
    two records the training set would be empty, and with as many labels
    as there are not records the inputs are inconsistent; both raise
    ValueError. *)
Theorem train_test_split_needs_two_records (X : DataFrame) (y : list Q)
    (g : RandomState) :
  (length (rows X) < 2)%nat ∨ length y ≠ length (rows X) →
  train_test_split X y g = Raise ValueError.
Proof.
  intros Hbad. unfold train_test_split.
  destruct (length y =? length (rows X))%nat eqn:Hlen; [|done].
  apply Nat.eqb_eq in Hlen. destruct Hbad as [Hn|?]; [|done].
  cbn [negb]. cbv zeta. rewrite n_test_of_spec.
  destruct (length (rows X)) as [|[|n]]; [done|done|lia].
Qed.

(** A frame of one record. *)
Lemma train_test_split_needs_two_records_witness :
  train_test_split Demo.X_no_work [0] (Demo.gen Demo.draws)
  = Raise ValueError.
Proof.
  apply (train_test_split_needs_two_records Demo.X_no_work [0]
           (Demo.gen Demo.draws)).
  left. simpl. lia.
Defined.

(** ** Features and labels *)

Lemma lookup_delete_other {A} (l : list A) (p i : nat) :
  i ≠ p →
  delete p l !! (if decide (i < p)%nat then i else pred i) = l !! i.
Proof.
  intros Hne. destruct (decide (i < p)%nat) as [Hlt|Hge].
  - by apply list_lookup_delete_lt.
  - rewrite list_lookup_delete_ge by lia. f_equal. lia.
Qed.

Lemma elem_of_delete_NoDup (l : list string) (p : nat) (c0 c : string) :
  NoDup l → l !! p = Some c0 → c ∈ delete p l ↔ c ∈ l ∧ c ≠ c0.
Proof.
  intros Hnd Hp. split.
  - intros Hc. split; [by eapply elem_of_sublist; [|apply sublist_delete]|].
    intros ->. apply list_elem_of_lookup in Hc as [j Hj].
    rewrite list_lookup_delete in Hj.
    destruct (decide (j < p)%nat) as [Hlt|Hge].
    + pose proof (NoDup_lookup _ _ _ _ Hnd Hj Hp). lia.
    + pose proof (NoDup_lookup _ _ _ _ Hnd Hj Hp). lia.
  - intros [Hc Hne]. apply list_elem_of_lookup in Hc as [i Hi].
    assert (i ≠ p) as Hip by (intros ->; congruence).
    apply list_elem_of_lookup.
    exists (if decide (i < p)%nat then i else pred i).
    by rewrite lookup_delete_other.
Qed.

(** The frame without the column at position [p]: the cells under the
    other labels stay. *)
Lemma cell_drop_column (df df' : DataFrame) (p : nat) (c0 c : string)
    (r : Row) :
  NoDup (columns df) →
  columns df !! p = Some c0 →
  columns df' = delete p (columns df) →
  c ≠ c0 →
  cell df' (mkRow (r_label r) (delete p (r_cells r))) c = cell df r c.
Proof.
  intros Hnd Hp Hcols Hne. unfold cell. rewrite Hcols. cbn [r_cells].
  assert (NoDup (delete p (columns df))) as Hnd'
    by (eapply sublist_NoDup; [exact Hnd|apply sublist_delete]).
  destruct (get_loc (columns df) c) as [i|e] eqn:Hi.
  - pose proof (get_loc_lookup _ _ _ Hi) as Hci.
    assert (i ≠ p) as Hip by (intros ->; congruence).
    rewrite (get_loc_lookup_NoDup _ c
               (if decide (i < p)%nat then i else pred i) Hnd').
    + by apply lookup_delete_other.
    + by rewrite lookup_delete_other.
  - destruct (get_loc (delete p (columns df)) c) as [i|e'] eqn:Hi'; [|done].
    exfalso. apply get_loc_lookup in Hi'.
    assert (c ∈ columns df) as Hin.
    { eapply elem_of_sublist; [|apply sublist_delete].
      by eapply list_elem_of_lookup_2. }
    destruct (get_loc_elem _ _ Hin) as [j Hj]. congruence.
Qed.

(** X18. The division into features and labels. On a frame with distinct
    column labels, [stroke] among them, [X] is the frame without the
    [stroke] column, its other columns in their order, and [y] is the
    [stroke] column: record by record, [y] holds the label and [X] every
    other cell. The label is no column of [X], so that the processing cell
    appends it as a new column. *)
Theorem division_separates_the_label (data : DataFrame) :
  NoDup (columns data) →
  well_shaped data →
  y_label ∈ columns data →
  ∃ X y,
    divide_into_X_y data = Ok (X, y)
    ∧ (y_label ∉ columns X)
    ∧ (columns X `sublist_of` columns data)
    ∧ (∀ c, c ∈ columns data → c ≠ y_label → c ∈ columns X)
    ∧ well_shaped X
    ∧ length (rows X) = length (rows data)
    ∧ length y = length (rows data)
    ∧ ∀ i r, rows data !! i = Some r →
        ∃ rx v, rows X !! i = Some rx
              ∧ y !! i = Some v
              ∧ r_label rx = r_label r
              ∧ cell data r y_label = Some v
              ∧ ∀ c, c ≠ y_label → cell X rx c = cell data r c.
Proof.
  intros Hnd Hshape Hin.
  destruct (get_loc_elem _ _ Hin) as [p Hp].
  pose proof (get_loc_lookup _ _ _ Hp) as Hcp.
  destruct (column_run data y_label p Hshape Hp) as (y & Hy & Hcells).
  unfold divide_into_X_y, drop_column, mbind, result_bind.
  rewrite Hp. cbv beta iota. rewrite Hy.
  eexists _, y. split; [done|]. cbn [columns rows].
  split.
  { intros Hc. by apply (elem_of_delete_NoDup _ _ _ _ Hnd Hcp) in Hc as [_ ?]. }
  split; [apply sublist_delete|].
  split.
  { intros c Hc Hne. by apply (elem_of_delete_NoDup _ _ _ _ Hnd Hcp). }
  split.
  { unfold well_shaped. cbn [rows columns]. apply Forall_fmap.
    eapply Forall_impl; [exact Hshape|]. intros r Hr. simpl in *.
    pose proof (lookup_lt_Some _ _ _ Hcp) as Hlt.
    rewrite !length_delete; [lia| |].
    - by apply lookup_lt_is_Some_2.
    - apply lookup_lt_is_Some_2. lia. }
  split; [by rewrite length_map|].
  split; [symmetry; by eapply Forall2_length|].
  intros i r Hr.
  destruct (Forall2_lookup_l _ _ _ _ _ Hcells Hr) as (v & Hv & Hrv).
  eexists _, v. split; [by rewrite list_lookup_fmap, Hr|].
  split; [done|]. split; [done|].
  split; [unfold cell; by rewrite Hp|].
  intros c Hne. by apply (cell_drop_column data _ p y_label c r).
Qed.

(** The division of the four records of [Demo.data], whose label column
    stands between two features. *)
Lemma division_separates_the_label_witness :
  ∃ X y,
    divide_into_X_y Demo.data = Ok (X, y)
    ∧ (y_label ∉ columns X)
    ∧ (columns X `sublist_of` columns Demo.data)
    ∧ (∀ c, c ∈ columns Demo.data → c ≠ y_label → c ∈ columns X)
    ∧ well_shaped X
    ∧ length (rows X) = length (rows Demo.data)
    ∧ length y = length (rows Demo.data)
    ∧ ∀ i r, rows Demo.data !! i = Some r →
        ∃ rx v, rows X !! i = Some rx
              ∧ y !! i = Some v
              ∧ r_label rx = r_label r
              ∧ cell Demo.data r y_label = Some v
              ∧ ∀ c, c ≠ y_label → cell X rx c = cell Demo.data r c.
Proof.
  apply (division_separates_the_label Demo.data).
  - apply (bool_decide_unpack _). vm_compute. exact I.
  - repeat constructor.
  - apply (bool_decide_unpack _). vm_compute. exact I.
Defined.

Lemma train_test_split_inv (X : DataFrame) (y : list Q) (g g' : RandomState)
    (X_train X_test : DataFrame) (y_train y_test : list Q) :
  train_test_split X y g = Ok (X_train, X_test, y_train, y_test, g') →
  length y = length (rows X) ∧ (2 ≤ length (rows X))%nat.
Proof.
  unfold train_test_split.
  destruct (length y =? length (rows X))%nat eqn:Hlen; [|done].
  apply Nat.eqb_eq in Hlen. cbn [negb]. cbv zeta. rewrite n_test_of_spec.
  destruct (length (rows X)) as [|[|n]]; [done|done|].
  intros _. split; [done|lia].
Qed.

Lemma count_label_Permutation (y y' : list Q) (c : Q) :
  y ≡ₚ y' → imblearn.count_label y c = imblearn.count_label y' c.
Proof. intros Hp. unfold imblearn.count_label. by rewrite Hp. Qed.

Lemma count_label_app (y y' : list Q) (c : Q) :
  imblearn.count_label (y ++ y') c
  = (imblearn.count_label y c + imblearn.count_label y' c)%nat.
Proof. unfold imblearn.count_label. by rewrite filter_app, length_app. Qed.

(** X19. The class counts recorded from the whole data are those of the
    training and the test set together: the division loses and repeats no
    label. These are the counts the last cells rebalance the synthetic
    data to. *)
Theorem split_preserves_class_counts (data X : DataFrame) (y : list Q)
    (g g' : RandomState) (X_train X_test : DataFrame)
    (y_train y_test : list Q) (c : Q) :
  divide_into_X_y data = Ok (X, y) →
  train_test_split X y g = Ok (X_train, X_test, y_train, y_test, g') →
  number_in_class data c = Ok (np_sum_eq (y_train ++ y_test) c)
  ∧ np_sum_eq (y_train ++ y_test) c
    = (np_sum_eq y_train c + np_sum_eq y_test c)%nat.
Proof.
  intros Hdiv Hsplit.
  assert (column data y_label = Ok y) as Hy.
  { unfold divide_into_X_y, mbind, result_bind in Hdiv.
    destruct (drop_column data y_label); [|done].
    destruct (column data y_label); [|done]. congruence. }
  destruct (train_test_split_inv _ _ _ _ _ _ _ _ Hsplit) as [Hlen Hn].
  destruct (train_test_split_run X y g Hlen Hn)
    as (ind_train & ind_test & g'' & Hrun & Hperm & _).
  rewrite Hrun in Hsplit. injection Hsplit as <- <- <- <- <-.
  unfold number_in_class, mbind, result_bind. rewrite Hy.
  unfold np_sum_eq. split; [|apply count_label_app].
  f_equal. apply count_label_Permutation.
  unfold take_values. rewrite <- omap_app, (Permutation_app_comm ind_train).
  rewrite Hperm, <- Hlen. by rewrite omap_lookup_seq.
Qed.

(** [Demo.data], divided and then split. *)
Lemma split_preserves_class_counts_witness :
  ∃ X y X_train X_test y_train y_test g',
    divide_into_X_y Demo.data = Ok (X, y)
    ∧ train_test_split X y (Demo.gen Demo.draws)
      = Ok (X_train, X_test, y_train, y_test, g')
    ∧ number_in_class Demo.data 1 = Ok (np_sum_eq (y_train ++ y_test) 1)
    ∧ np_sum_eq (y_train ++ y_test) 1
      = (np_sum_eq y_train 1 + np_sum_eq y_test 1)%nat.
Proof.
  eexists _, _, _, _, _, _, _.
  split; [vm_compute; reflexivity|]. split; [vm_compute; reflexivity|].
  eapply (split_preserves_class_counts Demo.data _ _ (Demo.gen Demo.draws)).
  - vm_compute. reflexivity.
  - vm_compute. reflexivity.
Defined.

(** ** Selecting the feature columns *)

(** X20. [df[cs]] with a list of distinct labels of the frame returns a
    frame of exactly these columns, in the order of the list, each record
    keeping its index label and its cell under every selected column:
    selecting the feature names from the final frame strips the label and
    the two annotation columns and nothing else. *)
Theorem selected_columns_keep_their_cells (df : DataFrame)
    (cs : list string) :
  well_shaped df →
  NoDup cs →
  Forall (fun c => c ∈ columns df) cs →
  ∃ out,
    getitem_cols df cs = Ok out
    ∧ columns out = cs
    ∧ well_shaped out
    ∧ length (rows out) = length (rows df)
    ∧ ∀ i r, rows df !! i = Some r →
        ∃ r', rows out !! i = Some r'
            ∧ r_label r' = r_label r
            ∧ ∀ c, c ∈ cs → cell out r' c = cell df r c.
Proof.
  intros Hshape Hnd Hin.
  destruct (get_locs_elem _ _ Hin) as [ps Hps].
  pose proof (get_locs_lt _ _ _ Hps) as Hlt.
  pose proof (get_locs_length _ _ _ Hps) as Hlen.
  unfold getitem_cols, mbind, result_bind. rewrite Hps.
  eexists. split; [done|]. cbn [columns rows]. split; [done|].
  split.
  { unfold well_shaped. cbn [rows columns]. apply Forall_fmap.
    eapply Forall_impl; [exact Hshape|]. intros r Hr. simpl in *.
    rewrite gather_length; [done|]. by rewrite Hr. }
  split; [by rewrite length_map|].
  intros i r Hr. eexists. split; [by rewrite list_lookup_fmap, Hr|].
  split; [done|]. intros c Hc.
  apply list_elem_of_lookup in Hc as [k Hk].
  apply get_locs_Forall2 in Hps.
  destruct (Forall2_lookup_l _ _ _ _ _ Hps Hk) as (p & Hp & Hloc).
  unfold cell. cbn [columns r_cells reindex_row].
  rewrite (get_loc_lookup_NoDup cs c k Hnd Hk), Hloc.
  apply gather_lookup; [|done].
  eapply Forall_lookup_1 in Hshape; [|exact Hr]. simpl in Hshape.
  by rewrite Hshape.
Qed.

(** The feature [age] selected from the annotated pool [Demo.pool]. *)
Lemma selected_columns_keep_their_cells_witness :
  ∃ out,
    getitem_cols Demo.pool ["age"] = Ok out
    ∧ columns out = ["age"]
    ∧ well_shaped out
    ∧ length (rows out) = length (rows Demo.pool)
    ∧ ∀ i r, rows Demo.pool !! i = Some r →
        ∃ r', rows out !! i = Some r'
            ∧ r_label r' = r_label r
            ∧ ∀ c, c ∈ ["age"] → cell out r' c = cell Demo.pool r c.
Proof.
  apply (selected_columns_keep_their_cells Demo.pool ["age"]).
  - repeat constructor.
  - apply (bool_decide_unpack _). vm_compute. exact I.
  - apply (bool_decide_unpack _). vm_compute. exact I.
Defined.

(** ** The class counts of the final frame *)

Lemma label_mask_pool (df : DataFrame) (c : Q) (mask : list bool) :
  label_mask df c = Ok mask →
  rows (getitem_mask df mask) = class_pool df c.
Proof.
  unfold label_mask, column, mbind, result_bind.
  destruct (get_loc (columns df) y_label) as [p|] eqn:Hp; [|done].
  destruct (collect (cell_at p) (rows df)) as [ys|] eqn:Hys; [|done].
  intros [= <-]. unfold class_pool. cbn [getitem_mask rows].
  rewrite <- mask_rows_filter. f_equal.
  revert ys Hys. induction (rows df) as [|r rs IH]; intros ys Hys.
  - simpl in Hys. by injection Hys as <-.
  - simpl in Hys. unfold mbind, result_bind in Hys.
    destruct (cell_at p r) as [q|] eqn:Hq; [|done].
    destruct (collect (cell_at p) rs) as [qs|]; [|done].
    injection Hys as <-. simpl. f_equal; [|by apply IH].
    unfold has_label, cell. rewrite Hp.
    unfold cell_at in Hq. destruct (r_cells r !! p); [|done].
    by injection Hq as ->.
Qed.

(** Whenever the rebalancing cell returns, the frame has the two class
    counts it was asked for. *)
Lemma rebalance_counts (synth_df out : DataFrame) (n1 n0 : nat)
    (g g' : RandomState) :
  rebalance synth_df n1 n0 g = Ok (out, g') →
  length (class_pool out 1) = n1
  ∧ length (class_pool out 0) = n0
  ∧ length (rows out) = (n1 + n0)%nat
  ∧ ∀ r, r ∈ rows out → r ∈ rows synth_df.
Proof.
  unfold rebalance, mbind, result_bind.
  res_step mask1 Hm1. res_step [pos g1] H1. res_step mask0 Hm0.
  res_step [neg g2] H0. intros Hrun.
  apply label_mask_pool in Hm1, Hm0.
  set (df1 := getitem_mask synth_df mask1) in *.
  set (df0 := getitem_mask synth_df mask0) in *.
  assert (n1 ≤ length (rows df1))%nat as Hle1.
  { destruct (decide (n1 ≤ length (rows df1))%nat); [done|].
    rewrite sample_raises in H1 by lia. done. }
  assert (n0 ≤ length (rows df0))%nat as Hle0.
  { destruct (decide (n0 ≤ length (rows df0))%nat); [done|].
    rewrite sample_raises in H0 by lia. done. }
  destruct (sample_returns df1 _ g Hle1)
    as (pos' & g1' & Hrun1 & Hcols1 & Hsub1 & Hlen1).
  rewrite H1 in Hrun1. injection Hrun1 as <- <-.
  destruct (sample_returns df0 _ g1 Hle0)
    as (neg' & g2' & Hrun0 & Hcols0 & Hsub0 & Hlen0).
  rewrite H0 in Hrun0. injection Hrun0 as <- <-.
  apply sample_frac1_Permutation in Hrun as [Hcols Hperm].
  cbn [concat_rows rows columns] in Hcols, Hperm.
  assert (columns out = columns synth_df) as Hcols'
    by by rewrite Hcols, Hcols1.
  assert (Forall (fun r => has_label out 1 r = true) (rows pos)) as Hpos1.
  { eapply submseteq_Forall; [exact Hsub1|]. rewrite Hm1.
    apply Forall_forall. intros r Hr.
    apply list_elem_of_filter in Hr as [Hr _].
    by rewrite (has_label_same_columns synth_df out). }
  assert (Forall (fun r => has_label out 0 r = true) (rows neg)) as Hneg0.
  { eapply submseteq_Forall; [exact Hsub0|]. rewrite Hm0.
    apply Forall_forall. intros r Hr.
    apply list_elem_of_filter in Hr as [Hr _].
    by rewrite (has_label_same_columns synth_df out). }
  split; [|split; [|split]].
  - unfold class_pool. rewrite Hperm, filter_app, length_app.
    rewrite (filter_all _ _ Hpos1), filter_none; [simpl; lia|].
    eapply Forall_impl; [exact Hneg0|]. intros r Hr.
    by rewrite (has_label_exclusive _ _ Hr).
  - unfold class_pool. rewrite Hperm, filter_app, length_app.
    rewrite (filter_all _ _ Hneg0), filter_none; [simpl; lia|].
    eapply Forall_impl; [exact Hpos1|]. intros r Hr Hr0.
    apply has_label_exclusive in Hr0. congruence.
  - rewrite Hperm, length_app. lia.
  - intros r Hr. rewrite Hperm in Hr. apply elem_of_app in Hr as [Hr|Hr].
    + eapply elem_of_submseteq in Hr; [|exact Hsub1].
      rewrite Hm1 in Hr. unfold class_pool in Hr.
      by apply list_elem_of_filter in Hr as [_ Hr].
    + eapply elem_of_submseteq in Hr; [|exact Hsub0].
      rewrite Hm0 in Hr. unfold class_pool in Hr.
      by apply list_elem_of_filter in Hr as [_ Hr].
Qed.

(** X21. Whenever the notebook runs to its end, the synthetic frame it
    leaves has the class balance of the real data: as many records
    labelled 1 as the training and test sets have together, and as many
    labelled 0; when the real labels are all 0 or 1, it has as many
    records as the real data. *)
Theorem final_frame_has_the_real_class_counts `{Sqrt} (X_train : DataFrame)
    (y_train : list Q) (X_test : DataFrame) (y_test : list Q)
    (g g' : RandomState) (synth_df : DataFrame) :
  notebook X_train y_train X_test y_test g = Ok (synth_df, g') →
  length (class_pool synth_df 1) = np_sum_eq (y_train ++ y_test) 1
  ∧ length (class_pool synth_df 0) = np_sum_eq (y_train ++ y_test) 0
  ∧ (Forall (fun v => v == 0 ∨ v == 1) (y_train ++ y_test) →
     length (rows synth_df) = length (y_train ++ y_test)).
Proof.
  unfold notebook, mbind, result_bind.
  res_step [[Xs ys] g1] H1. res_step [df1 g2] H2. res_step df2 H3.
  res_step df3 H4. res_step [df4 g3] H5. res_step g4 Hshow.
  intros H6. apply rebalance_counts in H6 as (Hc1 & Hc0 & Hlen & _).
  split; [done|]. split; [done|].
  intros Hall. rewrite Hlen. unfold np_sum_eq.
  pose proof (count_labels_total _ Hall). lia.
Qed.

(** The notebook run on the data of [Demo]. *)
Lemma final_frame_has_the_real_class_counts_witness :
  ∃ synth_df g',
    notebook (H := floor_sqrt) Demo.X_train Demo.y_train Demo.X_test
      Demo.y_test (Demo.gen Demo.draws) = Ok (synth_df, g')
    ∧ length (class_pool synth_df 1)
      = np_sum_eq (Demo.y_train ++ Demo.y_test) 1
    ∧ length (class_pool synth_df 0)
      = np_sum_eq (Demo.y_train ++ Demo.y_test) 0
    ∧ (Forall (fun v => v == 0 ∨ v == 1) (Demo.y_train ++ Demo.y_test) →
       length (rows synth_df) = length (Demo.y_train ++ Demo.y_test)).
Proof.
  eexists _, _. split; [vm_compute; reflexivity|].
  apply (final_frame_has_the_real_class_counts (H := floor_sqrt)
           Demo.X_train Demo.y_train Demo.X_test Demo.y_test
           (Demo.gen Demo.draws)
           (mkRandomState Demo.draws 325)).
  vm_compute. reflexivity.
Defined.

(** ** Accuracy *)

Lemma Qsum_hits (hits : list bool) :
  Qsum (map (fun b : bool => if b then 1 else 0) hits)
  == nat_Q (length (filter (fun b => b = true) hits)).
Proof.
  induction hits as [|b hits IH]; [reflexivity|].
  simpl map. rewrite Qsum_cons, IH, filter_cons.
  destruct b; destruct (decide _); try done.
  - simpl length. rewrite nat_Q_S. ring.
  - ring.
Qed.

Lemma nat_Q_le (n m : nat) : (n ≤ m)%nat → nat_Q n <= nat_Q m.
Proof. intros Hle. unfold nat_Q. rewrite <- Zle_Qle. lia. Qed.

Lemma nat_Q_inj (n m : nat) : nat_Q n == nat_Q m → n = m.
Proof.
  unfold nat_Q, Qeq, inject_Z. cbn [Qnum Qden]. lia.
Qed.

Lemma filter_true_all (hits : list bool) :
  length (filter (fun b => b = true) hits) = length hits →
  Forall (fun b => b = true) hits.
Proof.
  induction hits as [|b hits IH]; [constructor|].
  rewrite filter_cons. destruct (decide (b = true)) as [->|Hb]; simpl.
  - intros Hlen. constructor; [done|]. apply IH. lia.
  - intros Hlen. pose proof (length_filter (fun b => b = true) hits). lia.
Qed.

(** X22. The accuracy of the cell that calculates it is the share of
    positions at which the prediction equals the label: a value between 0
    and 1, which is 1 exactly when every prediction is right. *)
Theorem accuracy_is_the_share_of_hits (y_pred y : list Q) :
  length y_pred = length y →
  y ≠ [] →
  ∃ acc hits,
    eq_elementwise y_pred y = Ok hits
    ∧ accuracy y_pred y = Ok acc
    ∧ acc * nat_Q (length y)
      == nat_Q (length (filter (fun b => b = true) hits))
    ∧ 0 <= acc ∧ acc <= 1
    ∧ (acc == 1 ↔ Forall2 Qeq y_pred y).
Proof.
  intros Hlen Hy.
  unfold accuracy, eq_elementwise, mbind, result_bind.
  rewrite Hlen, Nat.eqb_refl. cbn [negb].
  set (hits := zip_with Qeq_bool y_pred y).
  assert (length hits = length y) as Hhl
    by (subst hits; rewrite length_zip_with; lia).
  assert (0 < nat_Q (length y)) as Hpos.
  { apply nat_Q_pos. destruct y; simpl; [done|lia]. }
  set (k := length (filter (fun b => b = true) hits)).
  assert (k ≤ length y)%nat as Hk.
  { subst k. rewrite <- Hhl. apply length_filter. }
  assert (sklearn.mean (map (fun b : bool => if b then 1 else 0) hits)
          * nat_Q (length y) == nat_Q k) as Hacc.
  { unfold sklearn.mean. rewrite Qred_correct, length_map, Hhl, Qsum_hits.
    fold k. field. lra. }
  eexists _, hits. split; [done|]. split; [done|]. split; [exact Hacc|].
  set (acc := sklearn.mean _) in *.
  pose proof (nat_Q_le 0 k ltac:(lia)) as H0. change (nat_Q 0) with 0 in H0.
  pose proof (nat_Q_le k (length y) Hk) as H1.
  split; [nra|]. split; [nra|].
  split.
  - intros Hone. rewrite Hone, Qmult_1_l in Hacc.
    apply nat_Q_inj in Hacc. subst k. rewrite <- Hhl in Hacc.
    symmetry in Hacc. apply filter_true_all in Hacc. subst hits.
    apply Forall2_same_length_lookup_2; [done|].
    intros i a b Ha Hb. apply Qeq_bool_iff.
    eapply Forall_lookup_1 in Hacc; [exact Hacc|].
    apply lookup_zip_with_Some. by exists a, b.
  - intros Hall.
    assert (k = length y) as Hky.
    { subst k. rewrite <- Hhl. f_equal. apply filter_all.
      subst hits. apply Forall_lookup. intros i b Hi.
      apply lookup_zip_with_Some in Hi as (a & c & -> & Ha & Hc).
      apply Qeq_bool_iff. by eapply Forall2_lookup_lr in Hall. }
    rewrite Hky in Hacc. nra.
Qed.

(** Three predictions out of four right. *)
Lemma accuracy_is_the_share_of_hits_witness :
  ∃ acc hits,
    eq_elementwise [0; 1; 1; 0] [0; 1; 0; 0] = Ok hits
    ∧ accuracy [0; 1; 1; 0] [0; 1; 0; 0] = Ok acc
    ∧ acc * nat_Q (length [0; 1; 0; 0])
      == nat_Q (length (filter (fun b => b = true) hits))
    ∧ 0 <= acc ∧ acc <= 1
    ∧ (acc == 1 ↔ Forall2 Qeq [0; 1; 1; 0] [0; 1; 0; 0]).
Proof.
  apply (accuracy_is_the_share_of_hits [0; 1; 1; 0] [0; 1; 0; 0]).
  - reflexivity.
  - discriminate.
Defined.

(** ** The shuffle *)

(** X23. [sample(frac=1.0)], the shuffle of the notebook, never fails, not
    even on a frame without rows; it returns the rows of the frame in
    another order, none lost and none repeated, under the same columns.
    It only reads numpy's global generator: the words of the generator
    stay as they are, and its place moves on by at least one word for
    every row but the first (a word that the masked rejection refuses is
    followed by another). *)
Theorem shuffle_is_a_permutation (df : DataFrame) (g : RandomState) :
  ∃ out g',
    sample_frac1 df g = Ok (out, g')
    ∧ columns out = columns df
    ∧ rows out ≡ₚ rows df
    ∧ rs_words g' = rs_words g
    ∧ (rs_pos g + (length (rows df) - 1) ≤ rs_pos g')%nat.
Proof.
  destruct (sample_frac1_total df g) as (out & g' & Hrun).
  exists out, g'. split; [done|].
  destruct (sample_frac1_Permutation _ _ _ _ Hrun) as [Hcols Hperm].
  split; [done|]. split; [done|].
  unfold sample_frac1 in Hrun. by apply sample_further in Hrun.
Qed.

(** ** What the identity removal keeps *)

(** X24. The identity removal is a filter on the stored distances: it
    keeps, in their order and under the same columns, exactly the records
    whose [distance_to_closest_real] is not below 0.001; a stored distance
    of exactly 0.001 is kept. *)
Theorem identity_removal_filters_on_stored_distance (synth_df : DataFrame) :
  well_shaped synth_df →
  distance_col ∈ columns synth_df →
  ∃ filtered,
    remove_identical synth_df = Ok filtered
    ∧ columns filtered = columns synth_df
    ∧ (rows filtered `sublist_of` rows synth_df)
    ∧ ∀ r, r ∈ rows filtered ↔
        r ∈ rows synth_df
        ∧ ∃ q, cell synth_df r distance_col = Some q ∧ 1 # 1000 <= q.
Proof.
  intros Hshape Hin.
  pose proof (remove_identical_spec _ Hshape Hin) as Hrun.
  eexists. split; [exact Hrun|]. split; [done|].
  split; [apply sublist_filter|].
  intros r. by apply remove_identical_survivors.
Qed.

(** The removal on [Demo.pool], whose three distances are above the
    threshold. *)
Lemma identity_removal_filters_on_stored_distance_witness :
  ∃ filtered,
    remove_identical Demo.pool = Ok filtered
    ∧ columns filtered = columns Demo.pool
    ∧ (rows filtered `sublist_of` rows Demo.pool)
    ∧ ∀ r, r ∈ rows filtered ↔
        r ∈ rows Demo.pool
        ∧ ∃ q, cell Demo.pool r distance_col = Some q ∧ 1 # 1000 <= q.
Proof.
  apply (identity_removal_filters_on_stored_distance Demo.pool).
  - repeat constructor.
  - apply (bool_decide_unpack _). vm_compute. exact I.
Defined.

(** ** The training set made of the synthetic frame *)

(** X25. The last cell takes its features and labels from the final
    synthetic frame: the feature columns only, standardised on the
    synthetic frame itself, so that each feature has mean zero there, and
    the labels of the same records in the same order. The list of feature
    columns is not empty and the test set has exactly these columns, as
    the scaler asks. *)
Theorem synthetic_training_set_is_aligned `{Sqrt} (X_col_names : list string)
    (synth_df X_test : DataFrame) :
  well_shaped synth_df →
  NoDup X_col_names →
  X_col_names ≠ [] →
  Forall (fun c => c ∈ columns synth_df) X_col_names →
  y_label ∈ columns synth_df →
  rows synth_df ≠ [] →
  rows X_test ≠ [] →
  columns X_test = X_col_names →
  ∃ X_synth_std y_synth X_test_std,
    synthetic_training_set X_col_names synth_df X_test
    = Ok (X_synth_std, y_synth, X_test_std)
    ∧ length X_synth_std = length (rows synth_df)
    ∧ length X_test_std = length (rows X_test)
    ∧ Forall2 (fun r v => cell synth_df r y_label = Some v)
        (rows synth_df) y_synth
    ∧ ∀ j, (j < length X_col_names)%nat →
        sklearn.mean (sklearn.feature X_synth_std j) == 0.
Proof.
  intros Hshape Hnd Hcne Hin Hy Hne Hte Hcols.
  destruct (get_locs_elem _ _ Hin) as [ps Hps].
  pose proof (get_locs_lt _ _ _ Hps) as Hlt.
  pose proof (get_locs_length _ _ _ Hps) as Hlen.
  destruct (get_loc_elem _ _ Hy) as [p Hp].
  destruct (column_run synth_df y_label p Hshape Hp) as (ys & Hys & Hcells).
  unfold synthetic_training_set, getitem_cols, mbind, result_bind.
  rewrite Hps. cbv beta iota. rewrite Hys.
  set (X_synth := mkDataFrame X_col_names
                    (map (reindex_row ps) (rows synth_df))).
  assert (well_shaped X_synth) as Hshape'.
  { unfold well_shaped, X_synth. cbn [rows columns]. apply Forall_fmap.
    eapply Forall_impl; [exact Hshape|]. intros r Hr. simpl in *.
    rewrite gather_length; [done|]. by rewrite Hr. }
  assert (rows X_synth ≠ []) as Hne'.
  { unfold X_synth. cbn [rows]. by destruct (rows synth_df). }
  destruct (fit_run X_synth Hne' Hcne) as (sc & Hfit).
  pose proof (standardise_data_run X_synth X_test sc Hfit Hte Hcols) as Hstd.
  rewrite Hstd. eexists _, ys, _. split; [done|].
  split.
  { unfold sklearn.values_of, X_synth. cbn [rows]. by rewrite !length_map. }
  split.
  { unfold sklearn.values_of. by rewrite !length_map. }
  split.
  { eapply Forall2_impl; [exact Hcells|]. intros r v Hv.
    unfold cell. by rewrite Hp. }
  intros j Hj.
  destruct (standardised_feature X_synth X_test _ _ j Hshape' Hstd)
    as (Hfne & _ & -> & _); [done|].
  by apply mean_standardised.
Qed.

(** The feature [age] of [Demo.pool] against the test set [Demo.X_age]. *)
Lemma synthetic_training_set_is_aligned_witness :
  ∃ X_synth_std y_synth X_test_std,
    synthetic_training_set (H := floor_sqrt) ["age"] Demo.pool Demo.X_age
    = Ok (X_synth_std, y_synth, X_test_std)
    ∧ length X_synth_std = length (rows Demo.pool)
    ∧ length X_test_std = length (rows Demo.X_age)
    ∧ Forall2 (fun r v => cell Demo.pool r y_label = Some v)
        (rows Demo.pool) y_synth
    ∧ ∀ j, (j < length ["age"])%nat →
        sklearn.mean (sklearn.feature X_synth_std j) == 0.
Proof.
  apply (synthetic_training_set_is_aligned (H := floor_sqrt)
           ["age"] Demo.pool Demo.X_age).
  - repeat constructor.
  - apply (bool_decide_unpack _). vm_compute. exact I.
  - discriminate.
  - apply (bool_decide_unpack _). vm_compute. exact I.
  - apply (bool_decide_unpack _). vm_compute. exact I.
  - discriminate.
  - discriminate.
  - reflexivity.
Defined.

(** ** SMOTE interpolates towards near neighbours *)

Lemma sort_by_ascending {A} (key : A → Q) (l : list A) :
  StronglySorted (fun x y => key x <= key y) (sort_by key ascending l).
Proof.
  unfold sort_by. induction l as [|a l IH]; simpl; [constructor|].
  revert IH. generalize (foldr (insert_sorted key ascending) [] l).
  clear l. intros l Hl.
  induction l as [|b l IH]; simpl.
  - constructor; [constructor|constructor].
  - apply StronglySorted_inv in Hl as [Hl Hb].
    unfold ascending at 1, Qlt_bool.
    destruct (Qle_bool (key a) (key b)) eqn:Hab; cbn [negb].
    + apply Qle_bool_iff in Hab.
      constructor; [by constructor|].
      constructor; [exact Hab|].
      eapply Forall_impl; [exact Hb|]. intros x Hx. simpl in Hx. lra.
    + assert (key b < key a) as Hlt.
      { apply Qnot_le_lt. intros Hle. apply Qle_bool_iff in Hle. congruence. }
      constructor; [by apply IH|].
      rewrite insert_sorted_Permutation. constructor; [lra|done].
Qed.

Lemma snd_imap_pair {A} (l : list A) (k : nat) :
  map snd (imap (fun i p => (k + i, p)%nat) l) = l.
Proof.
  revert k. induction l as [|a l IH]; intros k; [done|]. simpl. f_equal.
  rewrite <- (IH (S k)) at 2. f_equal. apply imap_ext.
  intros i x _. simpl. f_equal. lia.
Qed.

(** The neighbours [kneighbors] lists for a fitted point are positions of
    points among the [k] nearest to it. *)
Lemma kneighbors_idx_near (k : nat) (pts : list (list Q))
    (nns : list (list nat)) :
  sklearn.kneighbors_idx k pts = Ok nns →
  (k ≤ length pts)%nat
  ∧ ∀ i p, pts !! i = Some p →
      ∃ row, nns !! i = Some row
           ∧ length row = k
           ∧ ∀ j, j ∈ row →
               ∃ q, pts !! j = Some q ∧ among_nearest k pts p q.
Proof.
  unfold sklearn.kneighbors_idx.
  destruct (length pts <? k)%nat eqn:Hlt; [done|].
  apply Nat.ltb_ge in Hlt. intros [= <-]. split; [done|].
  intros i p Hp. rewrite list_lookup_fmap, Hp. cbn [option_map fmap].
  eexists. split; [reflexivity|].
  set (sorted := sort_by (fun ip : nat * list Q => sklearn.sqdist p ip.2)
                   ascending (imap (fun i p => (i, p)) pts)).
  pose proof (sort_by_Permutation
                (fun ip : nat * list Q => sklearn.sqdist p ip.2) ascending
                (imap (fun i p => (i, p)) pts)) as Hperm.
  fold sorted in Hperm.
  pose proof (sort_by_ascending
                (fun ip : nat * list Q => sklearn.sqdist p ip.2)
                (imap (fun i p => (i, p)) pts)) as Hsorted.
  fold sorted in Hsorted.
  assert (length sorted = length pts) as Hlen
    by (rewrite (Permutation_length Hperm); apply length_imap).
  split.
  { rewrite length_take, length_map. lia. }
  intros j Hj. rewrite <- fmap_take in Hj.
  apply list_elem_of_fmap in Hj as ([j' q] & -> & Hjq). simpl.
  assert ((j', q) ∈ sorted) as Hin by by eapply (subseteq_take k).
  rewrite Hperm in Hin.
  apply elem_of_lookup_imap in Hin as (j'' & q' & [= -> ->] & Hq).
  exists q'. split; [done|].
  exists (map snd (take k sorted)), (map snd (drop k sorted)).
  split; [|split; [|split]].
  - rewrite <- fmap_app, take_drop, Hperm.
    match goal with |- ?l ≡ₚ _ => replace l with pts; [done|] end.
    symmetry. exact (snd_imap_pair pts 0).
  - rewrite length_map, length_take. lia.
  - apply list_elem_of_fmap. by exists (j'', q').
  - intros a b Ha Hb.
    apply list_elem_of_fmap in Ha as ([ia a'] & -> & Ha).
    apply list_elem_of_fmap in Hb as ([ib b'] & -> & Hb).
    rewrite <- (take_drop k sorted) in Hsorted.
    exact (StronglySorted_app_between _ _ _ Hsorted _ _ Ha Hb).
Qed.

(** Every row [_make_samples] makes lies between a row of the class and
    one of the rows nearest to it in the class. *)
Lemma make_samples_near (X_class : list (list Q)) (nns : list (list nat))
    (n_samples : nat) (g : RandomState) :
  sklearn.kneighbors_idx (imblearn.k_neighbors + 1) X_class = Ok nns →
  Forall (fun v => ∃ p q step,
            p ∈ X_class
            ∧ among_nearest (imblearn.k_neighbors + 1) X_class p q
            ∧ 0 <= step ∧ step < 1
            ∧ v = imblearn.interpolate p q step)
    (imblearn.make_samples X_class (map (drop 1) nns) n_samples g).1.
Proof.
  intros Hnns.
  destruct (kneighbors_idx_near _ _ _ Hnns) as [Hk Hrows].
  unfold imblearn.k_neighbors in *.
  assert (0 < length X_class)%nat as Hpos by lia.
  unfold imblearn.make_samples, randint, uniform.
  pose proof (repeat_draw_Forall
                (fun i => (i ≤ length X_class * imblearn.k_neighbors - 1)%nat)
                (fun g => random_interval g
                            (length X_class * imblearn.k_neighbors - 1))
                n_samples g (fun g => random_interval_le g _)) as Hidx.
  destruct (repeat_draw _ n_samples g) as [idxs g1]. cbn [fst] in Hidx.
  pose proof (repeat_draw_Forall (fun t => 0 <= t ∧ t < 1) random_sample
                n_samples g1 random_sample_range) as Hsteps.
  destruct (repeat_draw random_sample n_samples g1) as [steps g2].
  cbn [fst] in *. clear g g1 g2.
  revert steps Hsteps.
  induction Hidx as [|idx idxs Hi _ IH]; intros steps Hsteps; [constructor|].
  destruct Hsteps as [|step steps [Hlo Hhi] Hsteps]; [constructor|].
  cbn [zip_with]. constructor; [|by apply IH].
  cbv zeta. unfold imblearn.k_neighbors in *.
  assert (idx / 5 < length X_class)%nat as Hrow.
  { apply Nat.Div0.div_lt_upper_bound. lia. }
  destruct (lookup_lt_is_Some_2 _ _ Hrow) as [p Hp]. rewrite Hp.
  cbn [from_option id].
  destruct (Hrows _ _ Hp) as (row & Hr & Hrl & Hnear).
  rewrite list_lookup_fmap, Hr.
  cbn [fmap option_fmap option_map from_option id].
  assert (idx mod 5 < 5)%nat as Hcol by (apply Nat.mod_upper_bound; lia).
  rewrite lookup_drop.
  destruct (lookup_lt_is_Some_2 row (1 + idx mod 5)) as [nb Hnb]; [lia|].
  rewrite Hnb. cbn [from_option id].
  destruct (Hnear nb) as (q & Hq & Hamong).
  { by eapply list_elem_of_lookup_2. }
  rewrite Hq. cbn [from_option id].
  exists p, q, step. split; [by eapply list_elem_of_lookup_2|]. done.
Qed.

Lemma over_sample_near (X : list (list Q)) (y : list Q)
    (todo : list (Q * nat)) :
  ∀ (g g' : RandomState) (X_new : list (list Q)) (y_new : list Q),
    imblearn.over_sample X y todo g = Ok (X_new, y_new, g') →
    Forall2 (fun v c =>
               ∃ p q step,
                 p ∈ imblearn.class_rows X y c
                 ∧ among_nearest (imblearn.k_neighbors + 1)
                     (imblearn.class_rows X y c) p q
                 ∧ 0 <= step ∧ step < 1
                 ∧ v = imblearn.interpolate p q step)
      X_new y_new.
Proof.
  induction todo as [|[c n] todo IH]; intros g g' X_new y_new.
  - cbn [imblearn.over_sample]. intros [= <- <- _]. constructor.
  - cbn [imblearn.over_sample]. destruct n as [|n]; [by apply IH|].
    unfold mbind, result_bind.
    destruct (sklearn.kneighbors_idx (imblearn.k_neighbors + 1)
                (imblearn.class_rows X y c)) as [nns|e] eqn:Hnns; [|done].
    pose proof (make_samples_length (imblearn.class_rows X y c)
                  (map (drop 1) nns) (S n) g) as Hms.
    pose proof (make_samples_near (imblearn.class_rows X y c) nns (S n) g
                  Hnns) as Hnear.
    destruct (imblearn.make_samples _ _ (S n) g) as [X_c g1].
    destruct (imblearn.over_sample X y todo g1) as [[[X_more y_more] g2]|e]
      eqn:Hrest; [|done].
    intros [= <- <- _]. cbn [fst] in Hms, Hnear.
    match goal with
    | |- Forall2 ?R _ _ =>
        change (Forall2 R (X_c ++ X_more) (replicate (S n) c ++ y_more))
    end.
    apply Forall2_app; [|by eapply IH].
    apply Forall2_same_length_lookup_2.
    { by rewrite length_replicate. }
    intros i v c' Hv Hc'. apply lookup_replicate in Hc' as [-> _].
    by eapply Forall_lookup_1 in Hnear.
Qed.

(** X26. What SMOTE synthesises. Every synthetic record is a point on the
    segment from a training record [p] of its class to a record [q] of
    the same class that is among the six records of the class nearest to
    [p] ([p] itself and its five nearest neighbours), at a step in
    [0, 1) from [p]; the class has at least six records. *)
Theorem smote_interpolates_towards_near_neighbours (X : DataFrame)
    (y : list Q) (number_of_samples : list nat) (g g' : RandomState)
    (X_synthetic : DataFrame) (y_synthetic : list Q) :
  make_synthetic_data_smote X y number_of_samples g
  = Ok (X_synthetic, y_synthetic, g') →
  Forall2 (fun r c =>
             ∃ p q step,
               p ∈ imblearn.class_rows (sklearn.values_of X) y c
               ∧ among_nearest 6
                   (imblearn.class_rows (sklearn.values_of X) y c) p q
               ∧ 0 <= step ∧ step < 1
               ∧ r_cells r = imblearn.interpolate p q step)
    (rows X_synthetic) y_synthetic.
Proof.
  intros Hrun.
  apply make_synthetic_data_smote_inv in Hrun
    as (s0 & s1 & X_new & _ & _ & _ & _ & _ & _ & Hover & ->).
  pose proof (over_sample_near _ _ _ _ _ _ _ Hover) as Hnear.
  cbn [rows].
  apply Forall2_same_length_lookup_2.
  { rewrite length_imap. by eapply Forall2_length. }
  intros i r c Hr Hc.
  apply list_lookup_imap_Some in Hr as (w & Hw & ->). cbn [r_cells].
  by eapply Forall2_lookup_lr in Hnear.
Qed.

(** SMOTE on the training set of [Demo], twelve rows asked per class. *)
Lemma smote_interpolates_towards_near_neighbours_witness :
  ∃ X_synthetic y_synthetic g',
    make_synthetic_data_smote Demo.X_train Demo.y_train [12; 12]%nat
      (Demo.gen Demo.draws)
    = Ok (X_synthetic, y_synthetic, g')
    ∧ Forall2 (fun r c =>
                 ∃ p q step,
                   p ∈ imblearn.class_rows (sklearn.values_of Demo.X_train)
                         Demo.y_train c
                   ∧ among_nearest 6
                       (imblearn.class_rows (sklearn.values_of Demo.X_train)
                          Demo.y_train c) p q
                   ∧ 0 <= step ∧ step < 1
                   ∧ r_cells r = imblearn.interpolate p q step)
        (rows X_synthetic) y_synthetic.
Proof.
  eexists _, _, _. split; [vm_compute; reflexivity|].
  eapply (smote_interpolates_towards_near_neighbours Demo.X_train
            Demo.y_train [12; 12]%nat (Demo.gen Demo.draws)).
  vm_compute. reflexivity.
Defined.

(** ** Where the notebook can fail *)

(** The raw pool has the shape of the training frame. *)
Lemma smote_pool_shape (X : DataFrame) (y : list Q)
    (number_of_samples : list nat) (g g' : RandomState)
    (X_synthetic : DataFrame) (y_synthetic : list Q) :
  well_shaped X →
  length (rows X) = length y →
  make_synthetic_data_smote X y number_of_samples g
  = Ok (X_synthetic, y_synthetic, g') →
  well_shaped X_synthetic
  ∧ columns X_synthetic = columns X
  ∧ length y_synthetic = length (rows X_synthetic).
Proof.
  intros Hshape Hlen Hrun.
  apply make_synthetic_data_smote_inv in Hrun
    as (s0 & s1 & X_new & _ & _ & _ & _ & _ & _ & Hover & ->).
  assert (length (sklearn.values_of X) = length y) as Hlen'
    by (unfold sklearn.values_of; by rewrite length_map).
  pose proof (over_sample_synthesized _ _ _ Hlen' _ _ _ _ Hover) as Hsyn.
  unfold well_shaped. cbn [rows columns].
  split; [|split; [done|]].
  - apply Forall_lookup. intros i r Hr.
    apply list_lookup_imap_Some in Hr as (w & Hw & ->). cbn [r_cells].
    destruct (Forall2_lookup_l _ _ _ _ _ Hsyn Hw)
      as (c & _ & p & q & step & Hp & Hq & _ & _ & ->).
    assert (∀ p0, p0 ∈ imblearn.class_rows (sklearn.values_of X) y c →
              length p0 = length (columns X)) as Hcl.
    { intros p0 Hp0. apply class_rows_elem in Hp0 as (k & v & Hk & _ & _).
      unfold sklearn.values_of in Hk. rewrite list_lookup_fmap in Hk.
      destruct (rows X !! k) as [r0|] eqn:Hr0; [|done].
      injection Hk as <-. by eapply Forall_lookup_1 in Hshape. }
    unfold imblearn.interpolate.
    rewrite length_zip_with, (Hcl p Hp), (Hcl q Hq). lia.
  - rewrite length_imap. symmetry. by eapply Forall2_length.
Qed.

Lemma find_nearest_real_returns `{Sqrt}
    (X_train X_test X_synthetic synth_df : DataFrame) :
  rows X_train ≠ [] →
  columns X_train ≠ [] →
  rows X_test ≠ [] →
  columns X_test = columns X_train →
  rows X_synthetic ≠ [] →
  columns X_synthetic = columns X_train →
  length (rows synth_df) = length (rows X_synthetic) →
  well_shaped synth_df →
  distance_col ∉ columns synth_df →
  closest_col ∉ columns synth_df →
  ∃ annotated,
    find_nearest_real X_train X_test X_synthetic synth_df = Ok annotated
    ∧ well_shaped annotated
    ∧ columns annotated = columns synth_df ++ [distance_col; closest_col]
    ∧ length (rows annotated) = length (rows synth_df).
Proof.
  intros Hne Hcne Hte Hct Hse Hcs Hlen Hshape Hd Hc.
  destruct (fit_run X_train Hne Hcne) as (sc & Hfit).
  pose proof (standardise_data_run X_train X_test sc Hfit Hte Hct) as Hstd_t.
  pose proof (standardise_data_run X_train X_synthetic sc Hfit Hse Hcs)
    as Hstd_s.
  assert (∃ dists_idxs,
            sklearn.kneighbors1
              (map (sklearn.transform_row sc) (sklearn.values_of X_train)
               ++ map (sklearn.transform_row sc) (sklearn.values_of X_test))
              (map (sklearn.transform_row sc) (sklearn.values_of X_synthetic))
            = Ok dists_idxs
            ∧ length dists_idxs = length (rows X_synthetic))
    as (dists_idxs & Hdi & Hldi).
  { destruct (kneighbors1_run
                (map (sklearn.transform_row sc) (sklearn.values_of X_train)
                 ++ map (sklearn.transform_row sc)
                      (sklearn.values_of X_test))
                (map (sklearn.transform_row sc)
                   (sklearn.values_of X_synthetic)))
      as (dists_idxs & Hdi & Hldi).
    - unfold sklearn.values_of. by destruct (rows X_train).
    - unfold sklearn.values_of. by destruct (rows X_synthetic).
    - exists dists_idxs. split; [done|].
      rewrite Hldi. unfold sklearn.values_of. by rewrite !length_map. }
  destruct (set_column_spec synth_df distance_col (map fst dists_idxs)
              Hshape) as (df1 & H1 & Hshape1 & _ & Hkeeps1 & _).
  { rewrite length_map. lia. }
  destruct (set_column_spec df1 closest_col
              (map (fun di => nat_Q di.2) dists_idxs) Hshape1)
    as (df2 & H2 & Hshape2 & _ & Hkeeps2 & _).
  { rewrite length_map. apply Forall2_length in Hkeeps1. lia. }
  assert (find_nearest_real X_train X_test X_synthetic synth_df = Ok df2)
    as Hrun.
  { unfold find_nearest_real, mbind, result_bind.
    rewrite Hstd_t, Hstd_s, Hdi, H1. exact H2. }
  exists df2. split; [done|]. split; [done|]. split.
  - by apply (find_nearest_real_columns X_train X_test X_synthetic).
  - apply Forall2_length in Hkeeps1, Hkeeps2. lia.
Qed.

Lemma remove_closest_returns (synth_df : DataFrame) (g : RandomState) :
  well_shaped synth_df →
  distance_col ∈ columns synth_df →
  ∃ out g',
    remove_closest synth_df g = Ok (out, g')
    ∧ well_shaped out
    ∧ columns out = columns synth_df
    ∧ length (rows out) = (9 * length (rows synth_df) / 10)%nat.
Proof.
  intros Hshape Hin.
  destruct (get_loc_elem _ _ Hin) as [p Hp].
  unfold remove_closest, sort_values_desc, mbind, result_bind.
  rewrite Hp. cbv beta iota.
  set (sorted := sort_by (distance_key p) descending (rows synth_df)).
  pose proof (sort_by_Permutation (distance_key p) descending
                (rows synth_df)) as Hperm. fold sorted in Hperm.
  set (n := number_to_keep (length sorted)).
  destruct (sample_frac1_total
              (df_head (mkDataFrame (columns synth_df) sorted) n) g)
    as (out & g' & Hrun).
  exists out, g'. split; [done|].
  apply sample_frac1_Permutation in Hrun as [Hcols Hrows].
  unfold df_head in Hcols, Hrows. cbn [rows columns] in Hcols, Hrows.
  split; [|split; [done|]].
  - unfold well_shaped. rewrite Hrows, Hcols.
    apply Forall_forall. intros r Hr.
    apply (subseteq_take n) in Hr. rewrite Hperm in Hr.
    by eapply Forall_forall in Hshape.
  - rewrite Hrows, length_take. subst n.
    rewrite number_to_keep_spec, (Permutation_length Hperm).
    assert (9 * length (rows synth_df) / 10 ≤ length (rows synth_df))%nat
      as Hle; [|lia].
    apply Nat.Div0.div_le_upper_bound. lia.
Qed.

(** The rebalancing cell returns when the pool has the records asked of
    each class, and raises ValueError when it has not. *)
Lemma rebalance_outcome (synth_df : DataFrame) (n1 n0 : nat)
    (g : RandomState) :
  well_shaped synth_df →
  y_label ∈ columns synth_df →
  ((n1 ≤ length (class_pool synth_df 1))%nat
   ∧ (n0 ≤ length (class_pool synth_df 0))%nat
   ∧ ∃ out g', rebalance synth_df n1 n0 g = Ok (out, g'))
  ∨ (¬ ((n1 ≤ length (class_pool synth_df 1))%nat
        ∧ (n0 ≤ length (class_pool synth_df 0))%nat)
     ∧ rebalance synth_df n1 n0 g = Raise ValueError).
Proof.
  intros Hshape Hin.
  destruct (label_mask_spec synth_df 1 Hshape Hin) as (mask1 & Hm1 & Hp1).
  destruct (label_mask_spec synth_df 0 Hshape Hin) as (mask0 & Hm0 & Hp0).
  unfold rebalance, mbind, result_bind. rewrite Hm1, Hm0.
  rewrite <- Hp1, <- Hp0.
  destruct (decide (n1 ≤ length (rows (getitem_mask synth_df mask1)))%nat)
    as [Hle1|Hgt1].
  2: { right. rewrite sample_raises by lia. split; [lia|done]. }
  destruct (sample_returns _ _ g Hle1) as (pos & g1 & -> & _).
  destruct (decide (n0 ≤ length (rows (getitem_mask synth_df mask0)))%nat)
    as [Hle0|Hgt0].
  2: { right. rewrite sample_raises by lia. split; [lia|done]. }
  destruct (sample_returns _ _ g1 Hle0) as (neg & g2 & -> & _).
  left. split; [done|]. split; [done|].
  apply sample_frac1_total.
Qed.

(** X29. On a training set of distinct feature columns, rows of the frame's
    width, labels 0 and 1 with at least six records each, a column for
    every one-hot prefix and every integer and binary feature, and a test
    set of the same columns with at least one row, every cell from the
    generation to the removal of the closest tenth returns: SMOTE returns
    the raw pool, the processing cell the processed pool, the
    nearest-neighbour cell its two columns, the identity removal and the
    removal of the closest tenth their frames. They leave a pool of at
    most nine tenths of twice the training set, and the notebook goes on
    with the display and the rebalancing of that pool. The run returns
    exactly when the pool is not empty and holds at least as many records
    of each class as the real data; otherwise it raises ValueError. *)
Theorem notebook_fails_only_for_lack_of_records `{Sqrt}
    (X_train : DataFrame) (y_train : list Q)
    (X_test : DataFrame) (y_test : list Q) (g : RandomState) :
  NoDup (columns X_train) →
  well_shaped X_train →
  length (rows X_train) = length y_train →
  Forall (fun v => v == 0 ∨ v == 1) y_train →
  (6 ≤ np_sum_eq y_train 0)%nat →
  (6 ≤ np_sum_eq y_train 1)%nat →
  Forall (fun group => group ≠ []) (one_hot_cols (columns X_train)) →
  Forall (fun c => c ∈ columns X_train) (integer_cols ++ binary_cols) →
  y_label ∉ columns X_train →
  distance_col ∉ columns X_train →
  closest_col ∉ columns X_train →
  columns X_test = columns X_train →
  rows X_test ≠ [] →
  let n1 := np_sum_eq (y_train ++ y_test) 1 in
  let n0 := np_sum_eq (y_train ++ y_test) 0 in
  ∃ X_synthetic y_synthetic g1 synth_df g2 annotated filtered pool g3,
    make_synthetic_data_smote X_train y_train (required_smote_count y_train) g
    = Ok (X_synthetic, y_synthetic, g1)
    ∧ process_raw_synthetic_data (columns X_train) X_synthetic y_synthetic g1
      = Ok (synth_df, g2)
    ∧ find_nearest_real X_train X_test X_synthetic synth_df = Ok annotated
    ∧ remove_identical annotated = Ok filtered
    ∧ remove_closest filtered g2 = Ok (pool, g3)
    ∧ notebook X_train y_train X_test y_test g
      = (g4 ← show_examples 5 pool g3; rebalance pool n1 n0 g4)
    ∧ length (rows X_synthetic) = (2 * length y_train)%nat
    ∧ rows synth_df ≠ []
    ∧ columns pool
      = columns X_train ++ [y_label; distance_col; closest_col]
    ∧ (length (rows pool) ≤ 9 * (2 * length y_train) / 10)%nat
    ∧ ((∃ out g', notebook X_train y_train X_test y_test g = Ok (out, g'))
       ↔ rows pool ≠ []
         ∧ (n1 ≤ length (class_pool pool 1))%nat
         ∧ (n0 ≤ length (class_pool pool 0))%nat)
    ∧ ((∃ out g', notebook X_train y_train X_test y_test g = Ok (out, g'))
       ∨ notebook X_train y_train X_test y_test g = Raise ValueError).
Proof.
  intros Hnd Hshape Hlen Hall Hc0 Hc1 Hgroups Hfeat Hy Hd Hc Hwidth Htest
    n1 n0.
  assert (imblearn.is_in 0 y_train = true) as H0
    by (apply count_label_pos_is_in; unfold np_sum_eq in Hc0; lia).
  assert (imblearn.is_in 1 y_train = true) as H1
    by (apply count_label_pos_is_in; unfold np_sum_eq in Hc1; lia).
  pose proof (count_labels_total y_train Hall) as Htot.
  assert (rows X_train ≠ []) as Hne.
  { intros E. rewrite E in Hlen. simpl in Hlen.
    unfold np_sum_eq in Hc0, Hc1. lia. }
  assert (columns X_train ≠ []) as Hcne.
  { intros E. rewrite E in Hfeat. apply Forall_inv in Hfeat.
    by apply elem_of_nil in Hfeat. }
  (* the generation *)
  assert (required_smote_count y_train
          = [(np_sum_eq y_train 0 * 2)%nat; (np_sum_eq y_train 1 * 2)%nat])
    as Hreq.
  { unfold required_smote_count. by rewrite (unique_counts_two _ Hall H0 H1). }
  destruct (make_synthetic_data_smote_returns X_train y_train
              (np_sum_eq y_train 0 * 2) (np_sum_eq y_train 1 * 2) g
              Hshape Hall Hne Hcne Hlen H0 H1)
    as (X_synthetic & y_synthetic & g1 & X_new & Hgen & _ & Hcols & _ & _
        & Hrows & _);
    [by right..|].
  destruct (smote_pool_shape _ _ _ _ _ _ _ Hshape Hlen Hgen)
    as (Hshape_s & _ & Hlen_s).
  assert (length (rows X_synthetic) = (2 * length y_train)%nat) as Hrows2.
  { rewrite Hrows. unfold np_sum_eq. lia. }
  assert (rows X_synthetic ≠ []) as Hne_s.
  { intros E. rewrite E in Hrows2. simpl in Hrows2.
    unfold np_sum_eq in Hc0. lia. }
  (* the processing *)
  destruct (process_steps (columns X_train) X_synthetic y_synthetic
              Hnd Hcols Hshape_s Hgroups Hfeat Hlen_s)
    as (pss & σ' & df0 & df1 & df2 & df3 & _ & _ & Hs0 & Hs1 & Hs2 & Hs3
        & _ & _ & _ & Hshape3 & _ & _ & Hcols3 & _ & _ & _ & Hlabels).
  destruct Hcols3 as [[_ Hin]|[Hcols3 _]]; [done|].
  pose proof (process_unfold (columns X_train) X_synthetic y_synthetic g1
                σ' df0 df1 df2 df3 Hs0 Hs1 Hs2 Hs3) as Hproc.
  destruct (sample_frac1_total df3 g1) as (synth_df & g2 & Hshuffle).
  rewrite Hshuffle in Hproc.
  apply sample_frac1_Permutation in Hshuffle as [Hcols_p Hrows_p].
  assert (well_shaped synth_df) as Hshape_p.
  { unfold well_shaped. rewrite Hrows_p, Hcols_p. exact Hshape3. }
  rewrite Hcols3 in Hcols_p.
  assert (length (rows synth_df) = length (rows X_synthetic)) as Hlen_p.
  { rewrite (Permutation_length Hrows_p).
    apply Forall2_length in Hlabels. lia. }
  (* the nearest real record *)
  destruct (find_nearest_real_returns X_train X_test X_synthetic synth_df)
    as (annotated & Hnear & Hshape_a & Hcols_a & Hlen_a);
    [done|done|done|done|done|done|done|done| | |].
  { rewrite Hcols_p. intros [Hi|Hi]%elem_of_app; [done|].
    apply list_elem_of_singleton in Hi. discriminate Hi. }
  { rewrite Hcols_p. intros [Hi|Hi]%elem_of_app; [done|].
    apply list_elem_of_singleton in Hi. discriminate Hi. }
  rewrite Hcols_p, <- app_assoc in Hcols_a. simpl in Hcols_a.
  (* the two removals *)
  assert (distance_col ∈ columns annotated) as Hdin.
  { rewrite Hcols_a. apply elem_of_app. right. right. left. }
  pose proof (remove_identical_spec annotated Hshape_a Hdin) as Hident.
  set (filtered := mkDataFrame (columns annotated)
         (filter (fun r => far_enough annotated r = true) (rows annotated)))
    in Hident.
  assert (well_shaped filtered) as Hshape_f.
  { unfold well_shaped, filtered. cbn [rows columns].
    apply Forall_forall. intros r [_ Hr]%list_elem_of_filter.
    by eapply Forall_forall in Hshape_a. }
  destruct (remove_closest_returns filtered g2 Hshape_f Hdin)
    as (pool & g3 & Hclosest & Hshape_o & Hcols_o & Hlen_o).
  exists X_synthetic, y_synthetic, g1, synth_df, g2, annotated, filtered,
    pool, g3.
  assert (notebook X_train y_train X_test y_test g
          = (g4 ← show_examples 5 pool g3; rebalance pool n1 n0 g4)) as Hrun.
  { unfold notebook. rewrite Hreq. unfold mbind, result_bind.
    rewrite Hgen. cbv beta iota. rewrite Hproc. cbv beta iota.
    rewrite Hnear, Hident, Hclosest. done. }
  assert (y_label ∈ columns pool) as Hyin.
  { rewrite Hcols_o. unfold filtered. cbn [columns]. rewrite Hcols_a.
    apply elem_of_app. right. left. }
  split; [by rewrite Hreq|].
  split; [exact Hproc|].
  split; [exact Hnear|].
  split; [exact Hident|].
  split; [exact Hclosest|].
  split; [exact Hrun|].
  split; [exact Hrows2|].
  split.
  { intros E. rewrite E in Hlen_p. simpl in Hlen_p.
    by destruct (rows X_synthetic). }
  split; [by rewrite Hcols_o|].
  split.
  { rewrite Hlen_o. apply Nat.Div0.div_le_mono, Nat.mul_le_mono_l.
    unfold filtered. cbn [rows].
    etrans; [apply length_filter|].
    rewrite Hlen_a, Hlen_p, Hrows2. lia. }
  rewrite Hrun. unfold mbind, result_bind.
  destruct (decide (rows pool = [])) as [Hempty|Hfull].
  { rewrite (show_examples_empty 4 pool g3 Hempty).
    split; [|by right].
    split; [by intros (out & g' & ?)|by intros [? _]]. }
  destruct (show_examples_returns 5 pool g3 Hfull) as [g4 ->].
  destruct (rebalance_outcome pool n1 n0 g4 Hshape_o Hyin)
    as [(Hle1 & Hle0 & Hok)|[Hnot Hraise]].
  - split; [|by left]. split; [done|by intros _].
  - rewrite Hraise. split; [|by right].
    split; [by intros (out & g' & ?)|]. intros (_ & Hle1 & Hle0).
    by destruct Hnot.
Qed.

(** The notebook on the data of [Demo]. *)
Lemma notebook_fails_only_for_lack_of_records_witness :
  let n1 := np_sum_eq (Demo.y_train ++ Demo.y_test) 1 in
  let n0 := np_sum_eq (Demo.y_train ++ Demo.y_test) 0 in
  ∃ X_synthetic y_synthetic g1 synth_df g2 annotated filtered pool g3,
    make_synthetic_data_smote Demo.X_train Demo.y_train
      (required_smote_count Demo.y_train) (Demo.gen Demo.draws)
    = Ok (X_synthetic, y_synthetic, g1)
    ∧ process_raw_synthetic_data (columns Demo.X_train) X_synthetic
        y_synthetic g1
      = Ok (synth_df, g2)
    ∧ find_nearest_real (H := floor_sqrt) Demo.X_train Demo.X_test
        X_synthetic synth_df
      = Ok annotated
    ∧ remove_identical annotated = Ok filtered
    ∧ remove_closest filtered g2 = Ok (pool, g3)
    ∧ notebook (H := floor_sqrt) Demo.X_train Demo.y_train Demo.X_test
        Demo.y_test (Demo.gen Demo.draws)
      = (g4 ← show_examples 5 pool g3; rebalance pool n1 n0 g4)
    ∧ length (rows X_synthetic) = (2 * length Demo.y_train)%nat
    ∧ rows synth_df ≠ []
    ∧ columns pool
      = columns Demo.X_train ++ [y_label; distance_col; closest_col]
    ∧ (length (rows pool) ≤ 9 * (2 * length Demo.y_train) / 10)%nat
    ∧ ((∃ out g', notebook (H := floor_sqrt) Demo.X_train Demo.y_train
                    Demo.X_test Demo.y_test (Demo.gen Demo.draws)
                  = Ok (out, g'))
       ↔ rows pool ≠ []
         ∧ (n1 ≤ length (class_pool pool 1))%nat
         ∧ (n0 ≤ length (class_pool pool 0))%nat)
    ∧ ((∃ out g', notebook (H := floor_sqrt) Demo.X_train Demo.y_train
                    Demo.X_test Demo.y_test (Demo.gen Demo.draws)
                  = Ok (out, g'))
       ∨ notebook (H := floor_sqrt) Demo.X_train Demo.y_train Demo.X_test
           Demo.y_test (Demo.gen Demo.draws) = Raise ValueError).
Proof.
  apply (notebook_fails_only_for_lack_of_records (H := floor_sqrt)
           Demo.X_train Demo.y_train Demo.X_test Demo.y_test
           (Demo.gen Demo.draws)).
  - apply (bool_decide_unpack _). vm_compute. exact I.
  - repeat constructor.
  - reflexivity.
  - repeat constructor; (by left) || (by right).
  - vm_compute. lia.
  - vm_compute. lia.
  - repeat constructor; discriminate.
  - apply (bool_decide_unpack _). vm_compute. exact I.
  - apply (bool_decide_unpack _). vm_compute. exact I.
  - apply (bool_decide_unpack _). vm_compute. exact I.
  - apply (bool_decide_unpack _). vm_compute. exact I.
  - reflexivity.
  - discriminate.
Defined.
